(** * MR spectroscopy animations: signal synthesis, basis fitting, phase sequencing

    A shallow embedding of the animation scripts

      - [Basis_fitting_time_domain.py]        (time-domain basis fitting)
      - [Basis_set_fiiting_Spectral_domain.py] (frequency-domain basis fitting)
      - [MRS_Animation_FID-to-Spectrum.py]    (progressive truncation of a FID)
      - [MRS_Concentration_Time_Domian.py]    (concentration from S(0))
      - [RF_Pulse_to_FID.py]                  (Bloch-sphere view of a FID)
      - [Proton_to_Concentration.py]          (amplitude and area against protons)

    Python floats are read in two arithmetics, through one interface
    ([PyFloat]): the real numbers, in which the synthesis formulas are
    exact, and IEEE binary64 (Rocq's primitive floats), which is what the
    interpreter evaluates.  Everything the scripts compute from a frame
    index with [+ - * /], comparisons and [int()] is written once over the
    interface and read in both.  [np.exp], [np.abs] of a complex number
    and the Fourier transform exist over the reals only; there the real
    numbers stand for floats that are finite, and nothing is stated about
    a computation that divides by zero or overflows.

    numpy arrays are lists; dicts are association lists in insertion
    order; a Python exception is [None]. *)

From Stdlib Require Import ZArith String List Bool Lia Floats Reals Lra.
Import ListNotations.

Set Implicit Arguments.
Set Warnings "-inexact-float".

(* ================================================================== *)
(** * Part I: definitions                                              *)
(* ================================================================== *)

(** ** Python exceptions: the option monad *)

Definition bind {A B : Type} (m : option A) (k : A -> option B) : option B :=
  match m with
  | Some a => k a
  | None => None
  end.

Declare Scope py_scope.
Delimit Scope py_scope with py.

Notation "x <- m ;; k" := (bind m (fun x => k))
  (at level 61, m at next level, right associativity) : py_scope.

(** A [for] loop over a list whose body may raise. *)
Fixpoint for_each {A S : Type} (xs : list A) (body : A -> S -> option S) (s : S)
  : option S :=
  match xs with
  | [] => Some s
  | x :: rest => bind (body x s) (for_each rest body)
  end.

(** [enumerate(xs)] *)
Fixpoint enumerate_from {A : Type} (i : Z) (xs : list A) : list (Z * A) :=
  match xs with
  | [] => []
  | x :: rest => (i, x) :: enumerate_from (i + 1) rest
  end.

Definition enumerate {A : Type} (xs : list A) : list (Z * A) := enumerate_from 0 xs.

(** ** Python floats *)

(** The operations the scripts apply to floats.  [of_int] is the implicit
    conversion of an [int] operand; [int_] is [int(x)], which truncates
    toward zero and raises on an infinity or a NaN. *)
Class PyFloat (F : Type) : Type := {
  of_int : Z -> F;
  fadd : F -> F -> F;
  fsub : F -> F -> F;
  fmul : F -> F -> F;
  fdiv : F -> F -> F;
  flt : F -> F -> bool;
  fle : F -> F -> bool;
  int_ : F -> option Z
}.

Infix "+" := fadd : py_scope.
Infix "-" := fsub : py_scope.
Infix "*" := fmul : py_scope.
Infix "/" := fdiv : py_scope.
Infix "<?" := flt : py_scope.
Infix "<=?" := fle : py_scope.

(** A decimal literal [n/d] with [d] a power of ten: the float nearest to
    the rational, which is what a correctly rounded quotient of the two
    integers gives (see [literals_binary64]). *)
Definition lit {F : Type} `{PyFloat F} (n d : Z) : F := (of_int n / of_int d)%py.

(** *** Real arithmetic *)

Definition R_int (x : R) : Z :=
  if Rle_dec 0 x then Int_part x else (- Int_part (- x))%Z.

#[export] Instance R_float : PyFloat R := {
  of_int := IZR;
  fadd := Rplus;
  fsub := Rminus;
  fmul := Rmult;
  fdiv := Rdiv;
  flt := fun x y => if Rlt_dec x y then true else false;
  fle := fun x y => if Rle_dec x y then true else false;
  int_ := fun x => Some (R_int x)
}.

(** *** IEEE binary64 *)

Definition b64_of_int (z : Z) : float :=
  SF2Prim (binary_normalize prec emax z 0 false).

Definition b64_int (x : float) : option Z :=
  match Prim2SF x with
  | S754_zero _ => Some 0%Z
  | S754_finite s m e =>
      Some (cond_Zopp s (if (0 <=? e)%Z then Z.shiftl (Zpos m) e
                         else Z.shiftr (Zpos m) (- e)))
  | S754_infinity _ => None
  | S754_nan => None
  end.

#[export] Instance b64_float : PyFloat float := {
  of_int := b64_of_int;
  fadd := PrimFloat.add;
  fsub := PrimFloat.sub;
  fmul := PrimFloat.mul;
  fdiv := PrimFloat.div;
  flt := PrimFloat.ltb;
  fle := PrimFloat.leb;
  int_ := b64_int
}.

(** ** The phase sequencer: what [update] computes from the frame index *)

Inductive Phase : Type :=
  | REVEAL_COMPONENTS
  | SHOW_SUM
  | SHOW_BASIS
  | SCALE_BASIS
  | SHOW_FIT.

Section Sequencer.
Context {F : Type} `{PyFloat F}.

(** [phase = frame/frames] *)
Definition progress (frames frame : Z) : F := (of_int frame / of_int frames)%py.

(** The conditions of the five [if] statements of [update], in order. *)
Definition guard (ph : Phase) (phase : F) : bool :=
  match ph with
  | REVEAL_COMPONENTS => (phase <? lit 3 10)%py
  | SHOW_SUM => (lit 3 10 <=? phase)%py && (phase <? lit 45 100)%py
  | SHOW_BASIS => (lit 45 100 <=? phase)%py && (phase <? lit 65 100)%py
  | SCALE_BASIS => (lit 65 100 <=? phase)%py && (phase <? lit 9 10)%py
  | SHOW_FIT => (lit 9 10 <=? phase)%py
  end.

Definition all_phases : list Phase :=
  [REVEAL_COMPONENTS; SHOW_SUM; SHOW_BASIS; SCALE_BASIS; SHOW_FIT].

(** The blocks [update] runs at a given progress fraction. *)
Definition active_phases (phase : F) : list Phase :=
  filter (fun ph => guard ph phase) all_phases.

(** The partition of the progress fraction as the specification words it:
    [[0,0.30)], [[0.30,0.45)], [[0.45,0.65)], [[0.65,0.90)], [[0.90,1)]. *)
Definition phase_at (p : F) : Phase :=
  if (p <? lit 3 10)%py then REVEAL_COMPONENTS
  else if (p <? lit 45 100)%py then SHOW_SUM
  else if (p <? lit 65 100)%py then SHOW_BASIS
  else if (p <? lit 9 10)%py then SCALE_BASIS
  else SHOW_FIT.

(** [k = int((phase/0.3)*len(molecules))] *)
Definition reveal_index (phase : F) (n : Z) : option Z :=
  int_ ((phase / lit 3 10) * of_int n)%py.

(** [s = (phase-0.65)/0.25] *)
Definition scale_factor (phase : F) : F := ((phase - lit 65 100) / lit 25 100)%py.

(** [idx = int((frame/frames)*N)] *)
Definition truncation_index (frames N frame : Z) : option Z :=
  int_ (progress frames frame * of_int N)%py.

End Sequencer.

(** The same partition of [frame/frames] decided in integers, without
    any rounding: [frame/frames < 3/10] iff [10*frame < 3*frames], and so
    on. *)
Definition exact_phase (frames frame : Z) : Phase :=
  if (10 * frame <? 3 * frames)%Z then REVEAL_COMPONENTS
  else if (100 * frame <? 45 * frames)%Z then SHOW_SUM
  else if (100 * frame <? 65 * frames)%Z then SHOW_BASIS
  else if (10 * frame <? 9 * frames)%Z then SCALE_BASIS
  else SHOW_FIT.

Definition Phase_eqb (a b : Phase) : bool :=
  match a, b with
  | REVEAL_COMPONENTS, REVEAL_COMPONENTS
  | SHOW_SUM, SHOW_SUM
  | SHOW_BASIS, SHOW_BASIS
  | SCALE_BASIS, SCALE_BASIS
  | SHOW_FIT, SHOW_FIT => true
  | _, _ => false
  end.

(** ** Dictionaries (insertion-ordered, unique keys) *)

Definition dict (V : Type) : Type := list (string * V).

Fixpoint dict_get {V : Type} (d : dict V) (k : string) : option V :=
  match d with
  | [] => None
  | (k', v) :: rest => if String.eqb k' k then Some v else dict_get rest k
  end.

(** [d[k] = v]: overwrites in place, a new key goes last. *)
Fixpoint dict_set {V : Type} (d : dict V) (k : string) (v : V) : dict V :=
  match d with
  | [] => [(k, v)]
  | (k', v') :: rest =>
      if String.eqb k' k then (k', v) :: rest else (k', v') :: dict_set rest k v
  end.

(** [d[k].method(...)]: the object stored under [k] is changed; [KeyError]
    when [k] is absent. *)
Fixpoint dict_modify {V : Type} (d : dict V) (k : string) (f : V -> V)
  : option (dict V) :=
  match d with
  | [] => None
  | (k', v) :: rest =>
      if String.eqb k' k then Some ((k', f v) :: rest)
      else option_map (cons (k', v)) (dict_modify rest k f)
  end.

Definition keys {V : Type} (d : dict V) : list string := map fst d.
Definition values {V : Type} (d : dict V) : list V := map snd d.

(** Each key of a dict occurs once. *)
Definition is_dict {V : Type} (d : dict V) : Prop := NoDup (keys d).

(** A dict display [{k1: v1, ...}] and a comprehension [{n: e for n in ks}]. *)
Definition dict_of_list {V : Type} (kvs : list (string * V)) : dict V :=
  fold_left (fun d kv => dict_set d (fst kv) (snd kv)) kvs [].

Definition dict_for {V : Type} (ks : list string) (e : string -> V) : dict V :=
  dict_of_list (map (fun n => (n, e n)) ks).

(** ** numpy arrays (one-dimensional) *)

(** Elementwise binary operation with numpy's broadcasting: equal
    lengths, or one operand of length one; [ValueError] otherwise. *)
Fixpoint zip_with {A B E : Type} (f : A -> B -> E) (a : list A) (b : list B) : list E :=
  match a, b with
  | x :: a', y :: b' => f x y :: zip_with f a' b'
  | _, _ => []
  end.

Definition broadcast {A B E : Type} (f : A -> B -> E) (a : list A) (b : list B)
  : option (list E) :=
  if Nat.eqb (length a) (length b) then Some (zip_with f a b)
  else match a, b with
       | [x], _ => Some (map (f x) b)
       | _, [y] => Some (map (fun x => f x y) a)
       | _, _ => None
       end.

(** [a[:idx]] *)
Definition slice_to {A : Type} (a : list A) (idx : Z) : list A :=
  if (0 <=? idx)%Z then firstn (Z.to_nat idx) a
  else firstn (length a - Z.to_nat (- idx)) a.

(** The element types of the arrays: [float64] (spectra) and
    [complex128] (FIDs).  A Python scalar operand is converted to the
    element type first. *)
Class Dtype (F C : Type) : Type := {
  c_of_float : F -> C;
  c_add : C -> C -> C;
  c_mul : C -> C -> C;
  c_real : C -> F
}.

#[export] Instance float64 {F : Type} `{PyFloat F} : Dtype F F := {
  c_of_float := fun x => x;
  c_add := fadd;
  c_mul := fmul;
  c_real := fun x => x
}.

#[export] Instance complex128 {F : Type} `{PyFloat F} : Dtype F (F * F) := {
  c_of_float := fun x => (x, of_int 0);
  c_add := fun a b => (fst a + fst b, snd a + snd b)%py;
  c_mul := fun a b => (fst a * fst b - snd a * snd b,
                       fst a * snd b + snd a * fst b)%py;
  c_real := fst
}.

Section Arrays.
Context {F C : Type} `{PyFloat F} `{Dtype F C}.

(** [a * n] and [a * x] for a Python [int] and [float]. *)
Definition times_int (a : list C) (n : Z) : list C :=
  map (fun z => c_mul z (c_of_float (of_int n))) a.

Definition times_float (a : list C) (x : F) : list C :=
  map (fun z => c_mul z (c_of_float x)) a.

(** [np.real(a)] *)
Definition np_real (a : list C) : list F := map c_real a.

(** The builtin [sum(arrays)]: starts from the int [0], kept here as the
    array [[0]], which broadcasts as the scalar does. *)
Fixpoint sum_from (acc : list C) (arrays : list (list C)) : option (list C) :=
  match arrays with
  | [] => Some acc
  | a :: rest => bind (broadcast c_add acc a) (fun acc' => sum_from acc' rest)
  end.

Definition py_sum (arrays : list (list C)) : option (list C) :=
  sum_from [c_of_float (of_int 0)] arrays.

(** [np.isnan], through the comparison that only a NaN fails. *)
Definition is_nan (x : F) : bool := negb (x <=? x)%py.

(** [np.isfinite]: [x - x] is zero for a finite float, and a NaN for an
    infinity or a NaN. *)
Definition is_finite (x : F) : bool :=
  let d := (x - x)%py in andb (d <=? of_int 0)%py (of_int 0 <=? d)%py.

(** [ax.set_ylim(bottom, top)]: matplotlib raises [ValueError] ("Axis
    limits cannot be NaN or Inf") unless both limits are finite. *)
Definition set_ylim (bottom top : F) : option unit :=
  if andb (is_finite bottom) (is_finite top) then Some tt else None.

(** [np.maximum]: a NaN wins. *)
Definition np_maximum (m x : F) : F :=
  if is_nan m then m else if is_nan x then x else if (m <? x)%py then x else m.

(** [a.max()] and [np.argmax(a)]; both raise on an empty array. *)
Definition np_max (a : list F) : option F :=
  match a with
  | [] => None
  | x :: rest => Some (fold_left np_maximum rest x)
  end.

Fixpoint argmax_from (best : Z) (m : F) (i : Z) (a : list F) : Z :=
  match a with
  | [] => best
  | x :: rest =>
      if is_nan m then best
      else if is_nan x || (m <? x)%py then argmax_from i x (i + 1) rest
      else argmax_from best m (i + 1) rest
  end.

Definition np_argmax (a : list F) : option Z :=
  match a with
  | [] => None
  | x :: rest => Some (argmax_from 0 x 1 rest)
  end.

(** [a[i]] for [i >= 0]; [IndexError] past the end. *)
Definition item {A : Type} (a : list A) (i : Z) : option A :=
  if (0 <=? i)%Z then nth_error a (Z.to_nat i)
  else if (- i <=? Z.of_nat (length a))%Z then nth_error a (length a - Z.to_nat (- i))
  else None.

(** [a[i] = v] *)
Fixpoint replace_nth {A : Type} (a : list A) (n : nat) (v : A) : list A :=
  match a, n with
  | [], _ => []
  | _ :: rest, O => v :: rest
  | x :: rest, S n' => x :: replace_nth rest n' v
  end.

Definition set_item {A : Type} (a : list A) (i : Z) (v : A) : option (list A) :=
  if (0 <=? i)%Z && (i <? Z.of_nat (length a))%Z then Some (replace_nth a (Z.to_nat i) v)
  else if (i <? 0)%Z && (- i <=? Z.of_nat (length a))%Z
       then Some (replace_nth a (length a - Z.to_nat (- i)) v)
       else None.

(** [np.arange(n)] *)
Definition arange (n : Z) : list Z := map Z.of_nat (seq 0 (Z.to_nat n)).

#[global] Arguments arange : simpl never.

(** [np.arange(N)/BW] *)
Definition time_axis (BW N : Z) : list F :=
  map (fun k => (of_int k / of_int BW)%py) (arange N).

(** [np.linspace(start, stop, num)], as numpy computes it: with
    [div = num - 1] and [delta = stop - start], the samples are
    [arange(num) * (delta/div) + start] (or [arange(num)/div * delta + start]
    when the step is zero, [arange(num) * delta + start] when [div] is), and
    the last one is then set to [stop]. *)
Definition linspace (start stop : F) (num : Z) : list F :=
  let div := (num - 1)%Z in
  let delta := (stop - start)%py in
  let step := (delta / of_int div)%py in
  let step_is_zero := (step <=? of_int 0)%py && (of_int 0 <=? step)%py in
  map (fun i => if (1 <? num)%Z && (i =? num - 1)%Z then stop
                else if (0 <? div)%Z
                     then if step_is_zero then (of_int i / of_int div * delta + start)%py
                          else (of_int i * step + start)%py
                     else (of_int i * delta + start)%py)
      (arange num).

(** [np.zeros(n)], [np.zeros_like(a)] *)
Definition zeros (n : Z) : list C := map (fun _ => c_of_float (of_int 0)) (arange n).
Definition zeros_like {A : Type} (a : list A) : list C :=
  map (fun _ => c_of_float (of_int 0)) a.

(** [a[:idx] = b]: the shapes must agree, a single value is repeated. *)
Definition set_slice_to (a : list C) (idx : Z) (b : list C) : option (list C) :=
  let k := length (slice_to a idx) in
  if Nat.eqb (length b) k then Some (b ++ skipn k a)
  else match b with
       | [x] => Some (repeat x k ++ skipn k a)
       | _ => None
       end.

End Arrays.

(** ** The two basis-fitting animations *)

(** Line and text artists, as far as [update] writes to them. *)
Record Line (F : Type) : Type := { xdata : list F; ydata : list F }.

Inductive Piece : Type :=
  | Str (s : string)      (* literal text, or [{name}] *)
  | Int (n : Z)           (* [{conc}] *)
  | Fixed1 (n : Z)        (* [{conc:.1f}] *)
  | Newline.

Record Label (F : Type) : Type := { position : F * F; text : list Piece }.

(** What the two scripts do differently: the record stored per molecule
    and how its basis is derived in the build loop, the text of a
    revealed species and where its label goes. *)
Record Script (F C D : Type) : Type := {
  conc_of : D -> Z;
  basis_of : D -> option (list C);
  real_text : string -> D -> list Piece;
  anchor : list F -> Z -> list F -> option (F * F)
}.

Section Animation.
Context {F C D : Type} `{PyFloat F} `{Dtype F C}.
Variable script : Script F C D.
Variable frames : Z.

(** The arrays computed before the animation starts. [axis] is [t] in the
    time-domain script and [freq] in the spectral one. *)
Record Signals : Type := {
  axis : list F;
  molecules : dict D;
  real_fids : dict (list C);
  basis_fids : dict (list C);
  real_sum : list C
}.

Record Artists : Type := {
  black_lines : dict (Line F);
  red_lines : dict (Line F);
  sum_black : Line F;
  sum_red : Line F;
  labels_real : dict (Label F);
  labels_basis : dict (Label F)
}.

Record World : Type := { signals : Signals; artists : Artists }.

(** *** BUILD REAL + BASIS *)

Definition build_step (item : string * D) (acc : dict (list C) * dict (list C))
  : option (dict (list C) * dict (list C)) :=
  let '(name, data) := item in
  let '(real, basis) := acc in
  (basis_ <- basis_of script data ;;
   let real_ := times_int basis_ (conc_of script data) in
   Some (dict_set real name real_, dict_set basis name basis_))%py.

Definition build (axis_ : list F) (molecules_ : dict D) : option Signals :=
  (acc <- for_each molecules_ build_step ([], []) ;;
   total <- py_sum (values (fst acc)) ;;
   Some {| axis := axis_; molecules := molecules_;
           real_fids := fst acc; basis_fids := snd acc; real_sum := total |})%py.

(** *** FIGURE *)

Definition empty_line : Line F := {| xdata := []; ydata := [] |}.
Definition empty_label : Label F := {| position := (of_int 0, of_int 0); text := [] |}.

Definition figure (sg : Signals) : World :=
  let names := keys (molecules sg) in
  {| signals := sg;
     artists := {| black_lines := dict_for names (fun _ => empty_line);
                   red_lines := dict_for names (fun _ => empty_line);
                   sum_black := empty_line;
                   sum_red := empty_line;
                   labels_real := dict_for names (fun _ => empty_label);
                   labels_basis := dict_for names (fun _ => empty_label) |} |}.

(** *** Setters *)

Definition set_data (x y : list F) (_ : Line F) : Line F := {| xdata := x; ydata := y |}.
Definition set_position (p : F * F) (l : Label F) : Label F :=
  {| position := p; text := text l |}.
Definition set_text (txt : list Piece) (l : Label F) : Label F :=
  {| position := position l; text := txt |}.

Definition with_artists (w : World) (a : Artists) : World :=
  {| signals := signals w; artists := a |}.

Definition black_line_do (name : string) (f : Line F -> Line F) (w : World) : option World :=
  let a := artists w in
  option_map (fun d => with_artists w
    {| black_lines := d; red_lines := red_lines a; sum_black := sum_black a;
       sum_red := sum_red a; labels_real := labels_real a;
       labels_basis := labels_basis a |}) (dict_modify (black_lines a) name f).

Definition red_line_do (name : string) (f : Line F -> Line F) (w : World) : option World :=
  let a := artists w in
  option_map (fun d => with_artists w
    {| black_lines := black_lines a; red_lines := d; sum_black := sum_black a;
       sum_red := sum_red a; labels_real := labels_real a;
       labels_basis := labels_basis a |}) (dict_modify (red_lines a) name f).

Definition label_real_do (name : string) (f : Label F -> Label F) (w : World) : option World :=
  let a := artists w in
  option_map (fun d => with_artists w
    {| black_lines := black_lines a; red_lines := red_lines a; sum_black := sum_black a;
       sum_red := sum_red a; labels_real := d;
       labels_basis := labels_basis a |}) (dict_modify (labels_real a) name f).

Definition label_basis_do (name : string) (f : Label F -> Label F) (w : World) : option World :=
  let a := artists w in
  option_map (fun d => with_artists w
    {| black_lines := black_lines a; red_lines := red_lines a; sum_black := sum_black a;
       sum_red := sum_red a; labels_real := labels_real a;
       labels_basis := d |}) (dict_modify (labels_basis a) name f).

Definition sum_black_do (f : Line F -> Line F) (w : World) : World :=
  let a := artists w in
  with_artists w
    {| black_lines := black_lines a; red_lines := red_lines a; sum_black := f (sum_black a);
       sum_red := sum_red a; labels_real := labels_real a;
       labels_basis := labels_basis a |}.

Definition sum_red_do (f : Line F -> Line F) (w : World) : World :=
  let a := artists w in
  with_artists w
    {| black_lines := black_lines a; red_lines := red_lines a; sum_black := sum_black a;
       sum_red := f (sum_red a); labels_real := labels_real a;
       labels_basis := labels_basis a |}.

(** *** UPDATE *)

(** PHASE 1: the body of the loop for one [(i, (name, data))]. *)
Definition reveal_one (k : Z) (entry : Z * (string * D)) (w : World) : option World :=
  let '(i, (name, data)) := entry in
  if (i <=? k)%Z then
    (fid <- dict_get (real_fids (signals w)) name ;;
     let y := np_real fid in
     w <- black_line_do name (set_data (axis (signals w)) y) w ;;
     pos <- anchor script (axis (signals w)) i y ;;
     w <- label_real_do name (set_position pos) w ;;
     label_real_do name (set_text (real_text script name data)) w)%py
  else Some w.

Definition reveal_components (phase : F) (w : World) : option World :=
  (k <- reveal_index phase (Z.of_nat (length (molecules (signals w)))) ;;
   for_each (enumerate (molecules (signals w))) (reveal_one k) w)%py.

(** PHASE 2 *)
Definition hide_one (n : string) (w : World) : option World :=
  (w <- black_line_do n (set_data [] []) w ;;
   label_real_do n (set_text []) w)%py.

Definition show_sum (w : World) : option World :=
  let w := sum_black_do (set_data (axis (signals w)) (np_real (real_sum (signals w)))) w in
  for_each (keys (molecules (signals w))) hide_one w.

(** PHASE 3 *)
Definition basis_one (entry : Z * (string * D)) (w : World) : option World :=
  let '(i, (name, data)) := entry in
  (basis <- dict_get (basis_fids (signals w)) name ;;
   let y := np_real basis in
   w <- red_line_do name (set_data (axis (signals w)) y) w ;;
   pos <- anchor script (axis (signals w)) i y ;;
   w <- label_basis_do name (set_position pos) w ;;
   label_basis_do name (set_text [Str "1 AU"]) w)%py.

Definition show_basis (w : World) : option World :=
  for_each (enumerate (molecules (signals w))) basis_one w.

(** PHASE 4 *)
Definition scaled_basis (basis : list C) (c : Z) (s : F) : list F :=
  np_real (times_float (times_int basis c) s).

Definition scale_one (s : F) (entry : Z * (string * D)) (w : World) : option World :=
  let '(i, (name, data)) := entry in
  (basis <- dict_get (basis_fids (signals w)) name ;;
   let y := scaled_basis basis (conc_of script data) s in
   w <- red_line_do name (set_data (axis (signals w)) y) w ;;
   pos <- anchor script (axis (signals w)) i y ;;
   w <- label_basis_do name (set_position pos) w ;;
   label_basis_do name (set_text [Fixed1 (conc_of script data); Str " AU"]) w)%py.

Definition scale_basis (phase : F) (w : World) : option World :=
  let s := scale_factor phase in
  for_each (enumerate (molecules (signals w))) (scale_one s) w.

(** PHASE 5 *)
Fixpoint fitted_terms (sg : Signals) (names : list string) : option (list (list C)) :=
  match names with
  | [] => Some []
  | n :: rest =>
      (basis <- dict_get (basis_fids sg) n ;;
       data <- dict_get (molecules sg) n ;;
       terms <- fitted_terms sg rest ;;
       Some (times_int basis (conc_of script data) :: terms))%py
  end.

Definition fitted (sg : Signals) : option (list C) :=
  bind (fitted_terms sg (keys (molecules sg))) py_sum.

Definition show_fit (w : World) : option World :=
  (y <- fitted (signals w) ;;
   Some (sum_red_do (set_data (axis (signals w)) (np_real y)) w))%py.

Definition block (ph : Phase) (phase : F) (w : World) : option World :=
  match ph with
  | REVEAL_COMPONENTS => reveal_components phase w
  | SHOW_SUM => show_sum w
  | SHOW_BASIS => show_basis w
  | SCALE_BASIS => scale_basis phase w
  | SHOW_FIT => show_fit w
  end.

Definition when (ph : Phase) (phase : F) (w : World) : option World :=
  if guard ph phase then block ph phase w else Some w.

Definition update (frame : Z) (w : World) : option World :=
  let phase := progress frames frame in
  (w <- when REVEAL_COMPONENTS phase w ;;
   w <- when SHOW_SUM phase w ;;
   w <- when SHOW_BASIS phase w ;;
   w <- when SCALE_BASIS phase w ;;
   when SHOW_FIT phase w)%py.

End Animation.

(** ** Synthesis over the reals *)

Definition complex : Type := (R * R)%type.

(** [1j] *)
Definition j : complex := (0%R, 1%R).

(** [np.exp], [np.abs] and [/] on [complex128]. *)
Definition Cexp (z : complex) : complex :=
  (exp (fst z) * cos (snd z), exp (fst z) * sin (snd z))%R.

Definition Cabs (z : complex) : R := sqrt (fst z * fst z + snd z * snd z).

Definition Cdiv (a b : complex) : complex :=
  let d := (fst b * fst b + snd b * snd b)%R in
  ((fst a * fst b + snd a * snd b) / d, (snd a * fst b - fst a * snd b) / d)%R.

(** [np.fft.fft]: the discrete Fourier transform
    [X_k = sum_n x_n exp(-2 pi i k n / N)], and [np.fft.fftshift], which
    rolls the array by [N // 2]. *)
Definition csum (zs : list complex) : complex :=
  fold_left (fun acc z => c_add acc z) zs (0%R, 0%R).

Definition fft (x : list complex) : list complex :=
  let n := Z.of_nat (length x) in
  map (fun k => csum (map (fun e : Z * complex =>
                             c_mul (snd e)
                               (Cexp (0, - (2 * PI * IZR k * IZR (fst e) / IZR n))%R))
                          (enumerate x)))
      (arange n).

Definition fftshift {A : Type} (x : list A) : list A :=
  let n := length x in
  skipn (n - Nat.div n 2) x ++ firstn (n - Nat.div n 2) x.

(** [np.abs(np.fft.fftshift(np.fft.fft(x)))] *)
Definition spectrum (x : list complex) : list R := map Cabs (fftshift (fft x)).

(** [fid / np.max(np.abs(fid))] (time-domain script) *)
Definition peak_normalize (fid : list complex) : option (list complex) :=
  (m <- np_max (map Cabs fid) ;;
   Some (map (fun z => Cdiv z (c_of_float m)) fid))%py.

(** [spec/spec.max()] (spectral script) *)
Definition spectrum_normalize (spec : list R) : option (list R) :=
  (m <- np_max spec ;; Some (map (fun x => (x / m)%R) spec))%py.

Section Acquisition.
Variables (BW N : Z) (T2 : R).

Definition t : list R := time_axis BW N.

(** [decay = np.exp(-t/T2)].  The real numbers stand for the floats of
    numpy where these are finite.  They do not for [T2 = 0], where numpy
    divides without raising and the array is [[nan, 0, 0, ...]], nor for a
    negative [T2] so close to zero that [exp] overflows to [inf].  Whether
    a script raises for a given [T2], and the range of the samples, are
    therefore stated below only for a positive [T2] or for [T2 <= -1],
    where every sample is a finite float (the time axes of the scripts end
    near one second). *)
Definition decay : list R := map (fun x => exp (- x / T2)) t.

(** [a*np.exp(1j*2*np.pi*f*t)] *)
Definition oscillation (a f : R) : list complex :=
  map (fun tk : R =>
         c_mul (c_of_float a)
           (Cexp (c_mul (c_mul (c_mul (c_mul j (c_of_float 2%R)) (c_of_float PI))
                           (c_of_float f))
                    (c_of_float tk))))
      t.

(** [sig += term] and [sig*decay] on arrays of the shape of [t]. *)
Definition accumulate (sig term : list complex) : list complex := zip_with c_add sig term.
Definition damp (sig : list complex) : list complex :=
  zip_with (fun z d => c_mul z (c_of_float d)) sig decay.

(** The frequency of peak [i] of a multiplet with [n] peaks. *)
Definition peak_frequency (center J : R) (n i : Z) : R :=
  let offset := ((IZR i - IZR (n - 1) / 2) * J)%R in
  (center + offset)%R.

(** [multiplet(center, pattern, J)] of the two basis-fitting scripts. *)
Definition multiplet (center : R) (pattern : list R) (J : R) : list complex :=
  let n := Z.of_nat (length pattern) in
  let sig :=
    fold_left (fun sig e => accumulate sig (oscillation (snd e) (peak_frequency center J n (fst e))))
              (enumerate pattern) (zeros_like t) in
  damp sig.

(** [multiplet(freqs, amps)] of the FID-to-spectrum and concentration
    scripts. *)
Definition multiplet_of (freqs amps : list R) : list complex :=
  fold_left (fun sig e => accumulate sig (oscillation (snd e) (fst e)))
            (combine freqs amps) (zeros_like t).

End Acquisition.

(** ** [Basis_fitting_time_domain.py] *)

Module TimeDomain.

Definition BW : Z := 2000.
Definition N : Z := 2048.
Definition T2 : R := lit 18 100.
Definition fps : Z := 30.
Definition seconds : Z := 15.
Definition frames : Z := fps * seconds.

Record Molecule : Type := { fid : list complex; conc : Z }.

Definition t : list R := t BW N.

Section Configured.
(** The value bound to [T2]; the script binds [0.18]. *)
Variable T2_value : R.

Definition multiplet (center : R) (pattern : list R) : list complex :=
  multiplet BW N T2_value center pattern 7.

Definition molecules : dict Molecule :=
  dict_of_list
    [ ("A"%string, {| fid := multiplet 80 [1%R]; conc := 5 |});
      ("B"%string, {| fid := zip_with c_add (multiplet 140 [1%R]) (multiplet 200 [1%R; 1%R]);
                      conc := 10 |});
      ("C"%string, {| fid := multiplet 260 [1%R; 2%R; 1%R]; conc := 3 |});
      ("D"%string, {| fid := multiplet 320 [1%R; 3%R; 3%R; 1%R]; conc := 12 |}) ].

End Configured.

Definition script : Script R complex Molecule :=
  {| conc_of := conc;
     basis_of := fun data => peak_normalize (fid data);
     real_text := fun name data => [Str name; Str "  C="; Int (conc data)];
     anchor := fun _ i _ => Some (lit 25 100, of_int (18 - 4 * i)) |}.

(** Everything the script does before [FuncAnimation], for a given [T2]. *)
Definition setup (T2_value : R) : option (@World R complex Molecule) :=
  option_map (fun sg => figure sg) (build script t (molecules T2_value)).

Definition update : Z -> @World R complex Molecule -> option World :=
  update script frames.

End TimeDomain.

(** ** [Basis_set_fiiting_Spectral_domain.py] *)

Module Spectral.

Definition BW : Z := 2000.
Definition N : Z := 2048.
Definition T2 : R := lit 15 100.
Definition fps : Z := 30.
Definition seconds : Z := 15.
Definition frames : Z := fps * seconds.

Record Molecule : Type :=
  { peaks : list (list complex); conc : Z; split : option string }.

Definition t : list R := t BW N.
Definition freq : list R := linspace (of_int (-400)) (of_int 400) N.

Section Configured.
Variable T2_value : R.

Definition multiplet (center : R) (pattern : list R) : list complex :=
  multiplet BW N T2_value center pattern 7.

Definition molecules : dict Molecule :=
  dict_of_list
    [ ("A"%string, {| peaks := [multiplet 80 [1%R]]; conc := 5; split := None |});
      ("B"%string, {| peaks := [multiplet 140 [1%R]; multiplet 200 [1%R; 1%R]];
                      conc := 10; split := Some "S7 + D3"%string |});
      ("C"%string, {| peaks := [multiplet 260 [1%R; 2%R; 1%R]]; conc := 3; split := None |});
      ("D"%string, {| peaks := [multiplet 320 [1%R; 3%R; 3%R; 1%R]]; conc := 12;
                      split := None |}) ].

End Configured.

(** The build loop up to [basis = spec/spec.max()]. *)
Definition basis_spec (data : Molecule) : option (list R) :=
  (mol_sum <- py_sum (peaks data) ;;
   spectrum_normalize (spectrum mol_sum))%py.

(** [(freq[np.argmax(y)], y.max()*1.05)] *)
Definition above_peak (freq_ : list R) (y : list R) : option (R * R) :=
  (i <- np_argmax y ;;
   x0 <- item freq_ i ;;
   m <- np_max y ;;
   Some (x0, m * lit 105 100))%py.

Definition script : Script R R Molecule :=
  {| conc_of := conc;
     basis_of := basis_spec;
     real_text := fun name data =>
       if String.eqb name "B"
       then [Str "Molecule B"; Newline; Str "C=10"; Newline; Str "(S7 + D3)"]
       else [Str "Molecule "; Str name; Newline; Str "C="; Int (conc data)];
     anchor := fun freq_ _ y => above_peak freq_ y |}.

(** Everything the script does before [FuncAnimation], for a given [T2]:
    the build loop, then the figure, whose upper limit
    [ax.set_ylim(0, real_sum.max()*1.3)] must be a finite number. *)
Definition setup (T2_value : R) : option (@World R R Molecule) :=
  (sg <- build script freq (molecules T2_value) ;;
   top <- np_max (real_sum sg) ;;
   _ <- set_ylim (of_int 0) (top * lit 13 10)%py ;;
   Some (figure sg))%py.

Definition update : Z -> @World R R Molecule -> option World :=
  update script frames.

End Spectral.

(** ** [MRS_Animation_FID-to-Spectrum.py] and [MRS_Concentration_Time_Domian.py] *)

(** The frame callback of the FID-to-spectrum animation, over any float
    arithmetic; [spectrum_of] stands for
    [np.abs(np.fft.fftshift(np.fft.fft(.)))]. *)
Section Truncation.
Context {F C : Type} `{PyFloat F} `{Dtype F C}.
Variable spectrum_of : list C -> list F.
Variables (frames N : Z) (t_ freq_axis : list F).

Record Acquired : Type := {
  acq_fid : list C;
  line_fid : Line F;
  line_spec : Line F
}.

Definition update_truncated (frame : Z) (w : Acquired) : option Acquired :=
  (idx <- truncation_index frames N frame ;;
   let current := slice_to (acq_fid w) idx in
   padded <- set_slice_to (zeros N) idx current ;;
   let spec := spectrum_of padded in
   Some {| acq_fid := acq_fid w;
           line_fid := set_data (slice_to t_ idx) (np_real current) (line_fid w);
           line_spec := set_data freq_axis spec (line_spec w) |})%py.

End Truncation.

Module FidToSpectrum.

Definition BW : Z := 2000.
Definition N : Z := 2048.
Definition T2 : R := lit 3 10.
Definition animation_seconds : Z := 12.
Definition fps : Z := 25.
Definition frames : Z := animation_seconds * fps.

Definition t : list R := t BW N.
Definition decay : list R := decay BW N T2.
Definition freq_axis : list R :=
  linspace (of_int (- BW) / of_int 2)%py (of_int BW / of_int 2)%py N.

Definition multiplet (freqs amps : list R) : list complex := multiplet_of BW N freqs amps.

Definition times_decay (sig : list complex) : list complex := damp BW N T2 sig.

Definition molecule_type (kind : Z) : option (list complex * string) :=
  let J := 7%R in
  if (kind =? 1)%Z then
    let singlet := multiplet [80%R] [1%R] in
    let doublet := multiplet [200 - J / 2; 200 + J / 2]%R [1%R; 1%R] in
    Some (times_decay (zip_with c_add singlet doublet), "singlet + doublet"%string)
  else if (kind =? 2)%Z then
    let singlet := multiplet [80%R] [1%R] in
    let doublet := multiplet [180 - J / 2; 180 + J / 2]%R [1%R; 1%R] in
    let triplet := multiplet [300 - J; 300; 300 + J]%R [1%R; 2%R; 1%R] in
    Some (times_decay (zip_with c_add (zip_with c_add singlet doublet) triplet),
          "singlet + doublet + triplet"%string)
  else if (kind =? 3)%Z then
    let complex_peak :=
      multiplet [250 - lit 15 10 * J; 250 - lit 5 10 * J; 250 + lit 5 10 * J;
                 250 + lit 15 10 * J]%R
                [1%R; 3%R; 3%R; 1%R] in
    Some (times_decay complex_peak, "complex quartet"%string)
  else None.

(** [create_animation(kind)] up to the call of [FuncAnimation]. *)
Definition create_animation (kind : Z) : option (@Acquired R complex) :=
  option_map (fun made => {| acq_fid := fst made;
                             line_fid := {| xdata := []; ydata := [] |};
                             line_spec := {| xdata := []; ydata := [] |} |})
             (molecule_type kind).

Definition update : Z -> @Acquired R complex -> option Acquired :=
  update_truncated spectrum frames N t freq_axis.

End FidToSpectrum.

(** The frame callback of the concentration animation; [c_abs] stands for
    [np.abs] of one sample. *)
Section Buildup.
Context {F C : Type} `{PyFloat F} `{Dtype F C}.
Variable c_abs : C -> F.
Variables (frames N : Z) (t_ : list F).

Inductive Chunk : Type :=
  | Header                      (* the three fixed lines the text starts with *)
  | Lit (s : string)
  | Fixed (digits : Z) (x : F)  (* [{x:.2f}], [{x:.1f}] *)
  | Break.

Record Panel : Type := {
  parts : list (list C);
  labels : list string;
  total_fid : list C;
  line_total : Line F;
  part_lines : list (Line F);
  text_obj : list Chunk
}.

(** [for p,line in zip(parts, part_lines): line.set_data(t[:idx], np.real(p[:idx]))] *)
Fixpoint set_part_lines (x : list F) (idx : Z) (ps : list (list C)) (lines : list (Line F))
  : list (Line F) :=
  match ps, lines with
  | p :: ps', line :: lines' =>
      set_data x (np_real (slice_to p idx)) line :: set_part_lines x idx ps' lines'
  | _, _ => lines
  end.

(** [for p,l in zip(parts, labels): ... text += f"{l}: {frac:.1f}%\n"] *)
Fixpoint shares (total_amp : F) (ps : list (list C)) (ls : list string)
  : option (list Chunk) :=
  match ps, ls with
  | p :: ps', l :: ls' =>
      (p0 <- item p 0 ;;
       let amp := c_abs p0 in
       let frac := if (of_int 0 <? total_amp)%py
                   then (of_int 100 * amp / total_amp)%py else of_int 0 in
       rest <- shares total_amp ps' ls' ;;
       Some ([Lit l; Lit ": "; Fixed 1 frac; Lit "%"; Break] ++ rest))%py
  | _, _ => Some []
  end.

Definition update_buildup (frame : Z) (w : Panel) : option Panel :=
  (idx <- truncation_index frames N frame ;;
   let current := slice_to (total_fid w) idx in
   let x := slice_to t_ idx in
   s0 <- item (total_fid w) 0 ;;
   let total_amp := c_abs s0 in
   rest <- shares total_amp (parts w) (labels w) ;;
   Some {| parts := parts w; labels := labels w; total_fid := total_fid w;
           line_total := set_data x (np_real current) (line_total w);
           part_lines := set_part_lines x idx (parts w) (part_lines w);
           text_obj := [Header; Lit "Total amplitude:"; Break; Fixed 2 total_amp;
                        Break; Break] ++ rest |})%py.

End Buildup.

Module Concentration.

Definition BW : Z := 2000.
Definition N : Z := 2048.
Definition T2 : R := lit 25 100.
Definition fps : Z := 25.
Definition frames : Z := 250.

Definition t : list R := t BW N.
Definition multiplet (freqs amps : list R) : list complex := multiplet_of BW N freqs amps.
Definition times_decay (sig : list complex) : list complex := damp BW N T2 sig.

Definition build_case (kind : Z) : list (list complex) * list string :=
  let J := 7%R in
  let acc := ([], []) in
  let acc := if (1 <=? kind)%Z
             then (fst acc ++ [times_decay (multiplet [80%R] [1%R])],
                   snd acc ++ ["Singlet"%string])
             else acc in
  let acc := if (2 <=? kind)%Z
             then (fst acc ++ [times_decay (multiplet [200 - J / 2; 200 + J / 2]%R
                                                      [1%R; 1%R])],
                   snd acc ++ ["Doublet"%string])
             else acc in
  let acc := if (3 <=? kind)%Z
             then (fst acc ++ [times_decay
                                 (multiplet [320 - lit 15 10 * J; 320 - lit 5 10 * J;
                                             320 + lit 5 10 * J; 320 + lit 15 10 * J]%R
                                            [1%R; 3%R; 3%R; 1%R])],
                   snd acc ++ ["Multiplet"%string])
             else acc in
  acc.

(** [animate_case(kind)] up to the call of [FuncAnimation]. *)
Definition animate_case (kind : Z) : option (@Panel R complex) :=
  let made := build_case kind in
  option_map (fun total => {| parts := fst made; labels := snd made; total_fid := total;
                              line_total := {| xdata := []; ydata := [] |};
                              part_lines := map (fun _ => {| xdata := []; ydata := [] |})
                                                (fst made);
                              text_obj := [] |})
             (py_sum (fst made)).

Definition update : Z -> @Panel R complex -> option Panel :=
  update_buildup Cabs frames N t.

End Concentration.

(** ** [RF_Pulse_to_FID.py] *)

Module RFPulse.

Definition fps : Z := 30.
Definition seconds : Z := 20.
Definition frames : Z := fps * seconds.

(** [int(frames * 0.2)] and [int(frames * 0.35)] *)
Definition rf_frame : Z := 120.
Definition TE_frame : Z := 210.

Definition n_spins : Z := 6.
Definition T2 : Z := 250.

Definition freq_offsets : list R := linspace (- lit 1 10)%R (lit 1 10) n_spins.

(** The globals [update] reads and writes, and the FID line. *)
Record State : Type := {
  Mx : list R;
  My : list R;
  Mz : list R;
  phases : list R;
  fid : list R;
  fid_line : Line R;
  title : string
}.

(** The state before the first frame; [phases] is drawn at random. *)
Definition initial (phases0 : list R) : State :=
  {| Mx := map (fun _ => 0%R) (arange n_spins);
     My := map (fun _ => 0%R) (arange n_spins);
     Mz := map (fun _ => 1%R) (arange n_spins);
     phases := phases0;
     fid := [];
     fid_line := {| xdata := []; ydata := [] |};
     title := "FID" |}.

Definition with_M (st : State) (mx my mz ph : list R) : State :=
  {| Mx := mx; My := my; Mz := mz; phases := ph; fid := fid st;
     fid_line := fid_line st; title := title st |}.

Definition rest_spin (i : Z) (st : State) : option State :=
  (mx <- set_item (Mx st) i 0%R ;;
   my <- set_item (My st) i 0%R ;;
   mz <- set_item (Mz st) i 1%R ;;
   Some (with_M st mx my mz (phases st)))%py.

Definition precess_spin (frame : Z) (i : Z) (st : State) : option State :=
  (p <- item (phases st) i ;;
   off <- item freq_offsets i ;;
   ph <- set_item (phases st) i (p + (lit 3 10 + off))%R ;;
   let decay := exp (IZR (- (frame - rf_frame)) / IZR T2) in
   p' <- item ph i ;;
   mx <- set_item (Mx st) i (decay * cos p')%R ;;
   my <- set_item (My st) i (decay * sin p')%R ;;
   mz <- set_item (Mz st) i 0%R ;;
   Some (with_M st mx my mz ph))%py.

Definition np_sum (a : list R) : R := fold_left Rplus a 0%R.

Definition update (frame : Z) (st : State) : option State :=
  (st <- (if (frame <? rf_frame)%Z then for_each (arange n_spins) rest_spin st
          else if (frame =? rf_frame)%Z then
            Some (with_M st (map (fun _ => 1%R) (Mx st)) (map (fun _ => 0%R) (My st))
                         (map (fun _ => 0%R) (Mz st)) (phases st))
          else for_each (arange n_spins) (precess_spin frame) st) ;;
   let Mx_net := np_sum (Mx st) in
   let fid' := if (rf_frame <? frame)%Z then fid st ++ [Mx_net] else fid st ++ [0%R] in
   Some (if (TE_frame <? frame)%Z then
           let xdata := linspace 0%R (IZR seconds) (Z.of_nat (length fid')) in
           {| Mx := Mx st; My := My st; Mz := Mz st; phases := phases st; fid := fid';
              fid_line := {| xdata := xdata; ydata := fid' |};
              title := "FID recording" |}
         else
           {| Mx := Mx st; My := My st; Mz := Mz st; phases := phases st; fid := fid';
              fid_line := {| xdata := []; ydata := [] |};
              title := "Waiting for TE" |}))%py.

(** The four per-spin arrays have one entry per spin. *)
Definition spins_shaped (st : State) : Prop :=
  Z.of_nat (length (Mx st)) = n_spins /\
  Z.of_nat (length (My st)) = n_spins /\
  Z.of_nat (length (Mz st)) = n_spins /\
  Z.of_nat (length (phases st)) = n_spins.

End RFPulse.

(** ** Notions the properties are stated with *)

Section Notions.
Context {F C D : Type} `{PyFloat F} `{Dtype F C}.

(** The black line of a species shows its real signal. *)
Definition revealed (w : @World F C D) (name : string) : Prop :=
  exists fid,
    dict_get (real_fids (signals w)) name = Some fid /\
    dict_get (black_lines (artists w)) name
    = Some {| xdata := axis (signals w); ydata := np_real fid |}.


(** Some entry with [i <= k] names [n]. *)
Definition touched (k : Z) (entries : list (Z * (string * D))) (n : string) : bool :=
  existsb (fun e => (fst e <=? k)%Z && String.eqb (fst (snd e)) n) entries.

(** Every per-species artist and array exists for every molecule, as the
    comprehensions of the scripts arrange. *)
Definition well_formed (w : @World F C D) : Prop :=
  let names := keys (molecules (signals w)) in
  incl names (keys (black_lines (artists w))) /\
  incl names (keys (red_lines (artists w))) /\
  incl names (keys (labels_real (artists w))) /\
  incl names (keys (labels_basis (artists w))) /\
  incl names (keys (real_fids (signals w))) /\
  incl names (keys (basis_fids (signals w))).

(** The invariant of a run: the arrays are those built, and every artist
    the loops address exists. *)
Definition steady (sg : @Signals F C D) (w : @World F C D) : Prop :=
  signals w = sg /\ well_formed w.

End Notions.

(** The undamped superposition [sum_i a_i exp(i 2 pi f_i t)] of terms
    [(f_i, a_i)] at one instant, as the specification writes it; and the
    terms of a pattern-based descriptor, peak [i] at
    [center + (i - (n-1)/2) J]. *)
Definition superposition (terms : list (R * R)) (tk : R) : complex :=
  (fold_right (fun e acc => (snd e * cos (2 * PI * fst e * tk) + acc)%R) 0%R terms,
   fold_right (fun e acc => (snd e * sin (2 * PI * fst e * tk) + acc)%R) 0%R terms).

Definition peaks_of (center : R) (pattern : list R) (J : R) : list (R * R) :=
  map (fun e => ((center + (IZR (fst e) - (IZR (Z.of_nat (length pattern)) - 1) / 2) * J)%R,
                 snd e))
      (enumerate pattern).

(** A signal times the envelope [exp(-t/T2)], sample by sample. *)
Definition damped (T2 : R) (signal : R -> complex) (tk : R) : complex :=
  (fst (signal tk) * exp (- tk / T2), snd (signal tk) * exp (- tk / T2))%R.

(** Exactness of the binary64 indices, checked frame by frame. *)
Definition index_is_exact (frames N frame : Z) : bool :=
  match truncation_index (F:=float) frames N frame with
  | Some idx => (idx =? frame * N / frames)%Z
  | None => false
  end.


Definition scale_in_unit (frames frame : Z) : bool :=
  let p := (progress frames frame : float) in
  if guard SCALE_BASIS p
  then (of_int 0 <=? scale_factor p)%py && (scale_factor p <? of_int 1)%py
  else true.

(** ** [Proton_to_Concentration.py] *)

(** [scale = 1 + 4*(frame/frames)] *)
Definition proton_scale {F : Type} `{PyFloat F} (frames frame : Z) : F :=
  (of_int 1 + of_int 4 * progress frames frame)%py.

(** [np.diff(x)], and [np.trapz(y, x)], which numpy evaluates as
    [(d * (y[1:] + y[:-1]) / 2.0).sum()] with [d = np.diff(x)]. *)
Definition np_diff (x : list R) : list R := zip_with (fun a b => (b - a)%R) x (tl x).

Definition np_trapz (y x : list R) : option R :=
  (prod <- broadcast Rmult (np_diff x) (zip_with Rplus (tl y) (removelast y)) ;;
   Some (RFPulse.np_sum (map (fun v => (v / 2)%R) prod)))%py.

Module Proton.

Definition BW : Z := 2000.
Definition N : Z := 2048.
Definition T2 : R := lit 25 100.
Definition fps : Z := 25.
Definition frames : Z := 200.

Definition t : list R := t BW N.
Definition freq_axis : list R :=
  linspace (of_int (- BW) / of_int 2)%py (of_int BW / of_int 2)%py N.

(** [scale * np.exp(1j*2*np.pi*100*t) * decay] *)
Definition fid_signal (scale : R) : list complex :=
  damp BW N T2 (oscillation BW N scale 100).

(** The two numbers the text box shows: [{scale:.1f}] and [{area:.0f}]. *)
Record Caption : Type := { protons_shown : R; area_shown : R }.

(** The artists [update] writes to; [fill] is the global that holds the
    shaded polygon, [None] before the first frame. *)
Record State : Type := {
  line_fid : Line R;
  line_spec : Line R;
  fill : option (list R * list R);
  text_box : option Caption
}.

Definition initial : State :=
  {| line_fid := {| xdata := []; ydata := [] |};
     line_spec := {| xdata := []; ydata := [] |};
     fill := None;
     text_box := None |}.

(** The old polygon, if there is one, is removed before the new one is
    drawn, so [fill] is the only polygon on the axes. *)
Definition update (frame : Z) (st : State) : option State :=
  let scale := proton_scale frames frame in
  let fid := fid_signal scale in
  let spec := spectrum fid in
  (area <- np_trapz spec freq_axis ;;
   Some {| line_fid := set_data t (np_real fid) (line_fid st);
           line_spec := set_data freq_axis spec (line_spec st);
           fill := Some (freq_axis, spec);
           text_box := Some {| protons_shown := scale; area_shown := area |} |})%py.

End Proton.

(** ** Further notions *)

(** The place of a phase in the order the animation runs through. *)
Definition phase_rank (ph : Phase) : nat :=
  match ph with
  | REVEAL_COMPONENTS => 0
  | SHOW_SUM => 1
  | SHOW_BASIS => 2
  | SCALE_BASIS => 3
  | SHOW_FIT => 4
  end.

(** The percentages [{frac:.1f}] of a text panel, in order. *)
Definition shown_shares {F : Type} (text : list (@Chunk F)) : list F :=
  flat_map (fun c => match c with
                     | Fixed 1 x => [x]
                     | _ => []
                     end) text.

(** What two worlds can share: the black lines and the labels of the
    components, the red lines and the labels of the bases, and the names
    under which the four dicts of artists hold them. *)
Section Shared.
Context {F C D : Type} `{PyFloat F} `{Dtype F C}.

Definition same_components (w w' : @World F C D) : Prop :=
  black_lines (artists w') = black_lines (artists w) /\
  labels_real (artists w') = labels_real (artists w).

Definition same_bases (w w' : @World F C D) : Prop :=
  red_lines (artists w') = red_lines (artists w) /\
  labels_basis (artists w') = labels_basis (artists w).

Definition same_names (w w' : @World F C D) : Prop :=
  keys (black_lines (artists w')) = keys (black_lines (artists w)) /\
  keys (red_lines (artists w')) = keys (red_lines (artists w)) /\
  keys (labels_real (artists w')) = keys (labels_real (artists w)) /\
  keys (labels_basis (artists w')) = keys (labels_basis (artists w)).

(** From [w] to [w'] nothing but the black lines and the labels of the
    components was written; nothing but the red lines and the labels of
    the bases. *)
Definition wrote_components_only (w w' : @World F C D) : Prop :=
  same_bases w w' /\ same_names w w' /\
  sum_black (artists w') = sum_black (artists w) /\
  sum_red (artists w') = sum_red (artists w).

Definition wrote_bases_only (w w' : @World F C D) : Prop :=
  same_components w w' /\ same_names w w' /\
  sum_black (artists w') = sum_black (artists w) /\
  sum_red (artists w') = sum_red (artists w).

End Shared.

(** The binary64 proton count of a frame lies in [[1,5)]. *)
Definition proton_scale_in_range (frames frame : Z) : bool :=
  let s := (proton_scale frames frame : float) in
  (of_int 1 <=? s)%py && (s <? of_int 5)%py.

(** The sum of the amplitudes of a multiplet. *)
Definition total_amplitude (amps : list R) : R := fold_right Rplus 0%R amps.

(* ================================================================== *)
(** * Part II: properties                                              *)
(* ================================================================== *)

Unset Implicit Arguments.

(** ** Checking a property on every frame of a run *)

Lemma forallb_arange (P : Z -> bool) (n : Z) :
  forallb P (arange n) = true ->
  forall z, (0 <= z < n)%Z -> P z = true.
Proof.
  intros Hall z Hz. rewrite forallb_forall in Hall. apply Hall.
  unfold arange. apply in_map_iff. exists (Z.to_nat z). split.
  - lia.
  - apply in_seq. lia.
Qed.

Lemma Phase_eqb_eq (a b : Phase) : Phase_eqb a b = true -> a = b.
Proof. destruct a, b; simpl; congruence. Qed.

(** ** The literals in binary64 *)

(** The quotient of the two integers is the float Rocq's (and Python's)
    parser gives the decimal literal. *)
Lemma literals_binary64 :
  (lit 3 10 : float) = 0.3%float /\
  (lit 45 100 : float) = 0.45%float /\
  (lit 65 100 : float) = 0.65%float /\
  (lit 25 100 : float) = 0.25%float /\
  (lit 9 10 : float) = 0.9%float /\
  (lit 2 10 : float) = 0.2%float /\
  (lit 35 100 : float) = 0.35%float /\
  (lit 96 100 : float) = 0.96%float.
Proof. repeat split; vm_compute; reflexivity. Qed.

(** ** Order facts the five guards rest on *)

Section Partition.
Context {F : Type} `{PyFloat F}.
Variable p : F.

Hypothesis total_30 : (lit 3 10 <=? p)%py = negb (p <? lit 3 10)%py.
Hypothesis total_45 : (lit 45 100 <=? p)%py = negb (p <? lit 45 100)%py.
Hypothesis total_65 : (lit 65 100 <=? p)%py = negb (p <? lit 65 100)%py.
Hypothesis total_90 : (lit 9 10 <=? p)%py = negb (p <? lit 9 10)%py.
Hypothesis below_30_45 : (p <? lit 3 10)%py = true -> (p <? lit 45 100)%py = true.
Hypothesis below_45_65 : (p <? lit 45 100)%py = true -> (p <? lit 65 100)%py = true.
Hypothesis below_65_90 : (p <? lit 65 100)%py = true -> (p <? lit 9 10)%py = true.

Lemma one_guard_holds : active_phases p = [phase_at p].
Proof using total_30 total_45 total_65 total_90 below_30_45 below_45_65 below_65_90.
  unfold active_phases, all_phases, phase_at, filter, guard.
  rewrite total_30, total_45, total_65, total_90.
  destruct (p <? lit 3 10)%py eqn:E1.
  - rewrite (below_30_45 eq_refl), (below_45_65 (below_30_45 eq_refl)),
      (below_65_90 (below_45_65 (below_30_45 eq_refl))). reflexivity.
  - destruct (p <? lit 45 100)%py eqn:E2.
    + rewrite (below_45_65 eq_refl), (below_65_90 (below_45_65 eq_refl)). reflexivity.
    + destruct (p <? lit 65 100)%py eqn:E3.
      * rewrite (below_65_90 eq_refl). reflexivity.
      * destruct (p <? lit 9 10)%py; reflexivity.
Qed.

End Partition.

(** *** Over the reals *)

Lemma R_flt_true (x y : R) : (x <? y)%py = true <-> (x < y)%R.
Proof. simpl. destruct (Rlt_dec x y); split; intros; try easy. Qed.

Lemma R_fle_true (x y : R) : (x <=? y)%py = true <-> (x <= y)%R.
Proof. simpl. destruct (Rle_dec x y); split; intros; try easy. Qed.

Lemma R_fle_negb (c x : R) : (c <=? x)%py = negb (x <? c)%py.
Proof.
  simpl. destruct (Rle_dec c x), (Rlt_dec x c); simpl; try reflexivity; lra.
Qed.

Lemma R_lit (n d : Z) : (lit n d : R) = (IZR n / IZR d)%R.
Proof. reflexivity. Qed.

Lemma R_one_guard_holds (p : R) : active_phases p = [phase_at p].
Proof.
  apply one_guard_holds; try apply R_fle_negb;
    rewrite !R_flt_true, !R_lit; lra.
Qed.

(** *** In binary64 *)

Lemma SFcompare_antisym (x y : spec_float) :
  SFcompare y x = option_map CompOpp (SFcompare x y).
Proof.
  destruct x as [sx|sx| |sx mx ex], y as [sy|sy| |sy my ey]; simpl;
    try destruct sx; try destruct sy; simpl; try reflexivity.
  - rewrite (Z.compare_antisym ey ex). destruct (ey ?= ex)%Z; simpl; try reflexivity.
    rewrite CompOpp_involutive. f_equal. exact (Pos.compare_cont_antisym my mx Eq).
  - rewrite (Z.compare_antisym ey ex). destruct (ey ?= ex)%Z; simpl; try reflexivity.
    f_equal. symmetry. exact (Pos.compare_cont_antisym mx my Eq).
Qed.

Lemma SFleb_negb_ltb (x y : spec_float) :
  SFcompare x y <> None -> SFleb y x = negb (SFltb x y).
Proof.
  unfold SFleb, SFltb. rewrite (SFcompare_antisym x y).
  destruct (SFcompare x y) as [[| |]|]; simpl; congruence.
Qed.

Lemma SFltb_below_larger (x : spec_float) (m1 : positive) (e1 : Z) (m2 : positive) (e2 : Z) :
  SFltb (S754_finite false m1 e1) (S754_finite false m2 e2) = true ->
  SFltb x (S754_finite false m1 e1) = true ->
  SFltb x (S754_finite false m2 e2) = true.
Proof.
  unfold SFltb.
  destruct x as [sx|sx| |sx mx ex]; simpl; try destruct sx; simpl; try congruence.
  change PosDef.Pos.compare_cont with Pos.compare_cont.
  rewrite !Pos.compare_cont_spec. simpl.
  destruct (Z.compare_spec e1 e2), (Z.compare_spec ex e1), (Z.compare_spec ex e2);
    try congruence; try lia;
    try destruct (Pos.compare_spec m1 m2); try destruct (Pos.compare_spec mx m1);
    try destruct (Pos.compare_spec mx m2); simpl; try congruence; try lia.
Qed.

(** A float that compares with itself is no NaN, and then compares with
    every finite float. *)
Lemma b64_comparable (x c : float) (s : bool) (m : positive) (e : Z) :
  is_nan x = false -> Prim2SF c = S754_finite s m e ->
  SFcompare (Prim2SF x) (Prim2SF c) <> None.
Proof.
  unfold is_nan. simpl. rewrite leb_spec. intros Hx Hc. rewrite Hc.
  destruct (Prim2SF x) as [sx|sx| |sx mx ex]; simpl in *; try congruence; discriminate.
Qed.

Lemma b64_fle_negb (x c : float) (s : bool) (m : positive) (e : Z) :
  is_nan x = false -> Prim2SF c = S754_finite s m e ->
  (c <=? x)%py = negb (x <? c)%py.
Proof.
  intros Hx Hc. simpl. rewrite leb_spec, ltb_spec.
  apply SFleb_negb_ltb. exact (b64_comparable x c s m e Hx Hc).
Qed.

Lemma b64_below_larger (x c1 c2 : float) (m1 : positive) (e1 : Z) (m2 : positive) (e2 : Z) :
  Prim2SF c1 = S754_finite false m1 e1 ->
  Prim2SF c2 = S754_finite false m2 e2 ->
  (c1 <? c2)%py = true ->
  (x <? c1)%py = true -> (x <? c2)%py = true.
Proof.
  simpl. rewrite !ltb_spec. intros H1 H2. rewrite H1, H2.
  apply SFltb_below_larger.
Qed.

Lemma b64_one_guard_holds (p : float) : is_nan p = false -> active_phases p = [phase_at p].
Proof.
  intros Hp.
  apply one_guard_holds;
    first [ eapply b64_fle_negb; [exact Hp | vm_compute; reflexivity]
          | eapply b64_below_larger; vm_compute; reflexivity ].
Qed.

Lemma b64_not_nan_of_nonneg (p : float) : (of_int 0 <=? p)%py = true -> is_nan p = false.
Proof.
  unfold is_nan. simpl. rewrite !leb_spec.
  replace (Prim2SF (b64_of_int 0)) with (S754_zero false) by reflexivity.
  intros H0.
  destruct (Prim2SF p) as [sx|sx| |sx mx ex]; try destruct sx; try discriminate H0;
    try reflexivity.
  unfold SFleb, SFcompare. rewrite Z.compare_refl.
  change PosDef.Pos.compare_cont with Pos.compare_cont.
  rewrite Pos.compare_cont_spec, Pos.compare_refl. reflexivity.
Qed.

(** *** On the frames of a run *)

Lemma frac_lt (f T a b : Z) :
  (0 < T)%Z -> (0 < b)%Z ->
  (IZR f / IZR T < IZR a / IZR b)%R <-> (b * f < a * T)%Z.
Proof.
  intros HT Hb.
  assert (HT' : (0 < IZR T)%R) by (apply IZR_lt; exact HT).
  assert (Hb' : (0 < IZR b)%R) by (apply IZR_lt; exact Hb).
  split; intros Hlt.
  - apply lt_IZR. rewrite !mult_IZR.
    apply (Rmult_lt_compat_r (IZR T * IZR b)) in Hlt; [| nra].
    replace (IZR f / IZR T * (IZR T * IZR b))%R with (IZR b * IZR f)%R in Hlt
      by (field; lra).
    replace (IZR a / IZR b * (IZR T * IZR b))%R with (IZR a * IZR T)%R in Hlt
      by (field; lra).
    exact Hlt.
  - apply IZR_lt in Hlt. rewrite !mult_IZR in Hlt.
    apply (Rmult_lt_reg_r (IZR T * IZR b)); [nra |].
    replace (IZR f / IZR T * (IZR T * IZR b))%R with (IZR b * IZR f)%R
      by (field; lra).
    replace (IZR a / IZR b * (IZR T * IZR b))%R with (IZR a * IZR T)%R
      by (field; lra).
    exact Hlt.
Qed.

Lemma R_flt_frac (f T a b : Z) :
  (0 < T)%Z -> (0 < b)%Z ->
  ((progress T f : R) <? lit a b)%py = (b * f <? a * T)%Z.
Proof.
  intros HT Hb. unfold progress. rewrite R_lit.
  destruct (Z.ltb_spec (b * f) (a * T)) as [Hz | Hz].
  - apply R_flt_true. apply frac_lt; assumption.
  - match goal with |- ?X = false => destruct X eqn:E end; [| reflexivity].
    apply R_flt_true in E. apply frac_lt in E; [lia | assumption | assumption].
Qed.

(** Over the reals the partition of [frame/frames] is the one decided in
    integers. *)
Lemma R_phase_at_frame (frames frame : Z) :
  (0 < frames)%Z -> phase_at (progress frames frame : R) = exact_phase frames frame.
Proof.
  intros HT. unfold phase_at, exact_phase.
  rewrite !R_flt_frac by lia. reflexivity.
Qed.

(** In binary64 it is too, for the frame counts of the scripts (450) and of
    the specification's test (100). *)
Lemma b64_phase_at_frame_100 (frame : Z) :
  (0 <= frame < 100)%Z -> phase_at (progress 100 frame : float) = exact_phase 100 frame.
Proof.
  intros Hf. apply Phase_eqb_eq.
  apply (forallb_arange
           (fun f => Phase_eqb (phase_at (progress 100 f : float)) (exact_phase 100 f)) 100);
    [vm_compute; reflexivity | exact Hf].
Qed.

Lemma b64_phase_at_frame_450 (frame : Z) :
  (0 <= frame < 450)%Z -> phase_at (progress 450 frame : float) = exact_phase 450 frame.
Proof.
  intros Hf. apply Phase_eqb_eq.
  apply (forallb_arange
           (fun f => Phase_eqb (phase_at (progress 450 f : float)) (exact_phase 450 f)) 450);
    [vm_compute; reflexivity | exact Hf].
Qed.


(** ** [update] runs the block of the phase *)

Section OneBlock.
Context {F C D : Type} `{PyFloat F} `{Dtype F C}.
Variable script : Script F C D.
Variable frames : Z.

Lemma bind_Some {A : Type} (m : option A) : bind m (fun a => Some a) = m.
Proof. destruct m; reflexivity. Qed.

Lemma update_runs_active (frame : Z) (w : World) (ph : Phase) :
  active_phases (progress frames frame) = [ph] ->
  update script frames frame w = block script ph (progress frames frame) w.
Proof.
  unfold active_phases, all_phases, filter, update, when.
  destruct (guard REVEAL_COMPONENTS (progress frames frame));
    destruct (guard SHOW_SUM (progress frames frame));
    destruct (guard SHOW_BASIS (progress frames frame));
    destruct (guard SCALE_BASIS (progress frames frame));
    destruct (guard SHOW_FIT (progress frames frame));
    intros Hact; inversion Hact; subst; simpl; try reflexivity;
    apply bind_Some.
Qed.

End OneBlock.

(** C5.  The phase of a frame is a function of the progress fraction
    [p = frame/frames] alone, and the five guards of [update] partition the
    fractions into the half-open intervals [[0,0.30)], [[0.30,0.45)],
    [[0.45,0.65)], [[0.65,0.90)], [[0.90,1)]: exactly one guard holds, the
    one [phase_at] names, and [update] runs that block and no other.  This
    holds over the reals, and in binary64 for every float of [[0,1)]; on
    the frames of a run the phase is the one decided in exact integer
    arithmetic.  A boundary value belongs to the phase that starts there;
    with 100 frames, frame 29 reveals components, frame 30 shows the sum,
    frame 89 scales the basis and frame 90 shows the fit. *)
Theorem phase_partition :
  (forall p : R, active_phases p = [phase_at p]) /\
  (forall p : float,
      (of_int 0 <=? p)%py = true -> (p <? of_int 1)%py = true ->
      active_phases p = [phase_at p]) /\
  (forall (F C D : Type) (PF : PyFloat F) (DT : Dtype F C) (script : Script F C D)
          (frames frame : Z) (w : World),
      active_phases (progress frames frame) = [phase_at (progress frames frame)] ->
      update script frames frame w
      = block script (phase_at (progress frames frame)) (progress frames frame) w) /\
  (forall frames frame : Z,
      (0 < frames)%Z ->
      phase_at (progress frames frame : R) = exact_phase frames frame) /\
  (forall frame : Z,
      (0 <= frame < 100)%Z ->
      phase_at (progress 100 frame : float) = exact_phase 100 frame) /\
  (forall frame : Z,
      (0 <= frame < 450)%Z ->
      phase_at (progress 450 frame : float) = exact_phase 450 frame) /\
  (phase_at (lit 3 10 : float) = SHOW_SUM /\
   phase_at (lit 45 100 : float) = SHOW_BASIS /\
   phase_at (lit 65 100 : float) = SCALE_BASIS /\
   phase_at (lit 9 10 : float) = SHOW_FIT) /\
  (phase_at (lit 3 10 : R) = SHOW_SUM /\
   phase_at (lit 45 100 : R) = SHOW_BASIS /\
   phase_at (lit 65 100 : R) = SCALE_BASIS /\
   phase_at (lit 9 10 : R) = SHOW_FIT) /\
  (active_phases (progress 100 29 : float) = [REVEAL_COMPONENTS] /\
   active_phases (progress 100 30 : float) = [SHOW_SUM] /\
   active_phases (progress 100 89 : float) = [SCALE_BASIS] /\
   active_phases (progress 100 90 : float) = [SHOW_FIT]).
Proof.
  split; [exact R_one_guard_holds |].
  split; [intros p H0 _; apply b64_one_guard_holds, b64_not_nan_of_nonneg, H0 |].
  split; [intros; apply update_runs_active; assumption |].
  split; [exact R_phase_at_frame |].
  split; [exact b64_phase_at_frame_100 |].
  split; [exact b64_phase_at_frame_450 |].
  split; [repeat split; vm_compute; reflexivity |].
  split.
  - repeat split.
    + exact (R_phase_at_frame 10 3 eq_refl).
    + exact (R_phase_at_frame 100 45 eq_refl).
    + exact (R_phase_at_frame 100 65 eq_refl).
    + exact (R_phase_at_frame 10 9 eq_refl).
  - repeat split; vm_compute; reflexivity.
Qed.

(** ** [int()] over the reals *)

Lemma R_int_nonneg (x : R) : (0 <= x)%R -> R_int x = Int_part x.
Proof. intros Hx. unfold R_int. destruct (Rle_dec 0 x); [reflexivity | contradiction]. Qed.

Lemma Int_part_floor (x : R) (k : Z) : (IZR k <= x < IZR k + 1)%R -> Int_part x = k.
Proof. intros Hk. symmetry. apply Int_part_spec. lra. Qed.

Lemma Int_part_bounds (x : R) : (IZR (Int_part x) <= x < IZR (Int_part x) + 1)%R.
Proof.
  destruct (base_Int_part x) as [Hle Hgt]. lra.
Qed.

Lemma Int_part_monotone (x y : R) : (x <= y)%R -> (Int_part x <= Int_part y)%Z.
Proof.
  intros Hxy.
  pose proof (Int_part_bounds x) as Hx. pose proof (Int_part_bounds y) as Hy.
  assert (Hlt : (IZR (Int_part x) < IZR (Int_part y + 1))%R) by (rewrite plus_IZR; lra).
  apply lt_IZR in Hlt. lia.
Qed.

(** The floor of a quotient of integers is the integer quotient. *)
Lemma Int_part_quotient (a b : Z) :
  (0 < b)%Z -> Int_part (IZR a / IZR b) = (a / b)%Z.
Proof.
  intros Hb. apply Int_part_floor.
  assert (Hb' : (0 < IZR b)%R) by (apply IZR_lt; exact Hb).
  pose proof (Z.div_mod a b ltac:(lia)) as Hdm.
  pose proof (Z.mod_pos_bound a b Hb) as Hmod.
  assert (Ha : IZR a = (IZR b * IZR (a / b) + IZR (a mod b))%R).
  { rewrite <- mult_IZR, <- plus_IZR. f_equal. exact Hdm. }
  assert (Hm0 : (0 <= IZR (a mod b))%R) by (apply IZR_le; lia).
  assert (Hm1 : (IZR (a mod b) < IZR b)%R) by (apply IZR_lt; lia).
  rewrite Ha.
  replace ((IZR b * IZR (a / b) + IZR (a mod b)) / IZR b)%R
    with (IZR (a / b) + IZR (a mod b) / IZR b)%R by (field; lra).
  assert (H0 : (0 <= IZR (a mod b) / IZR b)%R).
  { apply Rmult_le_pos; [exact Hm0 | apply Rlt_le, Rinv_0_lt_compat, Hb']. }
  assert (H1 : (IZR (a mod b) / IZR b < 1)%R).
  { apply (Rmult_lt_reg_r (IZR b)); [exact Hb' |].
    replace (IZR (a mod b) / IZR b * IZR b)%R with (IZR (a mod b)) by (field; lra).
    lra. }
  lra.
Qed.

(** ** C10: the truncation index *)

(** Over the reals, for any frame count and sample count. *)
Lemma R_truncation_index (frames N frame : Z) :
  (0 < frames)%Z -> (0 < N)%Z -> (0 <= frame < frames)%Z ->
  truncation_index (F:=R) frames N frame = Some (frame * N / frames)%Z /\
  (0 <= frame * N / frames < N)%Z.
Proof.
  intros HT HN Hf. split.
  - unfold truncation_index, progress. simpl. f_equal.
    assert (HT' : (0 < IZR frames)%R) by (apply IZR_lt; exact HT).
    replace (IZR frame / IZR frames * IZR N)%R with (IZR (frame * N) / IZR frames)%R
      by (rewrite mult_IZR; field; lra).
    rewrite R_int_nonneg.
    + apply Int_part_quotient. exact HT.
    + apply Rmult_le_pos; [apply IZR_le; nia | apply Rlt_le, Rinv_0_lt_compat, HT'].
  - split.
    + apply Z.div_pos; nia.
    + apply Z.div_lt_upper_bound; nia.
Qed.

(** In binary64, for the frame and sample counts of the two scripts that
    truncate: rounding never moves the index off the exact quotient. *)

Lemma b64_truncation_index_300 (frame : Z) :
  (0 <= frame < 300)%Z ->
  truncation_index (F:=float) 300 2048 frame = Some (frame * 2048 / 300)%Z.
Proof.
  intros Hf.
  assert (H : index_is_exact 300 2048 frame = true).
  { apply (forallb_arange (index_is_exact 300 2048) 300);
      [vm_compute; reflexivity | exact Hf]. }
  unfold index_is_exact in H.
  destruct (truncation_index 300 2048 frame) as [idx |]; [| discriminate].
  apply Z.eqb_eq in H. congruence.
Qed.

Lemma b64_truncation_index_250 (frame : Z) :
  (0 <= frame < 250)%Z ->
  truncation_index (F:=float) 250 2048 frame = Some (frame * 2048 / 250)%Z.
Proof.
  intros Hf.
  assert (H : index_is_exact 250 2048 frame = true).
  { apply (forallb_arange (index_is_exact 250 2048) 250);
      [vm_compute; reflexivity | exact Hf]. }
  unfold index_is_exact in H.
  destruct (truncation_index 250 2048 frame) as [idx |]; [| discriminate].
  apply Z.eqb_eq in H. congruence.
Qed.

(** Slices of an array of [N] samples at an index inside it. *)
Lemma slice_to_strict_prefix {A : Type} (a : list A) (N idx : Z) :
  Z.of_nat (length a) = N -> (0 <= idx < N)%Z ->
  Z.of_nat (length (slice_to a idx)) = idx /\
  exists rest, rest <> [] /\ a = slice_to a idx ++ rest.
Proof.
  intros Hlen Hidx. unfold slice_to.
  destruct (Z.leb_spec 0 idx) as [_ | Hneg]; [| lia].
  split.
  - rewrite length_firstn. lia.
  - exists (skipn (Z.to_nat idx) a). split.
    + intros Hnil. apply (f_equal (@length A)) in Hnil.
      rewrite length_skipn in Hnil. simpl in Hnil. lia.
    + symmetry. apply firstn_skipn.
Qed.

Lemma length_arange (n : Z) : length (arange n) = Z.to_nat n.
Proof. unfold arange. rewrite length_map, length_seq. reflexivity. Qed.

Section TruncatedFrames.
Context {F C : Type} `{PyFloat F} `{Dtype F C}.
Variable spectrum_of : list C -> list F.
Variables (frames N : Z) (t_ freq_axis : list F).

Lemma length_zeros (n : Z) : length (zeros (C:=C) n) = Z.to_nat n.
Proof. unfold zeros. rewrite length_map. apply length_arange. Qed.

(** With the index inside the FID, the callback raises nothing, leaves the
    FID alone and draws its first [idx] samples. *)
Lemma update_truncated_prefix (frame idx : Z) (w : Acquired) :
  truncation_index frames N frame = Some idx ->
  (0 <= idx < N)%Z ->
  Z.of_nat (length (acq_fid w)) = N ->
  exists w',
    update_truncated spectrum_of frames N t_ freq_axis frame w = Some w' /\
    acq_fid w' = acq_fid w /\
    ydata (line_fid w') = np_real (slice_to (acq_fid w) idx) /\
    Z.of_nat (length (ydata (line_fid w'))) = idx /\
    ydata (line_spec w')
    = spectrum_of (slice_to (acq_fid w) idx ++ skipn (Z.to_nat idx) (zeros N)).
Proof.
  intros Hidx Hin Hlen.
  unfold update_truncated. rewrite Hidx. simpl.
  destruct (slice_to_strict_prefix (acq_fid w) N idx Hlen Hin) as [Hcur _].
  assert (Hz : Z.of_nat (length (zeros (C:=C) N)) = N) by (rewrite length_zeros; lia).
  destruct (slice_to_strict_prefix (zeros (C:=C) N) N idx Hz Hin) as [Hpad _].
  unfold set_slice_to.
  replace (length (slice_to (acq_fid w) idx) =? length (slice_to (zeros N) idx))%nat
    with true by (symmetry; apply Nat.eqb_eq; lia).
  simpl. eexists. split; [reflexivity |]. simpl.
  repeat split.
  - unfold np_real. rewrite length_map. exact Hcur.
  - do 3 f_equal. lia.
Qed.

End TruncatedFrames.

(** C10.  In the FID-to-spectrum animation (300 frames, 2048 samples) and
    in the concentration animation (250 frames), the truncation index
    [idx = int((frame/frames)*N)] of every frame of the run is the exact
    quotient [frame*N/frames] and satisfies [0 <= idx < N], in binary64 as
    over the reals (there for any positive frame and sample counts); so
    [fid[:idx]] and [padded[:idx]] are in bounds, the callback raises
    nothing, and what it draws is [idx < N] samples long: a strict prefix
    of the FID, never the whole of it. *)
Theorem truncation_index_in_bounds :
  (forall frame : Z,
      (0 <= frame < FidToSpectrum.frames)%Z ->
      exists idx,
        truncation_index (F:=float) FidToSpectrum.frames FidToSpectrum.N frame = Some idx /\
        (0 <= idx < FidToSpectrum.N)%Z) /\
  (forall frame : Z,
      (0 <= frame < Concentration.frames)%Z ->
      exists idx,
        truncation_index (F:=float) Concentration.frames Concentration.N frame = Some idx /\
        (0 <= idx < Concentration.N)%Z) /\
  (forall frames N frame : Z,
      (0 < frames)%Z -> (0 < N)%Z -> (0 <= frame < frames)%Z ->
      exists idx,
        truncation_index (F:=R) frames N frame = Some idx /\ (0 <= idx < N)%Z) /\
  (forall (A : Type) (fid : list A) (N idx : Z),
      Z.of_nat (length fid) = N -> (0 <= idx < N)%Z ->
      Z.of_nat (length (slice_to fid idx)) = idx /\
      exists rest, rest <> [] /\ fid = slice_to fid idx ++ rest) /\
  (forall (frame : Z) (w : Acquired),
      (0 <= frame < FidToSpectrum.frames)%Z ->
      Z.of_nat (length (acq_fid w)) = FidToSpectrum.N ->
      exists idx w',
        FidToSpectrum.update frame w = Some w' /\
        (0 <= idx < FidToSpectrum.N)%Z /\
        acq_fid w' = acq_fid w /\
        ydata (line_fid w') = np_real (slice_to (acq_fid w) idx) /\
        Z.of_nat (length (ydata (line_fid w'))) = idx) /\
  (forall (C : Type) (DT : Dtype float C) (spectrum_of : list C -> list float)
          (t_ freq_axis : list float) (frame : Z) (w : Acquired),
      (0 <= frame < FidToSpectrum.frames)%Z ->
      Z.of_nat (length (acq_fid w)) = FidToSpectrum.N ->
      exists idx w',
        update_truncated spectrum_of FidToSpectrum.frames FidToSpectrum.N t_ freq_axis frame w
        = Some w' /\
        (0 <= idx < FidToSpectrum.N)%Z /\
        acq_fid w' = acq_fid w /\
        ydata (line_fid w') = np_real (slice_to (acq_fid w) idx) /\
        Z.of_nat (length (ydata (line_fid w'))) = idx).
Proof.
  assert (Hdiv : forall T f : Z, (0 < T)%Z -> (0 <= f < T)%Z ->
                                 (0 <= f * 2048 / T < 2048)%Z).
  { intros T f HT Hf. split; [apply Z.div_pos; nia | apply Z.div_lt_upper_bound; nia]. }
  split; [| split; [| split; [| split; [| split]]]].
  - intros frame Hf. exists (frame * 2048 / 300)%Z. split.
    + apply b64_truncation_index_300. exact Hf.
    + apply Hdiv; [lia | exact Hf].
  - intros frame Hf. exists (frame * 2048 / 250)%Z. split.
    + apply b64_truncation_index_250. exact Hf.
    + apply Hdiv; [lia | exact Hf].
  - intros frames N frame HT HN Hf.
    destruct (R_truncation_index frames N frame HT HN Hf) as [Hidx Hin].
    eauto.
  - intros A fid N idx. apply slice_to_strict_prefix.
  - intros frame w Hf Hlen.
    destruct (R_truncation_index FidToSpectrum.frames FidToSpectrum.N frame
                ltac:(reflexivity) ltac:(reflexivity) Hf) as [Hidx Hin].
    destruct (update_truncated_prefix spectrum FidToSpectrum.frames FidToSpectrum.N
                FidToSpectrum.t FidToSpectrum.freq_axis frame _ w Hidx Hin Hlen)
      as [w' [Hw' [Hfid [Hy [Hlen' _]]]]].
    exists (frame * FidToSpectrum.N / FidToSpectrum.frames)%Z, w'.
    repeat split; try assumption; apply Hin.
  - intros C DT spectrum_of t_ freq_axis frame w Hf Hlen.
    pose proof (b64_truncation_index_300 frame Hf) as Hidx.
    pose proof (Hdiv 300%Z frame ltac:(lia) Hf) as Hin.
    destruct (update_truncated_prefix spectrum_of FidToSpectrum.frames FidToSpectrum.N
                t_ freq_axis frame _ w Hidx Hin Hlen)
      as [w' [Hw' [Hfid [Hy [Hlen' _]]]]].
    exists (frame * 2048 / 300)%Z, w'.
    repeat split; try assumption; apply Hin.
Qed.

(** ** Dictionaries *)

Section DictFacts.
Context {V : Type}.

Lemma dict_get_in_keys (d : dict V) (k : string) (v : V) :
  dict_get d k = Some v -> In k (keys d).
Proof.
  induction d as [| [k' v'] rest IH]; simpl; [discriminate |].
  destruct (String.eqb_spec k' k) as [-> | Hne]; intros Hget.
  - left. reflexivity.
  - right. apply IH. exact Hget.
Qed.

Lemma dict_get_not_in_keys (d : dict V) (k : string) :
  ~ In k (keys d) -> dict_get d k = None.
Proof.
  induction d as [| [k' v'] rest IH]; simpl; [reflexivity |].
  intros Hnot. destruct (String.eqb_spec k' k) as [-> | Hne].
  - exfalso. apply Hnot. left. reflexivity.
  - apply IH. intros Hin. apply Hnot. right. exact Hin.
Qed.

Lemma dict_get_of_key (d : dict V) (k : string) :
  In k (keys d) -> exists v, dict_get d k = Some v.
Proof.
  induction d as [| [k' v'] rest IH]; simpl; [contradiction |].
  intros Hin. destruct (String.eqb_spec k' k) as [-> | Hne].
  - eauto.
  - destruct Hin as [Heq | Hin]; [contradiction | apply IH, Hin].
Qed.

(** A new key is appended. *)
Lemma dict_set_fresh (d : dict V) (k : string) (v : V) :
  ~ In k (keys d) -> dict_set d k v = d ++ [(k, v)].
Proof.
  induction d as [| [k' v'] rest IH]; simpl; [reflexivity |].
  intros Hnot. destruct (String.eqb_spec k' k) as [-> | Hne].
  - exfalso. apply Hnot. left. reflexivity.
  - f_equal. apply IH. intros Hin. apply Hnot. right. exact Hin.
Qed.

Lemma dict_set_keys_present (d : dict V) (k : string) (v : V) :
  In k (keys d) -> keys (dict_set d k v) = keys d.
Proof.
  induction d as [| [k' v'] rest IH]; simpl; [contradiction |].
  intros Hin. destruct (String.eqb_spec k' k) as [-> | Hne]; simpl.
  - reflexivity.
  - f_equal. apply IH. destruct Hin as [Heq | Hin]; [contradiction | exact Hin].
Qed.

Lemma dict_set_is_dict (d : dict V) (k : string) (v : V) :
  is_dict d -> is_dict (dict_set d k v).
Proof.
  unfold is_dict. intros Hd.
  destruct (in_dec string_dec k (keys d)) as [Hin | Hnot].
  - rewrite dict_set_keys_present by exact Hin. exact Hd.
  - rewrite dict_set_fresh by exact Hnot. unfold keys. rewrite map_app. simpl.
    apply NoDup_app.
    + exact Hd.
    + constructor; [intros [] | constructor].
    + intros a Ha [<- | []]. exact (Hnot Ha).
Qed.

Lemma dict_of_list_is_dict (kvs : list (string * V)) : is_dict (dict_of_list kvs).
Proof.
  unfold dict_of_list.
  assert (Hgen : forall d, is_dict d ->
                           is_dict (fold_left (fun d kv => dict_set d (fst kv) (snd kv)) kvs d)).
  { induction kvs as [| kv rest IH]; simpl; intros d Hd; [exact Hd |].
    apply IH. apply dict_set_is_dict. exact Hd. }
  apply Hgen. constructor.
Qed.

Lemma dict_get_first (d : dict V) (k : string) (v : V) (rest : dict V) :
  ~ In k (keys d) -> dict_get (d ++ (k, v) :: rest) k = Some v.
Proof.
  induction d as [| [k' v'] d' IH]; simpl; intros Hnot.
  - rewrite String.eqb_refl. reflexivity.
  - destruct (String.eqb_spec k' k) as [-> | Hne].
    + exfalso. apply Hnot. left. reflexivity.
    + apply IH. intros Hin. apply Hnot. right. exact Hin.
Qed.

(** [d[k].method()]: what a lookup sees afterwards. *)
Lemma dict_modify_get (d d' : dict V) (k : string) (f : V -> V) :
  dict_modify d k f = Some d' ->
  forall k', dict_get d' k'
             = if String.eqb k k' then option_map f (dict_get d k') else dict_get d k'.
Proof.
  revert d'. induction d as [| [k0 v0] rest IH]; simpl; intros d' Hmod k'; [discriminate |].
  destruct (String.eqb_spec k0 k) as [-> | Hne].
  - injection Hmod as <-. simpl.
    destruct (String.eqb_spec k k') as [-> | Hne']; reflexivity.
  - destruct (dict_modify rest k f) as [rest' |] eqn:Hrest; [| discriminate].
    injection Hmod as <-. simpl.
    specialize (IH rest' eq_refl k').
    destruct (String.eqb_spec k0 k') as [-> | Hne0].
    + destruct (String.eqb_spec k k') as [-> | Hne']; [congruence | reflexivity].
    + exact IH.
Qed.

Lemma dict_modify_keys (d d' : dict V) (k : string) (f : V -> V) :
  dict_modify d k f = Some d' -> keys d' = keys d.
Proof.
  revert d'. induction d as [| [k0 v0] rest IH]; simpl; intros d' Hmod; [discriminate |].
  destruct (String.eqb k0 k).
  - injection Hmod as <-. reflexivity.
  - destruct (dict_modify rest k f) as [rest' |]; [| discriminate].
    injection Hmod as <-. simpl. f_equal. apply IH. reflexivity.
Qed.

Lemma dict_modify_of_key (d : dict V) (k : string) (f : V -> V) :
  In k (keys d) -> exists d', dict_modify d k f = Some d'.
Proof.
  induction d as [| [k0 v0] rest IH]; simpl; [contradiction |].
  intros Hin. destruct (String.eqb_spec k0 k) as [-> | Hne].
  - eauto.
  - destruct Hin as [Heq | Hin]; [contradiction |].
    destruct (IH Hin) as [rest' ->]. simpl. eauto.
Qed.

End DictFacts.

Lemma keys_dict_for {V : Type} (ks : list string) (e : string -> V) :
  NoDup ks -> dict_for ks e = map (fun n => (n, e n)) ks.
Proof.
  intros Hnd. unfold dict_for, dict_of_list.
  assert (Hgen : forall d : dict V,
             NoDup (keys d ++ ks) ->
             fold_left (fun d kv => dict_set d (fst kv) (snd kv))
                       (map (fun n => (n, e n)) ks) d
             = d ++ map (fun n => (n, e n)) ks).
  { clear Hnd. induction ks as [| n rest IH]; simpl; intros d Hd.
    - rewrite app_nil_r. reflexivity.
    - rewrite dict_set_fresh.
      + rewrite IH.
        * rewrite <- app_assoc. reflexivity.
        * unfold keys. rewrite map_app. simpl. rewrite <- app_assoc. simpl. exact Hd.
      + apply NoDup_remove_2 in Hd. intros Hin. apply Hd. apply in_or_app. left. exact Hin. }
  apply (Hgen []). simpl. exact Hnd.
Qed.

Lemma dict_of_list_distinct {V : Type} (kvs : list (string * V)) :
  NoDup (map fst kvs) -> dict_of_list kvs = kvs.
Proof.
  intros Hnd. unfold dict_of_list.
  assert (Hgen : forall d : dict V,
             NoDup (keys d ++ map fst kvs) ->
             fold_left (fun d kv => dict_set d (fst kv) (snd kv)) kvs d = d ++ kvs).
  { clear Hnd. induction kvs as [| [k v] rest IH]; simpl; intros d Hd.
    - rewrite app_nil_r. reflexivity.
    - rewrite dict_set_fresh.
      + rewrite IH.
        * rewrite <- app_assoc. reflexivity.
        * unfold keys. rewrite map_app. simpl. rewrite <- app_assoc. simpl. exact Hd.
      + apply NoDup_remove_2 in Hd. intros Hin. apply Hd. apply in_or_app. left. exact Hin. }
  apply (Hgen []). simpl. exact Hnd.
Qed.

(** ** C1: the fit is the composite *)

Section RoundTrip.
Context {F C D : Type} `{PyFloat F} `{Dtype F C}.
Variable script : Script F C D.

(** The build loop leaves the two dicts aligned with [molecules]: entry by
    entry the same name, the basis derived from the molecule, and the real
    signal [basis * conc]. *)
Lemma build_loop_aligned (items : dict D) :
  forall (tr0 : list (string * D * list C)) (real basis : dict (list C)),
    NoDup (map (fun e => fst (fst e)) tr0 ++ keys items) ->
    for_each items (build_step script)
             (map (fun e => (fst (fst e), times_int (snd e) (conc_of script (snd (fst e))))) tr0,
              map (fun e => (fst (fst e), snd e)) tr0)
    = Some (real, basis) ->
    exists tr : list (string * D * list C),
      items = map fst tr /\
      Forall (fun e => basis_of script (snd (fst e)) = Some (snd e)) tr /\
      real = map (fun e => (fst (fst e), times_int (snd e) (conc_of script (snd (fst e)))))
                 (tr0 ++ tr) /\
      basis = map (fun e => (fst (fst e), snd e)) (tr0 ++ tr).
Proof.
  induction items as [| [name data] rest IH]; intros tr0 real basis Hnd Hrun.
  - simpl in Hrun. injection Hrun as <- <-. exists []. rewrite app_nil_r.
    repeat split. constructor.
  - simpl in Hrun.
    destruct (basis_of script data) as [b |] eqn:Hb; [| discriminate].
    simpl in Hrun.
    assert (Hfresh : ~ In name (map (fun e : string * D * list C => fst (fst e)) tr0)).
    { simpl in Hnd. apply NoDup_remove_2 in Hnd. intros Hin. apply Hnd.
      apply in_or_app. left. exact Hin. }
    rewrite !dict_set_fresh in Hrun
      by (unfold keys; rewrite map_map; simpl; exact Hfresh).
    destruct (IH (tr0 ++ [(name, data, b)]) real basis) as [tr [Hitems [Hall [Hreal Hbasis]]]].
    + rewrite map_app, <- app_assoc. simpl. exact Hnd.
    + rewrite !map_app. simpl. exact Hrun.
    + exists ((name, data, b) :: tr). simpl. repeat split.
      * f_equal. exact Hitems.
      * constructor; [exact Hb | exact Hall].
      * rewrite Hreal, <- app_assoc. reflexivity.
      * rewrite Hbasis, <- app_assoc. reflexivity.
Qed.

(** The generator of the final phase then yields the real signals, in the
    order of [real_fids.values()]. *)
Lemma fitted_terms_aligned (sg : Signals) (pre suf : list (string * D * list C)) :
  NoDup (map (fun e => fst (fst e)) (pre ++ suf)) ->
  molecules sg = map fst (pre ++ suf) ->
  basis_fids sg = map (fun e => (fst (fst e), snd e)) (pre ++ suf) ->
  fitted_terms script sg (map (fun e => fst (fst e)) suf)
  = Some (map (fun e => times_int (snd e) (conc_of script (snd (fst e)))) suf).
Proof.
  revert pre. induction suf as [| [[name data] b] suf IH]; intros pre Hnd Hmol Hbas.
  - reflexivity.
  - simpl.
    assert (Hfresh : ~ In name (map (fun e : string * D * list C => fst (fst e)) pre)).
    { rewrite map_app in Hnd. simpl in Hnd. apply NoDup_remove_2 in Hnd.
      intros Hin. apply Hnd. apply in_or_app. left. exact Hin. }
    rewrite Hbas, Hmol, !map_app. simpl.
    rewrite dict_get_first by (unfold keys; rewrite map_map; exact Hfresh).
    simpl.
    rewrite dict_get_first by (unfold keys; rewrite map_map; exact Hfresh).
    simpl.
    specialize (IH (pre ++ [(name, data, b)])).
    rewrite <- app_assoc in IH. simpl in IH.
    rewrite (IH Hnd Hmol Hbas). reflexivity.
Qed.

Lemma build_aligned (axis_ : list F) (molecules_ : dict D) (sg : Signals) :
  is_dict molecules_ ->
  build script axis_ molecules_ = Some sg ->
  exists tr : list (string * D * list C),
    molecules sg = map fst tr /\
    molecules_ = map fst tr /\
    axis sg = axis_ /\
    Forall (fun e => basis_of script (snd (fst e)) = Some (snd e)) tr /\
    real_fids sg
    = map (fun e => (fst (fst e), times_int (snd e) (conc_of script (snd (fst e))))) tr /\
    basis_fids sg = map (fun e => (fst (fst e), snd e)) tr /\
    py_sum (values (real_fids sg)) = Some (real_sum sg).
Proof.
  intros Hd Hbuild. unfold build in Hbuild.
  destruct (for_each molecules_ (build_step script) ([], [])) as [[real basis] |] eqn:Hloop;
    [| discriminate].
  simpl in Hbuild.
  destruct (py_sum (values real)) as [total |] eqn:Hsum; [| discriminate].
  injection Hbuild as <-. simpl.
  destruct (build_loop_aligned molecules_ [] real basis Hd Hloop)
    as [tr [Hitems [Hall [Hreal Hbasis]]]].
  simpl in Hreal, Hbasis. exists tr.
  split; [exact Hitems |]. split; [exact Hitems |]. split; [reflexivity |].
  split; [exact Hall |]. split; [exact Hreal |]. split; [exact Hbasis |].
  exact Hsum.
Qed.

Lemma fitted_is_real_sum (axis_ : list F) (molecules_ : dict D) (sg : Signals) :
  is_dict molecules_ ->
  build script axis_ molecules_ = Some sg ->
  fitted script sg = Some (real_sum sg).
Proof.
  intros Hd Hbuild.
  destruct (build_aligned axis_ molecules_ sg Hd Hbuild)
    as [tr [Hmol [Hmol' [_ [_ [Hreal [Hbasis Hsum]]]]]]].
  unfold fitted.
  assert (Hnd : NoDup (map (fun e : string * D * list C => fst (fst e)) ([] ++ tr))).
  { simpl. unfold is_dict, keys in Hd. rewrite Hmol', map_map in Hd. exact Hd. }
  pose proof (fitted_terms_aligned sg [] tr Hnd Hmol Hbasis) as Hterms.
  replace (keys (molecules sg)) with (map (fun e : string * D * list C => fst (fst e)) tr)
    by (rewrite Hmol; unfold keys; rewrite map_map; reflexivity).
  rewrite Hterms. simpl.
  rewrite Hreal in Hsum. unfold values in Hsum. rewrite map_map in Hsum. simpl in Hsum.
  exact Hsum.
Qed.

End RoundTrip.

(** C1.  For every configuration with at least one species that the build
    loop accepts, the fitted signal of the final phase, the sum over the
    species of [basis_fids[n] * conc], is the composite [real_sum] computed
    before the animation, the sum of the [real_fids], each of which is
    [basis * conc]: the same array, sample for sample.  The two sums apply
    the same operations in the same order, so no law of arithmetic is
    used and the equality is exact in any arithmetic, binary64 included;
    it is what [update] draws in its last phase. *)
Theorem fitted_equals_composite
  (F C D : Type) (PF : PyFloat F) (DT : Dtype F C) (script : Script F C D)
  (axis_ : list F) (molecules_ : dict D) (sg : Signals) :
  is_dict molecules_ ->
  molecules_ <> [] ->
  build script axis_ molecules_ = Some sg ->
  fitted script sg = Some (real_sum sg) /\
  py_sum (values (real_fids sg)) = Some (real_sum sg) /\
  (forall name basis data,
      dict_get (basis_fids sg) name = Some basis ->
      dict_get (molecules sg) name = Some data ->
      dict_get (real_fids sg) name = Some (times_int basis (conc_of script data))) /\
  (forall w : World,
      signals w = sg ->
      show_fit script w
      = Some (sum_red_do (set_data (axis sg) (np_real (real_sum sg))) w)).
Proof.
  intros Hd _ Hbuild.
  pose proof (fitted_is_real_sum script axis_ molecules_ sg Hd Hbuild) as Hfit.
  destruct (build_aligned script axis_ molecules_ sg Hd Hbuild)
    as [tr [Hmol [Hmol' [_ [_ [Hreal [Hbasis Hsum]]]]]]].
  split; [exact Hfit |]. split; [exact Hsum |]. split.
  - intros name basis data Hb Hm.
    rewrite Hreal. rewrite Hbasis in Hb. rewrite Hmol in Hm.
    clear - Hb Hm.
    induction tr as [| [[n d] b] tr IH]; simpl in *; [discriminate |].
    destruct (String.eqb_spec n name) as [-> | Hne].
    + injection Hb as <-. injection Hm as <-. reflexivity.
    + apply IH; [exact Hb | exact Hm].
  - intros w Hw. unfold show_fit. rewrite Hw, Hfit. reflexivity.
Qed.

(** ** What the setters touch *)

Ltac bind_inv H :=
  repeat match type of H with
         | bind ?m _ = Some _ =>
             let E := fresh "E" in
             destruct m eqn:E; simpl in H; [| discriminate H]
         | option_map _ ?m = Some _ =>
             let E := fresh "E" in
             destruct m eqn:E; simpl in H; [| discriminate H]
         | Some _ = Some _ => injection H as H
         end.

Section Setters.
Context {F C D : Type} `{PyFloat F} `{Dtype F C}.
Variable script : Script F C D.

Lemma black_line_do_spec (name : string) (f : Line F -> Line F) (w w' : @World F C D) :
  black_line_do name f w = Some w' ->
  signals w' = signals w /\
  dict_modify (black_lines (artists w)) name f = Some (black_lines (artists w')) /\
  red_lines (artists w') = red_lines (artists w) /\
  sum_black (artists w') = sum_black (artists w) /\
  sum_red (artists w') = sum_red (artists w) /\
  labels_real (artists w') = labels_real (artists w) /\
  labels_basis (artists w') = labels_basis (artists w).
Proof.
  unfold black_line_do. intros Hdo. bind_inv Hdo. subst w'. simpl. auto 10.
Qed.

Lemma red_line_do_spec (name : string) (f : Line F -> Line F) (w w' : @World F C D) :
  red_line_do name f w = Some w' ->
  signals w' = signals w /\
  dict_modify (red_lines (artists w)) name f = Some (red_lines (artists w')) /\
  black_lines (artists w') = black_lines (artists w) /\
  sum_black (artists w') = sum_black (artists w) /\
  sum_red (artists w') = sum_red (artists w) /\
  labels_real (artists w') = labels_real (artists w) /\
  labels_basis (artists w') = labels_basis (artists w).
Proof.
  unfold red_line_do. intros Hdo. bind_inv Hdo. subst w'. simpl. auto 10.
Qed.

Lemma label_real_do_spec (name : string) (f : Label F -> Label F) (w w' : @World F C D) :
  label_real_do name f w = Some w' ->
  signals w' = signals w /\
  dict_modify (labels_real (artists w)) name f = Some (labels_real (artists w')) /\
  black_lines (artists w') = black_lines (artists w) /\
  red_lines (artists w') = red_lines (artists w) /\
  sum_black (artists w') = sum_black (artists w) /\
  sum_red (artists w') = sum_red (artists w) /\
  labels_basis (artists w') = labels_basis (artists w).
Proof.
  unfold label_real_do. intros Hdo. bind_inv Hdo. subst w'. simpl. auto 10.
Qed.

Lemma label_basis_do_spec (name : string) (f : Label F -> Label F) (w w' : @World F C D) :
  label_basis_do name f w = Some w' ->
  signals w' = signals w /\
  dict_modify (labels_basis (artists w)) name f = Some (labels_basis (artists w')) /\
  black_lines (artists w') = black_lines (artists w) /\
  red_lines (artists w') = red_lines (artists w) /\
  sum_black (artists w') = sum_black (artists w) /\
  sum_red (artists w') = sum_red (artists w) /\
  labels_real (artists w') = labels_real (artists w).
Proof.
  unfold label_basis_do. intros Hdo. bind_inv Hdo. subst w'. simpl. auto 10.
Qed.

(** A loop whose body keeps a relation keeps it. *)
Lemma for_each_keeps {A S : Type} (P : S -> S -> Prop) (body : A -> S -> option S) :
  (forall s, P s s) ->
  (forall s1 s2 s3, P s1 s2 -> P s2 s3 -> P s1 s3) ->
  forall xs : list A,
    (forall x s s', In x xs -> body x s = Some s' -> P s s') ->
    forall s s', for_each xs body s = Some s' -> P s s'.
Proof.
  intros Hrefl Htrans xs. induction xs as [| x rest IH]; intros Hbody s s' Hrun.
  - simpl in Hrun. injection Hrun as <-. apply Hrefl.
  - simpl in Hrun. destruct (body x s) as [s1 |] eqn:Hx; [| discriminate].
    simpl in Hrun. apply (Htrans s s1 s').
    + apply (Hbody x); [left; reflexivity | exact Hx].
    + apply IH; [| exact Hrun]. intros y t t' Hy. apply Hbody. right. exact Hy.
Qed.

(** *** No block writes to the signal arrays *)

Ltac setters_keep_signals :=
  repeat match goal with
         | H : black_line_do _ _ _ = Some _ |- _ =>
             apply black_line_do_spec in H; destruct H as [H _]
         | H : red_line_do _ _ _ = Some _ |- _ =>
             apply red_line_do_spec in H; destruct H as [H _]
         | H : label_real_do _ _ _ = Some _ |- _ =>
             apply label_real_do_spec in H; destruct H as [H _]
         | H : label_basis_do _ _ _ = Some _ |- _ =>
             apply label_basis_do_spec in H; destruct H as [H _]
         end;
  congruence.

Lemma reveal_one_signals (k : Z) (entry : Z * (string * D)) (w w' : @World F C D) :
  reveal_one script k entry w = Some w' -> signals w' = signals w.
Proof.
  destruct entry as [i [name data]]. unfold reveal_one.
  destruct (i <=? k)%Z; intros Hrun.
  - bind_inv Hrun. setters_keep_signals.
  - congruence.
Qed.

Lemma hide_one_signals (n : string) (w w' : @World F C D) :
  hide_one n w = Some w' -> signals w' = signals w.
Proof.
  unfold hide_one. intros Hrun. bind_inv Hrun. setters_keep_signals.
Qed.

Lemma basis_one_signals (entry : Z * (string * D)) (w w' : @World F C D) :
  basis_one script entry w = Some w' -> signals w' = signals w.
Proof.
  destruct entry as [i [name data]]. unfold basis_one. intros Hrun. bind_inv Hrun.
  setters_keep_signals.
Qed.

Lemma scale_one_signals (s : F) (entry : Z * (string * D)) (w w' : @World F C D) :
  scale_one script s entry w = Some w' -> signals w' = signals w.
Proof.
  destruct entry as [i [name data]]. unfold scale_one. intros Hrun. bind_inv Hrun.
  setters_keep_signals.
Qed.

Lemma loop_signals {A : Type} (body : A -> @World F C D -> option (@World F C D)) (xs : list A) :
  (forall x w w', body x w = Some w' -> signals w' = signals w) ->
  forall w w', for_each xs body w = Some w' -> signals w' = signals w.
Proof.
  intros Hbody.
  apply (for_each_keeps (fun w w' : @World F C D => signals w' = signals w)).
  - reflexivity.
  - intros s1 s2 s3 H12 H23. congruence.
  - intros x s s' _. apply Hbody.
Qed.

Lemma block_signals (ph : Phase) (phase : F) (w w' : @World F C D) :
  block script ph phase w = Some w' -> signals w' = signals w.
Proof.
  destruct ph; simpl; intros Hrun.
  - unfold reveal_components in Hrun. bind_inv Hrun.
    apply (loop_signals _ _ (reveal_one_signals z) _ _ Hrun).
  - unfold show_sum in Hrun.
    apply (loop_signals _ _ hide_one_signals) in Hrun. exact Hrun.
  - apply (loop_signals _ _ basis_one_signals _ _ Hrun).
  - apply (loop_signals _ _ (scale_one_signals (scale_factor phase)) _ _ Hrun).
  - unfold show_fit in Hrun. bind_inv Hrun. subst w'. reflexivity.
Qed.

Lemma when_signals (ph : Phase) (phase : F) (w w' : @World F C D) :
  when script ph phase w = Some w' -> signals w' = signals w.
Proof.
  unfold when. destruct (guard ph phase).
  - apply block_signals.
  - congruence.
Qed.

Lemma update_signals (frames frame : Z) (w w' : @World F C D) :
  update script frames frame w = Some w' -> signals w' = signals w.
Proof.
  unfold update. intros Hrun. bind_inv Hrun.
  apply when_signals in E, E0, E1, E2, Hrun. congruence.
Qed.

Lemma run_signals (frames : Z) (fs : list Z) (w w' : @World F C D) :
  for_each fs (update script frames) w = Some w' -> signals w' = signals w.
Proof.
  apply loop_signals. intros x. apply update_signals.
Qed.

End Setters.

(** ** What the reveal loop and the scaling loop draw *)

Lemma dict_modify_was_there {V : Type} (d d' : dict V) (k : string) (f : V -> V) :
  dict_modify d k f = Some d' -> exists v, dict_get d k = Some v.
Proof.
  revert d'. induction d as [| [k0 v0] rest IH]; simpl; intros d' Hmod; [discriminate |].
  destruct (String.eqb k0 k).
  - eauto.
  - destruct (dict_modify rest k f) as [rest' |] eqn:Hrest; [| discriminate].
    apply (IH rest'). reflexivity.
Qed.

Lemma in_enumerate_from {A : Type} (xs : list A) (i0 i : Z) (x : A) :
  In (i, x) (enumerate_from i0 xs) -> In x xs /\ (i0 <= i)%Z.
Proof.
  revert i0. induction xs as [| y rest IH]; simpl; intros i0 Hin; [contradiction |].
  destruct Hin as [Heq | Hin].
  - injection Heq as <- <-. split; [left; reflexivity | lia].
  - destruct (IH _ Hin) as [Hx Hi]. split; [right; exact Hx | lia].
Qed.

Lemma for_each_cons {A S : Type} (x : A) (xs : list A) (body : A -> S -> option S) (s : S) :
  for_each (x :: xs) body s = bind (body x s) (for_each xs body).
Proof. reflexivity. Qed.

Section Loops.
Context {F C D : Type} `{PyFloat F} `{Dtype F C}.
Variable script : Script F C D.

(** One pass of the body of the reveal loop. *)
Lemma reveal_one_effect (k i : Z) (name : string) (data : D) (w w' : @World F C D) :
  reveal_one script k (i, (name, data)) w = Some w' ->
  signals w' = signals w /\
  (forall n,
      dict_get (black_lines (artists w')) n
      = if (i <=? k)%Z && String.eqb name n
        then option_map (fun fid => {| xdata := axis (signals w); ydata := np_real fid |})
                        (dict_get (real_fids (signals w)) n)
        else dict_get (black_lines (artists w)) n) /\
  ((i <=? k)%Z = true -> exists fid, dict_get (real_fids (signals w)) name = Some fid).
Proof.
  intros Hrun. split; [exact (reveal_one_signals script k _ w w' Hrun) |].
  unfold reveal_one in Hrun. destruct (i <=? k)%Z eqn:Hik.
  - bind_inv Hrun.
    apply black_line_do_spec in E0. destruct E0 as [Hs0 [Hmod [_ _]]].
    apply label_real_do_spec in E2. destruct E2 as [_ [_ [Hb2 _]]].
    apply label_real_do_spec in Hrun. destruct Hrun as [_ [_ [Hb3 _]]].
    split.
    + intros n. rewrite Hb3, Hb2. rewrite (dict_modify_get _ _ _ _ Hmod n). simpl.
      destruct (String.eqb_spec name n) as [<- | Hne]; [| reflexivity].
      destruct (dict_modify_was_there _ _ _ _ Hmod) as [old ->].
      rewrite E. reflexivity.
    + intros _. eauto.
  - injection Hrun as <-. split; [intros n; reflexivity | intros Habs; discriminate Habs].
Qed.

Lemma reveal_loop_effect (k : Z) (entries : list (Z * (string * D))) :
  forall w w' : @World F C D,
    for_each entries (reveal_one script k) w = Some w' ->
    signals w' = signals w /\
    (forall n,
        dict_get (black_lines (artists w')) n
        = if touched k entries n
          then option_map (fun fid => {| xdata := axis (signals w); ydata := np_real fid |})
                          (dict_get (real_fids (signals w)) n)
          else dict_get (black_lines (artists w)) n) /\
    (forall n, touched k entries n = true ->
               exists fid, dict_get (real_fids (signals w)) n = Some fid).
Proof.
  induction entries as [| [i [name data]] rest IH]; intros w w' Hrun.
  - simpl in Hrun. injection Hrun as <-. split; [reflexivity |]. split.
    + intros n. reflexivity.
    + intros n Ht. discriminate Ht.
  - rewrite for_each_cons in Hrun.
    destruct (reveal_one script k (i, (name, data)) w) as [w1 |] eqn:Hstep; [| discriminate].
    simpl in Hrun.
    destruct (reveal_one_effect k i name data w w1 Hstep) as [Hs1 [Hget1 Hfid1]].
    destruct (IH w1 w' Hrun) as [Hs' [Hget' Hfid']].
    split; [congruence |]. split.
    + intros n. rewrite Hget', Hget1, Hs1. simpl.
      destruct (touched k rest n).
      * rewrite orb_true_r. reflexivity.
      * rewrite orb_false_r. reflexivity.
    + intros n Ht. simpl in Ht. apply orb_true_iff in Ht. destruct Ht as [Ht | Ht].
      * apply andb_true_iff in Ht. destruct Ht as [Hik Hn].
        apply String.eqb_eq in Hn. subst n. apply Hfid1. exact Hik.
      * rewrite <- Hs1. apply Hfid'. exact Ht.
Qed.

Lemma touched_of_entry (k : Z) (entries : list (Z * (string * D)))
      (i : Z) (name : string) (data : D) :
  In (i, (name, data)) entries -> (i <= k)%Z -> touched k entries name = true.
Proof.
  intros Hin Hik. unfold touched. apply existsb_exists.
  exists (i, (name, data)). split; [exact Hin |]. simpl.
  apply andb_true_iff. split; [apply Z.leb_le; exact Hik | apply String.eqb_refl].
Qed.

Lemma enumerate_from_names {A : Type} (items : dict A) (i0 i : Z) (name : string) (data : A) :
  In (i, (name, data)) (enumerate_from i0 items) -> In name (keys items).
Proof.
  intros Hin. apply in_enumerate_from in Hin. destruct Hin as [Hin _].
  unfold keys. apply in_map_iff. exists (name, data). split; [reflexivity | exact Hin].
Qed.


(** One pass of the body of the scaling loop, and the whole loop over the
    items of a dict. *)
Lemma scale_one_effect (s : F) (i : Z) (name : string) (data : D) (w w' : @World F C D) :
  scale_one script s (i, (name, data)) w = Some w' ->
  signals w' = signals w /\
  (exists basis,
      dict_get (basis_fids (signals w)) name = Some basis /\
      forall n,
        dict_get (red_lines (artists w')) n
        = if String.eqb name n
          then Some {| xdata := axis (signals w);
                       ydata := scaled_basis basis (conc_of script data) s |}
          else dict_get (red_lines (artists w)) n).
Proof.
  intros Hrun. split; [exact (scale_one_signals script s _ w w' Hrun) |].
  unfold scale_one in Hrun. bind_inv Hrun.
  apply red_line_do_spec in E0. destruct E0 as [Hs0 [Hmod _]].
  apply label_basis_do_spec in E2. destruct E2 as [_ [_ [_ [Hr2 _]]]].
  apply label_basis_do_spec in Hrun. destruct Hrun as [_ [_ [_ [Hr3 _]]]].
  exists l. split; [reflexivity |].
  intros n. rewrite Hr3, Hr2. rewrite (dict_modify_get _ _ _ _ Hmod n).
  destruct (String.eqb_spec name n) as [<- | Hne]; [| reflexivity].
  destruct (dict_modify_was_there _ _ _ _ Hmod) as [old ->]. reflexivity.
Qed.

Lemma scale_loop_elsewhere (s : F) (entries : list (Z * (string * D))) (n : string) :
  ~ In n (map (fun e => fst (snd e)) entries) ->
  forall w w' : @World F C D,
    for_each entries (scale_one script s) w = Some w' ->
    dict_get (red_lines (artists w')) n = dict_get (red_lines (artists w)) n.
Proof.
  induction entries as [| [i [name data]] rest IH]; intros Hnot w w' Hrun.
  - simpl in Hrun. injection Hrun as <-. reflexivity.
  - rewrite for_each_cons in Hrun.
    destruct (scale_one script s (i, (name, data)) w) as [w1 |] eqn:Hstep; [| discriminate].
    simpl in Hrun, Hnot.
    destruct (scale_one_effect s i name data w w1 Hstep) as [_ [basis [_ Hget]]].
    rewrite (IH (fun Hin => Hnot (or_intror Hin)) w1 w' Hrun), Hget.
    destruct (String.eqb_spec name n) as [-> | Hne]; [| reflexivity].
    exfalso. apply Hnot. left. reflexivity.
Qed.

Lemma scale_loop_effect (s : F) (entries : list (Z * (string * D))) :
  NoDup (map (fun e => fst (snd e)) entries) ->
  forall w w' : @World F C D,
    for_each entries (scale_one script s) w = Some w' ->
    forall i name data,
      In (i, (name, data)) entries ->
      exists basis,
        dict_get (basis_fids (signals w)) name = Some basis /\
        dict_get (red_lines (artists w')) name
        = Some {| xdata := axis (signals w);
                  ydata := scaled_basis basis (conc_of script data) s |}.
Proof.
  induction entries as [| [i0 [name0 data0]] rest IH]; intros Hnd w w' Hrun i name data Hin;
    [contradiction |].
  rewrite for_each_cons in Hrun.
  simpl in Hnd. inversion Hnd as [| ? ? Hfresh Hnd']; subst.
  destruct (scale_one script s (i0, (name0, data0)) w) as [w1 |] eqn:Hstep; [| discriminate].
  simpl in Hrun.
  destruct (scale_one_effect s i0 name0 data0 w w1 Hstep) as [Hs1 [basis [Hb Hget]]].
  destruct Hin as [Heq | Hin].
  - injection Heq as <- <- <-. exists basis. split; [exact Hb |].
    rewrite (scale_loop_elsewhere s rest name0 Hfresh w1 w' Hrun), Hget.
    rewrite String.eqb_refl. reflexivity.
  - destruct (IH Hnd' w1 w' Hrun i name data Hin) as [b [Hb' Hline]].
    exists b. rewrite <- Hs1. split; assumption.
Qed.

Lemma enumerate_from_keys {A : Type} (items : dict A) (i0 : Z) :
  map (fun e => fst (snd e)) (enumerate_from i0 items) = keys items.
Proof.
  revert i0. induction items as [| [n d] rest IH]; simpl; intros i0; [reflexivity |].
  f_equal. apply IH.
Qed.

End Loops.

(** ** C6: the reveal index *)

Lemma R_reveal_index (p : R) (n : Z) :
  (0 <= p)%R -> (0 <= n)%Z ->
  reveal_index p n = Some (Int_part (p / lit 3 10 * IZR n)).
Proof.
  intros Hp Hn. unfold reveal_index, lit. simpl. f_equal. apply R_int_nonneg.
  assert (Hn' : (0 <= IZR n)%R) by (apply IZR_le; exact Hn).
  apply Rmult_le_pos; [| exact Hn'].
  apply Rmult_le_pos; [exact Hp |]. apply Rlt_le, Rinv_0_lt_compat. lra.
Qed.










(** ** C7: the scale factor *)

Lemma R_scale_factor (p : R) : scale_factor p = ((p - 65 / 100) / (25 / 100))%R.
Proof. reflexivity. Qed.

Lemma R_scale_in_unit (p : R) :
  (lit 65 100 <= p)%R -> (p < lit 9 10)%R ->
  (0 <= scale_factor p)%R /\ (scale_factor p < 1)%R.
Proof.
  rewrite !R_lit, R_scale_factor. intros Hlo Hhi.
  replace ((p - 65 / 100) / (25 / 100))%R with (4 * (p - 65 / 100))%R by field.
  lra.
Qed.

Lemma b64_scale_in_unit_450 (frame : Z) :
  (0 <= frame < 450)%Z ->
  guard SCALE_BASIS (progress 450 frame : float) = true ->
  (of_int 0 <=? scale_factor (progress 450 frame : float))%py = true /\
  (scale_factor (progress 450 frame : float) <? of_int 1)%py = true.
Proof.
  intros Hf Hg.
  assert (Hx : scale_in_unit 450 frame = true).
  { apply (forallb_arange (scale_in_unit 450) 450); [vm_compute; reflexivity | exact Hf]. }
  unfold scale_in_unit in Hx. rewrite Hg in Hx. apply andb_true_iff in Hx. exact Hx.
Qed.

Lemma b64_scale_in_unit_100 (frame : Z) :
  (0 <= frame < 100)%Z ->
  guard SCALE_BASIS (progress 100 frame : float) = true ->
  (of_int 0 <=? scale_factor (progress 100 frame : float))%py = true /\
  (scale_factor (progress 100 frame : float) <? of_int 1)%py = true.
Proof.
  intros Hf Hg.
  assert (Hx : scale_in_unit 100 frame = true).
  { apply (forallb_arange (scale_in_unit 100) 100); [vm_compute; reflexivity | exact Hf]. }
  unfold scale_in_unit in Hx. rewrite Hg in Hx. apply andb_true_iff in Hx. exact Hx.
Qed.

(** The displayed samples, one by one: the real part of the basis, times
    the concentration, times [s]. *)
Lemma R_scaled_fid_samples (basis : list complex) (c : Z) (s : R) :
  scaled_basis basis c s = map (fun z => (fst z * IZR c * s)%R) basis.
Proof.
  unfold scaled_basis, np_real, times_float, times_int. rewrite !map_map.
  apply map_ext. intros [a b]. simpl. ring.
Qed.

Lemma R_scaled_spectrum_samples (basis : list R) (c : Z) (s : R) :
  scaled_basis basis c s = map (fun y => (y * IZR c * s)%R) basis.
Proof.
  unfold scaled_basis, np_real, times_float, times_int. rewrite !map_map.
  apply map_ext. intros a. reflexivity.
Qed.

Lemma b64_scaled_spectrum_samples (basis : list float) (c : Z) (s : float) :
  scaled_basis basis c s = map (fun y => ((y * of_int c) * s)%py) basis.
Proof.
  unfold scaled_basis, np_real, times_float, times_int. rewrite !map_map.
  apply map_ext. intros a. reflexivity.
Qed.

(** The red line of a species after the scaling block of either script,
    over the reals. *)
Lemma time_domain_scaled_line (p : R) (w w' : World) :
  is_dict (molecules (signals w)) ->
  block TimeDomain.script SCALE_BASIS p w = Some w' ->
  forall i name data,
    In (i, (name, data)) (enumerate (molecules (signals w))) ->
    exists basis,
      dict_get (basis_fids (signals w)) name = Some basis /\
      dict_get (red_lines (artists w')) name
      = Some {| xdata := axis (signals w);
                ydata := map (fun z => (fst z * IZR (TimeDomain.conc data)
                                        * ((p - 65 / 100) / (25 / 100)))%R) basis |}.
Proof.
  intros Hd Hrun i name data Hin. simpl in Hrun. unfold scale_basis in Hrun.
  destruct (scale_loop_effect TimeDomain.script (scale_factor p) _
              ltac:(unfold enumerate; rewrite enumerate_from_keys; exact Hd)
              w w' Hrun i name data Hin) as (basis & Hb & Hline).
  exists basis. split; [exact Hb |]. rewrite Hline.
  cbn [conc_of TimeDomain.script].
  rewrite (R_scaled_fid_samples basis (TimeDomain.conc data) (scale_factor p)).
  reflexivity.
Qed.

Lemma spectral_scaled_line (p : R) (w w' : World) :
  is_dict (molecules (signals w)) ->
  block Spectral.script SCALE_BASIS p w = Some w' ->
  forall i name data,
    In (i, (name, data)) (enumerate (molecules (signals w))) ->
    exists basis,
      dict_get (basis_fids (signals w)) name = Some basis /\
      dict_get (red_lines (artists w')) name
      = Some {| xdata := axis (signals w);
                ydata := map (fun y => (y * IZR (Spectral.conc data)
                                        * ((p - 65 / 100) / (25 / 100)))%R) basis |}.
Proof.
  intros Hd Hrun i name data Hin. simpl in Hrun. unfold scale_basis in Hrun.
  destruct (scale_loop_effect Spectral.script (scale_factor p) _
              ltac:(unfold enumerate; rewrite enumerate_from_keys; exact Hd)
              w w' Hrun i name data Hin) as (basis & Hb & Hline).
  exists basis. split; [exact Hb |]. rewrite Hline.
  cbn [conc_of Spectral.script].
  rewrite (R_scaled_spectrum_samples basis (Spectral.conc data) (scale_factor p)).
  reflexivity.
Qed.

(** C7.  In the scaling phase the local scale factor is
    [s = (p - 0.65)/0.25] and lies in [[0,1)]: over the reals for every
    [0.65 <= p < 0.90], where it is [0] at [p = 0.65] and grows by
    [(p2 - p1)/0.25]; in binary64 for every frame of the phase in a
    450-frame and in a 100-frame run (frame 89 of 100 gives the float
    [0.96]).  The block sets the red line of every species to
    [np.real(basis * conc * s)] over the axis.  Sample by sample that is,
    over the reals, the real part of the basis times the concentration
    times [s], in the time-domain and in the spectral script: zero at
    [s = 0], linear in [s], and [s] times the fully concentration-scaled
    basis; in binary64 the spectral samples are [(y * conc) * s], in that
    order. *)
Theorem scale_basis_ramp :
  (forall p : R,
      (lit 65 100 <= p)%R -> (p < lit 9 10)%R ->
      scale_factor p = ((p - 65 / 100) / (25 / 100))%R /\
      (0 <= scale_factor p)%R /\ (scale_factor p < 1)%R) /\
  (scale_factor (lit 65 100 : R) = 0%R /\
   forall p1 p2 : R, (scale_factor p2 - scale_factor p1 = (p2 - p1) / (25 / 100))%R) /\
  (forall frame : Z,
      (0 <= frame < 450)%Z ->
      guard SCALE_BASIS (progress 450 frame : float) = true ->
      (of_int 0 <=? scale_factor (progress 450 frame : float))%py = true /\
      (scale_factor (progress 450 frame : float) <? of_int 1)%py = true) /\
  (forall frame : Z,
      (0 <= frame < 100)%Z ->
      guard SCALE_BASIS (progress 100 frame : float) = true ->
      (of_int 0 <=? scale_factor (progress 100 frame : float))%py = true /\
      (scale_factor (progress 100 frame : float) <? of_int 1)%py = true) /\
  (guard SCALE_BASIS (progress 100 89 : float) = true /\
   scale_factor (progress 100 89 : float) = lit 96 100) /\
  (forall (F C D : Type) (PF : PyFloat F) (DT : Dtype F C) (script : Script F C D)
          (p : F) (w w' : World),
      is_dict (molecules (signals w)) ->
      block script SCALE_BASIS p w = Some w' ->
      forall i name data,
        In (i, (name, data)) (enumerate (molecules (signals w))) ->
        exists basis,
          dict_get (basis_fids (signals w)) name = Some basis /\
          dict_get (red_lines (artists w')) name
          = Some {| xdata := axis (signals w);
                    ydata := np_real (times_float (times_int basis (conc_of script data))
                                                  (scale_factor p)) |}) /\
  (forall (p : R) (w w' : World),
      is_dict (molecules (signals w)) ->
      block TimeDomain.script SCALE_BASIS p w = Some w' ->
      forall i name data,
        In (i, (name, data)) (enumerate (molecules (signals w))) ->
        exists basis,
          dict_get (basis_fids (signals w)) name = Some basis /\
          dict_get (red_lines (artists w')) name
          = Some {| xdata := axis (signals w);
                    ydata := map (fun z => (fst z * IZR (TimeDomain.conc data)
                                            * ((p - 65 / 100) / (25 / 100)))%R)
                                 basis |}) /\
  (forall (p : R) (w w' : World),
      is_dict (molecules (signals w)) ->
      block Spectral.script SCALE_BASIS p w = Some w' ->
      forall i name data,
        In (i, (name, data)) (enumerate (molecules (signals w))) ->
        exists basis,
          dict_get (basis_fids (signals w)) name = Some basis /\
          dict_get (red_lines (artists w')) name
          = Some {| xdata := axis (signals w);
                    ydata := map (fun y => (y * IZR (Spectral.conc data)
                                            * ((p - 65 / 100) / (25 / 100)))%R)
                                 basis |}) /\
  (forall (basis : list complex) (c : Z) (s : R),
      np_real (times_float (times_int basis c) s)
      = map (fun z => (fst z * IZR c * s)%R) basis /\
      np_real (times_int basis c) = map (fun z => (fst z * IZR c)%R) basis) /\
  (forall (basis : list R) (c : Z) (s : R),
      np_real (times_float (times_int basis c) s)
      = map (fun y => (y * IZR c * s)%R) basis /\
      np_real (times_int basis c) = map (fun y => (y * IZR c)%R) basis) /\
  (forall (basis : list float) (c : Z) (s : float),
      np_real (times_float (times_int basis c) s)
      = map (fun y => ((y * of_int c) * s)%py) basis) /\
  np_real (times_float (times_int [2; 1]%float 3) (lit 5 10)) = [3; 1.5]%float.
Proof.
  split; [| split; [| split; [| split; [| split; [| split; [| split; [| split;
    [| split; [| split; [| split]]]]]]]]]].
  - intros p Hlo Hhi. split; [apply R_scale_factor | apply R_scale_in_unit; assumption].
  - split.
    + rewrite R_scale_factor, R_lit. field.
    + intros p1 p2. rewrite !R_scale_factor. field.
  - exact b64_scale_in_unit_450.
  - exact b64_scale_in_unit_100.
  - split; vm_compute; reflexivity.
  - intros F C D PF DT script p w w' Hd Hrun i name data Hin.
    simpl in Hrun. unfold scale_basis in Hrun.
    refine (scale_loop_effect script (scale_factor p) _ _ w w' Hrun i name data Hin).
    unfold enumerate. rewrite enumerate_from_keys. exact Hd.
  - exact time_domain_scaled_line.
  - exact spectral_scaled_line.
  - intros basis c s. split; [exact (R_scaled_fid_samples basis c s) |].
    unfold np_real, times_int. rewrite map_map. apply map_ext.
    intros [a b]. simpl. ring.
  - intros basis c s. split; [exact (R_scaled_spectrum_samples basis c s) |].
    unfold np_real, times_int. rewrite map_map. apply map_ext.
    intros a. reflexivity.
  - exact b64_scaled_spectrum_samples.
  - vm_compute. reflexivity.
Qed.

(** ** [np.max] over the reals *)

Lemma R_is_nan (x : R) : is_nan x = false.
Proof.
  unfold is_nan. simpl. destruct (Rle_dec x x) as [_ | Hn]; [reflexivity |].
  exfalso. apply Hn. apply Rle_refl.
Qed.

Lemma R_np_maximum (m x : R) : np_maximum m x = Rmax m x.
Proof.
  unfold np_maximum. rewrite !R_is_nan. simpl.
  unfold Rmax. destruct (Rlt_dec m x), (Rle_dec m x); try reflexivity; lra.
Qed.

Lemma R_fold_maximum (rest : list R) (x : R) :
  let m := fold_left np_maximum rest x in
  (m = x \/ In m rest) /\ (x <= m)%R /\ Forall (fun y => (y <= m)%R) rest.
Proof.
  revert x. induction rest as [| y rest IH]; intros x; simpl.
  - split; [left; reflexivity |]. split; [apply Rle_refl | constructor].
  - rewrite R_np_maximum.
    destruct (IH (Rmax x y)) as [Hin [Hle Hall]].
    pose proof (Rmax_l x y) as Hl. pose proof (Rmax_r x y) as Hr.
    split; [| split].
    + destruct Hin as [Heq | Hin].
      * rewrite Heq. unfold Rmax. destruct (Rle_dec x y); [right; left | left]; reflexivity.
      * right. right. exact Hin.
    + lra.
    + constructor; [lra | exact Hall].
Qed.

Lemma R_np_max_spec (a : list R) (m : R) :
  np_max a = Some m -> In m a /\ Forall (fun y => (y <= m)%R) a.
Proof.
  destruct a as [| x rest]; simpl; [discriminate |].
  intros Hm. injection Hm as <-.
  destruct (R_fold_maximum rest x) as [Hin [Hle Hall]].
  split.
  - destruct Hin as [-> | Hin]; [left; reflexivity | right; exact Hin].
  - constructor; assumption.
Qed.

Lemma np_max_nonempty {F : Type} `{PyFloat F} (a : list F) :
  a <> [] -> exists m, np_max a = Some m.
Proof. destruct a as [| x rest]; [congruence | intros _; simpl; eauto]. Qed.

(** The largest of a list of reals is determined by membership and
    domination. *)
Lemma R_np_max_unique (a : list R) (m : R) :
  In m a -> Forall (fun y => (y <= m)%R) a -> np_max a = Some m.
Proof.
  intros Hin Hall.
  destruct (np_max_nonempty a) as [m' Hm'].
  { intros ->. contradiction. }
  destruct (R_np_max_spec a m' Hm') as [Hin' Hall'].
  rewrite Forall_forall in Hall, Hall'.
  pose proof (Hall m' Hin'). pose proof (Hall' m Hin).
  rewrite Hm'. f_equal. lra.
Qed.

(** ** C2: the basis peaks at one *)

Lemma Cabs_nonneg (z : complex) : (0 <= Cabs z)%R.
Proof. apply sqrt_pos. Qed.

Lemma Cabs_positive (z : complex) : z <> (0%R, 0%R) -> (0 < Cabs z)%R.
Proof.
  destruct z as [a b]. intros Hz. unfold Cabs. simpl. apply sqrt_lt_R0.
  destruct (Req_dec a 0) as [-> | Ha].
  - destruct (Req_dec b 0) as [-> | Hb]; [congruence | nra].
  - nra.
Qed.

(** Dividing by a positive real, promoted to [complex128], divides the
    modulus. *)
Lemma Cabs_Cdiv_real (z : complex) (m : R) :
  (0 < m)%R -> Cabs (Cdiv z (c_of_float m)) = (Cabs z / m)%R.
Proof.
  destruct z as [a b]. intros Hm. unfold Cabs, Cdiv. simpl.
  replace ((a * m + b * 0) / (m * m + 0 * 0))%R with (a / m)%R by (field; lra).
  replace ((b * m - a * 0) / (m * m + 0 * 0))%R with (b / m)%R by (field; lra).
  replace (a / m * (a / m) + b / m * (b / m))%R with ((a * a + b * b) / (m * m))%R
    by (field; lra).
  rewrite sqrt_div_alt by nra.
  rewrite sqrt_square by lra. reflexivity.
Qed.

Lemma peak_of_scaled (xs : list R) (m : R) :
  (0 < m)%R -> np_max xs = Some m ->
  np_max (map (fun x => (x / m)%R) xs) = Some 1%R.
Proof.
  intros Hm Hmax. destruct (R_np_max_spec xs m Hmax) as [Hin Hall].
  apply R_np_max_unique.
  - apply in_map_iff. exists m. split; [field; lra | exact Hin].
  - rewrite Forall_forall in *. intros y Hy. apply in_map_iff in Hy.
    destruct Hy as [x [<- Hx]]. specialize (Hall x Hx).
    apply (Rmult_le_reg_r m); [exact Hm |].
    replace (x / m * m)%R with x by (field; lra). lra.
Qed.

Lemma peak_is_positive (xs : list R) (m : R) :
  Forall (fun x => (0 <= x)%R) xs -> Exists (fun x => x <> 0%R) xs ->
  np_max xs = Some m -> (0 < m)%R.
Proof.
  intros Hpos Hex Hmax. destruct (R_np_max_spec xs m Hmax) as [_ Hall].
  rewrite Forall_forall in Hpos, Hall. apply Exists_exists in Hex.
  destruct Hex as [x [Hx Hne]]. specialize (Hpos x Hx). specialize (Hall x Hx). lra.
Qed.

Lemma time_domain_peak (fid : list complex) :
  Exists (fun z => z <> (0%R, 0%R)) fid ->
  exists basis,
    peak_normalize fid = Some basis /\ np_max (map Cabs basis) = Some 1%R.
Proof.
  intros Hex. unfold peak_normalize.
  destruct (np_max_nonempty (map Cabs fid)) as [m Hm].
  { destruct fid; [inversion Hex | discriminate]. }
  rewrite Hm. simpl.
  assert (Hpos : (0 < m)%R).
  { apply (peak_is_positive (map Cabs fid)); [| | exact Hm].
    - apply Forall_forall. intros x Hx. apply in_map_iff in Hx.
      destruct Hx as [z [<- _]]. apply Cabs_nonneg.
    - apply Exists_exists in Hex. destruct Hex as [z [Hz Hne]].
      apply Exists_exists. exists (Cabs z). split; [apply in_map; exact Hz |].
      pose proof (Cabs_positive z Hne). lra. }
  eexists. split; [reflexivity |].
  rewrite map_map.
  rewrite (map_ext _ (fun z => (Cabs z / m)%R)) by (intros z; apply Cabs_Cdiv_real, Hpos).
  rewrite <- (map_map Cabs (fun x => (x / m)%R)).
  apply peak_of_scaled; assumption.
Qed.

Lemma spectral_peak (spec : list R) :
  Forall (fun x => (0 <= x)%R) spec -> Exists (fun x => x <> 0%R) spec ->
  exists basis,
    spectrum_normalize spec = Some basis /\ np_max (map Rabs basis) = Some 1%R.
Proof.
  intros Hpos Hex. unfold spectrum_normalize.
  destruct (np_max_nonempty spec) as [m Hm].
  { destruct spec; [inversion Hex | discriminate]. }
  rewrite Hm. simpl.
  pose proof (peak_is_positive spec m Hpos Hex Hm) as Hm0.
  eexists. split; [reflexivity |].
  rewrite map_map.
  rewrite (map_ext_in _ (fun x => (x / m)%R)).
  - apply peak_of_scaled; assumption.
  - intros x Hx. rewrite Forall_forall in Hpos. specialize (Hpos x Hx).
    apply Rabs_pos_eq. apply Rmult_le_pos; [exact Hpos |].
    apply Rlt_le, Rinv_0_lt_compat, Hm0.
Qed.

Lemma spectrum_nonneg (x : list complex) : Forall (fun y => (0 <= y)%R) (spectrum x).
Proof.
  unfold spectrum. apply Forall_forall. intros y Hy. apply in_map_iff in Hy.
  destruct Hy as [z [<- _]]. apply Cabs_nonneg.
Qed.

(** C2.  Idealised in real arithmetic: the basis the build loop derives
    for a species peaks at exactly one.  In the time-domain script, where
    [basis = fid / np.max(np.abs(fid))], the largest modulus of the basis
    is [1] whenever the FID has a nonzero sample; in the spectral script,
    where [basis = spec/spec.max()] for the magnitude spectrum [spec] of
    the summed peaks, the largest absolute value of the basis is [1]
    whenever the spectrum has a nonzero bin. *)
Theorem basis_peak_is_one :
  (forall data : TimeDomain.Molecule,
      Exists (fun z => z <> (0%R, 0%R)) (TimeDomain.fid data) ->
      exists basis,
        basis_of TimeDomain.script data = Some basis /\
        np_max (map Cabs basis) = Some 1%R) /\
  (forall (data : Spectral.Molecule) (mol_sum : list complex),
      py_sum (Spectral.peaks data) = Some mol_sum ->
      Exists (fun x => x <> 0%R) (spectrum mol_sum) ->
      exists basis,
        basis_of Spectral.script data = Some basis /\
        np_max (map Rabs basis) = Some 1%R).
Proof.
  split.
  - intros data Hex. simpl. apply time_domain_peak. exact Hex.
  - intros data mol_sum Hsum Hex. simpl. unfold Spectral.basis_spec.
    rewrite Hsum. simpl. apply spectral_peak; [apply spectrum_nonneg | exact Hex].
Qed.

(** ** C3, C4: what the synthesizers return *)

Lemma zip_with_maps {A B E X : Type} (f : A -> B -> E) (g : X -> A) (h : X -> B) (xs : list X) :
  zip_with f (map g xs) (map h xs) = map (fun x => f (g x) (h x)) xs.
Proof. induction xs as [| x rest IH]; simpl; [reflexivity | f_equal; exact IH]. Qed.

Lemma length_zip_with {A B E : Type} (f : A -> B -> E) (a : list A) (b : list B) :
  length (zip_with f a b) = Nat.min (length a) (length b).
Proof.
  revert b. induction a as [| x a IH]; intros [| y b]; simpl; try reflexivity.
  f_equal. apply IH.
Qed.

Section Synthesis.
Variables (BW N : Z) (T2 : R).

(** One term [a*np.exp(1j*2*np.pi*f*t)], sample by sample. *)
Lemma oscillation_samples (a f : R) :
  oscillation BW N a f
  = map (fun tk => (a * cos (2 * PI * f * tk), a * sin (2 * PI * f * tk))%R) (t BW N).
Proof.
  unfold oscillation. apply map_ext. intros tk. unfold Cexp, j. simpl.
  match goal with
  | |- context [exp ?r] => replace r with 0%R by ring
  end.
  match goal with
  | |- context [cos ?i] => replace i with (2 * PI * f * tk)%R by ring
  end.
  rewrite exp_0. f_equal; ring.
Qed.

(** The loop [for ...: sig += a*np.exp(...)] from any starting signal. *)
Lemma accumulate_terms (terms : list (R * R)) (start : R -> complex) :
  fold_left (fun sig e => accumulate sig (oscillation BW N (snd e) (fst e)))
            terms (map start (t BW N))
  = map (fun tk => (fst (start tk) + fst (superposition terms tk),
                    snd (start tk) + snd (superposition terms tk))%R) (t BW N).
Proof.
  revert start. induction terms as [| [f a] rest IH]; intros start; simpl.
  - apply map_ext. intros tk. destruct (start tk) as [x y]. simpl. f_equal; ring.
  - unfold accumulate at 2. rewrite oscillation_samples, zip_with_maps.
    rewrite (IH (fun tk => c_add (start tk)
                                 (a * cos (2 * PI * f * tk), a * sin (2 * PI * f * tk))%R)).
    apply map_ext. intros tk. simpl. f_equal; ring.
Qed.

Lemma damp_samples (signal : R -> complex) :
  damp BW N T2 (map signal (t BW N)) = map (damped T2 signal) (t BW N).
Proof.
  unfold damp, decay. rewrite zip_with_maps. apply map_ext. intros tk.
  unfold damped. simpl. f_equal; ring.
Qed.

Lemma explicit_multiplet_samples (freqs amps : list R) :
  multiplet_of BW N freqs amps = map (superposition (combine freqs amps)) (t BW N).
Proof.
  unfold multiplet_of, zeros_like.
  rewrite (accumulate_terms (combine freqs amps) (fun _ => c_of_float (of_int 0))).
  apply map_ext. intros tk. unfold superposition. simpl. f_equal; ring.
Qed.

Lemma fold_left_map_terms {A X : Type} (g : A -> R * R)
      (step : list X -> R * R -> list X) (es : list A) (s0 : list X) :
  fold_left (fun sig e => step sig (g e)) es s0
  = fold_left step (map g es) s0.
Proof.
  revert s0. induction es as [| e rest IH]; intros s0; simpl; [reflexivity | apply IH].
Qed.

Lemma pattern_multiplet_samples (center : R) (pattern : list R) (J : R) :
  multiplet BW N T2 center pattern J
  = map (damped T2 (superposition (peaks_of center pattern J))) (t BW N).
Proof.
  unfold multiplet.
  rewrite <- damp_samples. f_equal.
  unfold zeros_like, peaks_of.
  rewrite (fold_left_map_terms
             (fun e : Z * R =>
                (peak_frequency center J (Z.of_nat (length pattern)) (fst e), snd e))
             (fun sig e => accumulate sig (oscillation BW N (snd e) (fst e)))
             (enumerate pattern)).
  rewrite (accumulate_terms _ (fun _ => c_of_float (of_int 0))).
  replace (map (fun e : Z * R =>
                  (peak_frequency center J (Z.of_nat (length pattern)) (fst e), snd e))
               (enumerate pattern))
    with (map (fun e : Z * R =>
                 ((center + (IZR (fst e) - (IZR (Z.of_nat (length pattern)) - 1) / 2) * J)%R,
                  snd e)) (enumerate pattern)).
  - apply map_ext. intros tk. unfold damped, superposition. simpl. f_equal; ring.
  - apply map_ext. intros [i a]. unfold peak_frequency. simpl.
    rewrite minus_IZR. reflexivity.
Qed.

End Synthesis.

Lemma nth_error_arange (n i : Z) :
  (0 <= i < n)%Z -> nth_error (arange n) (Z.to_nat i) = Some i.
Proof.
  intros Hi. unfold arange.
  rewrite nth_error_map.
  replace (nth_error (seq 0 (Z.to_nat n)) (Z.to_nat i)) with (Some (Z.to_nat i)).
  - simpl. f_equal. lia.
  - symmetry. rewrite nth_error_nth' with (d := O) by (rewrite length_seq; lia).
    f_equal. rewrite seq_nth by lia. reflexivity.
Qed.

Lemma nth_error_t (BW N i : Z) :
  (0 <= i < N)%Z -> nth_error (t BW N) (Z.to_nat i) = Some (IZR i / IZR BW)%R.
Proof.
  intros Hi. unfold t, time_axis. rewrite nth_error_map, nth_error_arange by exact Hi.
  reflexivity.
Qed.

(** A decaying envelope changes a single peak wherever time has passed. *)
Lemma damped_peak_differs (T2 tk f a : R) :
  (0 < T2)%R -> (0 < tk)%R -> a <> 0%R ->
  damped T2 (superposition [(f, a)]) tk <> superposition [(f, a)] tk.
Proof.
  intros HT2 Htk Ha Heq. unfold damped, superposition in Heq. simpl in Heq.
  injection Heq as Hcos Hsin.
  assert (Hd : (exp (- tk / T2) < 1)%R).
  { rewrite <- exp_0. apply exp_increasing.
    unfold Rdiv. rewrite <- Ropp_mult_distr_l.
    assert (0 < tk * / T2)%R by (apply Rmult_lt_0_compat; [exact Htk | apply Rinv_0_lt_compat, HT2]).
    lra. }
  set (d := exp (- tk / T2)) in *. set (theta := (2 * PI * f * tk)%R) in *.
  assert (Hzero : forall x : R, ((a * x + 0) * d = a * x + 0)%R -> x = 0%R).
  { intros x Hx.
    assert (Hprod : (a * x * (d - 1) = 0)%R).
    { replace (a * x * (d - 1))%R with ((a * x + 0) * d - (a * x + 0))%R by ring.
      rewrite Hx. ring. }
    apply Rmult_integral in Hprod. destruct Hprod as [Hax | Hd1]; [| lra].
    apply Rmult_integral in Hax. destruct Hax as [Ha0 | Hx0]; [contradiction | exact Hx0]. }
  assert (Hc : cos theta = 0%R) by (apply Hzero; exact Hcos).
  assert (Hs : sin theta = 0%R) by (apply Hzero; exact Hsin).
  pose proof (sin2_cos2 theta) as Hone. unfold Rsqr in Hone.
  rewrite Hc, Hs in Hone. lra.
Qed.

Lemma single_peak_is_damped (BW N : Z) (T2 center a J : R) :
  (2 <= N)%Z -> (0 < BW)%Z -> (0 < T2)%R -> a <> 0%R ->
  multiplet BW N T2 center [a] J
  <> map (superposition (peaks_of center [a] J)) (t BW N).
Proof.
  intros HN HBW HT2 Ha Heq.
  rewrite pattern_multiplet_samples in Heq.
  apply (f_equal (fun l => nth_error l (Z.to_nat 1))) in Heq.
  rewrite !nth_error_map, nth_error_t in Heq by lia.
  simpl in Heq. injection Heq as Hre Him.
  apply (damped_peak_differs T2 (1 / IZR BW) (center + (0 - (1 - 1) / 2) * J) a HT2).
  - apply Rmult_lt_0_compat; [lra | apply Rinv_0_lt_compat, IZR_lt, HBW].
  - exact Ha.
  - unfold damped, superposition. simpl. f_equal; assumption.
Qed.

Lemma superposition_app (ts1 ts2 : list (R * R)) (tk : R) :
  superposition (ts1 ++ ts2) tk = c_add (superposition ts1 tk) (superposition ts2 tk).
Proof.
  unfold superposition. simpl. rewrite !fold_right_app.
  induction ts1 as [| [f a] rest IH]; simpl.
  - f_equal; ring.
  - injection IH as IH1 IH2. rewrite IH1, IH2. f_equal; ring.
Qed.

Lemma sum_of_multiplets (BW N : Z) (ts1 ts2 : list (R * R)) :
  zip_with c_add (map (superposition ts1) (t BW N)) (map (superposition ts2) (t BW N))
  = map (superposition (ts1 ++ ts2)) (t BW N).
Proof.
  rewrite zip_with_maps. apply map_ext. intros tk. symmetry. apply superposition_app.
Qed.

(** The offsets of the peaks of a pattern. *)
Lemma peaks_of_nth (center : R) (pattern : list R) (J : R) (i : nat) (a : R) :
  nth_error pattern i = Some a ->
  nth_error (peaks_of center pattern J) i
  = Some ((center + (INR i - (INR (length pattern) - 1) / 2) * J)%R, a).
Proof.
  intros Hnth. unfold peaks_of, enumerate. rewrite nth_error_map.
  assert (Hgen : forall (xs : list R) (i0 : Z) (k : nat),
             nth_error xs k = Some a ->
             nth_error (enumerate_from i0 xs) k = Some ((i0 + Z.of_nat k)%Z, a)).
  { induction xs as [| x rest IH]; intros i0 [| k] Hk; simpl in *; try discriminate.
    - injection Hk as ->. do 2 f_equal. lia.
    - rewrite (IH (i0 + 1)%Z k Hk). do 2 f_equal. lia. }
  rewrite (Hgen pattern 0%Z i Hnth). simpl.
  rewrite <- !INR_IZR_INZ. reflexivity.
Qed.

(** The claim of C3 as worded fails on the singlet of molecule A: the
    array [multiplet(80,[1])] of the time-domain script is not the
    undamped superposition of its one term. *)
Lemma time_domain_singlet_is_damped :
  TimeDomain.multiplet TimeDomain.T2 80 [1%R]
  <> map (superposition (peaks_of 80 [1%R] 7)) TimeDomain.t.
Proof.
  unfold TimeDomain.multiplet, TimeDomain.t.
  apply single_peak_is_damped.
  - unfold TimeDomain.N. lia.
  - unfold TimeDomain.BW. lia.
  - unfold TimeDomain.T2. rewrite R_lit. lra.
  - lra.
Qed.

(** C3 (as the code has it).  A pattern-based multiplet with [n]
    amplitudes, center frequency [c] and coupling constant [J] puts peak
    [i] at [c + (i - (n-1)/2) J]; the offsets are symmetric about [c] and
    adjacent peaks are [J] apart.  The array it returns is, sample by
    sample over the shared time axis, the sum of [a_i exp(i 2 pi f_i t)]
    _times the envelope_ [exp(-t/T2)]: [multiplet] of the two
    basis-fitting scripts ends in [return sig*decay]. *)
Theorem multiplet_is_damped_superposition :
  forall (BW N : Z) (T2 center : R) (pattern : list R) (J : R),
    multiplet BW N T2 center pattern J
    = map (damped T2 (superposition (peaks_of center pattern J))) (t BW N) /\
    (forall (i : nat) (a : R),
        nth_error pattern i = Some a ->
        nth_error (peaks_of center pattern J) i
        = Some ((center + (INR i - (INR (length pattern) - 1) / 2) * J)%R, a)) /\
    (forall i : Z,
        peak_frequency center J (Z.of_nat (length pattern)) i
        = (center + (IZR i - (IZR (Z.of_nat (length pattern)) - 1) / 2) * J)%R) /\
    (forall i : Z,
        (peak_frequency center J (Z.of_nat (length pattern)) i - center
         = - (peak_frequency center J (Z.of_nat (length pattern))
                             (Z.of_nat (length pattern) - 1 - i) - center))%R) /\
    (forall i : Z,
        (peak_frequency center J (Z.of_nat (length pattern)) (i + 1)
         - peak_frequency center J (Z.of_nat (length pattern)) i = J)%R).
Proof.
  intros BW N T2 center pattern J.
  split; [apply pattern_multiplet_samples |].
  split; [apply peaks_of_nth |].
  unfold peak_frequency.
  split; [| split].
  - intros i. rewrite minus_IZR. reflexivity.
  - intros i. rewrite !minus_IZR. field.
  - intros i. rewrite plus_IZR. field.
Qed.

Lemma some_pair_fst {A B : Type} (a a' : A) (b b' : B) :
  Some (a, b) = Some (a', b') -> a = a'.
Proof. intros Heq. injection Heq as Ha _. exact Ha. Qed.

(** What [molecule_type] hands to the animation is a damped
    superposition. *)
Lemma molecule_type_samples (kind : Z) (fid : list complex) (title : string) :
  FidToSpectrum.molecule_type kind = Some (fid, title) ->
  exists terms,
    fid = map (damped FidToSpectrum.T2 (superposition terms)) FidToSpectrum.t.
Proof.
  unfold FidToSpectrum.molecule_type.
  unfold FidToSpectrum.multiplet, FidToSpectrum.times_decay, FidToSpectrum.t.
  rewrite !explicit_multiplet_samples, !sum_of_multiplets, !damp_samples.
  destruct (kind =? 1)%Z;
    [intros Heq; apply some_pair_fst in Heq; rewrite <- Heq; eexists; apply eq_refl |].
  destruct (kind =? 2)%Z;
    [intros Heq; apply some_pair_fst in Heq; rewrite <- Heq; eexists; apply eq_refl |].
  destruct (kind =? 3)%Z;
    [intros Heq; apply some_pair_fst in Heq; rewrite <- Heq; eexists; apply eq_refl |].
  discriminate.
Qed.

(** The claim of C4 as worded fails for the pattern-based synthesizer. *)
Lemma some_multiplet_is_damped :
  ~ (forall (center : R) (pattern : list R),
        Spectral.multiplet Spectral.T2 center pattern
        = map (superposition (peaks_of center pattern 7)) Spectral.t).
Proof.
  intros Hall. specialize (Hall 80%R [1%R]). revert Hall.
  unfold Spectral.multiplet, Spectral.t.
  apply single_peak_is_damped.
  - unfold Spectral.N. lia.
  - unfold Spectral.BW. lia.
  - unfold Spectral.T2. rewrite R_lit. lra.
  - lra.
Qed.

(** The callers of the explicit-frequency synthesizer multiply its output
    by the envelope: sample [k] of [multiplet(freqs, amps)*decay] is the
    superposition at [t_k] times [exp(-t_k/T2)]. *)
Lemma fid_to_spectrum_caller (freqs amps : list R) :
  FidToSpectrum.times_decay (FidToSpectrum.multiplet freqs amps)
  = map (damped FidToSpectrum.T2 (superposition (combine freqs amps))) FidToSpectrum.t.
Proof.
  unfold FidToSpectrum.times_decay, FidToSpectrum.multiplet, FidToSpectrum.t.
  rewrite explicit_multiplet_samples. apply damp_samples.
Qed.

Lemma concentration_caller (freqs amps : list R) :
  Concentration.times_decay (Concentration.multiplet freqs amps)
  = map (damped Concentration.T2 (superposition (combine freqs amps))) Concentration.t.
Proof.
  unfold Concentration.times_decay, Concentration.multiplet, Concentration.t.
  rewrite explicit_multiplet_samples. apply damp_samples.
Qed.

(** The FID of each molecule type, term by term. *)
Lemma molecule_type_explicit (kind : Z) (fid : list complex) (title : string) :
  FidToSpectrum.molecule_type kind = Some (fid, title) ->
  fid
  = map (damped FidToSpectrum.T2
           (superposition
              (if (kind =? 1)%Z then
                 [(80, 1); (200 - 7 / 2, 1); (200 + 7 / 2, 1)]
               else if (kind =? 2)%Z then
                 [(80, 1); (180 - 7 / 2, 1); (180 + 7 / 2, 1);
                  (300 - 7, 1); (300, 2); (300 + 7, 1)]
               else
                 [(250 - lit 15 10 * 7, 1); (250 - lit 5 10 * 7, 3);
                  (250 + lit 5 10 * 7, 3); (250 + lit 15 10 * 7, 1)])%R))
        FidToSpectrum.t.
Proof.
  unfold FidToSpectrum.molecule_type.
  unfold FidToSpectrum.multiplet, FidToSpectrum.times_decay, FidToSpectrum.t.
  rewrite !explicit_multiplet_samples, !sum_of_multiplets, !damp_samples.
  destruct (kind =? 1)%Z;
    [intros Heq; apply some_pair_fst in Heq; rewrite <- Heq; apply eq_refl |].
  destruct (kind =? 2)%Z;
    [intros Heq; apply some_pair_fst in Heq; rewrite <- Heq; apply eq_refl |].
  destruct (kind =? 3)%Z;
    [intros Heq; apply some_pair_fst in Heq; rewrite <- Heq; apply eq_refl |].
  intros Heq. discriminate Heq.
Qed.

(** The parts of each case, term by term. *)
Lemma build_case_explicit (kind : Z) :
  fst (Concentration.build_case kind)
  = map (fun terms => map (damped Concentration.T2 (superposition terms)) Concentration.t)
        ((if (1 <=? kind)%Z then [[(80, 1)]] else [])
         ++ (if (2 <=? kind)%Z then [[(200 - 7 / 2, 1); (200 + 7 / 2, 1)]] else [])
         ++ (if (3 <=? kind)%Z
             then [[(320 - lit 15 10 * 7, 1); (320 - lit 5 10 * 7, 3);
                    (320 + lit 5 10 * 7, 3); (320 + lit 15 10 * 7, 1)]]
             else []))%R.
Proof.
  unfold Concentration.build_case.
  unfold Concentration.multiplet, Concentration.times_decay, Concentration.t.
  rewrite !explicit_multiplet_samples, !damp_samples.
  destruct (1 <=? kind)%Z, (2 <=? kind)%Z, (3 <=? kind)%Z; apply eq_refl.
Qed.

(** C4 (as the code has it).  No synthesizer normalises.  The
    explicit-frequency [multiplet(freqs, amps)] of the FID-to-spectrum and
    concentration scripts returns the undamped superposition of its
    terms, and the envelope is applied afterwards by its caller: whatever
    the terms, [multiplet(freqs, amps)*decay] has the samples
    [superposition(t_k) * exp(-t_k/T2)], and so the FID of every molecule
    type and every part of every case is the damped superposition of
    exactly the terms its body lists.  The pattern-based
    [multiplet(center, pattern, J)] of the two basis-fitting scripts
    multiplies by the envelope itself before it returns. *)
Theorem where_the_envelope_is_applied :
  (forall (BW N : Z) (freqs amps : list R),
      multiplet_of BW N freqs amps
      = map (superposition (combine freqs amps)) (t BW N)) /\
  (forall freqs amps : list R,
      FidToSpectrum.times_decay (FidToSpectrum.multiplet freqs amps)
      = map (damped FidToSpectrum.T2 (superposition (combine freqs amps)))
            FidToSpectrum.t) /\
  (forall freqs amps : list R,
      Concentration.times_decay (Concentration.multiplet freqs amps)
      = map (damped Concentration.T2 (superposition (combine freqs amps)))
            Concentration.t) /\
  (forall (T2 : R) (signal : R -> complex) (tk : R),
      damped T2 signal tk
      = (fst (signal tk) * exp (- tk / T2), snd (signal tk) * exp (- tk / T2))%R) /\
  (forall (kind : Z) (fid : list complex) (title : string),
      FidToSpectrum.molecule_type kind = Some (fid, title) ->
      fid
      = map (damped FidToSpectrum.T2
               (superposition
                  (if (kind =? 1)%Z then
                     [(80, 1); (200 - 7 / 2, 1); (200 + 7 / 2, 1)]
                   else if (kind =? 2)%Z then
                     [(80, 1); (180 - 7 / 2, 1); (180 + 7 / 2, 1);
                      (300 - 7, 1); (300, 2); (300 + 7, 1)]
                   else
                     [(250 - lit 15 10 * 7, 1); (250 - lit 5 10 * 7, 3);
                      (250 + lit 5 10 * 7, 3); (250 + lit 15 10 * 7, 1)])%R))
            FidToSpectrum.t) /\
  (forall kind : Z,
      fst (Concentration.build_case kind)
      = map (fun terms =>
               map (damped Concentration.T2 (superposition terms)) Concentration.t)
            ((if (1 <=? kind)%Z then [[(80, 1)]] else [])
             ++ (if (2 <=? kind)%Z then [[(200 - 7 / 2, 1); (200 + 7 / 2, 1)]] else [])
             ++ (if (3 <=? kind)%Z
                 then [[(320 - lit 15 10 * 7, 1); (320 - lit 5 10 * 7, 3);
                        (320 + lit 5 10 * 7, 3); (320 + lit 15 10 * 7, 1)]]
                 else []))%R) /\
  (forall (BW N : Z) (T2 center : R) (pattern : list R) (J : R),
      multiplet BW N T2 center pattern J
      = damp BW N T2 (map (superposition (peaks_of center pattern J)) (t BW N))).
Proof.
  split; [exact explicit_multiplet_samples |].
  split; [exact fid_to_spectrum_caller |].
  split; [exact concentration_caller |].
  split; [reflexivity |].
  split; [exact molecule_type_explicit |].
  split; [exact build_case_explicit |].
  intros BW N T2 center pattern J.
  rewrite damp_samples. apply pattern_multiplet_samples.
Qed.

(** ** The build loop raises nothing on arrays of one shape *)

Section BuildTotal.
Context {F C D : Type} `{PyFloat F} `{Dtype F C}.
Variable script : Script F C D.

Lemma length_times_int (a : list C) (n : Z) : length (times_int a n) = length a.
Proof. unfold times_int. apply length_map. Qed.

Lemma broadcast_same_shape (acc a : list C) (len : nat) :
  length a = len -> (length acc = len \/ length acc = 1%nat) ->
  exists acc', broadcast c_add acc a = Some acc' /\ length acc' = len.
Proof.
  intros Ha Hacc. unfold broadcast.
  destruct (Nat.eqb_spec (length acc) (length a)) as [Heq | Hne].
  - eexists. split; [reflexivity |]. rewrite length_zip_with. lia.
  - destruct Hacc as [Hlen | Hone]; [congruence |].
    destruct acc as [| x [| y acc]]; simpl in Hone; try discriminate.
    eexists. split; [reflexivity |]. rewrite length_map. exact Ha.
Qed.

Lemma sum_from_same_shape (arrays : list (list C)) (len : nat) :
  Forall (fun a => length a = len) arrays ->
  forall acc, (length acc = len \/ length acc = 1%nat) ->
              exists total, sum_from acc arrays = Some total.
Proof.
  induction arrays as [| a rest IH]; intros Hall acc Hacc; simpl.
  - eauto.
  - inversion Hall as [| ? ? Ha Hrest]; subst.
    destruct (broadcast_same_shape acc a (length a) eq_refl Hacc) as [acc' [-> Hlen]].
    simpl. apply IH; [exact Hrest | left; exact Hlen].
Qed.

Lemma build_loop_total (items : dict D) :
  (forall nd, In nd items -> exists b, basis_of script (snd nd) = Some b) ->
  forall acc, exists acc', for_each items (build_step script) acc = Some acc'.
Proof.
  induction items as [| [name data] rest IH]; intros Hb acc.
  - simpl. eauto.
  - rewrite for_each_cons. unfold build_step at 1. destruct acc as [real basis].
    destruct (Hb (name, data) (or_introl eq_refl)) as [b Hbasis]. simpl in Hbasis.
    rewrite Hbasis. simpl. apply IH. intros nd Hin. apply Hb. right. exact Hin.
Qed.

Lemma build_total (axis_ : list F) (items : dict D) (len : nat) :
  is_dict items ->
  (forall nd, In nd items -> exists b, basis_of script (snd nd) = Some b) ->
  (forall nd b, In nd items -> basis_of script (snd nd) = Some b -> length b = len) ->
  exists sg, build script axis_ items = Some sg.
Proof.
  intros Hd Hsome Hlen. unfold build.
  destruct (build_loop_total items Hsome ([], [])) as [[real basis] Hloop].
  rewrite Hloop. simpl.
  destruct (build_loop_aligned script items [] real basis Hd Hloop)
    as [tr [Hitems [Hall [Hreal _]]]].
  destruct (sum_from_same_shape (values real) len) with (acc := [c_of_float (of_int 0)])
    as [total Htotal].
  - rewrite Hreal. simpl. unfold values. rewrite map_map. simpl.
    apply Forall_forall. intros a Ha. apply in_map_iff in Ha.
    destruct Ha as [[[n d] b] [<- Hin]]. simpl. rewrite length_times_int.
    rewrite Forall_forall in Hall. specialize (Hall _ Hin). simpl in Hall.
    apply (Hlen (n, d)); [| exact Hall].
    rewrite Hitems. apply in_map_iff. exists (n, d, b). split; [reflexivity | exact Hin].
  - right. reflexivity.
  - unfold py_sum. rewrite Htotal. simpl. eauto.
Qed.

End BuildTotal.

(** *** The time-domain script *)

Lemma length_t (BW N : Z) : length (t BW N) = Z.to_nat N.
Proof. unfold t, time_axis. rewrite length_map. apply length_arange. Qed.

Lemma length_multiplet (BW N : Z) (T2 center : R) (pattern : list R) (J : R) :
  length (multiplet BW N T2 center pattern J) = Z.to_nat N.
Proof. rewrite pattern_multiplet_samples, length_map. apply length_t. Qed.

Lemma peak_normalize_total (fid : list complex) :
  fid <> [] ->
  exists basis, peak_normalize fid = Some basis /\ length basis = length fid.
Proof.
  intros Hne. unfold peak_normalize.
  destruct (np_max_nonempty (map Cabs fid)) as [m ->].
  { destruct fid; [congruence | discriminate]. }
  simpl. eexists. split; [reflexivity |]. apply length_map.
Qed.

Lemma time_domain_molecules (T2_value : R) :
  TimeDomain.molecules T2_value
  = [ ("A"%string, {| TimeDomain.fid := TimeDomain.multiplet T2_value 80 [1%R];
                      TimeDomain.conc := 5 |});
      ("B"%string, {| TimeDomain.fid :=
                        zip_with c_add (TimeDomain.multiplet T2_value 140 [1%R])
                                 (TimeDomain.multiplet T2_value 200 [1%R; 1%R]);
                      TimeDomain.conc := 10 |});
      ("C"%string, {| TimeDomain.fid := TimeDomain.multiplet T2_value 260 [1%R; 2%R; 1%R];
                      TimeDomain.conc := 3 |});
      ("D"%string, {| TimeDomain.fid :=
                        TimeDomain.multiplet T2_value 320 [1%R; 3%R; 3%R; 1%R];
                      TimeDomain.conc := 12 |}) ].
Proof.
  unfold TimeDomain.molecules. apply dict_of_list_distinct.
  cbv [map fst]. repeat constructor; cbv [In]; intuition discriminate.
Qed.

Lemma time_domain_fid_length (T2_value : R) (nd : string * TimeDomain.Molecule) :
  In nd (TimeDomain.molecules T2_value) ->
  length (TimeDomain.fid (snd nd)) = Z.to_nat TimeDomain.N.
Proof.
  rewrite time_domain_molecules. unfold TimeDomain.multiplet.
  cbv [In]. intros Hin.
  repeat (destruct Hin as [<- | Hin];
          [cbv [snd TimeDomain.fid];
           rewrite ?length_zip_with, ?length_multiplet; lia |]).
  contradiction.
Qed.

Lemma time_domain_build_total (T2_value : R) :
  exists sg, build TimeDomain.script TimeDomain.t (TimeDomain.molecules T2_value) = Some sg.
Proof.
  apply (build_total TimeDomain.script TimeDomain.t (TimeDomain.molecules T2_value)
                     (Z.to_nat TimeDomain.N)).
  - apply dict_of_list_is_dict.
  - intros nd Hin. pose proof (time_domain_fid_length T2_value nd Hin) as Hlen.
    destruct (peak_normalize_total (TimeDomain.fid (snd nd))) as [b [Hb _]].
    + intros Hnil. rewrite Hnil in Hlen. unfold TimeDomain.N in Hlen. simpl in Hlen. lia.
    + exists b. exact Hb.
  - intros nd b Hin Hb. pose proof (time_domain_fid_length T2_value nd Hin) as Hlen.
    destruct (peak_normalize_total (TimeDomain.fid (snd nd))) as [b' [Hb' Hlen']].
    + intros Hnil. rewrite Hnil in Hlen. unfold TimeDomain.N in Hlen. simpl in Hlen. lia.
    + change (basis_of TimeDomain.script (snd nd)) with (peak_normalize (TimeDomain.fid (snd nd)))
        in Hb.
      congruence.
Qed.

(** A run of C1 on the script itself. *)
Lemma fitted_equals_composite_time_domain :
  exists sg,
    build TimeDomain.script TimeDomain.t (TimeDomain.molecules TimeDomain.T2) = Some sg /\
    is_dict (TimeDomain.molecules TimeDomain.T2) /\
    TimeDomain.molecules TimeDomain.T2 <> [] /\
    fitted TimeDomain.script sg = Some (real_sum sg).
Proof.
  destruct (time_domain_build_total TimeDomain.T2) as [sg Hsg].
  assert (Hd : is_dict (TimeDomain.molecules TimeDomain.T2)) by apply dict_of_list_is_dict.
  assert (Hne : TimeDomain.molecules TimeDomain.T2 <> []).
  { rewrite time_domain_molecules. discriminate. }
  exists sg. split; [exact Hsg |]. split; [exact Hd |]. split; [exact Hne |].
  exact (proj1 (fitted_equals_composite R complex TimeDomain.Molecule _ _ TimeDomain.script
                  TimeDomain.t (TimeDomain.molecules TimeDomain.T2) sg Hd Hne Hsg)).
Defined.

(** ** [update] raises nothing on the world a script builds *)

Lemma for_each_total {A S : Type} (Inv : S -> Prop) (body : A -> S -> option S)
      (xs : list A) :
  (forall x s, In x xs -> Inv s -> exists s', body x s = Some s' /\ Inv s') ->
  forall s, Inv s -> exists s', for_each xs body s = Some s' /\ Inv s'.
Proof.
  induction xs as [| x rest IH]; intros Hbody s Hs.
  - exists s. split; [reflexivity | exact Hs].
  - rewrite for_each_cons.
    destruct (Hbody x s (or_introl eq_refl) Hs) as [s1 [-> Hs1]]. simpl.
    apply IH; [| exact Hs1]. intros y t' Hy. apply Hbody. right. exact Hy.
Qed.

Section UpdateTotal.
Context {F C D : Type} `{PyFloat F} `{Dtype F C}.
Variable script : Script F C D.
Variable frames : Z.
Variable sg : @Signals F C D.

Hypothesis anchor_total :
  forall i y, length y = length (axis sg) ->
              exists pos, anchor script (axis sg) i y = Some pos.
Hypothesis real_shapes :
  forall name fid, dict_get (real_fids sg) name = Some fid -> length fid = length (axis sg).
Hypothesis basis_shapes :
  forall name fid, dict_get (basis_fids sg) name = Some fid -> length fid = length (axis sg).
Hypothesis int_total : forall x : F, exists k, int_ x = Some k.
Hypothesis fitted_total : exists y, fitted script sg = Some y.

Lemma black_line_do_total (name : string) (f : Line F -> Line F) (w : @World F C D) :
  steady sg w -> In name (keys (molecules sg)) ->
  exists w', black_line_do name f w = Some w' /\ steady sg w'.
Proof.
  intros [Hs Hwf] Hin. unfold black_line_do.
  destruct Hwf as [Hb Hrest]. rewrite Hs in Hb.
  destruct (dict_modify_of_key (black_lines (artists w)) name f (Hb name Hin)) as [d' Hd'].
  rewrite Hd'. simpl. eexists. split; [reflexivity |].
  unfold steady, well_formed. simpl.
  rewrite (dict_modify_keys _ _ _ _ Hd'), Hs in *. tauto.
Qed.

Lemma red_line_do_total (name : string) (f : Line F -> Line F) (w : @World F C D) :
  steady sg w -> In name (keys (molecules sg)) ->
  exists w', red_line_do name f w = Some w' /\ steady sg w'.
Proof.
  intros [Hs Hwf] Hin. unfold red_line_do.
  destruct Hwf as [Hb [Hr Hrest]]. rewrite Hs in Hr.
  destruct (dict_modify_of_key (red_lines (artists w)) name f (Hr name Hin)) as [d' Hd'].
  rewrite Hd'. simpl. eexists. split; [reflexivity |].
  unfold steady, well_formed. simpl.
  rewrite (dict_modify_keys _ _ _ _ Hd'), Hs in *. tauto.
Qed.

Lemma label_real_do_total (name : string) (f : Label F -> Label F) (w : @World F C D) :
  steady sg w -> In name (keys (molecules sg)) ->
  exists w', label_real_do name f w = Some w' /\ steady sg w'.
Proof.
  intros [Hs Hwf] Hin. unfold label_real_do.
  destruct Hwf as [Hb [Hr [Hlr Hrest]]]. rewrite Hs in Hlr.
  destruct (dict_modify_of_key (labels_real (artists w)) name f (Hlr name Hin)) as [d' Hd'].
  rewrite Hd'. simpl. eexists. split; [reflexivity |].
  unfold steady, well_formed. simpl.
  rewrite (dict_modify_keys _ _ _ _ Hd'), Hs in *. tauto.
Qed.

Lemma label_basis_do_total (name : string) (f : Label F -> Label F) (w : @World F C D) :
  steady sg w -> In name (keys (molecules sg)) ->
  exists w', label_basis_do name f w = Some w' /\ steady sg w'.
Proof.
  intros [Hs Hwf] Hin. unfold label_basis_do.
  destruct Hwf as [Hb [Hr [Hlr [Hlb Hrest]]]]. rewrite Hs in Hlb.
  destruct (dict_modify_of_key (labels_basis (artists w)) name f (Hlb name Hin)) as [d' Hd'].
  rewrite Hd'. simpl. eexists. split; [reflexivity |].
  unfold steady, well_formed. simpl.
  rewrite (dict_modify_keys _ _ _ _ Hd'), Hs in *. tauto.
Qed.

Lemma real_fid_exists (w : @World F C D) (name : string) :
  steady sg w -> In name (keys (molecules sg)) ->
  exists fid, dict_get (real_fids (signals w)) name = Some fid.
Proof.
  intros [Hs Hwf] Hin. destruct Hwf as [_ [_ [_ [_ [Hreal _]]]]].
  apply dict_get_of_key. apply Hreal. rewrite Hs. exact Hin.
Qed.

Lemma basis_fid_exists (w : @World F C D) (name : string) :
  steady sg w -> In name (keys (molecules sg)) ->
  exists fid, dict_get (basis_fids (signals w)) name = Some fid.
Proof.
  intros [Hs Hwf] Hin. destruct Hwf as [_ [_ [_ [_ [_ Hbasis]]]]].
  apply dict_get_of_key. apply Hbasis. rewrite Hs. exact Hin.
Qed.

Lemma reveal_one_total (k : Z) (entry : Z * (string * D)) (w : @World F C D) :
  In entry (enumerate (molecules sg)) -> steady sg w ->
  exists w', reveal_one script k entry w = Some w' /\ steady sg w'.
Proof.
  destruct entry as [i [name data]]. intros Hin Hw.
  pose proof (enumerate_from_names _ _ _ _ _ Hin) as Hname.
  unfold reveal_one. destruct (i <=? k)%Z; [| eauto].
  destruct (real_fid_exists w name Hw Hname) as [fid Hfid]. rewrite Hfid. simpl.
  rewrite (proj1 Hw) in Hfid.
  destruct (black_line_do_total name
              (set_data (axis (signals w)) (np_real fid)) w Hw Hname) as [w1 [-> Hw1]].
  simpl. rewrite (proj1 Hw1).
  destruct (anchor_total i (np_real fid)) as [pos ->].
  { unfold np_real. rewrite length_map. exact (real_shapes name fid Hfid). }
  simpl.
  destruct (label_real_do_total name (set_position pos) w1 Hw1 Hname) as [w2 [-> Hw2]].
  simpl. apply label_real_do_total; assumption.
Qed.

Lemma hide_one_total (n : string) (w : @World F C D) :
  In n (keys (molecules sg)) -> steady sg w ->
  exists w', hide_one n w = Some w' /\ steady sg w'.
Proof.
  intros Hin Hw. unfold hide_one.
  destruct (black_line_do_total n (set_data [] []) w Hw Hin) as [w1 [-> Hw1]]. simpl.
  apply label_real_do_total; assumption.
Qed.

Lemma basis_one_total (entry : Z * (string * D)) (w : @World F C D) :
  In entry (enumerate (molecules sg)) -> steady sg w ->
  exists w', basis_one script entry w = Some w' /\ steady sg w'.
Proof.
  destruct entry as [i [name data]]. intros Hin Hw.
  pose proof (enumerate_from_names _ _ _ _ _ Hin) as Hname.
  unfold basis_one.
  destruct (basis_fid_exists w name Hw Hname) as [basis Hbasis]. rewrite Hbasis. simpl.
  rewrite (proj1 Hw) in Hbasis.
  destruct (red_line_do_total name
              (set_data (axis (signals w)) (np_real basis)) w Hw Hname) as [w1 [-> Hw1]].
  simpl. rewrite (proj1 Hw1).
  destruct (anchor_total i (np_real basis)) as [pos ->].
  { unfold np_real. rewrite length_map. exact (basis_shapes name basis Hbasis). }
  simpl.
  destruct (label_basis_do_total name (set_position pos) w1 Hw1 Hname) as [w2 [-> Hw2]].
  simpl. apply label_basis_do_total; assumption.
Qed.

Lemma scale_one_total (s : F) (entry : Z * (string * D)) (w : @World F C D) :
  In entry (enumerate (molecules sg)) -> steady sg w ->
  exists w', scale_one script s entry w = Some w' /\ steady sg w'.
Proof.
  destruct entry as [i [name data]]. intros Hin Hw.
  pose proof (enumerate_from_names _ _ _ _ _ Hin) as Hname.
  unfold scale_one.
  destruct (basis_fid_exists w name Hw Hname) as [basis Hbasis]. rewrite Hbasis. simpl.
  rewrite (proj1 Hw) in Hbasis.
  destruct (red_line_do_total name
              (set_data (axis (signals w))
                        (scaled_basis basis (conc_of script data) s)) w Hw Hname)
    as [w1 [-> Hw1]].
  simpl. rewrite (proj1 Hw1).
  destruct (anchor_total i (scaled_basis basis (conc_of script data) s)) as [pos ->].
  { unfold scaled_basis, np_real, times_float, times_int. rewrite !length_map.
    exact (basis_shapes name basis Hbasis). }
  simpl.
  destruct (label_basis_do_total name (set_position pos) w1 Hw1 Hname) as [w2 [-> Hw2]].
  simpl. apply label_basis_do_total; assumption.
Qed.

Lemma block_total (ph : Phase) (phase : F) (w : @World F C D) :
  steady sg w -> exists w', block script ph phase w = Some w' /\ steady sg w'.
Proof.
  intros Hw. pose proof Hw as [Hs Hwf]. destruct ph; simpl.
  - unfold reveal_components.
    destruct (int_total ((phase / lit 3 10) *
                         of_int (Z.of_nat (length (molecules (signals w)))))%py) as [k Hk].
    unfold reveal_index. rewrite Hk. simpl. rewrite Hs.
    apply (for_each_total (steady sg)); [| exact Hw].
    intros x s Hx Hsx. apply reveal_one_total; assumption.
  - unfold show_sum.
    apply (for_each_total (steady sg)).
    + intros x s Hx Hsx. apply hide_one_total; [| exact Hsx].
      simpl in Hx. rewrite Hs in Hx. exact Hx.
    + unfold steady, well_formed, sum_black_do. simpl. split; [exact Hs | exact Hwf].
  - unfold show_basis. rewrite Hs.
    apply (for_each_total (steady sg)); [| exact Hw].
    intros x s Hx Hsx. apply basis_one_total; assumption.
  - unfold scale_basis. rewrite Hs.
    apply (for_each_total (steady sg)); [| exact Hw].
    intros x s Hx Hsx. apply scale_one_total; assumption.
  - unfold show_fit. rewrite Hs. destruct fitted_total as [y ->]. simpl.
    eexists. split; [reflexivity |].
    unfold steady, well_formed, sum_red_do. simpl. split; [exact Hs | exact Hwf].
Qed.

Lemma when_total (ph : Phase) (phase : F) (w : @World F C D) :
  steady sg w -> exists w', when script ph phase w = Some w' /\ steady sg w'.
Proof.
  intros Hw. unfold when. destruct (guard ph phase); [apply block_total; exact Hw | eauto].
Qed.

Lemma update_total (frame : Z) (w : @World F C D) :
  steady sg w -> exists w', update script frames frame w = Some w' /\ steady sg w'.
Proof.
  intros Hw. unfold update.
  destruct (when_total REVEAL_COMPONENTS (progress frames frame) w Hw) as [w1 [-> Hw1]].
  simpl.
  destruct (when_total SHOW_SUM (progress frames frame) w1 Hw1) as [w2 [-> Hw2]]. simpl.
  destruct (when_total SHOW_BASIS (progress frames frame) w2 Hw2) as [w3 [-> Hw3]]. simpl.
  destruct (when_total SCALE_BASIS (progress frames frame) w3 Hw3) as [w4 [-> Hw4]]. simpl.
  apply when_total. exact Hw4.
Qed.

Lemma run_total (fs : list Z) (w : @World F C D) :
  steady sg w -> exists w', for_each fs (update script frames) w = Some w' /\ steady sg w'.
Proof.
  apply (for_each_total (steady sg)). intros x s _. apply update_total.
Qed.

End UpdateTotal.

Lemma keys_of_pairs {V : Type} (ks : list string) (e : string -> V) :
  keys (map (fun n => (n, e n)) ks) = ks.
Proof. unfold keys. rewrite map_map. simpl. apply map_id. Qed.

Lemma figure_steady {F C D : Type} `{PyFloat F} `{Dtype F C}
      (script : Script F C D) (axis_ : list F) (items : dict D) (sg : Signals) :
  is_dict items -> build script axis_ items = Some sg -> steady sg (figure sg).
Proof.
  intros Hd Hbuild.
  destruct (build_aligned script axis_ items sg Hd Hbuild)
    as [tr [Hmol [Hitems [_ [_ [Hreal [Hbasis _]]]]]]].
  assert (Hnd : NoDup (keys (molecules sg))).
  { rewrite Hmol, <- Hitems. exact Hd. }
  split; [reflexivity |].
  unfold well_formed, figure. simpl.
  rewrite !(keys_dict_for _ _ Hnd).
  rewrite !keys_of_pairs.
  repeat split; try apply incl_refl.
  - rewrite Hreal, Hmol. unfold keys. rewrite !map_map. simpl. apply incl_refl.
  - rewrite Hbasis, Hmol. unfold keys. rewrite !map_map. simpl. apply incl_refl.
Qed.

(** The arrays of the two dicts have the shape of the bases. *)
Lemma build_shapes {F C D : Type} `{PyFloat F} `{Dtype F C}
      (script : Script F C D) (axis_ : list F) (items : dict D) (sg : Signals) (len : nat) :
  is_dict items -> build script axis_ items = Some sg ->
  (forall nd b, In nd items -> basis_of script (snd nd) = Some b -> length b = len) ->
  (forall name fid, dict_get (real_fids sg) name = Some fid -> length fid = len) /\
  (forall name fid, dict_get (basis_fids sg) name = Some fid -> length fid = len).
Proof.
  intros Hd Hbuild Hlen.
  destruct (build_aligned script axis_ items sg Hd Hbuild)
    as [tr [_ [Hitems [_ [Hall [Hreal [Hbasis _]]]]]]].
  assert (Hb : forall e, In e tr -> length (snd e) = len).
  { intros [[n d] b] Hin. rewrite Forall_forall in Hall. specialize (Hall _ Hin).
    simpl in *. apply (Hlen (n, d)); [| exact Hall].
    rewrite Hitems. apply in_map_iff. exists (n, d, b). split; [reflexivity | exact Hin]. }
  rewrite Hreal, Hbasis. clear - Hb.
  induction tr as [| [[n d] b] tr IH]; simpl.
  - split; intros name fid Hget; discriminate.
  - destruct IH as [IHr IHb]; [intros e He; apply Hb; right; exact He |].
    pose proof (Hb (n, d, b) (or_introl eq_refl)) as Hlen. simpl in Hlen.
    split; intros name fid Hget; destruct (String.eqb n name).
    + injection Hget as <-. rewrite length_times_int. exact Hlen.
    + exact (IHr name fid Hget).
    + injection Hget as <-. exact Hlen.
    + exact (IHb name fid Hget).
Qed.

Lemma build_axis {F C D : Type} `{PyFloat F} `{Dtype F C}
      (script : Script F C D) (axis_ : list F) (items : dict D) (sg : Signals) :
  build script axis_ items = Some sg -> axis sg = axis_.
Proof.
  unfold build. intros Hbuild. bind_inv Hbuild. subst sg. reflexivity.
Qed.

Lemma time_domain_basis_length (T2_value : R) (nd : string * TimeDomain.Molecule)
      (b : list complex) :
  In nd (TimeDomain.molecules T2_value) ->
  basis_of TimeDomain.script (snd nd) = Some b ->
  length b = Z.to_nat TimeDomain.N.
Proof.
  intros Hin Hb. pose proof (time_domain_fid_length T2_value nd Hin) as Hlen.
  destruct (peak_normalize_total (TimeDomain.fid (snd nd))) as [b' [Hb' Hlen']].
  - intros Hnil. rewrite Hnil in Hlen. unfold TimeDomain.N in Hlen. simpl in Hlen. lia.
  - change (basis_of TimeDomain.script (snd nd))
      with (peak_normalize (TimeDomain.fid (snd nd))) in Hb.
    congruence.
Qed.

(** The time-domain script: after [setup], any sequence of frames runs
    without an exception and leaves the arrays as built. *)
Lemma time_domain_run (T2_value : R) (w : World) (fs : list Z) :
  TimeDomain.setup T2_value = Some w ->
  exists w', for_each fs TimeDomain.update w = Some w' /\ signals w' = signals w.
Proof.
  unfold TimeDomain.setup. intros Hsetup.
  destruct (build TimeDomain.script TimeDomain.t (TimeDomain.molecules T2_value))
    as [sg |] eqn:Hbuild; [| discriminate].
  cbv [option_map] in Hsetup.
  assert (Hw : w = figure sg) by congruence. clear Hsetup. subst w.
  assert (Hd : is_dict (TimeDomain.molecules T2_value)) by apply dict_of_list_is_dict.
  destruct (build_shapes TimeDomain.script TimeDomain.t _ sg (Z.to_nat TimeDomain.N)
              Hd Hbuild (time_domain_basis_length T2_value)) as [Hreal Hbasis].
  assert (Hax : length (axis sg) = Z.to_nat TimeDomain.N).
  { rewrite (build_axis _ _ _ _ Hbuild). unfold TimeDomain.t. apply length_t. }
  destruct (run_total TimeDomain.script TimeDomain.frames sg) with (fs := fs) (w := figure sg)
    as [w' [Hrun [Hs _]]].
  - intros i y _. eexists. reflexivity.
  - intros name fid Hget. rewrite Hax. exact (Hreal name fid Hget).
  - intros name fid Hget. rewrite Hax. exact (Hbasis name fid Hget).
  - intros x. eexists. reflexivity.
  - exists (real_sum sg).
    apply (fitted_is_real_sum TimeDomain.script TimeDomain.t _ sg Hd Hbuild).
  - apply (figure_steady TimeDomain.script TimeDomain.t _ sg Hd Hbuild).
  - exists w'. split; [exact Hrun | rewrite Hs; reflexivity].
Qed.

Lemma time_domain_setup_total (T2_value : R) : exists w, TimeDomain.setup T2_value = Some w.
Proof.
  unfold TimeDomain.setup.
  destruct (time_domain_build_total T2_value) as [sg ->]. cbv [option_map]. eauto.
Qed.

(** ** The Bloch-sphere animation writes to its arrays *)

Lemma in_arange (n i : Z) : In i (arange n) -> (0 <= i < n)%Z.
Proof.
  unfold arange. intros Hin. apply in_map_iff in Hin.
  destruct Hin as [k [<- Hk]]. apply in_seq in Hk. lia.
Qed.

Lemma length_replace_nth {A : Type} (a : list A) (n : nat) (v : A) :
  length (replace_nth a n v) = length a.
Proof.
  revert n. induction a as [| x a IH]; intros [| n]; simpl; try reflexivity.
  f_equal. apply IH.
Qed.

Lemma set_item_total {A : Type} (a : list A) (i : Z) (v : A) :
  (0 <= i < Z.of_nat (length a))%Z ->
  exists a', set_item a i v = Some a' /\ length a' = length a.
Proof.
  intros Hi. unfold set_item.
  replace ((0 <=? i)%Z && (i <? Z.of_nat (length a))%Z) with true.
  - eexists. split; [reflexivity | apply length_replace_nth].
  - symmetry. apply andb_true_iff. split; [apply Z.leb_le | apply Z.ltb_lt]; lia.
Qed.

Lemma item_total {A : Type} (a : list A) (i : Z) :
  (0 <= i < Z.of_nat (length a))%Z -> exists x, item a i = Some x.
Proof.
  intros Hi. unfold item.
  replace (0 <=? i)%Z with true by (symmetry; apply Z.leb_le; lia).
  destruct (nth_error a (Z.to_nat i)) as [x |] eqn:Hx; [eauto |].
  apply nth_error_None in Hx. lia.
Qed.

Lemma length_linspace {F : Type} `{PyFloat F} (start stop : F) (num : Z) :
  length (linspace start stop num) = Z.to_nat num.
Proof. unfold linspace. rewrite length_map. apply length_arange. Qed.

Ltac next_item :=
  match goal with
  | |- context [bind (set_item ?a ?i ?v) _] =>
      let a' := fresh "a" in
      let Hlen := fresh "Hlen" in
      destruct (set_item_total a i v ltac:(lia)) as [a' [-> Hlen]]; cbn [bind]
  | |- context [bind (item ?a ?i) _] =>
      let x := fresh "x" in
      destruct (item_total a i ltac:(lia)) as [x ->]; cbn [bind]
  end.

Lemma rf_rest_spin (i : Z) (st : RFPulse.State) :
  (0 <= i < RFPulse.n_spins)%Z -> RFPulse.spins_shaped st ->
  exists st', RFPulse.rest_spin i st = Some st' /\
              RFPulse.spins_shaped st' /\ RFPulse.fid st' = RFPulse.fid st.
Proof.
  intros Hi [Hx [Hy [Hz Hp]]]. unfold RFPulse.rest_spin.
  do 3 next_item.
  eexists. split; [reflexivity |]. split; [| reflexivity].
  unfold RFPulse.spins_shaped. simpl. repeat split; lia.
Qed.

Lemma rf_precess_spin (frame i : Z) (st : RFPulse.State) :
  (0 <= i < RFPulse.n_spins)%Z -> RFPulse.spins_shaped st ->
  exists st', RFPulse.precess_spin frame i st = Some st' /\
              RFPulse.spins_shaped st' /\ RFPulse.fid st' = RFPulse.fid st.
Proof.
  intros Hi [Hx [Hy [Hz Hp]]]. unfold RFPulse.precess_spin.
  assert (Hoff : Z.of_nat (length RFPulse.freq_offsets) = RFPulse.n_spins).
  { unfold RFPulse.freq_offsets. rewrite length_linspace. unfold RFPulse.n_spins. lia. }
  do 7 next_item.
  eexists. split; [reflexivity |]. split; [| reflexivity].
  unfold RFPulse.spins_shaped. simpl. repeat split; lia.
Qed.

(** Every call of the callback appends one sample to [fid] (and rewrites
    the magnetisation arrays in place). *)
Lemma rf_update_appends (frame : Z) (st : RFPulse.State) :
  RFPulse.spins_shaped st ->
  exists st' x,
    RFPulse.update frame st = Some st' /\
    RFPulse.spins_shaped st' /\
    RFPulse.fid st' = RFPulse.fid st ++ [x].
Proof.
  intros Hst. unfold RFPulse.update.
  assert (Hbranch : exists st1,
             (if (frame <? RFPulse.rf_frame)%Z
              then for_each (arange RFPulse.n_spins) RFPulse.rest_spin st
              else if (frame =? RFPulse.rf_frame)%Z
                   then Some (RFPulse.with_M st (map (fun _ => 1%R) (RFPulse.Mx st))
                                (map (fun _ => 0%R) (RFPulse.My st))
                                (map (fun _ => 0%R) (RFPulse.Mz st)) (RFPulse.phases st))
                   else for_each (arange RFPulse.n_spins) (RFPulse.precess_spin frame) st)
             = Some st1 /\
             RFPulse.spins_shaped st1 /\ RFPulse.fid st1 = RFPulse.fid st).
  { destruct (frame <? RFPulse.rf_frame)%Z; [| destruct (frame =? RFPulse.rf_frame)%Z].
    - apply (for_each_total
               (fun s => RFPulse.spins_shaped s /\ RFPulse.fid s = RFPulse.fid st));
        [| split; [exact Hst | reflexivity]].
      intros i s Hi [Hs Hf]. apply in_arange in Hi.
      destruct (rf_rest_spin i s Hi Hs) as [s' [Hrun [Hs' Hf']]].
      exists s'. split; [exact Hrun |]. split; [exact Hs' | congruence].
    - eexists. split; [reflexivity |]. split; [| reflexivity].
      destruct Hst as [Hx [Hy [Hz Hp]]].
      unfold RFPulse.spins_shaped. simpl. rewrite !length_map. auto.
    - apply (for_each_total
               (fun s => RFPulse.spins_shaped s /\ RFPulse.fid s = RFPulse.fid st));
        [| split; [exact Hst | reflexivity]].
      intros i s Hi [Hs Hf]. apply in_arange in Hi.
      destruct (rf_precess_spin frame i s Hi Hs) as [s' [Hrun [Hs' Hf']]].
      exists s'. split; [exact Hrun |]. split; [exact Hs' | congruence]. }
  destruct Hbranch as [st1 [-> [Hs1 Hf1]]]. simpl.
  exists (if (RFPulse.TE_frame <? frame)%Z
          then
            {| RFPulse.Mx := RFPulse.Mx st1; RFPulse.My := RFPulse.My st1;
               RFPulse.Mz := RFPulse.Mz st1; RFPulse.phases := RFPulse.phases st1;
               RFPulse.fid :=
                 if (RFPulse.rf_frame <? frame)%Z
                 then RFPulse.fid st1 ++ [RFPulse.np_sum (RFPulse.Mx st1)]
                 else RFPulse.fid st1 ++ [0%R];
               RFPulse.fid_line :=
                 {| xdata :=
                      linspace 0%R (IZR RFPulse.seconds)
                        (Z.of_nat
                           (length
                              (if (RFPulse.rf_frame <? frame)%Z
                               then RFPulse.fid st1 ++ [RFPulse.np_sum (RFPulse.Mx st1)]
                               else RFPulse.fid st1 ++ [0%R])));
                    ydata :=
                      if (RFPulse.rf_frame <? frame)%Z
                      then RFPulse.fid st1 ++ [RFPulse.np_sum (RFPulse.Mx st1)]
                      else RFPulse.fid st1 ++ [0%R] |};
               RFPulse.title := "FID recording" |}
          else
            {| RFPulse.Mx := RFPulse.Mx st1; RFPulse.My := RFPulse.My st1;
               RFPulse.Mz := RFPulse.Mz st1; RFPulse.phases := RFPulse.phases st1;
               RFPulse.fid :=
                 if (RFPulse.rf_frame <? frame)%Z
                 then RFPulse.fid st1 ++ [RFPulse.np_sum (RFPulse.Mx st1)]
                 else RFPulse.fid st1 ++ [0%R];
               RFPulse.fid_line := {| xdata := []; ydata := [] |};
               RFPulse.title := "Waiting for TE" |}).
  exists (if (RFPulse.rf_frame <? frame)%Z then RFPulse.np_sum (RFPulse.Mx st1) else 0%R).
  split; [reflexivity |].
  destruct (RFPulse.TE_frame <? frame)%Z, (RFPulse.rf_frame <? frame)%Z; simpl;
    (split; [exact Hs1 | rewrite Hf1; reflexivity]).
Qed.

Lemma rf_initial_shaped (phases0 : list R) :
  Z.of_nat (length phases0) = RFPulse.n_spins -> RFPulse.spins_shaped (RFPulse.initial phases0).
Proof.
  intros Hp. unfold RFPulse.spins_shaped, RFPulse.initial.
  cbn [RFPulse.Mx RFPulse.My RFPulse.Mz RFPulse.phases].
  rewrite !length_map, !length_arange. unfold RFPulse.n_spins in *. lia.
Qed.

(** ** The spectral script raises nothing either *)

Lemma length_fft (x : list complex) : length (fft x) = length x.
Proof. unfold fft. rewrite length_map, length_arange. lia. Qed.

Lemma length_fftshift {A : Type} (x : list A) : length (fftshift x) = length x.
Proof.
  unfold fftshift. rewrite length_app, length_skipn, length_firstn.
  assert (Nat.div (length x) 2 <= length x)%nat by (apply Nat.Div0.div_le_upper_bound; lia).
  lia.
Qed.

Lemma length_spectrum (x : list complex) : length (spectrum x) = length x.
Proof. unfold spectrum. rewrite length_map, length_fftshift, length_fft. reflexivity. Qed.

Lemma sum_from_shape {F C : Type} `{PyFloat F} `{Dtype F C}
      (arrays : list (list C)) (len : nat) :
  Forall (fun a => length a = len) arrays ->
  forall acc, length acc = len ->
              exists total, sum_from acc arrays = Some total /\ length total = len.
Proof.
  induction arrays as [| a rest IH]; intros Hall acc Hacc; simpl.
  - eauto.
  - apply Forall_cons_iff in Hall. destruct Hall as [Ha Hrest].
    assert (Hacc' : length acc = len \/ length acc = 1%nat) by (left; exact Hacc).
    destruct (broadcast_same_shape acc a len Ha Hacc') as [acc' [-> Hlen]].
    simpl. apply IH; [exact Hrest | exact Hlen].
Qed.

Lemma py_sum_shape {F C : Type} `{PyFloat F} `{Dtype F C}
      (arrays : list (list C)) (len : nat) :
  arrays <> [] -> Forall (fun a => length a = len) arrays ->
  exists total, py_sum arrays = Some total /\ length total = len.
Proof.
  destruct arrays as [| a rest]; [congruence |]. intros _ Hall.
  apply Forall_cons_iff in Hall. destruct Hall as [Ha Hrest].
  unfold py_sum. simpl.
  destruct (broadcast_same_shape [c_of_float (of_int 0)] a len Ha
              (or_intror eq_refl)) as [acc' [-> Hlen]].
  simpl. apply sum_from_shape; assumption.
Qed.

Lemma argmax_from_bounds {F : Type} `{PyFloat F} (a : list F) :
  forall (best : Z) (m : F) (i : Z),
    (0 <= best < i)%Z ->
    (0 <= argmax_from best m i a < i + Z.of_nat (length a))%Z.
Proof.
  induction a as [| x rest IH]; intros best m i Hb; simpl.
  - lia.
  - destruct (is_nan m); [lia |].
    destruct (is_nan x || (m <? x)%py).
    + specialize (IH i x (i + 1)%Z ltac:(lia)). lia.
    + specialize (IH best m (i + 1)%Z ltac:(lia)). lia.
Qed.

Lemma above_peak_total (freq_ y : list R) :
  length y = length freq_ -> y <> [] ->
  exists pos, Spectral.above_peak freq_ y = Some pos.
Proof.
  intros Hlen Hne. unfold Spectral.above_peak.
  destruct y as [| x rest]; [congruence |].
  cbn [np_argmax bind].
  pose proof (argmax_from_bounds rest 0 x 1 ltac:(lia)) as Hi.
  destruct (item_total freq_ (argmax_from 0 x 1 rest)) as [x0 ->].
  { rewrite <- Hlen. simpl length. lia. }
  cbn [np_max bind]. eauto.
Qed.

Lemma spectral_molecules (T2_value : R) :
  Spectral.molecules T2_value
  = [ ("A"%string, {| Spectral.peaks := [Spectral.multiplet T2_value 80 [1%R]];
                      Spectral.conc := 5; Spectral.split := None |});
      ("B"%string, {| Spectral.peaks := [Spectral.multiplet T2_value 140 [1%R];
                                         Spectral.multiplet T2_value 200 [1%R; 1%R]];
                      Spectral.conc := 10; Spectral.split := Some "S7 + D3"%string |});
      ("C"%string, {| Spectral.peaks := [Spectral.multiplet T2_value 260 [1%R; 2%R; 1%R]];
                      Spectral.conc := 3; Spectral.split := None |});
      ("D"%string, {| Spectral.peaks :=
                        [Spectral.multiplet T2_value 320 [1%R; 3%R; 3%R; 1%R]];
                      Spectral.conc := 12; Spectral.split := None |}) ].
Proof.
  unfold Spectral.molecules. apply dict_of_list_distinct.
  cbv [map fst]. repeat constructor; cbv [In]; intuition discriminate.
Qed.

Lemma spectral_peaks_shape (T2_value : R) (nd : string * Spectral.Molecule) :
  In nd (Spectral.molecules T2_value) ->
  Spectral.peaks (snd nd) <> [] /\
  Forall (fun a => length a = Z.to_nat Spectral.N) (Spectral.peaks (snd nd)).
Proof.
  rewrite spectral_molecules. unfold Spectral.multiplet.
  cbv [In]. intros Hin.
  repeat (destruct Hin as [<- | Hin];
          [cbv [snd Spectral.peaks]; split;
           [discriminate | repeat constructor; apply length_multiplet] |]).
  contradiction.
Qed.

Lemma spectral_basis (T2_value : R) (nd : string * Spectral.Molecule) :
  In nd (Spectral.molecules T2_value) ->
  exists b, basis_of Spectral.script (snd nd) = Some b /\ length b = Z.to_nat Spectral.N.
Proof.
  intros Hin. destruct (spectral_peaks_shape T2_value nd Hin) as [Hne Hall].
  change (basis_of Spectral.script (snd nd)) with (Spectral.basis_spec (snd nd)).
  unfold Spectral.basis_spec.
  destruct (py_sum_shape (Spectral.peaks (snd nd)) (Z.to_nat Spectral.N) Hne Hall)
    as [mol_sum [-> Hlen]].
  cbn [bind]. unfold spectrum_normalize.
  destruct (np_max_nonempty (spectrum mol_sum)) as [m ->].
  { intros Hnil. apply (f_equal (@length R)) in Hnil.
    rewrite length_spectrum, Hlen in Hnil. unfold Spectral.N in Hnil. simpl in Hnil. lia. }
  cbn [bind]. eexists. split; [reflexivity |].
  rewrite length_map, length_spectrum. exact Hlen.
Qed.

(** Over the reals every number is finite, so [set_ylim] accepts it. *)
Lemma R_is_finite (x : R) : is_finite x = true.
Proof.
  unfold is_finite. simpl.
  destruct (Rle_dec (x - x) 0) as [_ | Hn]; [| exfalso; apply Hn; lra].
  destruct (Rle_dec 0 (x - x)) as [_ | Hn]; [reflexivity | exfalso; apply Hn; lra].
Qed.

Lemma R_set_ylim (bottom top : R) : set_ylim bottom top = Some tt.
Proof. unfold set_ylim. rewrite !R_is_finite. reflexivity. Qed.

Lemma spectral_real_sum_length (T2_value : R) (sg : Signals) :
  build Spectral.script Spectral.freq (Spectral.molecules T2_value) = Some sg ->
  length (real_sum sg) = Z.to_nat Spectral.N.
Proof.
  intros Hbuild.
  assert (Hd : is_dict (Spectral.molecules T2_value)) by apply dict_of_list_is_dict.
  destruct (build_aligned Spectral.script Spectral.freq _ sg Hd Hbuild)
    as (tr & _ & Hitems & _ & Hall & Hreal & _ & Hsum).
  destruct (py_sum_shape (values (real_fids sg)) (Z.to_nat Spectral.N))
    as (total & Htotal & Hlen).
  - rewrite Hreal. destruct tr as [| e tr]; [| discriminate].
    rewrite spectral_molecules in Hitems. discriminate Hitems.
  - rewrite Hreal. unfold values. rewrite map_map. apply Forall_map.
    rewrite Forall_forall in Hall |- *. intros e Hin. cbn [snd].
    rewrite length_times_int.
    destruct (spectral_basis T2_value (fst e)) as (b & Hb & Hlen).
    + rewrite Hitems. apply in_map. exact Hin.
    + rewrite (Hall e Hin) in Hb. injection Hb as ->. exact Hlen.
  - rewrite Hsum in Htotal. injection Htotal as ->. exact Hlen.
Qed.

(** [setup] is the build loop followed by the figure. *)
Lemma spectral_setup_figure (T2_value : R) (w : World) :
  Spectral.setup T2_value = Some w ->
  exists sg,
    build Spectral.script Spectral.freq (Spectral.molecules T2_value) = Some sg /\
    w = figure sg.
Proof.
  unfold Spectral.setup. intros Hsetup.
  destruct (build Spectral.script Spectral.freq (Spectral.molecules T2_value))
    as [sg |]; [| discriminate Hsetup].
  cbn [bind] in Hsetup.
  destruct (np_max (real_sum sg)) as [top |]; [| discriminate Hsetup].
  cbn [bind] in Hsetup. rewrite R_set_ylim in Hsetup. cbn [bind] in Hsetup.
  exists sg. split; [reflexivity | congruence].
Qed.

Lemma spectral_setup_total (T2_value : R) : exists w, Spectral.setup T2_value = Some w.
Proof.
  unfold Spectral.setup.
  destruct (build_total Spectral.script Spectral.freq (Spectral.molecules T2_value)
                        (Z.to_nat Spectral.N)) as [sg Hbuild].
  - apply dict_of_list_is_dict.
  - intros nd Hin. destruct (spectral_basis T2_value nd Hin) as [b [Hb _]]. eauto.
  - intros nd b Hin Hb. destruct (spectral_basis T2_value nd Hin) as [b' [Hb' Hlen]].
    congruence.
  - rewrite Hbuild. cbn [bind].
    destruct (np_max_nonempty (real_sum sg)) as [top ->].
    { intros Hnil. apply (f_equal (@length R)) in Hnil.
      rewrite (spectral_real_sum_length T2_value sg Hbuild) in Hnil.
      unfold Spectral.N in Hnil. simpl in Hnil. lia. }
    cbn [bind]. rewrite R_set_ylim. cbn [bind]. eauto.
Qed.

(** After [setup], any sequence of frames of the spectral script runs
    without an exception and leaves the arrays as built. *)
Lemma spectral_run (T2_value : R) (w : World) (fs : list Z) :
  Spectral.setup T2_value = Some w ->
  exists w', for_each fs Spectral.update w = Some w' /\ signals w' = signals w.
Proof.
  intros Hsetup.
  destruct (spectral_setup_figure T2_value w Hsetup) as (sg & Hbuild & ->).
  clear Hsetup.
  assert (Hd : is_dict (Spectral.molecules T2_value)) by apply dict_of_list_is_dict.
  destruct (build_shapes Spectral.script Spectral.freq _ sg (Z.to_nat Spectral.N)
              Hd Hbuild) as [Hreal Hbasis].
  { intros nd b Hin Hb. destruct (spectral_basis T2_value nd Hin) as [b' [Hb' Hlen]].
    congruence. }
  assert (Hax : length (axis sg) = Z.to_nat Spectral.N).
  { rewrite (build_axis _ _ _ _ Hbuild). unfold Spectral.freq. apply length_linspace. }
  destruct (run_total Spectral.script Spectral.frames sg) with (fs := fs) (w := figure sg)
    as [w' [Hrun [Hs _]]].
  - intros i y Hy. apply above_peak_total; [exact Hy |].
    intros Hnil. rewrite Hnil, Hax in Hy. unfold Spectral.N in Hy. simpl in Hy. lia.
  - intros name fid Hget. rewrite Hax. exact (Hreal name fid Hget).
  - intros name fid Hget. rewrite Hax. exact (Hbasis name fid Hget).
  - intros x. eexists. reflexivity.
  - exists (real_sum sg).
    apply (fitted_is_real_sum Spectral.script Spectral.freq _ sg Hd Hbuild).
  - apply (figure_steady Spectral.script Spectral.freq _ sg Hd Hbuild).
  - exists w'. split; [exact Hrun | rewrite Hs; reflexivity].
Qed.

(** [rf_frame = int(frames * 0.2)] and [TE_frame = int(frames * 0.35)], in
    both arithmetics. *)
Lemma rf_frame_values :
  int_ (of_int RFPulse.frames * lit 2 10 : float)%py = Some RFPulse.rf_frame /\
  int_ (of_int RFPulse.frames * lit 35 100 : float)%py = Some RFPulse.TE_frame /\
  int_ (of_int RFPulse.frames * lit 2 10 : R)%py = Some RFPulse.rf_frame /\
  int_ (of_int RFPulse.frames * lit 35 100 : R)%py = Some RFPulse.TE_frame.
Proof.
  split; [vm_compute; reflexivity |]. split; [vm_compute; reflexivity |].
  unfold RFPulse.frames, RFPulse.fps, RFPulse.seconds, RFPulse.rf_frame, RFPulse.TE_frame.
  split; simpl; f_equal.
  - rewrite R_int_nonneg by lra. apply Int_part_floor. lra.
  - rewrite R_int_nonneg by lra. apply Int_part_floor. lra.
Qed.

(** ** C9: which callbacks write to arrays *)

(** The claim of C9 as worded fails on the Bloch-sphere animation: its
    first frame already changes [fid]. *)
Lemma rf_update_mutates_fid :
  exists st',
    RFPulse.update 0 (RFPulse.initial [0; 0; 0; 0; 0; 0]%R) = Some st' /\
    RFPulse.fid st' <> RFPulse.fid (RFPulse.initial [0; 0; 0; 0; 0; 0]%R).
Proof.
  destruct (rf_update_appends 0 (RFPulse.initial [0; 0; 0; 0; 0; 0]%R))
    as [st' [x [Hrun [_ Hfid]]]].
  - apply rf_initial_shaped. reflexivity.
  - exists st'. split; [exact Hrun |]. rewrite Hfid.
    unfold RFPulse.initial. cbn [RFPulse.fid app]. discriminate.
Qed.

Lemma update_buildup_arrays {F C : Type} `{PyFloat F} `{Dtype F C}
      (c_abs : C -> F) (frames N : Z) (t_ : list F) (frame : Z) (w w' : Panel) :
  update_buildup c_abs frames N t_ frame w = Some w' ->
  parts w' = parts w /\ total_fid w' = total_fid w.
Proof.
  unfold update_buildup. intros Hrun. bind_inv Hrun. subst w'. split; reflexivity.
Qed.

Lemma update_truncated_arrays {F C : Type} `{PyFloat F} `{Dtype F C}
      (spectrum_of : list C -> list F) (frames N : Z) (t_ freq_axis : list F)
      (frame : Z) (w w' : Acquired) :
  update_truncated spectrum_of frames N t_ freq_axis frame w = Some w' ->
  acq_fid w' = acq_fid w.
Proof.
  unfold update_truncated. intros Hrun. bind_inv Hrun. subst w'. reflexivity.
Qed.

(** C9 (as the code has it).  In the two basis-fitting animations the
    axis, the per-species basis and real signals and the composite are
    built before the first frame, and no call of [update], for any frame
    index and in either arithmetic, changes them: only the line and text
    artists change (the fitted signal is recomputed from them in every
    frame of the last phase).  On the world either script builds, any
    sequence of frames runs without an exception.  The callbacks of
    the FID-to-spectrum and concentration animations leave their FIDs
    alone as well.  The callback of the Bloch-sphere animation does write:
    each call appends one sample to [fid] and stores into [Mx], [My],
    [Mz]. *)
Theorem arrays_under_update :
  (forall (F C D : Type) (PF : PyFloat F) (DT : Dtype F C) (script : Script F C D)
          (frames frame : Z) (w w' : World),
      update script frames frame w = Some w' -> signals w' = signals w) /\
  (forall (F C D : Type) (PF : PyFloat F) (DT : Dtype F C) (script : Script F C D)
          (frames : Z) (fs : list Z) (w w' : World),
      for_each fs (update script frames) w = Some w' -> signals w' = signals w) /\
  (forall (T2_value : R) (w : World) (fs : list Z),
      TimeDomain.setup T2_value = Some w ->
      exists w', for_each fs TimeDomain.update w = Some w' /\ signals w' = signals w) /\
  (forall (T2_value : R) (w : World) (fs : list Z),
      Spectral.setup T2_value = Some w ->
      exists w', for_each fs Spectral.update w = Some w' /\ signals w' = signals w) /\
  (forall (F C : Type) (PF : PyFloat F) (DT : Dtype F C)
          (spectrum_of : list C -> list F) (frames N : Z) (t_ freq_axis : list F)
          (frame : Z) (w w' : Acquired),
      update_truncated spectrum_of frames N t_ freq_axis frame w = Some w' ->
      acq_fid w' = acq_fid w) /\
  (forall (F C : Type) (PF : PyFloat F) (DT : Dtype F C)
          (c_abs : C -> F) (frames N : Z) (t_ : list F) (frame : Z) (w w' : Panel),
      update_buildup c_abs frames N t_ frame w = Some w' ->
      parts w' = parts w /\ total_fid w' = total_fid w) /\
  (forall (frame : Z) (st : RFPulse.State),
      RFPulse.spins_shaped st ->
      exists st' x,
        RFPulse.update frame st = Some st' /\
        RFPulse.spins_shaped st' /\
        RFPulse.fid st' = RFPulse.fid st ++ [x]).
Proof.
  split; [intros F C D PF DT script; exact (update_signals script) |].
  split; [intros F C D PF DT script; exact (run_signals script) |].
  split; [exact time_domain_run |].
  split; [exact spectral_run |].
  split; [intros F C PF DT; exact (update_truncated_arrays) |].
  split; [intros F C PF DT; exact (update_buildup_arrays) |].
  exact rf_update_appends.
Qed.

(** ** C8: nothing validates T2 *)

Lemma decay_sample (BW N : Z) (T2 : R) (i : Z) :
  (0 <= i < N)%Z ->
  nth_error (decay BW N T2) (Z.to_nat i) = Some (exp (- (IZR i / IZR BW) / T2)).
Proof.
  intros Hi. unfold decay. rewrite nth_error_map, nth_error_t by exact Hi. reflexivity.
Qed.

Lemma decay_samples_are (BW N : Z) (T2 d : R) :
  (0 < BW)%Z -> In d (decay BW N T2) ->
  exists tk, (0 <= tk)%R /\ d = exp (- tk / T2).
Proof.
  intros HBW Hin. unfold decay, t, time_axis in Hin. rewrite map_map in Hin.
  apply in_map_iff in Hin. destruct Hin as [k [<- Hk]]. apply in_arange in Hk.
  exists (IZR k / IZR BW)%R. split; [| reflexivity].
  apply Rmult_le_pos; [apply IZR_le; lia |].
  apply Rlt_le, Rinv_0_lt_compat, IZR_lt, HBW.
Qed.

Lemma decaying_envelope (BW N : Z) (T2 d : R) :
  (0 < BW)%Z -> (0 < T2)%R -> In d (decay BW N T2) -> (0 < d <= 1)%R.
Proof.
  intros HBW HT2 Hin. destruct (decay_samples_are BW N T2 d HBW Hin) as [tk [Htk ->]].
  split; [apply exp_pos |].
  assert (Hx : (- tk / T2 <= 0)%R).
  { unfold Rdiv. rewrite <- Ropp_mult_distr_l.
    assert (0 <= tk * / T2)%R
      by (apply Rmult_le_pos; [exact Htk | apply Rlt_le, Rinv_0_lt_compat, HT2]).
    lra. }
  destruct Hx as [Hlt | Heq].
  - rewrite <- exp_0. apply Rlt_le, exp_increasing, Hlt.
  - rewrite Heq, exp_0. apply Rle_refl.
Qed.

Lemma growing_envelope (BW N : Z) (T2 d : R) :
  (0 < BW)%Z -> (T2 < 0)%R -> In d (decay BW N T2) -> (1 <= d)%R.
Proof.
  intros HBW HT2 Hin. destruct (decay_samples_are BW N T2 d HBW Hin) as [tk [Htk ->]].
  assert (Hx : (0 <= - tk / T2)%R).
  { replace (- tk / T2)%R with (tk * / (- T2))%R.
    - apply Rmult_le_pos; [exact Htk |]. apply Rlt_le, Rinv_0_lt_compat. lra.
    - field. lra. }
  destruct Hx as [Hlt | Heq].
  - rewrite <- exp_0. apply Rlt_le, exp_increasing, Hlt.
  - rewrite <- Heq, exp_0. apply Rle_refl.
Qed.

(** The claim of C8 as worded fails: with [T2 = -1] the time-domain script
    sets up without an exception, on an envelope that grows. *)
Lemma negative_T2_is_accepted :
  (exists w, TimeDomain.setup (-1) = Some w) /\
  (exists d, nth_error (decay TimeDomain.BW TimeDomain.N (-1)) 1 = Some d /\ (1 < d)%R).
Proof.
  split; [apply time_domain_setup_total |].
  exists (exp (- (IZR 1 / IZR TimeDomain.BW) / -1)). split.
  - apply (decay_sample TimeDomain.BW TimeDomain.N (-1) 1).
    unfold TimeDomain.N. lia.
  - assert (Hgrow : (exp 0 < exp (- (IZR 1 / IZR TimeDomain.BW) / -1))%R).
    { apply exp_increasing. unfold TimeDomain.BW. lra. }
    rewrite exp_0 in Hgrow. exact Hgrow.
Qed.

(** With [T2 <= -1] on an axis of at most two seconds, every sample of
    the envelope is a number between [1] and [e^2]. *)
Lemma growing_envelope_bounded (BW N : Z) (T2 d : R) :
  (0 < BW)%Z -> (N <= 2 * BW)%Z -> (T2 <= -1)%R ->
  In d (decay BW N T2) -> (1 <= d < exp 2)%R.
Proof.
  intros HBW HN HT2 Hin.
  split; [apply (growing_envelope BW N T2 d HBW ltac:(lra) Hin) |].
  unfold decay, t, time_axis in Hin. rewrite map_map in Hin.
  apply in_map_iff in Hin. destruct Hin as [k [<- Hk]]. apply in_arange in Hk.
  apply exp_increasing. simpl.
  assert (HB : (0 < IZR BW)%R) by (apply IZR_lt; exact HBW).
  assert (Hk0 : (0 <= IZR k)%R) by (apply IZR_le; lia).
  assert (Hk2 : (IZR k < 2 * IZR BW)%R).
  { rewrite <- (mult_IZR 2 BW). apply IZR_lt. lia. }
  assert (Htk : (0 <= IZR k / IZR BW < 2)%R).
  { split.
    - apply Rmult_le_pos; [exact Hk0 | apply Rlt_le, Rinv_0_lt_compat, HB].
    - apply (Rmult_lt_reg_r (IZR BW)); [exact HB |].
      unfold Rdiv. rewrite Rmult_assoc, Rinv_l by lra. lra. }
  replace (- (IZR k / IZR BW) / T2)%R with ((IZR k / IZR BW) * / (- T2))%R
    by (field; split; lra).
  assert (Hinv : (0 < / (- T2) <= 1)%R).
  { split; [apply Rinv_0_lt_compat; lra |].
    rewrite <- Rinv_1. apply Rinv_le_contravar; lra. }
  nra.
Qed.

(** C8 (as the code has it).  No script checks [T2], and a negative [T2]
    is accepted.  For every positive [T2] and for every [T2 <= -1], the
    values for which every sample of the arrays is a finite number, the two
    basis-fitting scripts set up and draw any sequence of the frames of
    their run without an exception; for the spectral script this includes
    [ax.set_ylim(0, real_sum.max()*1.3)], which raises on a NaN or an
    infinite limit.  A positive [T2], which all four scripts bind, is what
    makes the envelope [exp(-t/T2)] decay: every sample lies in [(0,1]];
    with [T2 <= -1] every sample lies in [[1, e^2)] and with any negative
    [T2] it is at least [1].  Nothing is stated for [T2 = 0] or for
    [-1 < T2 < 0]: in binary64 the exponent [-t/T2] for [T2 = 0] is a NaN
    at [t = 0] and [-inf] afterwards, computed without an exception. *)
Theorem T2_is_not_validated :
  (forall T2_value : R,
      (0 < T2_value)%R \/ (T2_value <= -1)%R ->
      exists w,
        TimeDomain.setup T2_value = Some w /\
        forall fs : list Z,
          Forall (fun f => (0 <= f < TimeDomain.frames)%Z) fs ->
          exists w', for_each fs TimeDomain.update w = Some w') /\
  (forall T2_value : R,
      (0 < T2_value)%R \/ (T2_value <= -1)%R ->
      exists w,
        Spectral.setup T2_value = Some w /\
        forall fs : list Z,
          Forall (fun f => (0 <= f < Spectral.frames)%Z) fs ->
          exists w', for_each fs Spectral.update w = Some w') /\
  (set_ylim (of_int 0 : float) (nan * lit 13 10)%py = None /\
   set_ylim (of_int 0 : float) (infinity * lit 13 10)%py = None /\
   forall bottom top : R, set_ylim bottom top = Some tt) /\
  (is_nan (PrimFloat.opp (of_int 0 / of_int 2000)%py / of_int 0 : float)%py = true /\
   (PrimFloat.opp (of_int 1 / of_int 2000)%py / of_int 0 : float)%py = neg_infinity) /\
  (forall (BW N : Z) (T2 : R) (i : Z),
      (0 < BW)%Z -> (0 < T2)%R -> (0 <= i < N)%Z ->
      nth_error (decay BW N T2) (Z.to_nat i) = Some (exp (- (IZR i / IZR BW) / T2))) /\
  (forall (BW N : Z) (T2 d : R),
      (0 < BW)%Z -> (0 < T2)%R -> In d (decay BW N T2) -> (0 < d <= 1)%R) /\
  (forall (BW N : Z) (T2 d : R),
      (0 < BW)%Z -> (N <= 2 * BW)%Z -> (T2 <= -1)%R ->
      In d (decay BW N T2) -> (1 <= d < exp 2)%R) /\
  (forall (BW N : Z) (T2 d : R),
      (0 < BW)%Z -> (T2 < 0)%R -> In d (decay BW N T2) -> (1 <= d)%R) /\
  (TimeDomain.N <= 2 * TimeDomain.BW)%Z /\ (Spectral.N <= 2 * Spectral.BW)%Z /\
  (0 < TimeDomain.T2)%R /\ (0 < Spectral.T2)%R /\
  (0 < FidToSpectrum.T2)%R /\ (0 < Concentration.T2)%R.
Proof.
  split.
  { intros T2_value _. destruct (time_domain_setup_total T2_value) as [w Hw].
    exists w. split; [exact Hw |]. intros fs _.
    destruct (time_domain_run T2_value w fs Hw) as [w' [Hrun _]]. eauto. }
  split.
  { intros T2_value _. destruct (spectral_setup_total T2_value) as [w Hw].
    exists w. split; [exact Hw |]. intros fs _.
    destruct (spectral_run T2_value w fs Hw) as [w' [Hrun _]]. eauto. }
  split.
  { split; [vm_compute; reflexivity |]. split; [vm_compute; reflexivity |].
    exact R_set_ylim. }
  split; [split; vm_compute; reflexivity |].
  split; [intros BW N T2 i _ _; apply decay_sample |].
  split; [exact decaying_envelope |].
  split; [exact growing_envelope_bounded |].
  split; [exact growing_envelope |].
  split; [unfold TimeDomain.N, TimeDomain.BW; lia |].
  split; [unfold Spectral.N, Spectral.BW; lia |].
  unfold TimeDomain.T2, Spectral.T2, FidToSpectrum.T2, Concentration.T2.
  rewrite !R_lit. repeat split; lra.
Qed.

(** The FID [create_animation] acquires has the [N] samples of the axis. *)
Lemma fid_to_spectrum_length (kind : Z) (w : Acquired) :
  FidToSpectrum.create_animation kind = Some w ->
  Z.of_nat (length (acq_fid w)) = FidToSpectrum.N.
Proof.
  unfold FidToSpectrum.create_animation. intros Hmade.
  destruct (FidToSpectrum.molecule_type kind) as [[fid title] |] eqn:Hkind; [| discriminate].
  cbv [option_map fst] in Hmade.
  assert (Hw : acq_fid w = fid) by (injection Hmade as <-; reflexivity).
  rewrite Hw.
  destruct (molecule_type_samples kind fid title Hkind) as [terms ->].
  rewrite length_map. unfold FidToSpectrum.t. rewrite length_t.
  unfold FidToSpectrum.N. lia.
Qed.

(** ** The properties at work on concrete inputs *)

(** C2 on a two-sample FID and on the spectrum of a one-sample signal. *)
Lemma basis_peak_is_one_example :
  Exists (fun z : complex => z <> (0%R, 0%R)) [(3%R, 4%R); (0%R, 0%R)] /\
  exists basis,
    basis_of TimeDomain.script
             {| TimeDomain.fid := [(3%R, 4%R); (0%R, 0%R)]; TimeDomain.conc := 5 |}
    = Some basis /\
    np_max (map Cabs basis) = Some 1%R.
Proof.
  assert (Hex : Exists (fun z : complex => z <> (0%R, 0%R)) [(3%R, 4%R); (0%R, 0%R)]).
  { constructor. intros Heq. injection Heq as H3 _. lra. }
  split; [exact Hex |].
  exact (proj1 basis_peak_is_one
               {| TimeDomain.fid := [(3%R, 4%R); (0%R, 0%R)]; TimeDomain.conc := 5 |} Hex).
Defined.

(** C5 at the binary64 progress fraction [0.5]. *)
Lemma phase_partition_at_half :
  (of_int 0 <=? (lit 5 10 : float))%py = true /\
  ((lit 5 10 : float) <? of_int 1)%py = true /\
  active_phases (lit 5 10 : float) = [phase_at (lit 5 10 : float)].
Proof.
  assert (H0 : (of_int 0 <=? (lit 5 10 : float))%py = true) by (vm_compute; reflexivity).
  assert (H1 : ((lit 5 10 : float) <? of_int 1)%py = true) by (vm_compute; reflexivity).
  split; [exact H0 |]. split; [exact H1 |].
  exact (proj1 (proj2 phase_partition) (lit 5 10) H0 H1).
Defined.


(** C10 on the FID of [create_animation(1)], half way through the run. *)
Lemma truncation_index_in_bounds_frame_150 :
  exists w idx w',
    FidToSpectrum.create_animation 1 = Some w /\
    FidToSpectrum.update 150 w = Some w' /\
    (0 <= idx < FidToSpectrum.N)%Z /\
    acq_fid w' = acq_fid w /\
    ydata (line_fid w') = np_real (slice_to (acq_fid w) idx) /\
    Z.of_nat (length (ydata (line_fid w'))) = idx.
Proof.
  destruct (FidToSpectrum.create_animation 1) as [w |] eqn:Hw.
  - destruct (proj1 (proj2 (proj2 (proj2 (proj2 truncation_index_in_bounds)))) 150%Z w)
      as [idx [w' Hrun]].
    + unfold FidToSpectrum.frames, FidToSpectrum.animation_seconds, FidToSpectrum.fps. lia.
    + exact (fid_to_spectrum_length 1 w Hw).
    + exists w, idx, w'. split; [reflexivity | exact Hrun].
  - exfalso. unfold FidToSpectrum.create_animation, FidToSpectrum.molecule_type in Hw.
    cbv [Z.eqb Pos.eqb option_map] in Hw. discriminate Hw.
Defined.

(* ================================================================== *)
(** * Part III: further properties of the scripts                      *)
(* ================================================================== *)

(** ** The order of the phases *)

Lemma exact_phase_monotone (frames f1 f2 : Z) :
  (0 < frames)%Z -> (f1 <= f2)%Z ->
  (phase_rank (exact_phase frames f1) <= phase_rank (exact_phase frames f2))%nat.
Proof.
  intros HT Hle. unfold exact_phase.
  repeat match goal with
         | |- context [(?a <? ?b)%Z] => destruct (Z.ltb_spec a b)
         end; simpl; lia.
Qed.

(** X1.  The animation runs through its five phases in order and never
    returns to an earlier one: for frames [f1 <= f2] of a run the phase of
    [f1] does not come after the phase of [f2].  Over the reals this holds
    for any positive frame count; in binary64 for the frames of the
    450-frame run of the scripts and of a 100-frame run. *)
Theorem phases_follow_in_order (frames f1 f2 : Z) :
  (0 < frames)%Z -> (f1 <= f2)%Z ->
  (phase_rank (phase_at (progress frames f1 : R))
   <= phase_rank (phase_at (progress frames f2 : R)))%nat /\
  ((frames = 450 \/ frames = 100)%Z -> (0 <= f1)%Z -> (f2 < frames)%Z ->
   (phase_rank (phase_at (progress frames f1 : float))
    <= phase_rank (phase_at (progress frames f2 : float)))%nat).
Proof.
  intros HT Hle. split.
  - rewrite !R_phase_at_frame by exact HT. apply exact_phase_monotone; assumption.
  - intros [-> | ->] H1 H2.
    + rewrite !b64_phase_at_frame_450 by lia. apply exact_phase_monotone; assumption.
    + rewrite !b64_phase_at_frame_100 by lia. apply exact_phase_monotone; assumption.
Qed.

Lemma phases_follow_in_order_frames_134_135 :
  (0 < 450)%Z /\ (134 <= 135)%Z /\
  (phase_rank (phase_at (progress 450 134 : float))
   <= phase_rank (phase_at (progress 450 135 : float)))%nat.
Proof.
  split; [lia |]. split; [lia |].
  apply (proj2 (phases_follow_in_order 450 134 135 ltac:(lia) ltac:(lia)));
    [left; reflexivity | lia | lia].
Defined.

(** ** Which artists a phase writes to *)

Ltac setters_facts :=
  repeat match goal with
         | H : black_line_do _ _ _ = Some _ |- _ =>
             apply black_line_do_spec in H;
             destruct H as (? & ?%dict_modify_keys & ? & ? & ? & ? & ?)
         | H : red_line_do _ _ _ = Some _ |- _ =>
             apply red_line_do_spec in H;
             destruct H as (? & ?%dict_modify_keys & ? & ? & ? & ? & ?)
         | H : label_real_do _ _ _ = Some _ |- _ =>
             apply label_real_do_spec in H;
             destruct H as (? & ?%dict_modify_keys & ? & ? & ? & ? & ?)
         | H : label_basis_do _ _ _ = Some _ |- _ =>
             apply label_basis_do_spec in H;
             destruct H as (? & ?%dict_modify_keys & ? & ? & ? & ? & ?)
         end.

Ltac other_phase :=
  let Habs := fresh "Habs" in
  intros Habs;
  first [ discriminate Habs
        | destruct Habs as [Habs | [Habs | Habs]]; discriminate Habs
        | exfalso; apply Habs; reflexivity ].

Section Frames.
Context {F C D : Type} `{PyFloat F} `{Dtype F C}.
Variable script : Script F C D.

Lemma wrote_components_only_refl (w : @World F C D) : wrote_components_only w w.
Proof. unfold wrote_components_only, same_bases, same_names. tauto. Qed.

Lemma wrote_bases_only_refl (w : @World F C D) : wrote_bases_only w w.
Proof. unfold wrote_bases_only, same_components, same_names. tauto. Qed.

Lemma wrote_components_only_trans (w1 w2 w3 : @World F C D) :
  wrote_components_only w1 w2 -> wrote_components_only w2 w3 -> wrote_components_only w1 w3.
Proof.
  unfold wrote_components_only, same_bases, same_names.
  intros ((Ha1 & Ha2) & (Ha3 & Ha4 & Ha5 & Ha6) & Ha7 & Ha8)
         ((Hb1 & Hb2) & (Hb3 & Hb4 & Hb5 & Hb6) & Hb7 & Hb8).
  repeat split; congruence.
Qed.

Lemma wrote_bases_only_trans (w1 w2 w3 : @World F C D) :
  wrote_bases_only w1 w2 -> wrote_bases_only w2 w3 -> wrote_bases_only w1 w3.
Proof.
  unfold wrote_bases_only, same_components, same_names.
  intros ((Ha1 & Ha2) & (Ha3 & Ha4 & Ha5 & Ha6) & Ha7 & Ha8)
         ((Hb1 & Hb2) & (Hb3 & Hb4 & Hb5 & Hb6) & Hb7 & Hb8).
  repeat split; congruence.
Qed.

Lemma reveal_one_frame (k : Z) (entry : Z * (string * D)) (w w' : @World F C D) :
  reveal_one script k entry w = Some w' -> wrote_components_only w w'.
Proof.
  destruct entry as [i [name data]]. unfold reveal_one.
  destruct (i <=? k)%Z.
  - intros Hrun. bind_inv Hrun. setters_facts.
    unfold wrote_components_only, same_bases, same_names. repeat split; congruence.
  - intros Hrun. injection Hrun as <-. apply wrote_components_only_refl.
Qed.

Lemma hide_one_frame (n : string) (w w' : @World F C D) :
  hide_one n w = Some w' -> wrote_components_only w w'.
Proof.
  unfold hide_one. intros Hrun. bind_inv Hrun. setters_facts.
  unfold wrote_components_only, same_bases, same_names. repeat split; congruence.
Qed.

Lemma basis_one_frame (entry : Z * (string * D)) (w w' : @World F C D) :
  basis_one script entry w = Some w' -> wrote_bases_only w w'.
Proof.
  destruct entry as [i [name data]]. unfold basis_one.
  intros Hrun. bind_inv Hrun. setters_facts.
  unfold wrote_bases_only, same_components, same_names. repeat split; congruence.
Qed.

Lemma scale_one_frame (s : F) (entry : Z * (string * D)) (w w' : @World F C D) :
  scale_one script s entry w = Some w' -> wrote_bases_only w w'.
Proof.
  destruct entry as [i [name data]]. unfold scale_one.
  intros Hrun. bind_inv Hrun. setters_facts.
  unfold wrote_bases_only, same_components, same_names. repeat split; congruence.
Qed.

Lemma block_frame (ph : Phase) (phase : F) (w w' : @World F C D) :
  block script ph phase w = Some w' ->
  same_names w w' /\
  (ph <> SHOW_SUM -> sum_black (artists w') = sum_black (artists w)) /\
  (ph <> SHOW_FIT -> sum_red (artists w') = sum_red (artists w)) /\
  (ph = SHOW_BASIS \/ ph = SCALE_BASIS \/ ph = SHOW_FIT -> same_components w w') /\
  (ph = REVEAL_COMPONENTS \/ ph = SHOW_SUM \/ ph = SHOW_FIT -> same_bases w w').
Proof.
  destruct ph; simpl; intros Hrun.
  - unfold reveal_components in Hrun.
    destruct (reveal_index _ _) as [k |]; [| discriminate]. simpl in Hrun.
    apply (for_each_keeps wrote_components_only (reveal_one script k)
             wrote_components_only_refl wrote_components_only_trans) in Hrun;
      [| intros x s s' _; apply reveal_one_frame].
    destruct Hrun as (Hb & Hn & Hk & Hr).
    split; [exact Hn |]. split; [intros _; exact Hk |]. split; [intros _; exact Hr |].
    split; [other_phase | intros _; exact Hb].
  - unfold show_sum in Hrun.
    apply (for_each_keeps wrote_components_only hide_one
             wrote_components_only_refl wrote_components_only_trans) in Hrun;
      [| intros x s s' _; apply hide_one_frame].
    destruct Hrun as (Hb & Hn & Hk & Hr).
    split; [exact Hn |]. split; [other_phase |]. split; [intros _; exact Hr |].
    split; [other_phase | intros _; exact Hb].
  - unfold show_basis in Hrun.
    apply (for_each_keeps wrote_bases_only (basis_one script)
             wrote_bases_only_refl wrote_bases_only_trans) in Hrun;
      [| intros x s s' _; apply basis_one_frame].
    destruct Hrun as (Hb & Hn & Hk & Hr).
    split; [exact Hn |]. split; [intros _; exact Hk |]. split; [intros _; exact Hr |].
    split; [intros _; exact Hb | other_phase].
  - unfold scale_basis in Hrun.
    apply (for_each_keeps wrote_bases_only (scale_one script (scale_factor phase))
             wrote_bases_only_refl wrote_bases_only_trans) in Hrun;
      [| intros x s s' _; apply scale_one_frame].
    destruct Hrun as (Hb & Hn & Hk & Hr).
    split; [exact Hn |]. split; [intros _; exact Hk |]. split; [intros _; exact Hr |].
    split; [intros _; exact Hb | other_phase].
  - unfold show_fit in Hrun. bind_inv Hrun. subst w'.
    unfold same_names, same_components, same_bases, sum_red_do. simpl.
    split; [tauto |]. split; [reflexivity |]. split; [other_phase |]. tauto.
Qed.

Lemma same_names_refl (w : @World F C D) : same_names w w.
Proof. unfold same_names. tauto. Qed.

Lemma same_names_trans (w1 w2 w3 : @World F C D) :
  same_names w1 w2 -> same_names w2 w3 -> same_names w1 w3.
Proof.
  unfold same_names. intros (Ha1 & Ha2 & Ha3 & Ha4) (Hb1 & Hb2 & Hb3 & Hb4).
  repeat split; congruence.
Qed.

Lemma update_names (frames frame : Z) (w w' : @World F C D) :
  update script frames frame w = Some w' -> same_names w w'.
Proof.
  assert (Hwhen : forall ph p (w1 w2 : @World F C D),
             when script ph p w1 = Some w2 -> same_names w1 w2).
  { intros ph p w1 w2. unfold when. destruct (guard ph p).
    - intros Hrun. apply (block_frame ph p w1 w2 Hrun).
    - intros Heq. injection Heq as <-. apply same_names_refl. }
  unfold update. intros Hrun. bind_inv Hrun.
  repeat match goal with
         | Hw : when _ _ _ _ = Some _ |- _ => apply Hwhen in Hw
         end.
  eauto using same_names_trans.
Qed.

End Frames.

(** The worlds of the two scripts take every block. *)
Lemma time_domain_block_total (T2_value : R) (w : World) (ph : Phase) (p : R) :
  TimeDomain.setup T2_value = Some w ->
  exists w', block TimeDomain.script ph p w = Some w'.
Proof.
  unfold TimeDomain.setup. intros Hsetup.
  destruct (build TimeDomain.script TimeDomain.t (TimeDomain.molecules T2_value))
    as [sg |] eqn:Hbuild; [| discriminate].
  cbv [option_map] in Hsetup.
  assert (Hw : w = figure sg) by congruence. clear Hsetup. subst w.
  assert (Hd : is_dict (TimeDomain.molecules T2_value)) by apply dict_of_list_is_dict.
  destruct (build_shapes TimeDomain.script TimeDomain.t _ sg (Z.to_nat TimeDomain.N)
              Hd Hbuild (time_domain_basis_length T2_value)) as [Hreal Hbasis].
  assert (Hax : length (axis sg) = Z.to_nat TimeDomain.N).
  { rewrite (build_axis _ _ _ _ Hbuild). unfold TimeDomain.t. apply length_t. }
  destruct (block_total TimeDomain.script sg) with (ph := ph) (phase := p) (w := figure sg)
    as [w' [Hrun _]].
  - intros i y _. eexists. reflexivity.
  - intros name fid Hget. rewrite Hax. exact (Hreal name fid Hget).
  - intros name fid Hget. rewrite Hax. exact (Hbasis name fid Hget).
  - intros x. eexists. reflexivity.
  - exists (real_sum sg).
    apply (fitted_is_real_sum TimeDomain.script TimeDomain.t _ sg Hd Hbuild).
  - apply (figure_steady TimeDomain.script TimeDomain.t _ sg Hd Hbuild).
  - exists w'. exact Hrun.
Qed.

(** X2.  Each phase of [update] writes to its own artists and to no
    other.  The reveal and sum phases leave the red lines and the basis
    labels as they were, the two basis phases leave the black lines and
    the component labels, the final phase leaves all four dicts; only the
    sum phase writes the black composite line and only the final phase the
    red one.  So nothing a phase has drawn is cleared by a later phase,
    except the components, which the sum phase hides. *)
Theorem phase_writes_its_own_artists
  (F C D : Type) (PF : PyFloat F) (DT : Dtype F C) (script : Script F C D)
  (ph : Phase) (p : F) (w w' : World) :
  block script ph p w = Some w' ->
  (ph <> SHOW_SUM -> sum_black (artists w') = sum_black (artists w)) /\
  (ph <> SHOW_FIT -> sum_red (artists w') = sum_red (artists w)) /\
  (ph = SHOW_BASIS \/ ph = SCALE_BASIS \/ ph = SHOW_FIT -> same_components w w') /\
  (ph = REVEAL_COMPONENTS \/ ph = SHOW_SUM \/ ph = SHOW_FIT -> same_bases w w').
Proof.
  intros Hrun. exact (proj2 (block_frame script ph p w w' Hrun)).
Qed.

Lemma phase_writes_its_own_artists_show_basis :
  exists w w',
    TimeDomain.setup TimeDomain.T2 = Some w /\
    block TimeDomain.script SHOW_BASIS (lit 5 10) w = Some w' /\
    sum_black (artists w') = sum_black (artists w) /\
    same_components w w'.
Proof.
  destruct (time_domain_setup_total TimeDomain.T2) as [w Hw].
  destruct (time_domain_block_total TimeDomain.T2 w SHOW_BASIS (lit 5 10) Hw) as [w' Hrun].
  exists w, w'. split; [exact Hw |]. split; [exact Hrun |].
  pose proof (phase_writes_its_own_artists R complex TimeDomain.Molecule _ _
                TimeDomain.script SHOW_BASIS (lit 5 10) w w' Hrun) as (Hk & _ & Hc & _).
  split; [apply Hk; discriminate | apply Hc; left; reflexivity].
Defined.

(** X3.  No call of [update], and so no run of frames, adds or removes an
    artist: the four dicts of lines and labels keep their keys, in order. *)
Theorem run_keeps_artist_names
  (F C D : Type) (PF : PyFloat F) (DT : Dtype F C) (script : Script F C D)
  (frames : Z) (fs : list Z) (w w' : World) :
  for_each fs (update script frames) w = Some w' -> same_names w w'.
Proof.
  apply (for_each_keeps same_names (update script frames)
           same_names_refl same_names_trans).
  intros x s s' _. apply update_names.
Qed.

Lemma run_keeps_artist_names_time_domain :
  exists w w',
    TimeDomain.setup TimeDomain.T2 = Some w /\
    for_each [0; 200; 449]%Z TimeDomain.update w = Some w' /\
    same_names w w'.
Proof.
  destruct (time_domain_setup_total TimeDomain.T2) as [w Hw].
  destruct (time_domain_run TimeDomain.T2 w [0; 200; 449]%Z Hw) as [w' [Hrun _]].
  exists w, w'. split; [exact Hw |]. split; [exact Hrun |].
  exact (run_keeps_artist_names R complex TimeDomain.Molecule _ _ TimeDomain.script
           TimeDomain.frames [0; 200; 449]%Z w w' Hrun).
Defined.

(** ** What the sum and basis phases draw *)

(** In a loop that writes one entry of a dict per iteration, under
    distinct names, the entry of a name ends as its own iteration left
    it. *)
Lemma for_each_last_write {A S V : Type} (key : A -> string)
      (get : S -> string -> option V) (same : S -> S -> Prop)
      (body : A -> S -> option S) :
  (forall s, same s s) ->
  (forall s1 s2 s3, same s1 s2 -> same s2 s3 -> same s1 s3) ->
  (forall x s s', body x s = Some s' ->
                  same s s' /\ forall n, n <> key x -> get s' n = get s n) ->
  forall xs : list A,
    NoDup (map key xs) ->
    forall s s', for_each xs body s = Some s' ->
      same s s' /\
      (forall n, ~ In n (map key xs) -> get s' n = get s n) /\
      forall x, In x xs ->
        exists s1 s2, same s s1 /\ body x s1 = Some s2 /\ get s' (key x) = get s2 (key x).
Proof.
  intros Hrefl Htrans Hbody.
  induction xs as [| x0 rest IH]; intros Hnd s s' Hrun.
  - simpl in Hrun. injection Hrun as <-.
    split; [apply Hrefl |]. split; [reflexivity | intros x []].
  - rewrite for_each_cons in Hrun.
    destruct (body x0 s) as [s1 |] eqn:Hstep; [| discriminate]. simpl in Hrun.
    simpl in Hnd. apply NoDup_cons_iff in Hnd. destruct Hnd as [Hfresh Hnd].
    destruct (Hbody x0 s s1 Hstep) as [Hsame1 Hother1].
    destruct (IH Hnd s1 s' Hrun) as [Hsame' [Hother' Hlast']].
    split; [eapply Htrans; eassumption |]. split.
    + intros n Hn. simpl in Hn.
      rewrite Hother' by (intros Hin; apply Hn; right; exact Hin).
      apply Hother1. intros ->. apply Hn. left. reflexivity.
    + intros x [<- | Hin].
      * exists s, s1. split; [apply Hrefl |]. split; [exact Hstep |].
        apply Hother'. exact Hfresh.
      * destruct (Hlast' x Hin) as [s2 [s3 [Hs2 [Hstep2 Hget]]]].
        exists s2, s3. split; [eapply Htrans; eassumption |]. split; assumption.
Qed.

Section Drawn.
Context {F C D : Type} `{PyFloat F} `{Dtype F C}.
Variable script : Script F C D.

Lemma hide_one_effect (n : string) (w w' : @World F C D) :
  hide_one n w = Some w' ->
  (forall m, dict_get (black_lines (artists w')) m
             = if String.eqb n m
               then option_map (set_data [] []) (dict_get (black_lines (artists w)) m)
               else dict_get (black_lines (artists w)) m) /\
  (forall m, dict_get (labels_real (artists w')) m
             = if String.eqb n m
               then option_map (set_text []) (dict_get (labels_real (artists w)) m)
               else dict_get (labels_real (artists w)) m) /\
  (exists line l, dict_get (black_lines (artists w)) n = Some line /\
                  dict_get (labels_real (artists w)) n = Some l).
Proof.
  unfold hide_one. intros Hrun. bind_inv Hrun.
  apply black_line_do_spec in E. destruct E as (_ & Hmod & _ & _ & _ & Hl & _).
  apply label_real_do_spec in Hrun. destruct Hrun as (_ & Hmod' & Hb & _).
  split; [| split].
  - intros m. rewrite Hb. apply (dict_modify_get _ _ _ _ Hmod).
  - intros m. rewrite (dict_modify_get _ _ _ _ Hmod' m), Hl. reflexivity.
  - destruct (dict_modify_was_there _ _ _ _ Hmod) as [line Hline].
    destruct (dict_modify_was_there _ _ _ _ Hmod') as [l Hlab].
    rewrite Hl in Hlab. eauto.
Qed.

Lemma hide_loop_effect (names : list string) :
  forall w w' : @World F C D,
    for_each names hide_one w = Some w' ->
    forall m, In m names ->
      dict_get (black_lines (artists w')) m = Some {| xdata := []; ydata := [] |} /\
      exists l, dict_get (labels_real (artists w)) m = Some l /\
                dict_get (labels_real (artists w')) m
                = Some {| position := position l; text := [] |}.
Proof.
  assert (Hkeep : forall names (w w' : @World F C D),
             for_each names hide_one w = Some w' ->
             forall m,
               (dict_get (black_lines (artists w)) m = Some {| xdata := []; ydata := [] |} ->
                dict_get (black_lines (artists w')) m = Some {| xdata := []; ydata := [] |}) /\
               (forall l, dict_get (labels_real (artists w)) m
                          = Some {| position := position l; text := [] |} ->
                          dict_get (labels_real (artists w')) m
                          = Some {| position := position l; text := [] |})).
  { induction names0 as [| n rest IH]; intros w w' Hrun m.
    - simpl in Hrun. injection Hrun as <-. split; [tauto | intros l Hl; exact Hl].
    - rewrite for_each_cons in Hrun.
      destruct (hide_one n w) as [w1 |] eqn:Hstep; [| discriminate]. simpl in Hrun.
      destruct (hide_one_effect n w w1 Hstep) as (Hb1 & Hl1 & _).
      destruct (IH w1 w' Hrun m) as [IHb IHl]. split.
      + intros Hm. apply IHb. rewrite Hb1, Hm. destruct (String.eqb n m); reflexivity.
      + intros l Hm. apply IHl. rewrite Hl1, Hm. destruct (String.eqb n m); reflexivity. }
  induction names as [| n rest IH]; intros w w' Hrun m Hin; [contradiction |].
  rewrite for_each_cons in Hrun.
  destruct (hide_one n w) as [w1 |] eqn:Hstep; [| discriminate]. simpl in Hrun.
  destruct (hide_one_effect n w w1 Hstep) as (Hb1 & Hl1 & line & l & Hline & Hlab).
  destruct (String.eqb_spec n m) as [<- | Hne].
  - destruct (Hkeep rest w1 w' Hrun n) as [Kb Kl]. split.
    + apply Kb. rewrite Hb1, String.eqb_refl, Hline. reflexivity.
    + exists l. split; [exact Hlab |].
      apply Kl. rewrite Hl1, String.eqb_refl, Hlab. reflexivity.
  - destruct Hin as [Heq | Hin]; [contradiction |].
    destruct (IH w1 w' Hrun m Hin) as [Hb' [l' [Hl' Hl'']]].
    split; [exact Hb' |]. exists l'. split; [| exact Hl''].
    rewrite Hl1 in Hl'. apply String.eqb_neq in Hne. rewrite Hne in Hl'. exact Hl'.
Qed.

Lemma basis_one_effect (i : Z) (name : string) (data : D) (w w' : @World F C D) :
  basis_one script (i, (name, data)) w = Some w' ->
  signals w' = signals w /\
  (forall n, n <> name ->
             dict_get (red_lines (artists w')) n = dict_get (red_lines (artists w)) n /\
             dict_get (labels_basis (artists w')) n = dict_get (labels_basis (artists w)) n) /\
  exists basis pos,
    dict_get (basis_fids (signals w)) name = Some basis /\
    anchor script (axis (signals w)) i (np_real basis) = Some pos /\
    dict_get (red_lines (artists w')) name
    = Some {| xdata := axis (signals w); ydata := np_real basis |} /\
    dict_get (labels_basis (artists w')) name
    = Some {| position := pos; text := [Str "1 AU"] |}.
Proof.
  intros Hrun. split; [exact (basis_one_signals script _ w w' Hrun) |].
  unfold basis_one in Hrun. bind_inv Hrun.
  apply red_line_do_spec in E0. destruct E0 as (Hs0 & Hmod & _ & _ & _ & _ & Hlb0).
  apply label_basis_do_spec in E2. destruct E2 as (Hs2 & Hmod2 & _ & Hr2 & _).
  apply label_basis_do_spec in Hrun. destruct Hrun as (_ & Hmod3 & _ & Hr3 & _).
  split.
  - intros n Hn. apply not_eq_sym in Hn. apply String.eqb_neq in Hn.
    rewrite Hr3, Hr2, (dict_modify_get _ _ _ _ Hmod n), Hn.
    rewrite (dict_modify_get _ _ _ _ Hmod3 n), (dict_modify_get _ _ _ _ Hmod2 n), Hn, Hlb0.
    split; reflexivity.
  - exists l, p. split; [reflexivity |]. rewrite Hs0 in E1. split; [exact E1 |]. split.
    + rewrite Hr3, Hr2, (dict_modify_get _ _ _ _ Hmod name), String.eqb_refl.
      destruct (dict_modify_was_there _ _ _ _ Hmod) as [old ->]. reflexivity.
    + rewrite (dict_modify_get _ _ _ _ Hmod3 name), (dict_modify_get _ _ _ _ Hmod2 name).
      rewrite String.eqb_refl.
      destruct (dict_modify_was_there _ _ _ _ Hmod2) as [old ->]. reflexivity.
Qed.

End Drawn.

(** What [setup] of the time-domain script builds. *)
Lemma time_domain_world (T2_value : R) (w : World) :
  TimeDomain.setup T2_value = Some w ->
  molecules (signals w) = TimeDomain.molecules T2_value /\
  axis (signals w) = TimeDomain.t /\
  is_dict (molecules (signals w)) /\
  build TimeDomain.script TimeDomain.t (TimeDomain.molecules T2_value) = Some (signals w).
Proof.
  unfold TimeDomain.setup. intros Hsetup.
  destruct (build TimeDomain.script TimeDomain.t (TimeDomain.molecules T2_value))
    as [sg |] eqn:Hbuild; [| discriminate].
  cbv [option_map] in Hsetup.
  assert (Hw : w = figure sg) by congruence. clear Hsetup. subst w.
  assert (Hd : is_dict (TimeDomain.molecules T2_value)) by apply dict_of_list_is_dict.
  destruct (build_aligned TimeDomain.script TimeDomain.t _ sg Hd Hbuild)
    as [tr [Hmol [Hitems [Hax _]]]].
  cbn [figure signals].
  assert (Hm : molecules sg = TimeDomain.molecules T2_value) by congruence.
  split; [exact Hm |]. split; [exact Hax |]. split; [rewrite Hm; exact Hd | reflexivity].
Qed.

(** C7 on frame 300 of the 450-frame run: the scale factor in binary64,
    and the red line of species D (concentration 12) in the time-domain
    script. *)
Lemma scale_basis_ramp_frame_300 :
  guard SCALE_BASIS (progress 450 300 : float) = true /\
  ((of_int 0 <=? scale_factor (progress 450 300 : float))%py = true /\
   (scale_factor (progress 450 300 : float) <? of_int 1)%py = true) /\
  exists w w' basis,
    TimeDomain.setup TimeDomain.T2 = Some w /\
    is_dict (molecules (signals w)) /\
    block TimeDomain.script SCALE_BASIS (progress 450 300) w = Some w' /\
    dict_get (basis_fids (signals w)) "D" = Some basis /\
    dict_get (red_lines (artists w')) "D"
    = Some {| xdata := axis (signals w);
              ydata := map (fun z => (fst z * 12
                                      * ((progress 450 300 - 65 / 100) / (25 / 100)))%R)
                           basis |}.
Proof.
  assert (Hg : guard SCALE_BASIS (progress 450 300 : float) = true)
    by (vm_compute; reflexivity).
  split; [exact Hg |].
  split; [apply (proj1 (proj2 (proj2 scale_basis_ramp)) 300%Z); [lia | exact Hg] |].
  destruct (time_domain_setup_total TimeDomain.T2) as [w Hw].
  destruct (time_domain_block_total TimeDomain.T2 w SCALE_BASIS (progress 450 300) Hw)
    as [w' Hrun].
  destruct (time_domain_world TimeDomain.T2 w Hw) as (Hm & _ & Hd & _).
  destruct (proj1 (proj2 (proj2 (proj2 (proj2 (proj2 (proj2 scale_basis_ramp))))))
              (progress 450 300) w w' Hd Hrun 3%Z "D"%string
              {| TimeDomain.fid :=
                   TimeDomain.multiplet TimeDomain.T2 320 [1%R; 3%R; 3%R; 1%R];
                 TimeDomain.conc := 12 |})
    as (basis & Hb & Hline).
  - rewrite Hm, time_domain_molecules. right. right. right. left. reflexivity.
  - exists w, w', basis. split; [exact Hw |]. split; [exact Hd |].
    split; [exact Hrun |]. split; [exact Hb |]. exact Hline.
Defined.

(** X4.  The sum phase draws the composite and hides every component: the
    black composite line shows [np.real(real_sum)] over the axis, the
    black line of every species is emptied and its label loses its text
    (and keeps its position). *)
Theorem show_sum_hides_components
  (F C D : Type) (PF : PyFloat F) (DT : Dtype F C) (script : Script F C D)
  (p : F) (w w' : World) :
  block script SHOW_SUM p w = Some w' ->
  sum_black (artists w')
  = {| xdata := axis (signals w); ydata := np_real (real_sum (signals w)) |} /\
  forall name,
    In name (keys (molecules (signals w))) ->
    dict_get (black_lines (artists w')) name = Some {| xdata := []; ydata := [] |} /\
    exists l,
      dict_get (labels_real (artists w)) name = Some l /\
      dict_get (labels_real (artists w')) name
      = Some {| position := position l; text := [] |}.
Proof.
  intros Hrun. split.
  - simpl in Hrun. unfold show_sum in Hrun.
    apply (for_each_keeps wrote_components_only hide_one
             wrote_components_only_refl wrote_components_only_trans) in Hrun;
      [| intros x s s' _; apply hide_one_frame].
    destruct Hrun as (_ & _ & Hk & _). rewrite Hk. reflexivity.
  - simpl in Hrun. unfold show_sum in Hrun. intros name Hin.
    exact (hide_loop_effect _ _ w' Hrun name Hin).
Qed.

Lemma show_sum_hides_components_time_domain :
  exists w w',
    TimeDomain.setup TimeDomain.T2 = Some w /\
    block TimeDomain.script SHOW_SUM (lit 4 10) w = Some w' /\
    sum_black (artists w')
    = {| xdata := axis (signals w); ydata := np_real (real_sum (signals w)) |} /\
    dict_get (black_lines (artists w')) "A" = Some {| xdata := []; ydata := [] |}.
Proof.
  destruct (time_domain_setup_total TimeDomain.T2) as [w Hw].
  destruct (time_domain_block_total TimeDomain.T2 w SHOW_SUM (lit 4 10) Hw) as [w' Hrun].
  destruct (time_domain_world TimeDomain.T2 w Hw) as (Hm & _ & _ & _).
  exists w, w'. split; [exact Hw |]. split; [exact Hrun |].
  destruct (show_sum_hides_components R complex TimeDomain.Molecule _ _
              TimeDomain.script (lit 4 10) w w' Hrun) as [Hsum Hall].
  split; [exact Hsum |].
  apply (Hall "A"%string). rewrite Hm, time_domain_molecules. left. reflexivity.
Defined.

(** X5.  The basis phase draws every basis at unit scale: the red line of
    each species shows [np.real(basis)] over the axis and its label reads
    "1 AU", at the position the script computes for that species. *)
Theorem show_basis_draws_unit_bases
  (F C D : Type) (PF : PyFloat F) (DT : Dtype F C) (script : Script F C D)
  (p : F) (w w' : World) :
  is_dict (molecules (signals w)) ->
  block script SHOW_BASIS p w = Some w' ->
  forall i name data,
    In (i, (name, data)) (enumerate (molecules (signals w))) ->
    exists basis pos,
      dict_get (basis_fids (signals w)) name = Some basis /\
      anchor script (axis (signals w)) i (np_real basis) = Some pos /\
      dict_get (red_lines (artists w')) name
      = Some {| xdata := axis (signals w); ydata := np_real basis |} /\
      dict_get (labels_basis (artists w')) name
      = Some {| position := pos; text := [Str "1 AU"] |}.
Proof.
  intros Hd Hrun i name data Hin. simpl in Hrun. unfold show_basis in Hrun.
  destruct (for_each_last_write
              (fun e : Z * (string * D) => fst (snd e))
              (fun (s : World) n =>
                 Some (dict_get (red_lines (artists s)) n,
                       dict_get (labels_basis (artists s)) n))
              (fun s s' : World => signals s' = signals s)
              (basis_one script)) with (xs := enumerate (molecules (signals w)))
                                       (s := w) (s' := w')
    as (_ & _ & Hlast).
  - reflexivity.
  - intros s1 s2 s3 H12 H23. congruence.
  - intros [i0 [n0 d0]] s s' Hstep.
    destruct (basis_one_effect script i0 n0 d0 s s' Hstep) as (Hs & Hother & _).
    split; [exact Hs |]. intros n Hn. simpl in Hn.
    destruct (Hother n Hn) as [-> ->]. reflexivity.
  - unfold enumerate. rewrite enumerate_from_keys. exact Hd.
  - exact Hrun.
  - destruct (Hlast (i, (name, data)) Hin) as (s1 & s2 & Hs1 & Hstep & Hget).
    simpl in Hget. injection Hget as Hred Hlab.
    destruct (basis_one_effect script i name data s1 s2 Hstep)
      as (_ & _ & basis & pos & Hb & Hpos & Hr & Hl).
    rewrite Hs1 in Hb, Hpos, Hr. exists basis, pos.
    split; [exact Hb |]. split; [exact Hpos |]. split; congruence.
Qed.

Lemma show_basis_draws_unit_bases_time_domain :
  exists w w' basis,
    TimeDomain.setup TimeDomain.T2 = Some w /\
    is_dict (molecules (signals w)) /\
    block TimeDomain.script SHOW_BASIS (lit 5 10) w = Some w' /\
    dict_get (basis_fids (signals w)) "A" = Some basis /\
    dict_get (red_lines (artists w')) "A"
    = Some {| xdata := axis (signals w); ydata := np_real basis |} /\
    dict_get (labels_basis (artists w')) "A"
    = Some {| position := (lit 25 100, 18%R); text := [Str "1 AU"] |}.
Proof.
  destruct (time_domain_setup_total TimeDomain.T2) as [w Hw].
  destruct (time_domain_block_total TimeDomain.T2 w SHOW_BASIS (lit 5 10) Hw) as [w' Hrun].
  destruct (time_domain_world TimeDomain.T2 w Hw) as (Hm & _ & Hd & _).
  destruct (show_basis_draws_unit_bases R complex TimeDomain.Molecule _ _
              TimeDomain.script (lit 5 10) w w' Hd Hrun 0%Z "A"%string
              {| TimeDomain.fid := TimeDomain.multiplet TimeDomain.T2 80 [1%R];
                 TimeDomain.conc := 5 |})
    as (basis & pos & Hb & Hpos & Hr & Hl).
  - rewrite Hm, time_domain_molecules. left. reflexivity.
  - exists w, w', basis.
    split; [exact Hw |]. split; [exact Hd |]. split; [exact Hrun |].
    split; [exact Hb |]. split; [exact Hr |].
    cbn [anchor TimeDomain.script] in Hpos. injection Hpos as <-. exact Hl.
Defined.

(** ** The last frames of the reveal phase show every component *)

Lemma enumerate_from_entry {A : Type} (items : dict A) (i0 : Z) (name : string) :
  In name (keys items) ->
  exists i data, In (i, (name, data)) (enumerate_from i0 items) /\
                 (i0 <= i < i0 + Z.of_nat (length items))%Z.
Proof.
  revert i0. induction items as [| [n d] rest IH]; intros i0 Hin; [contradiction |].
  destruct Hin as [Heq | Hin].
  - simpl in Heq. subst n. exists i0, d. split; [left; reflexivity |].
    cbn [length]. lia.
  - destruct (IH (i0 + 1)%Z Hin) as [i [data [Hi Hb]]].
    exists i, data. split; [right; exact Hi |]. cbn [length]. lia.
Qed.

(** X6.  Over the reals, once the progress fraction has reached
    [0.3*(n-1)/n] the reveal index is [n-1], and the reveal phase then
    shows the real signal of every one of the [n] species; so every
    component has been revealed before the sum phase hides them. *)
Theorem late_reveal_shows_all
  (C D : Type) (DT : Dtype R C) (script : Script R C D) (p : R) (w w' : World) :
  (lit 3 10 * (IZR (Z.of_nat (length (molecules (signals w)))) - 1)
   <= p * IZR (Z.of_nat (length (molecules (signals w)))))%R ->
  (0 <= p)%R ->
  block script REVEAL_COMPONENTS p w = Some w' ->
  reveal_index p (Z.of_nat (length (molecules (signals w))))
  = Some (Int_part (p / lit 3 10 * IZR (Z.of_nat (length (molecules (signals w)))))) /\
  (Z.of_nat (length (molecules (signals w))) - 1
   <= Int_part (p / lit 3 10 * IZR (Z.of_nat (length (molecules (signals w))))))%Z /\
  forall name, In name (keys (molecules (signals w))) -> revealed w' name.
Proof.
  intros Hlate Hp Hrun.
  set (n := Z.of_nat (length (molecules (signals w)))) in *.
  assert (Hidx : reveal_index p n = Some (Int_part (p / lit 3 10 * IZR n)))
    by (apply R_reveal_index; [exact Hp | unfold n; lia]).
  assert (Hk : (n - 1 <= Int_part (p / lit 3 10 * IZR n))%Z).
  { rewrite <- (Int_part_floor (IZR (n - 1)) (n - 1)) at 1 by lra.
    apply Int_part_monotone. rewrite minus_IZR. rewrite R_lit in *.
    apply Rmult_le_reg_l with (r := (3 / 10)%R); [lra |].
    replace (3 / 10 * (p / (3 / 10) * IZR n))%R with (p * IZR n)%R by (field; lra).
    lra. }
  split; [exact Hidx |]. split; [exact Hk |].
  set (k := Int_part (p / lit 3 10 * IZR n)) in *. clearbody k.
  intros name Hin. cbn [block] in Hrun. unfold reveal_components in Hrun.
  fold n in Hrun. rewrite Hidx in Hrun. cbn [bind] in Hrun.
  destruct (reveal_loop_effect script _ _ w w' Hrun) as (Hs & Hget & Hfid).
  destruct (enumerate_from_entry (molecules (signals w)) 0 name Hin) as (i & data & Hi & Hb).
  assert (Ht : touched k (enumerate (molecules (signals w))) name = true).
  { apply (touched_of_entry _ _ i name data Hi). fold n in Hb. lia. }
  destruct (Hfid name Ht) as [fid Hreal].
  exists fid. rewrite Hs. split; [exact Hreal |].
  rewrite Hget, Ht, Hreal. reflexivity.
Qed.

Lemma late_reveal_shows_all_frame_134 :
  exists w w',
    TimeDomain.setup TimeDomain.T2 = Some w /\
    (lit 3 10 * (IZR (Z.of_nat (length (molecules (signals w)))) - 1)
     <= progress 450 134 * IZR (Z.of_nat (length (molecules (signals w)))))%R /\
    (0 <= progress 450 134)%R /\
    block TimeDomain.script REVEAL_COMPONENTS (progress 450 134) w = Some w' /\
    revealed w' "D".
Proof.
  destruct (time_domain_setup_total TimeDomain.T2) as [w Hw].
  destruct (time_domain_block_total TimeDomain.T2 w REVEAL_COMPONENTS (progress 450 134) Hw)
    as [w' Hrun].
  destruct (time_domain_world TimeDomain.T2 w Hw) as (Hm & _ & _ & _).
  assert (Hp : (0 <= progress 450 134)%R) by (unfold progress; simpl; lra).
  assert (Hlate : (lit 3 10 * (IZR (Z.of_nat (length (molecules (signals w)))) - 1)
                   <= progress 450 134 * IZR (Z.of_nat (length (molecules (signals w)))))%R).
  { rewrite Hm, time_domain_molecules. cbn [length]. rewrite R_lit.
    unfold progress. simpl. lra. }
  exists w, w'. split; [exact Hw |]. split; [exact Hlate |]. split; [exact Hp |].
  split; [exact Hrun |].
  apply (proj2 (proj2 (late_reveal_shows_all complex TimeDomain.Molecule _
                         TimeDomain.script (progress 450 134) w w' Hlate Hp Hrun))).
  rewrite Hm, time_domain_molecules. cbn [keys map fst]. right. right. right. left.
  reflexivity.
Defined.

(** ** What the build loop stores, and when it raises *)

Lemma build_pairs {F C D : Type} `{PyFloat F} `{Dtype F C} (script : Script F C D)
      (axis_ : list F) (molecules_ : dict D) (sg : Signals) :
  is_dict molecules_ ->
  build script axis_ molecules_ = Some sg ->
  molecules sg = molecules_ /\
  axis sg = axis_ /\
  keys (real_fids sg) = keys molecules_ /\
  keys (basis_fids sg) = keys molecules_ /\
  forall name data,
    dict_get molecules_ name = Some data ->
    exists basis,
      basis_of script data = Some basis /\
      dict_get (basis_fids sg) name = Some basis /\
      dict_get (real_fids sg) name = Some (times_int basis (conc_of script data)).
Proof.
  intros Hd Hbuild.
  destruct (build_aligned script axis_ molecules_ sg Hd Hbuild)
    as (tr & Hmol & Hitems & Hax & Hall & Hreal & Hbasis & _).
  split; [congruence |]. split; [exact Hax |].
  rewrite Hreal, Hbasis, Hitems. unfold keys. rewrite !map_map. simpl.
  split; [reflexivity |]. split; [reflexivity |].
  clear - Hall. intros name data.
  induction tr as [| [[n d] b] tr IH]; simpl; [discriminate |].
  apply Forall_cons_iff in Hall. destruct Hall as [Hb Hall]. simpl in Hb.
  destruct (String.eqb n name).
  - intros Heq. injection Heq as <-. exists b. repeat split. exact Hb.
  - apply IH. exact Hall.
Qed.

(** X7.  The build loop stores one basis and one real signal per molecule,
    under the molecule's name and in the molecules' order: the basis is
    the one the script derives from the molecule's record, the real signal
    is that basis times the molecule's concentration. *)
Theorem build_stores_one_pair_per_molecule
  (F C D : Type) (PF : PyFloat F) (DT : Dtype F C) (script : Script F C D)
  (axis_ : list F) (molecules_ : dict D) (sg : Signals) :
  is_dict molecules_ ->
  build script axis_ molecules_ = Some sg ->
  molecules sg = molecules_ /\
  axis sg = axis_ /\
  keys (real_fids sg) = keys molecules_ /\
  keys (basis_fids sg) = keys molecules_ /\
  forall name data,
    dict_get molecules_ name = Some data ->
    exists basis,
      basis_of script data = Some basis /\
      dict_get (basis_fids sg) name = Some basis /\
      dict_get (real_fids sg) name = Some (times_int basis (conc_of script data)).
Proof. exact (build_pairs script axis_ molecules_ sg). Qed.

Lemma build_stores_one_pair_per_molecule_time_domain :
  exists sg,
    is_dict (TimeDomain.molecules TimeDomain.T2) /\
    build TimeDomain.script TimeDomain.t (TimeDomain.molecules TimeDomain.T2) = Some sg /\
    keys (real_fids sg) = keys (TimeDomain.molecules TimeDomain.T2) /\
    keys (basis_fids sg) = keys (TimeDomain.molecules TimeDomain.T2).
Proof.
  destruct (time_domain_build_total TimeDomain.T2) as [sg Hbuild].
  assert (Hd : is_dict (TimeDomain.molecules TimeDomain.T2)) by apply dict_of_list_is_dict.
  exists sg. split; [exact Hd |]. split; [exact Hbuild |].
  destruct (build_stores_one_pair_per_molecule R complex TimeDomain.Molecule _ _
              TimeDomain.script TimeDomain.t _ sg Hd Hbuild) as (_ & _ & Hr & Hb & _).
  split; assumption.
Defined.

Lemma build_loop_raises {F C D : Type} `{PyFloat F} `{Dtype F C}
      (script : Script F C D) (items : dict D) :
  (exists nd, In nd items /\ basis_of script (snd nd) = None) ->
  forall acc, for_each items (build_step script) acc = None.
Proof.
  induction items as [| [name data] rest IH]; intros [nd [Hin Hnone]] acc;
    [contradiction |].
  rewrite for_each_cons. unfold build_step at 1. destruct acc as [real basis].
  destruct (basis_of script data) as [b |] eqn:Hb; [| reflexivity].
  cbn [bind]. apply IH. destruct Hin as [<- | Hin].
  - simpl in Hnone. congruence.
  - exists nd. split; assumption.
Qed.

(** X8.  When the FIDs of the molecules have one common length, the build
    loop of the time-domain script succeeds exactly when there is no
    molecule at all or the FIDs are not empty: [np.max] of an empty array
    raises, and nothing else in the loop can. *)
Theorem time_domain_build_succeeds_iff
  (axis_ : list R) (molecules_ : dict TimeDomain.Molecule) (len : nat) :
  is_dict molecules_ ->
  (forall nd, In nd molecules_ -> length (TimeDomain.fid (snd nd)) = len) ->
  (exists sg, build TimeDomain.script axis_ molecules_ = Some sg)
  <-> (molecules_ = [] \/ len <> 0%nat).
Proof.
  intros Hd Hlen. split.
  - intros [sg Hbuild]. destruct molecules_ as [| nd rest]; [left; reflexivity |].
    right. intros ->. unfold build in Hbuild.
    rewrite (build_loop_raises TimeDomain.script (nd :: rest)) in Hbuild; [discriminate |].
    exists nd. split; [left; reflexivity |].
    pose proof (Hlen nd (or_introl eq_refl)) as Hnil.
    apply length_zero_iff_nil in Hnil.
    cbn [basis_of TimeDomain.script]. rewrite Hnil. reflexivity.
  - intros [-> | Hpos].
    + eexists. reflexivity.
    + apply (build_total TimeDomain.script axis_ molecules_ len Hd).
      * intros nd Hin. destruct (peak_normalize_total (TimeDomain.fid (snd nd))) as [b [Hb _]].
        -- intros Hnil. apply Hpos. rewrite <- (Hlen nd Hin), Hnil. reflexivity.
        -- exists b. exact Hb.
      * intros nd b Hin Hb.
        destruct (peak_normalize_total (TimeDomain.fid (snd nd))) as [b' [Hb' Hl]].
        -- intros Hnil. apply Hpos. rewrite <- (Hlen nd Hin), Hnil. reflexivity.
        -- cbn [basis_of TimeDomain.script] in Hb. rewrite Hlen in Hl by exact Hin.
           congruence.
Qed.

Lemma time_domain_build_succeeds_iff_script :
  is_dict (TimeDomain.molecules TimeDomain.T2) /\
  (forall nd, In nd (TimeDomain.molecules TimeDomain.T2) ->
              length (TimeDomain.fid (snd nd)) = Z.to_nat TimeDomain.N) /\
  ((exists sg, build TimeDomain.script TimeDomain.t (TimeDomain.molecules TimeDomain.T2)
               = Some sg)
   <-> (TimeDomain.molecules TimeDomain.T2 = [] \/ Z.to_nat TimeDomain.N <> 0%nat)).
Proof.
  assert (Hd : is_dict (TimeDomain.molecules TimeDomain.T2)) by apply dict_of_list_is_dict.
  split; [exact Hd |]. split; [exact (time_domain_fid_length TimeDomain.T2) |].
  exact (time_domain_build_succeeds_iff TimeDomain.t (TimeDomain.molecules TimeDomain.T2)
           (Z.to_nat TimeDomain.N) Hd (time_domain_fid_length TimeDomain.T2)).
Defined.

(** ** The largest sample of a FID is its first *)

Lemma sum_of_squares_nonneg (a b : R) : (0 <= a * a + b * b)%R.
Proof. pose proof (Rle_0_sqr a). pose proof (Rle_0_sqr b). unfold Rsqr in *. lra. Qed.

Lemma Cabs_triangle (x y : complex) : (Cabs (c_add x y) <= Cabs x + Cabs y)%R.
Proof.
  destruct x as [a b], y as [c d]. unfold Cabs. simpl.
  pose proof (sum_of_squares_nonneg a b) as Hab.
  pose proof (sum_of_squares_nonneg c d) as Hcd.
  pose proof (sqrt_pos (a * a + b * b)) as Hsab.
  pose proof (sqrt_pos (c * c + d * d)) as Hscd.
  apply Rsqr_incr_0_var; [| lra].
  rewrite Rsqr_plus.
  rewrite (Rsqr_sqrt _ (sum_of_squares_nonneg (a + c) (b + d))).
  rewrite (Rsqr_sqrt _ Hab), (Rsqr_sqrt _ Hcd).
  assert (Hcs : (a * c + b * d <= sqrt (a * a + b * b) * sqrt (c * c + d * d))%R).
  { rewrite <- sqrt_mult by assumption.
    destruct (Rle_dec 0 (a * c + b * d)) as [Hpos | Hneg].
    - apply Rsqr_incr_0_var; [| apply sqrt_pos].
      rewrite Rsqr_sqrt by (apply Rmult_le_pos; assumption).
      unfold Rsqr.
      pose proof (Rle_0_sqr (a * d - b * c)) as Hsq. unfold Rsqr in Hsq. lra.
    - pose proof (sqrt_pos ((a * a + b * b) * (c * c + d * d))). lra. }
  lra.
Qed.

Lemma Cabs_of_real (a : R) : (0 <= a)%R -> Cabs (a, 0%R) = a.
Proof.
  intros Ha. unfold Cabs. simpl.
  replace (a * a + 0 * 0)%R with (Rsqr a) by (unfold Rsqr; ring).
  apply sqrt_Rsqr. exact Ha.
Qed.

Lemma Cabs_oscillation (a theta : R) :
  (0 <= a)%R -> Cabs (a * cos theta, a * sin theta)%R = a.
Proof.
  intros Ha. unfold Cabs. simpl.
  replace (a * cos theta * (a * cos theta) + a * sin theta * (a * sin theta))%R
    with (Rsqr a * (Rsqr (sin theta) + Rsqr (cos theta)))%R by (unfold Rsqr; ring).
  rewrite sin2_cos2, Rmult_1_r. apply sqrt_Rsqr. exact Ha.
Qed.

Lemma superposition_cons (f a : R) (rest : list (R * R)) (tk : R) :
  superposition ((f, a) :: rest) tk
  = c_add (a * cos (2 * PI * f * tk), a * sin (2 * PI * f * tk))%R (superposition rest tk).
Proof. reflexivity. Qed.

Lemma superposition_bounded (terms : list (R * R)) (tk : R) :
  Forall (fun a => (0 <= a)%R) (map snd terms) ->
  (Cabs (superposition terms tk) <= total_amplitude (map snd terms))%R.
Proof.
  induction terms as [| [f a] rest IH]; intros Hall.
  - unfold superposition, Cabs. simpl.
    replace (0 * 0 + 0 * 0)%R with 0%R by ring. rewrite sqrt_0. apply Rle_refl.
  - simpl in Hall. apply Forall_cons_iff in Hall. destruct Hall as [Ha Hall].
    rewrite superposition_cons.
    eapply Rle_trans; [apply Cabs_triangle |].
    rewrite Cabs_oscillation by exact Ha. simpl. specialize (IH Hall). lra.
Qed.

Lemma superposition_at_zero (terms : list (R * R)) :
  superposition terms 0 = (total_amplitude (map snd terms), 0%R).
Proof.
  induction terms as [| [f a] rest IH]; [reflexivity |].
  rewrite superposition_cons, IH. simpl.
  rewrite Rmult_0_r, cos_0, sin_0. f_equal; ring.
Qed.

Lemma total_amplitude_nonneg (amps : list R) :
  Forall (fun a => (0 <= a)%R) amps -> (0 <= total_amplitude amps)%R.
Proof.
  induction amps as [| a rest IH]; intros Hall; simpl; [apply Rle_refl |].
  apply Forall_cons_iff in Hall. destruct Hall as [Ha Hall]. specialize (IH Hall). lra.
Qed.

Lemma Cabs_damped (T2 : R) (signal : R -> complex) (tk : R) :
  Cabs (damped T2 signal tk) = (Cabs (signal tk) * exp (- tk / T2))%R.
Proof.
  unfold damped, Cabs. simpl.
  set (e := exp (- tk / T2)). destruct (signal tk) as [x y]. simpl.
  replace (x * e * (x * e) + y * e * (y * e))%R with ((x * x + y * y) * Rsqr e)%R
    by (unfold Rsqr; ring).
  assert (He : (0 <= e)%R) by (apply Rlt_le, exp_pos).
  rewrite sqrt_mult by (try apply Rle_0_sqr; nra).
  rewrite sqrt_Rsqr by exact He. reflexivity.
Qed.

Lemma envelope_at_most_one (T2 tk : R) :
  (0 < T2)%R -> (0 <= tk)%R -> (0 < exp (- tk / T2) <= 1)%R.
Proof.
  intros HT2 Htk. split; [apply exp_pos |].
  assert (Hx : (- tk / T2 <= 0)%R).
  { unfold Rdiv. rewrite <- Ropp_mult_distr_l.
    assert (0 <= tk * / T2)%R
      by (apply Rmult_le_pos; [exact Htk | apply Rlt_le, Rinv_0_lt_compat, HT2]).
    lra. }
  destruct Hx as [Hlt | Heq].
  - rewrite <- exp_0. apply Rlt_le, exp_increasing, Hlt.
  - rewrite Heq, exp_0. apply Rle_refl.
Qed.

Lemma t_nonneg (BW N : Z) (tk : R) : (0 < BW)%Z -> In tk (t BW N) -> (0 <= tk)%R.
Proof.
  intros HBW Hin. unfold t, time_axis in Hin.
  apply in_map_iff in Hin. destruct Hin as [k [<- Hk]]. apply in_arange in Hk.
  simpl. apply Rmult_le_pos; [apply IZR_le; lia |].
  apply Rlt_le, Rinv_0_lt_compat, IZR_lt, HBW.
Qed.

Lemma t_starts_at_zero (BW N : Z) :
  (1 <= N)%Z -> exists rest, t BW N = 0%R :: rest.
Proof.
  intros HN. pose proof (nth_error_t BW N 0 ltac:(lia)) as H0. simpl in H0.
  destruct (t BW N) as [| t0 rest]; [discriminate |].
  injection H0 as ->. exists rest. f_equal. unfold Rdiv. apply Rmult_0_l.
Qed.

(** A damped superposition of terms with non-negative amplitudes: its
    first sample is the sum of the amplitudes, and no sample is larger in
    modulus. *)
Lemma damped_superposition_peak (BW N : Z) (T2 : R) (terms : list (R * R)) :
  (0 < BW)%Z -> (1 <= N)%Z -> (0 < T2)%R ->
  Forall (fun a => (0 <= a)%R) (map snd terms) ->
  nth_error (map (damped T2 (superposition terms)) (t BW N)) 0
  = Some (total_amplitude (map snd terms), 0%R) /\
  np_max (map Cabs (map (damped T2 (superposition terms)) (t BW N)))
  = Some (total_amplitude (map snd terms)).
Proof.
  intros HBW HN HT2 Hall.
  pose proof (total_amplitude_nonneg _ Hall) as HA.
  assert (H0 : damped T2 (superposition terms) 0
               = (total_amplitude (map snd terms), 0%R)).
  { unfold damped. rewrite superposition_at_zero. simpl.
    replace (- 0 / T2)%R with 0%R by (unfold Rdiv; ring). rewrite exp_0.
    f_equal; ring. }
  destruct (t_starts_at_zero BW N HN) as [rest Ht].
  split.
  - rewrite Ht. simpl. rewrite H0. reflexivity.
  - apply R_np_max_unique.
    + rewrite Ht. simpl. left. rewrite H0. apply Cabs_of_real. exact HA.
    + rewrite Forall_forall. intros y Hy.
      apply in_map_iff in Hy. destruct Hy as [z [<- Hz]].
      apply in_map_iff in Hz. destruct Hz as [tk [<- Htk]].
      rewrite Cabs_damped.
      pose proof (superposition_bounded terms tk Hall) as Hb.
      pose proof (envelope_at_most_one T2 tk HT2 (t_nonneg BW N tk HBW Htk)) as He.
      pose proof (Cabs_nonneg (superposition terms tk)) as Hc.
      nra.
Qed.

Lemma amplitudes_of_pattern (center : R) (pattern : list R) (J : R) :
  map snd (peaks_of center pattern J) = pattern.
Proof.
  unfold peaks_of, enumerate. rewrite map_map. simpl.
  generalize 0%Z. induction pattern as [| a rest IH]; intros i0; simpl; [reflexivity |].
  f_equal. apply IH.
Qed.

(** X9.  For a positive [T2] and non-negative pattern amplitudes, the
    first sample of a pattern-based multiplet is the sum of the
    amplitudes (a real number), and no sample of the FID is larger in
    modulus: [np.max(np.abs(fid))], by which the time-domain script
    normalises, is that sum. *)
Theorem multiplet_peaks_at_first_sample
  (BW N : Z) (T2 center : R) (pattern : list R) (J : R) :
  (0 < BW)%Z -> (1 <= N)%Z -> (0 < T2)%R ->
  Forall (fun a => (0 <= a)%R) pattern ->
  nth_error (multiplet BW N T2 center pattern J) 0 = Some (total_amplitude pattern, 0%R) /\
  np_max (map Cabs (multiplet BW N T2 center pattern J)) = Some (total_amplitude pattern).
Proof.
  intros HBW HN HT2 Hall. rewrite pattern_multiplet_samples.
  rewrite <- (amplitudes_of_pattern center pattern J) at 2 4.
  apply damped_superposition_peak; try assumption.
  rewrite amplitudes_of_pattern. exact Hall.
Qed.

Lemma multiplet_peaks_at_first_sample_triplet :
  (0 < TimeDomain.BW)%Z /\ (1 <= TimeDomain.N)%Z /\ (0 < TimeDomain.T2)%R /\
  Forall (fun a => (0 <= a)%R) [1%R; 2%R; 1%R] /\
  np_max (map Cabs (TimeDomain.multiplet TimeDomain.T2 260 [1%R; 2%R; 1%R]))
  = Some (total_amplitude [1%R; 2%R; 1%R]).
Proof.
  assert (HBW : (0 < TimeDomain.BW)%Z) by reflexivity.
  assert (HN : (1 <= TimeDomain.N)%Z) by (unfold TimeDomain.N; lia).
  assert (HT2 : (0 < TimeDomain.T2)%R) by (unfold TimeDomain.T2; rewrite R_lit; lra).
  assert (Hall : Forall (fun a => (0 <= a)%R) [1%R; 2%R; 1%R])
    by (repeat constructor; lra).
  split; [exact HBW |]. split; [exact HN |]. split; [exact HT2 |]. split; [exact Hall |].
  exact (proj2 (multiplet_peaks_at_first_sample TimeDomain.BW TimeDomain.N TimeDomain.T2
                  260 [1%R; 2%R; 1%R] 7 HBW HN HT2 Hall)).
Defined.

(** ** The real FIDs of the time-domain script start at the concentration *)

Lemma damped_sum (T2 : R) (ts1 ts2 : list (R * R)) (ts : list R) :
  zip_with c_add (map (damped T2 (superposition ts1)) ts)
                 (map (damped T2 (superposition ts2)) ts)
  = map (damped T2 (superposition (ts1 ++ ts2))) ts.
Proof.
  rewrite zip_with_maps. apply map_ext. intros tk.
  unfold damped. rewrite superposition_app. simpl. f_equal; ring.
Qed.

Lemma dict_get_In {V : Type} (d : dict V) (k : string) (v : V) :
  dict_get d k = Some v -> In (k, v) d.
Proof.
  induction d as [| [k' v'] rest IH]; simpl; [discriminate |].
  destruct (String.eqb_spec k' k) as [-> | Hne].
  - intros Heq. injection Heq as <-. left. reflexivity.
  - intros Hget. right. apply IH. exact Hget.
Qed.

(** Every FID of the script is a damped superposition of terms with
    positive amplitudes. *)
Lemma time_domain_fids (T2_value : R) (name : string) (data : TimeDomain.Molecule) :
  In (name, data) (TimeDomain.molecules T2_value) ->
  exists terms,
    TimeDomain.fid data = map (damped T2_value (superposition terms)) TimeDomain.t /\
    Forall (fun a => (0 <= a)%R) (map snd terms) /\
    (0 < total_amplitude (map snd terms))%R.
Proof.
  rewrite time_domain_molecules. unfold TimeDomain.multiplet, TimeDomain.t.
  rewrite !pattern_multiplet_samples, damped_sum.
  cbv [In]. intros Hin.
  repeat (destruct Hin as [Heq | Hin];
          [apply (f_equal snd) in Heq; cbv [snd] in Heq; subst data;
           cbv [TimeDomain.fid]; eexists; split; [apply eq_refl |];
           rewrite ?map_app, !amplitudes_of_pattern;
           split; [repeat constructor; lra | simpl; lra] |]).
  contradiction.
Qed.

Lemma normalised_first_sample (BW N : Z) (T2 : R) (terms : list (R * R)) (c : Z) :
  (0 < BW)%Z -> (1 <= N)%Z -> (0 < T2)%R ->
  Forall (fun a => (0 <= a)%R) (map snd terms) ->
  (0 < total_amplitude (map snd terms))%R ->
  exists basis,
    peak_normalize (map (damped T2 (superposition terms)) (t BW N)) = Some basis /\
    nth_error basis 0 = Some (1%R, 0%R) /\
    nth_error (times_int basis c) 0 = Some (IZR c, 0%R).
Proof.
  intros HBW HN HT2 Hall Hpos.
  destruct (damped_superposition_peak BW N T2 terms HBW HN HT2 Hall) as [Hfirst Hmax].
  unfold peak_normalize. rewrite Hmax. cbn [bind].
  eexists. split; [reflexivity |].
  set (A := total_amplitude (map snd terms)) in *.
  assert (Hb : nth_error (map (fun z => Cdiv z (c_of_float A))
                              (map (damped T2 (superposition terms)) (t BW N))) 0
               = Some (1%R, 0%R)).
  { rewrite nth_error_map, Hfirst. simpl. unfold Cdiv. simpl. f_equal. f_equal; field; lra. }
  split; [exact Hb |].
  unfold times_int. rewrite nth_error_map, Hb. simpl. f_equal. f_equal; ring.
Qed.

(** X10.  In the time-domain script with a positive [T2], the real FID of
    every species starts at its concentration: its first sample is the
    real number [conc] (5, 10, 3 and 12 for A, B, C and D), because the
    FID of a species peaks at its first sample and the basis is the FID
    divided by that peak. *)
Theorem real_fid_starts_at_concentration
  (T2_value : R) (w : World) (name : string) (data : TimeDomain.Molecule) :
  (0 < T2_value)%R ->
  TimeDomain.setup T2_value = Some w ->
  dict_get (molecules (signals w)) name = Some data ->
  exists basis,
    dict_get (basis_fids (signals w)) name = Some basis /\
    nth_error basis 0 = Some (1%R, 0%R) /\
    exists real,
      dict_get (real_fids (signals w)) name = Some real /\
      nth_error real 0 = Some (IZR (TimeDomain.conc data), 0%R).
Proof.
  intros HT2 Hsetup Hget.
  destruct (time_domain_world T2_value w Hsetup) as (Hm & _ & Hd & Hbuild).
  rewrite Hm in Hget.
  destruct (build_pairs TimeDomain.script TimeDomain.t _ (signals w)
              (dict_of_list_is_dict _) Hbuild) as (_ & _ & _ & _ & Hpairs).
  destruct (Hpairs name data Hget) as (basis & Hbasis & Hb & Hr).
  destruct (time_domain_fids T2_value name data (dict_get_In _ _ _ Hget))
    as (terms & Hfid & Hall & Hpos).
  destruct (normalised_first_sample TimeDomain.BW TimeDomain.N T2_value terms
              (TimeDomain.conc data) ltac:(reflexivity)
              ltac:(unfold TimeDomain.N; lia) HT2 Hall Hpos)
    as (basis' & Hnorm & H1 & Hc).
  cbn [basis_of TimeDomain.script] in Hbasis. rewrite Hfid in Hbasis.
  unfold TimeDomain.t in Hbasis. rewrite Hnorm in Hbasis. injection Hbasis as <-.
  exists basis'. split; [exact Hb |]. split; [exact H1 |].
  eexists. split; [exact Hr |]. exact Hc.
Qed.

Lemma real_fid_starts_at_concentration_D :
  exists w real,
    (0 < TimeDomain.T2)%R /\
    TimeDomain.setup TimeDomain.T2 = Some w /\
    dict_get (real_fids (signals w)) "D" = Some real /\
    nth_error real 0 = Some (12%R, 0%R).
Proof.
  destruct (time_domain_setup_total TimeDomain.T2) as [w Hw].
  assert (HT2 : (0 < TimeDomain.T2)%R) by (unfold TimeDomain.T2; rewrite R_lit; lra).
  destruct (time_domain_world TimeDomain.T2 w Hw) as (Hm & _ & _ & _).
  destruct (real_fid_starts_at_concentration TimeDomain.T2 w "D"%string
              {| TimeDomain.fid :=
                   TimeDomain.multiplet TimeDomain.T2 320 [1%R; 3%R; 3%R; 1%R];
                 TimeDomain.conc := 12 |} HT2 Hw)
    as (basis & _ & _ & real & Hreal & Hfirst).
  - rewrite Hm, time_domain_molecules. reflexivity.
  - exists w, real. split; [exact HT2 |]. split; [exact Hw |]. split; assumption.
Defined.

(** ** Heights and label positions in the spectral script *)

Lemma np_max_scaled (xs : list R) (m k : R) :
  np_max xs = Some m -> (0 <= k)%R ->
  np_max (map (fun x => (x * k)%R) xs) = Some (m * k)%R.
Proof.
  intros Hm Hk. destruct (R_np_max_spec xs m Hm) as [Hin Hall].
  apply R_np_max_unique.
  - apply (in_map (fun x => (x * k)%R)) in Hin. exact Hin.
  - rewrite Forall_forall in *. intros y Hy. apply in_map_iff in Hy.
    destruct Hy as [x [<- Hx]]. specialize (Hall x Hx).
    apply Rmult_le_compat_r; assumption.
Qed.

Lemma spectral_scaled_samples (basis : list R) (c : Z) (s : R) :
  scaled_basis basis c s = map (fun y => (y * (IZR c * s))%R) basis.
Proof.
  unfold scaled_basis, np_real, times_float, times_int. rewrite !map_map.
  apply map_ext. intros y. simpl. ring.
Qed.

(** X11.  In the spectral script a basis spectrum has its largest value
    [1], so in the scaling phase the curve of a species with
    concentration [conc >= 0], drawn at scale factor [s >= 0], has its
    largest value [conc * s]: the red peak rises linearly with [s] towards
    the concentration. *)
Theorem spectral_scaled_peak_height
  (data : Spectral.Molecule) (mol_sum : list complex) (s : R) :
  py_sum (Spectral.peaks data) = Some mol_sum ->
  Exists (fun x => x <> 0%R) (spectrum mol_sum) ->
  (0 <= Spectral.conc data)%Z -> (0 <= s)%R ->
  exists basis,
    basis_of Spectral.script data = Some basis /\
    np_max basis = Some 1%R /\
    np_max (scaled_basis basis (Spectral.conc data) s)
    = Some (IZR (Spectral.conc data) * s)%R.
Proof.
  intros Hsum Hex Hc Hs. cbn [basis_of Spectral.script]. unfold Spectral.basis_spec.
  rewrite Hsum. cbn [bind]. unfold spectrum_normalize.
  destruct (np_max_nonempty (spectrum mol_sum)) as [m Hm].
  { intros Hnil. rewrite Hnil in Hex. inversion Hex. }
  rewrite Hm. cbn [bind].
  pose proof (peak_is_positive (spectrum mol_sum) m (spectrum_nonneg mol_sum) Hex Hm) as Hpos.
  eexists. split; [reflexivity |].
  pose proof (peak_of_scaled (spectrum mol_sum) m Hpos Hm) as Hone.
  split; [exact Hone |].
  rewrite spectral_scaled_samples.
  rewrite (np_max_scaled _ 1 (IZR (Spectral.conc data) * s) Hone).
  - f_equal. ring.
  - apply Rmult_le_pos; [apply IZR_le; exact Hc | exact Hs].
Qed.

Lemma spectrum_one_sample (z : complex) : spectrum [z] = [Cabs z].
Proof.
  unfold spectrum, fft, fftshift, enumerate, arange, csum. simpl.
  f_equal. unfold Cexp. simpl.
  replace (- (2 * PI * 0 * 0 / 1))%R with 0%R by field.
  rewrite exp_0, cos_0, sin_0. destruct z as [x y]. unfold Cabs. simpl.
  f_equal. ring.
Qed.

Lemma spectral_scaled_peak_height_one_sample :
  exists basis,
    py_sum [[(3%R, 4%R)]] = Some [c_add (c_of_float (of_int 0)) (3%R, 4%R)] /\
    Exists (fun x => x <> 0%R) (spectrum [c_add (c_of_float (of_int 0)) (3%R, 4%R)]) /\
    (0 <= 2)%Z /\ (0 <= lit 5 10)%R /\
    basis_of Spectral.script
             {| Spectral.peaks := [[(3%R, 4%R)]]; Spectral.conc := 2;
                Spectral.split := None |} = Some basis /\
    np_max (scaled_basis basis 2 (lit 5 10)) = Some (2 * lit 5 10)%R.
Proof.
  assert (Hsum : py_sum [[(3%R, 4%R)]] = Some [c_add (c_of_float (of_int 0)) (3%R, 4%R)])
    by reflexivity.
  assert (Hex : Exists (fun x => x <> 0%R)
                       (spectrum [c_add (c_of_float (of_int 0)) (3%R, 4%R)])).
  { rewrite spectrum_one_sample. constructor.
    assert (Hpos : (0 < Cabs (c_add (c_of_float (of_int 0)) (3%R, 4%R)))%R).
    { apply Cabs_positive. simpl. intros Heq. injection Heq as H3 _. lra. }
    lra. }
  assert (Hs : (0 <= lit 5 10)%R) by (rewrite R_lit; lra).
  destruct (spectral_scaled_peak_height
              {| Spectral.peaks := [[(3%R, 4%R)]]; Spectral.conc := 2;
                 Spectral.split := None |}
              _ (lit 5 10) Hsum Hex ltac:(simpl; lia) Hs) as (basis & Hb & _ & Hmax).
  exists basis. split; [exact Hsum |]. split; [exact Hex |]. split; [lia |].
  split; [exact Hs |]. split; [exact Hb | exact Hmax].
Defined.

(** [np.argmax] returns the first index at which the largest value is
    attained. *)
Lemma argmax_from_first_maximum (a : list R) :
  forall (best : Z) (m : R) (i : Z),
    let r := argmax_from best m i a in
    let M := fold_left np_maximum a m in
    Forall (fun v => (v <= M)%R) (m :: a) /\
    ((r = best /\ M = m) \/
     ((i <= r)%Z /\ nth_error a (Z.to_nat (r - i)) = Some M /\ (m < M)%R /\
      forall j v, (j < Z.to_nat (r - i))%nat -> nth_error a j = Some v -> (v < M)%R)).
Proof.
  induction a as [| x rest IH]; intros best m i; cbn zeta.
  - simpl. split; [constructor; [apply Rle_refl | constructor] | left; split; reflexivity].
  - cbn [argmax_from fold_left]. rewrite !R_is_nan. cbn [orb].
    rewrite R_np_maximum.
    destruct (flt m x) eqn:Hlt.
    + apply R_flt_true in Hlt. rewrite Rmax_right by lra.
      destruct (IH i x (i + 1)%Z) as [Hall Hcase]. cbn zeta in Hall, Hcase.
      apply Forall_cons_iff in Hall. destruct Hall as [HxM Hall].
      split; [constructor; [lra | constructor; assumption] |].
      right. destruct Hcase as [[-> HM] | (Hi & Hnth & HxltM & Hbefore)].
      * split; [lia |]. replace (Z.to_nat (i - i)) with 0%nat by lia.
        split; [simpl; congruence |]. split; [lra |]. intros j v Hj. lia.
      * split; [lia |].
        replace (Z.to_nat (argmax_from i x (i + 1) rest - i))
          with (S (Z.to_nat (argmax_from i x (i + 1) rest - (i + 1)))) by lia.
        split; [exact Hnth |]. split; [lra |].
        intros [| j] v Hj Hv; simpl in Hv.
        -- injection Hv as <-. exact HxltM.
        -- apply (Hbefore j v); [lia | exact Hv].
    + assert (Hle : (x <= m)%R).
      { destruct (Rlt_dec m x) as [Habs | Hn]; [| lra].
        apply R_flt_true in Habs. congruence. }
      rewrite Rmax_left by exact Hle.
      destruct (IH best m (i + 1)%Z) as [Hall Hcase]. cbn zeta in Hall, Hcase.
      apply Forall_cons_iff in Hall. destruct Hall as [HmM Hall].
      split; [constructor; [exact HmM | constructor; [lra | exact Hall]] |].
      destruct Hcase as [[Hr HM] | (Hi & Hnth & HmltM & Hbefore)].
      * left. split; assumption.
      * right. split; [lia |].
        replace (Z.to_nat (argmax_from best m (i + 1) rest - i))
          with (S (Z.to_nat (argmax_from best m (i + 1) rest - (i + 1)))) by lia.
        split; [exact Hnth |]. split; [exact HmltM |].
        intros [| j] v Hj Hv; simpl in Hv.
        -- injection Hv as <-. lra.
        -- apply (Hbefore j v); [lia | exact Hv].
Qed.

(** X12.  The label of a curve in the spectral script sits over the first
    maximum of the curve: [np.argmax(y)] is the first index at which [y]
    is largest, the label's abscissa is the frequency at that index and
    its ordinate is 1.05 times the largest value.  Nothing is raised as
    long as [y] is not empty and has the length of the frequency axis. *)
Theorem label_sits_over_first_maximum (freq_ y : list R) :
  y <> [] -> length y = length freq_ ->
  exists i x0 m,
    Spectral.above_peak freq_ y = Some (x0, (m * lit 105 100)%R) /\
    (0 <= i < Z.of_nat (length y))%Z /\
    item freq_ i = Some x0 /\
    item y i = Some m /\
    (forall v, In v y -> (v <= m)%R) /\
    (forall j v, (0 <= j < i)%Z -> item y j = Some v -> (v < m)%R).
Proof.
  intros Hne Hlen. destruct y as [| x rest]; [congruence |].
  pose proof (argmax_from_first_maximum rest 0 x 1) as Hspec. cbn zeta in Hspec.
  set (r := argmax_from 0 x 1 rest) in *.
  set (M := fold_left np_maximum rest x) in *.
  destruct Hspec as [Hall Hcase].
  assert (Hr : (0 <= r < Z.of_nat (length (x :: rest)))%Z /\
               item (x :: rest) r = Some M /\
               forall j v, (0 <= j < r)%Z -> item (x :: rest) j = Some v -> (v < M)%R).
  { destruct Hcase as [[Hr HM] | (Hi & Hnth & HxM & Hbefore)].
    - rewrite Hr, HM. cbn [length]. split; [lia |]. split; [reflexivity |].
      intros j v Hj. lia.
    - assert (Hlt : (Z.to_nat (r - 1) < length rest)%nat).
      { apply nth_error_Some. rewrite Hnth. discriminate. }
      cbn [length]. split; [lia |]. split.
      + unfold item. replace (0 <=? r)%Z with true by (symmetry; apply Z.leb_le; lia).
        replace (Z.to_nat r) with (S (Z.to_nat (r - 1))) by lia. exact Hnth.
      + intros j v Hj. unfold item.
        replace (0 <=? j)%Z with true by (symmetry; apply Z.leb_le; lia).
        destruct (Z.to_nat j) as [| j'] eqn:Hj'; simpl.
        * intros Heq. injection Heq as <-. exact HxM.
        * intros Hv. apply (Hbefore j' v); [lia | exact Hv]. }
  destruct Hr as (Hrange & Hitem & Hfirst).
  destruct (item_total freq_ r) as [x0 Hx0]; [rewrite <- Hlen; exact Hrange |].
  exists r, x0, M. split.
  - unfold Spectral.above_peak. cbn [np_argmax np_max]. fold r. fold M.
    cbn [bind]. rewrite Hx0. reflexivity.
  - split; [exact Hrange |]. split; [exact Hx0 |]. split; [exact Hitem |].
    split; [| exact Hfirst].
    rewrite Forall_forall in Hall. exact Hall.
Qed.

Lemma label_sits_over_first_maximum_example :
  exists i x0 m,
    [1%R; 7%R; 7%R] <> [] /\
    length [1%R; 7%R; 7%R] = length [10%R; 20%R; 30%R] /\
    Spectral.above_peak [10%R; 20%R; 30%R] [1%R; 7%R; 7%R]
    = Some (x0, (m * lit 105 100)%R) /\
    item [10%R; 20%R; 30%R] i = Some x0 /\
    item [1%R; 7%R; 7%R] i = Some m.
Proof.
  assert (Hne : [1%R; 7%R; 7%R] <> []) by discriminate.
  assert (Hlen : length [1%R; 7%R; 7%R] = length [10%R; 20%R; 30%R]) by reflexivity.
  destruct (label_sits_over_first_maximum [10%R; 20%R; 30%R] [1%R; 7%R; 7%R] Hne Hlen)
    as (i & x0 & m & Hpos & _ & Hx0 & Hm & _).
  exists i, x0, m. split; [exact Hne |]. split; [exact Hlen |].
  split; [exact Hpos |]. split; assumption.
Defined.

(** ** The Bloch-sphere animation: spins, samples and the FID line *)

Lemma item_nonneg {A : Type} (a : list A) (i : Z) :
  (0 <= i)%Z -> item a i = nth_error a (Z.to_nat i).
Proof.
  intros Hi. unfold item.
  replace (0 <=? i)%Z with true by (symmetry; apply Z.leb_le; exact Hi). reflexivity.
Qed.

Lemma set_item_inrange {A : Type} (a : list A) (i : Z) (v : A) :
  (0 <= i < Z.of_nat (length a))%Z ->
  set_item a i v = Some (replace_nth a (Z.to_nat i) v).
Proof.
  intros Hi. unfold set_item.
  replace ((0 <=? i)%Z && (i <? Z.of_nat (length a))%Z) with true; [reflexivity |].
  symmetry. apply andb_true_iff. split; [apply Z.leb_le | apply Z.ltb_lt]; lia.
Qed.

Lemma nth_error_replace_nth {A : Type} (a : list A) (n : nat) (v : A) (j : nat) :
  (n < length a)%nat ->
  nth_error (replace_nth a n v) j = if Nat.eqb j n then Some v else nth_error a j.
Proof.
  revert n j. induction a as [| x a IH]; intros n j Hn; [simpl in Hn; lia |].
  destruct n as [| n], j as [| j]; simpl; try reflexivity.
  apply IH. simpl in Hn. lia.
Qed.

Lemma item_replace_nth {A : Type} (a : list A) (i : Z) (v : A) (j : Z) :
  (0 <= i < Z.of_nat (length a))%Z -> (0 <= j)%Z ->
  item (replace_nth a (Z.to_nat i) v) j = if (j =? i)%Z then Some v else item a j.
Proof.
  intros Hi Hj. rewrite !item_nonneg by exact Hj.
  rewrite nth_error_replace_nth by lia.
  destruct (Z.eqb_spec j i) as [-> | Hne].
  - rewrite Nat.eqb_refl. reflexivity.
  - replace (Nat.eqb (Z.to_nat j) (Z.to_nat i)) with false; [reflexivity |].
    symmetry. apply Nat.eqb_neq. lia.
Qed.

(** A loop over [range(n)] with an invariant that follows the index. *)
Lemma for_each_range {St : Type} (Inv : Z -> St -> Prop) (body : Z -> St -> option St) (n : Z) :
  (forall i s, (0 <= i < n)%Z -> Inv i s -> exists s', body i s = Some s' /\ Inv (i + 1)%Z s') ->
  forall s, (0 <= n)%Z -> Inv 0%Z s ->
            exists s', for_each (arange n) body s = Some s' /\ Inv n s'.
Proof.
  intros Hstep s Hn H0. unfold arange.
  assert (Hgen : forall k a s0,
             (Z.of_nat (a + k) <= n)%Z -> Inv (Z.of_nat a) s0 ->
             exists s', for_each (map Z.of_nat (seq a k)) body s0 = Some s' /\
                        Inv (Z.of_nat (a + k)) s').
  { induction k as [| k IH]; intros a s0 Hak Ha.
    - simpl. exists s0. split; [reflexivity |]. rewrite Nat.add_0_r. exact Ha.
    - cbn [seq map]. rewrite for_each_cons.
      destruct (Hstep (Z.of_nat a) s0 ltac:(lia) Ha) as [s1 [-> H1]]. cbn [bind].
      destruct (IH (S a) s1) as [s' [Hrun H']].
      + lia.
      + replace (Z.of_nat (S a)) with (Z.of_nat a + 1)%Z by lia. exact H1.
      + exists s'. split; [exact Hrun |].
        replace (a + S k)%nat with (S a + k)%nat by lia. exact H'. }
  destruct (Hgen (Z.to_nat n) 0%nat s) as [s' [Hrun H']].
  - lia.
  - exact H0.
  - exists s'. split; [exact Hrun |].
    replace (Z.of_nat (0 + Z.to_nat n)) with n in H' by lia. exact H'.
Qed.

Lemma rf_offsets_length : Z.of_nat (length RFPulse.freq_offsets) = RFPulse.n_spins.
Proof.
  unfold RFPulse.freq_offsets. rewrite length_linspace. unfold RFPulse.n_spins. lia.
Qed.

(** One spin before the pulse and one spin after it. *)
Lemma rf_rest_spin_effect (i : Z) (st : RFPulse.State) :
  (0 <= i < RFPulse.n_spins)%Z -> RFPulse.spins_shaped st ->
  exists st',
    RFPulse.rest_spin i st = Some st' /\
    RFPulse.spins_shaped st' /\ RFPulse.fid st' = RFPulse.fid st /\
    RFPulse.phases st' = RFPulse.phases st /\
    forall j, (0 <= j)%Z ->
      item (RFPulse.Mx st') j = (if (j =? i)%Z then Some 0%R else item (RFPulse.Mx st) j) /\
      item (RFPulse.My st') j = (if (j =? i)%Z then Some 0%R else item (RFPulse.My st) j) /\
      item (RFPulse.Mz st') j = (if (j =? i)%Z then Some 1%R else item (RFPulse.Mz st) j).
Proof.
  intros Hi (Hx & Hy & Hz & Hp). unfold RFPulse.rest_spin.
  rewrite !set_item_inrange by lia. cbn [bind].
  eexists. split; [reflexivity |]. split.
  { unfold RFPulse.spins_shaped. simpl. rewrite !length_replace_nth. tauto. }
  split; [reflexivity |]. split; [reflexivity |].
  intros j Hj. cbn [RFPulse.with_M RFPulse.Mx RFPulse.My RFPulse.Mz].
  rewrite !item_replace_nth by lia. tauto.
Qed.

Lemma rf_precess_spin_effect (frame i : Z) (st : RFPulse.State) :
  (0 <= i < RFPulse.n_spins)%Z -> RFPulse.spins_shaped st ->
  exists st' p off,
    RFPulse.precess_spin frame i st = Some st' /\
    RFPulse.spins_shaped st' /\ RFPulse.fid st' = RFPulse.fid st /\
    item (RFPulse.phases st) i = Some p /\
    item RFPulse.freq_offsets i = Some off /\
    forall j, (0 <= j)%Z ->
      item (RFPulse.phases st') j
      = (if (j =? i)%Z then Some (p + (lit 3 10 + off))%R else item (RFPulse.phases st) j) /\
      item (RFPulse.Mx st') j
      = (if (j =? i)%Z
         then Some (exp (IZR (- (frame - RFPulse.rf_frame)) / IZR RFPulse.T2)
                    * cos (p + (lit 3 10 + off)))%R
         else item (RFPulse.Mx st) j) /\
      item (RFPulse.My st') j
      = (if (j =? i)%Z
         then Some (exp (IZR (- (frame - RFPulse.rf_frame)) / IZR RFPulse.T2)
                    * sin (p + (lit 3 10 + off)))%R
         else item (RFPulse.My st) j) /\
      item (RFPulse.Mz st') j = (if (j =? i)%Z then Some 0%R else item (RFPulse.Mz st) j).
Proof.
  intros Hi (Hx & Hy & Hz & Hp). unfold RFPulse.precess_spin.
  pose proof rf_offsets_length as Hoff.
  destruct (item_total (RFPulse.phases st) i ltac:(lia)) as [p Hpi].
  destruct (item_total RFPulse.freq_offsets i ltac:(lia)) as [off Hoi].
  rewrite Hpi, Hoi. cbn [bind].
  rewrite (set_item_inrange (RFPulse.phases st)) by lia. cbn [bind].
  rewrite item_replace_nth by lia. rewrite Z.eqb_refl. cbn [bind].
  rewrite !set_item_inrange by lia. cbn [bind].
  exists (RFPulse.with_M st
            (replace_nth (RFPulse.Mx st) (Z.to_nat i)
               (exp (IZR (- (frame - RFPulse.rf_frame)) / IZR RFPulse.T2)
                * cos (p + (lit 3 10 + off)))%R)
            (replace_nth (RFPulse.My st) (Z.to_nat i)
               (exp (IZR (- (frame - RFPulse.rf_frame)) / IZR RFPulse.T2)
                * sin (p + (lit 3 10 + off)))%R)
            (replace_nth (RFPulse.Mz st) (Z.to_nat i) 0%R)
            (replace_nth (RFPulse.phases st) (Z.to_nat i) (p + (lit 3 10 + off))%R)),
    p, off.
  split; [reflexivity |]. split.
  { unfold RFPulse.spins_shaped. simpl. rewrite !length_replace_nth. tauto. }
  split; [reflexivity |]. split; [reflexivity |]. split; [reflexivity |].
  intros j Hj. cbn [RFPulse.with_M RFPulse.Mx RFPulse.My RFPulse.Mz RFPulse.phases].
  rewrite !item_replace_nth by lia. tauto.
Qed.

(** The three branches of [update]: what they leave in the magnetisation
    arrays. *)
Lemma rf_magnetisation (frame : Z) (st : RFPulse.State) :
  RFPulse.spins_shaped st ->
  exists st1,
    (if (frame <? RFPulse.rf_frame)%Z then for_each (arange RFPulse.n_spins) RFPulse.rest_spin st
     else if (frame =? RFPulse.rf_frame)%Z then
       Some (RFPulse.with_M st (map (fun _ => 1%R) (RFPulse.Mx st))
                            (map (fun _ => 0%R) (RFPulse.My st))
                            (map (fun _ => 0%R) (RFPulse.Mz st)) (RFPulse.phases st))
     else for_each (arange RFPulse.n_spins) (RFPulse.precess_spin frame) st) = Some st1 /\
    RFPulse.spins_shaped st1 /\ RFPulse.fid st1 = RFPulse.fid st /\
    forall j, (0 <= j < RFPulse.n_spins)%Z ->
      exists mx my mz,
        item (RFPulse.Mx st1) j = Some mx /\
        item (RFPulse.My st1) j = Some my /\
        item (RFPulse.Mz st1) j = Some mz /\
        ((frame < RFPulse.rf_frame)%Z -> mx = 0%R /\ my = 0%R /\ mz = 1%R) /\
        ((frame = RFPulse.rf_frame)%Z -> mx = 1%R /\ my = 0%R /\ mz = 0%R) /\
        ((RFPulse.rf_frame < frame)%Z ->
         exists p off,
           item (RFPulse.phases st) j = Some p /\
           item RFPulse.freq_offsets j = Some off /\
           item (RFPulse.phases st1) j = Some (p + (lit 3 10 + off))%R /\
           mx = (exp (IZR (- (frame - RFPulse.rf_frame)) / IZR RFPulse.T2)
                 * cos (p + (lit 3 10 + off)))%R /\
           my = (exp (IZR (- (frame - RFPulse.rf_frame)) / IZR RFPulse.T2)
                 * sin (p + (lit 3 10 + off)))%R /\
           mz = 0%R).
Proof.
  intros Hst.
  destruct (Z.ltb_spec frame RFPulse.rf_frame) as [Hlt | Hge];
    [| destruct (Z.eqb_spec frame RFPulse.rf_frame) as [Heq | Hne]].
  - destruct (for_each_range
                (fun i s => RFPulse.spins_shaped s /\ RFPulse.fid s = RFPulse.fid st /\
                            forall j, (0 <= j < i)%Z ->
                                      item (RFPulse.Mx s) j = Some 0%R /\
                                      item (RFPulse.My s) j = Some 0%R /\
                                      item (RFPulse.Mz s) j = Some 1%R)
                RFPulse.rest_spin RFPulse.n_spins) with (s := st)
      as (st1 & Hrun & Hs1 & Hf1 & Hall).
    + intros i s Hi (Hs & Hf & Hdone).
      destruct (rf_rest_spin_effect i s Hi Hs) as (s' & Hstep & Hs' & Hf' & _ & Heff).
      exists s'. split; [exact Hstep |]. split; [exact Hs' |]. split; [congruence |].
      intros j Hj. destruct (Heff j ltac:(lia)) as (Hx & Hy & Hz).
      rewrite Hx, Hy, Hz. destruct (Z.eqb_spec j i) as [-> | Hji]; [tauto |].
      apply Hdone. lia.
    + unfold RFPulse.n_spins. lia.
    + split; [exact Hst |]. split; [reflexivity |]. intros j Hj. lia.
    + exists st1. split; [exact Hrun |]. split; [exact Hs1 |]. split; [exact Hf1 |].
      intros j Hj. destruct (Hall j Hj) as (Hx & Hy & Hz).
      exists 0%R, 0%R, 1%R. split; [exact Hx |]. split; [exact Hy |]. split; [exact Hz |].
      split; [tauto |]. split; intros; lia.
  - eexists. split; [reflexivity |].
    destruct Hst as (Hx & Hy & Hz & Hp). split.
    { unfold RFPulse.spins_shaped. simpl. rewrite !length_map. tauto. }
    split; [reflexivity |]. intros j Hj.
    cbn [RFPulse.with_M RFPulse.Mx RFPulse.My RFPulse.Mz].
    exists 1%R, 0%R, 0%R. rewrite !item_nonneg by lia.
    destruct (item_total (RFPulse.Mx st) j ltac:(lia)) as [vx Hvx].
    destruct (item_total (RFPulse.My st) j ltac:(lia)) as [vy Hvy].
    destruct (item_total (RFPulse.Mz st) j ltac:(lia)) as [vz Hvz].
    rewrite item_nonneg in Hvx, Hvy, Hvz by lia.
    rewrite !nth_error_map, Hvx, Hvy, Hvz. simpl.
    split; [reflexivity |]. split; [reflexivity |]. split; [reflexivity |].
    split; [intros; lia |]. split; [tauto | intros; lia].
  - pose (d := exp (IZR (- (frame - RFPulse.rf_frame)) / IZR RFPulse.T2)).
    destruct (for_each_range
                (fun i s =>
                   RFPulse.spins_shaped s /\ RFPulse.fid s = RFPulse.fid st /\
                   (forall j, (i <= j)%Z ->
                              item (RFPulse.phases s) j = item (RFPulse.phases st) j) /\
                   forall j, (0 <= j < i)%Z ->
                     exists p off,
                       item (RFPulse.phases st) j = Some p /\
                       item RFPulse.freq_offsets j = Some off /\
                       item (RFPulse.phases s) j = Some (p + (lit 3 10 + off))%R /\
                       item (RFPulse.Mx s) j = Some (d * cos (p + (lit 3 10 + off)))%R /\
                       item (RFPulse.My s) j = Some (d * sin (p + (lit 3 10 + off)))%R /\
                       item (RFPulse.Mz s) j = Some 0%R)
                (RFPulse.precess_spin frame) RFPulse.n_spins) with (s := st)
      as (st1 & Hrun & Hs1 & Hf1 & _ & Hall).
    + intros i s Hi (Hs & Hf & Hrest & Hdone).
      destruct (rf_precess_spin_effect frame i s Hi Hs)
        as (s' & p & off & Hstep & Hs' & Hf' & Hp & Hoff & Heff).
      exists s'. split; [exact Hstep |]. split; [exact Hs' |]. split; [congruence |].
      split.
      * intros j Hj. destruct (Heff j ltac:(lia)) as (Hph & _).
        rewrite Hph. replace (j =? i)%Z with false by (symmetry; apply Z.eqb_neq; lia).
        apply Hrest. lia.
      * intros j Hj. destruct (Heff j ltac:(lia)) as (Hph & Hx & Hy & Hz).
        rewrite Hph, Hx, Hy, Hz. destruct (Z.eqb_spec j i) as [-> | Hji].
        -- exists p, off. rewrite <- (Hrest i ltac:(lia)). fold d. tauto.
        -- apply Hdone. lia.
    + unfold RFPulse.n_spins. lia.
    + split; [exact Hst |]. split; [reflexivity |]. split; [reflexivity |].
      intros j Hj. lia.
    + exists st1. split; [exact Hrun |]. split; [exact Hs1 |]. split; [exact Hf1 |].
      intros j Hj. destruct (Hall j Hj) as (p & off & Hp & Hoff & Hph & Hx & Hy & Hz).
      exists (d * cos (p + (lit 3 10 + off)))%R, (d * sin (p + (lit 3 10 + off)))%R, 0%R.
      split; [exact Hx |]. split; [exact Hy |]. split; [exact Hz |].
      split; [intros; lia |]. split; [intros; lia |].
      intros _. exists p, off. fold d. tauto.
Qed.

(** What [update] returns, given the state its first branch leaves. *)
Lemma rf_update_result (frame : Z) (st st1 : RFPulse.State) :
  (if (frame <? RFPulse.rf_frame)%Z then for_each (arange RFPulse.n_spins) RFPulse.rest_spin st
   else if (frame =? RFPulse.rf_frame)%Z then
     Some (RFPulse.with_M st (map (fun _ => 1%R) (RFPulse.Mx st))
                          (map (fun _ => 0%R) (RFPulse.My st))
                          (map (fun _ => 0%R) (RFPulse.Mz st)) (RFPulse.phases st))
   else for_each (arange RFPulse.n_spins) (RFPulse.precess_spin frame) st) = Some st1 ->
  exists st',
    RFPulse.update frame st = Some st' /\
    RFPulse.Mx st' = RFPulse.Mx st1 /\ RFPulse.My st' = RFPulse.My st1 /\
    RFPulse.Mz st' = RFPulse.Mz st1 /\ RFPulse.phases st' = RFPulse.phases st1 /\
    RFPulse.fid st'
    = RFPulse.fid st1
      ++ [if (RFPulse.rf_frame <? frame)%Z then RFPulse.np_sum (RFPulse.Mx st1) else 0%R] /\
    RFPulse.fid_line st'
    = (if (RFPulse.TE_frame <? frame)%Z
       then {| xdata := linspace 0%R (IZR RFPulse.seconds)
                                 (Z.of_nat (length (RFPulse.fid st')));
               ydata := RFPulse.fid st' |}
       else {| xdata := []; ydata := [] |}) /\
    RFPulse.title st'
    = (if (RFPulse.TE_frame <? frame)%Z then "FID recording" else "Waiting for TE")%string.
Proof.
  intros Hbranch. unfold RFPulse.update. rewrite Hbranch. cbn [bind].
  eexists. split; [reflexivity |].
  destruct (RFPulse.TE_frame <? frame)%Z, (RFPulse.rf_frame <? frame)%Z; simpl;
    repeat split; reflexivity.
Qed.

Lemma rf_decay_below_one (frame : Z) :
  (RFPulse.rf_frame < frame)%Z ->
  (0 < exp (IZR (- (frame - RFPulse.rf_frame)) / IZR RFPulse.T2) < 1)%R.
Proof.
  intros Hlt. split; [apply exp_pos |].
  rewrite <- exp_0. apply exp_increasing.
  unfold RFPulse.T2. apply Rmult_lt_reg_r with (r := 250%R); [lra |].
  unfold Rdiv. rewrite Rmult_assoc, Rinv_l, Rmult_1_r, Rmult_0_l by lra.
  apply IZR_lt. lia.
Qed.

(** X13.  After every call of [update] each spin vector lies on or inside
    the unit sphere the 3-D axes show: it is [(0,0,1)] before the pulse
    and [(1,0,0)] at the pulse frame; after the pulse it lies in the
    transverse plane ([Mz = 0]) with length
    [exp(-(frame - rf_frame)/T2) < 1].  No index is out of range on the
    way. *)
Theorem spins_stay_in_unit_sphere (frame : Z) (st : RFPulse.State) :
  RFPulse.spins_shaped st ->
  exists st',
    RFPulse.update frame st = Some st' /\
    RFPulse.spins_shaped st' /\
    forall j, (0 <= j < RFPulse.n_spins)%Z ->
      exists mx my mz,
        item (RFPulse.Mx st') j = Some mx /\
        item (RFPulse.My st') j = Some my /\
        item (RFPulse.Mz st') j = Some mz /\
        (mx * mx + my * my + mz * mz <= 1)%R /\
        ((frame < RFPulse.rf_frame)%Z -> mx = 0%R /\ my = 0%R /\ mz = 1%R) /\
        ((frame = RFPulse.rf_frame)%Z -> mx = 1%R /\ my = 0%R /\ mz = 0%R) /\
        ((RFPulse.rf_frame < frame)%Z ->
         mz = 0%R /\
         (mx * mx + my * my
          = Rsqr (exp (IZR (- (frame - RFPulse.rf_frame)) / IZR RFPulse.T2)))%R).
Proof.
  intros Hst.
  destruct (rf_magnetisation frame st Hst) as (st1 & Hbranch & Hs1 & _ & Hspins).
  destruct (rf_update_result frame st st1 Hbranch)
    as (st' & Hrun & Hx & Hy & Hz & Hp & _).
  exists st'. split; [exact Hrun |]. split.
  { destruct Hs1 as (H1 & H2 & H3 & H4). unfold RFPulse.spins_shaped.
    rewrite Hx, Hy, Hz, Hp. tauto. }
  intros j Hj. rewrite Hx, Hy, Hz.
  destruct (Hspins j Hj) as (mx & my & mz & Hmx & Hmy & Hmz & Hbefore & Hat & Hafter).
  exists mx, my, mz. split; [exact Hmx |]. split; [exact Hmy |]. split; [exact Hmz |].
  assert (Hlate : (RFPulse.rf_frame < frame)%Z ->
                  mz = 0%R /\
                  (mx * mx + my * my
                   = Rsqr (exp (IZR (- (frame - RFPulse.rf_frame)) / IZR RFPulse.T2)))%R).
  { intros Hlt. destruct (Hafter Hlt) as (p & off & _ & _ & _ & -> & -> & ->).
    split; [reflexivity |].
    set (d := exp _). set (a := (p + (lit 3 10 + off))%R).
    replace (d * cos a * (d * cos a) + d * sin a * (d * sin a))%R
      with (Rsqr d * (Rsqr (sin a) + Rsqr (cos a)))%R by (unfold Rsqr; ring).
    rewrite sin2_cos2. ring. }
  split; [| tauto].
  destruct (Z.lt_trichotomy frame RFPulse.rf_frame) as [Hlt | [Heq | Hgt]].
  - destruct (Hbefore Hlt) as (-> & -> & ->). lra.
  - destruct (Hat Heq) as (-> & -> & ->). lra.
  - destruct (Hlate Hgt) as (-> & Hnorm). rewrite Hnorm.
    pose proof (rf_decay_below_one frame Hgt) as Hd. unfold Rsqr. nra.
Qed.

Lemma spins_stay_in_unit_sphere_frame_200 :
  exists st',
    RFPulse.spins_shaped (RFPulse.initial [0; 1; 2; 3; 4; 5]%R) /\
    RFPulse.update 200 (RFPulse.initial [0; 1; 2; 3; 4; 5]%R) = Some st' /\
    RFPulse.spins_shaped st'.
Proof.
  assert (Hst : RFPulse.spins_shaped (RFPulse.initial [0; 1; 2; 3; 4; 5]%R))
    by (apply rf_initial_shaped; reflexivity).
  destruct (spins_stay_in_unit_sphere 200 _ Hst) as (st' & Hrun & Hs' & _).
  exists st'. split; [exact Hst |]. split; assumption.
Defined.

Lemma np_sum_shift (a : list R) (x : R) :
  fold_left Rplus a x = (x + fold_left Rplus a 0)%R.
Proof.
  revert x. induction a as [| v rest IH]; intros x; simpl; [ring |].
  rewrite (IH (x + v)%R), (IH (0 + v)%R). ring.
Qed.

Lemma np_sum_bounded (a : list R) (d : R) :
  Forall (fun v => (Rabs v <= d)%R) a ->
  (Rabs (RFPulse.np_sum a) <= INR (length a) * d)%R.
Proof.
  unfold RFPulse.np_sum. induction a as [| v rest IH]; intros Hall.
  - simpl. rewrite Rabs_R0. lra.
  - apply Forall_cons_iff in Hall. destruct Hall as [Hv Hall]. specialize (IH Hall).
    cbn [fold_left length]. rewrite np_sum_shift, S_INR.
    eapply Rle_trans; [apply Rabs_triang |].
    replace (0 + v)%R with v by ring. lra.
Qed.

Lemma Forall_of_items {A : Type} (P : A -> Prop) (a : list A) :
  (forall j, (0 <= j < Z.of_nat (length a))%Z -> exists v, item a j = Some v /\ P v) ->
  Forall P a.
Proof.
  intros Hall. rewrite Forall_forall. intros v Hin.
  apply In_nth_error in Hin. destruct Hin as [n Hn].
  assert (Hlt : (n < length a)%nat) by (apply nth_error_Some; rewrite Hn; discriminate).
  destruct (Hall (Z.of_nat n) ltac:(lia)) as [v' [Hv' HP]].
  rewrite item_nonneg in Hv' by lia. rewrite Nat2Z.id in Hv'. congruence.
Qed.

(** The sample a call of [update] records. *)
Lemma rf_sample (frame : Z) (st : RFPulse.State) :
  RFPulse.spins_shaped st ->
  exists st' x,
    RFPulse.update frame st = Some st' /\
    RFPulse.spins_shaped st' /\
    RFPulse.fid st' = RFPulse.fid st ++ [x] /\
    ((frame <= RFPulse.rf_frame)%Z -> x = 0%R) /\
    ((RFPulse.rf_frame < frame)%Z ->
     x = RFPulse.np_sum (RFPulse.Mx st') /\
     (Rabs x <= IZR RFPulse.n_spins
                * exp (IZR (- (frame - RFPulse.rf_frame)) / IZR RFPulse.T2))%R /\
     (Rabs x < IZR RFPulse.n_spins)%R).
Proof.
  intros Hst.
  destruct (rf_magnetisation frame st Hst) as (st1 & Hbranch & Hs1 & Hf1 & Hspins).
  destruct (rf_update_result frame st st1 Hbranch)
    as (st' & Hrun & Hx & Hy & Hz & Hp & Hfid & _).
  exists st', (if (RFPulse.rf_frame <? frame)%Z then RFPulse.np_sum (RFPulse.Mx st1) else 0%R).
  split; [exact Hrun |]. split.
  { destruct Hs1 as (H1 & H2 & H3 & H4). unfold RFPulse.spins_shaped.
    rewrite Hx, Hy, Hz, Hp. tauto. }
  split; [rewrite Hfid, Hf1; reflexivity |].
  destruct (Z.ltb_spec RFPulse.rf_frame frame) as [Hlt | Hge].
  - split; [intros; lia |]. intros _. rewrite Hx. split; [reflexivity |].
    pose proof (rf_decay_below_one frame Hlt) as Hd.
    set (d := exp (IZR (- (frame - RFPulse.rf_frame)) / IZR RFPulse.T2)) in *.
    assert (Hbound : (Rabs (RFPulse.np_sum (RFPulse.Mx st1)) <= IZR RFPulse.n_spins * d)%R).
    { destruct Hs1 as (Hlen & _).
      replace (IZR RFPulse.n_spins) with (INR (length (RFPulse.Mx st1)))
        by (rewrite INR_IZR_INZ, Hlen; reflexivity).
      apply np_sum_bounded. apply Forall_of_items. intros j Hj.
      destruct (Hspins j ltac:(lia)) as (mx & my & mz & Hmx & _ & _ & _ & _ & Hafter).
      exists mx. split; [exact Hmx |].
      destruct (Hafter Hlt) as (p & off & _ & _ & _ & -> & _ & _). fold d.
      rewrite Rabs_mult, (Rabs_pos_eq d) by lra.
      pose proof (COS_bound (p + (lit 3 10 + off))) as [Hlo Hhi].
      assert (Rabs (cos (p + (lit 3 10 + off))) <= 1)%R by (apply Rabs_le; lra).
      nra. }
    split; [exact Hbound |].
    unfold RFPulse.n_spins in *. nra.
  - split; [reflexivity | intros; lia].
Qed.

(** X14.  Every call of [update] records one sample.  Up to and including
    the pulse frame the sample is [0]; after it the sample is the net
    transverse magnetisation [np.sum(Mx)], whose size is at most
    [n_spins * exp(-(frame - rf_frame)/T2)], so it stays strictly inside
    the limits [-n_spins, n_spins] of the FID axes. *)
Theorem recorded_sample_is_bounded (frame : Z) (st : RFPulse.State) :
  RFPulse.spins_shaped st ->
  exists st' x,
    RFPulse.update frame st = Some st' /\
    RFPulse.fid st' = RFPulse.fid st ++ [x] /\
    ((frame <= RFPulse.rf_frame)%Z -> x = 0%R) /\
    ((RFPulse.rf_frame < frame)%Z ->
     x = RFPulse.np_sum (RFPulse.Mx st') /\
     (Rabs x <= IZR RFPulse.n_spins
                * exp (IZR (- (frame - RFPulse.rf_frame)) / IZR RFPulse.T2))%R /\
     (Rabs x < IZR RFPulse.n_spins)%R).
Proof.
  intros Hst. destruct (rf_sample frame st Hst) as (st' & x & Hrun & _ & Hrest).
  exists st', x. split; [exact Hrun | exact Hrest].
Qed.

Lemma recorded_sample_is_bounded_frame_300 :
  exists st' x,
    RFPulse.spins_shaped (RFPulse.initial [0; 1; 2; 3; 4; 5]%R) /\
    RFPulse.update 300 (RFPulse.initial [0; 1; 2; 3; 4; 5]%R) = Some st' /\
    RFPulse.fid st' = [x] /\ (Rabs x < 6)%R.
Proof.
  assert (Hst : RFPulse.spins_shaped (RFPulse.initial [0; 1; 2; 3; 4; 5]%R))
    by (apply rf_initial_shaped; reflexivity).
  destruct (recorded_sample_is_bounded 300 _ Hst) as (st' & x & Hrun & Hfid & _ & Hafter).
  exists st', x. split; [exact Hst |]. split; [exact Hrun |]. split; [exact Hfid |].
  apply Hafter. unfold RFPulse.rf_frame. lia.
Defined.

Lemma linspace_first (a b : R) (num : Z) :
  (1 <= num)%Z -> exists x, nth_error (linspace a b num) 0 = Some x /\ x = a.
Proof.
  intros Hn. unfold linspace.
  change 0%nat with (Z.to_nat 0).
  rewrite nth_error_map, (nth_error_arange num 0 ltac:(lia)). cbn [option_map].
  eexists. split; [reflexivity |].
  destruct ((1 <? num)%Z && (0 =? num - 1)%Z) eqn:Hlast.
  - apply andb_true_iff in Hlast. destruct Hlast as [H1 H2].
    apply Z.ltb_lt in H1. apply Z.eqb_eq in H2. lia.
  - destruct (0 <? num - 1)%Z; [| simpl; ring].
    match goal with |- (if ?c then _ else _) = _ => destruct c end;
      simpl; unfold Rdiv; ring.
Qed.

Lemma linspace_last {F : Type} `{PyFloat F} (a b : F) (num : Z) :
  (2 <= num)%Z -> nth_error (linspace a b num) (Z.to_nat (num - 1)) = Some b.
Proof.
  intros Hn. unfold linspace.
  rewrite nth_error_map, (nth_error_arange num (num - 1) ltac:(lia)). cbn [option_map].
  replace (1 <? num)%Z with true by (symmetry; apply Z.ltb_lt; lia).
  rewrite Z.eqb_refl. reflexivity.
Qed.

(** X15.  The FID line is empty, under the title "Waiting for TE", up to
    and including the echo frame.  After it the line shows every sample
    recorded so far, over an abscissa of the same length that starts at
    [0] and, from two samples on, ends at [seconds]: the time axis of the
    line is stretched anew in every frame to span the whole window. *)
Theorem fid_line_spans_the_window (frame : Z) (st : RFPulse.State) :
  RFPulse.spins_shaped st ->
  exists st',
    RFPulse.update frame st = Some st' /\
    ((frame <= RFPulse.TE_frame)%Z ->
     RFPulse.fid_line st' = {| xdata := []; ydata := [] |} /\
     RFPulse.title st' = "Waiting for TE"%string) /\
    ((RFPulse.TE_frame < frame)%Z ->
     RFPulse.title st' = "FID recording"%string /\
     ydata (RFPulse.fid_line st') = RFPulse.fid st' /\
     length (xdata (RFPulse.fid_line st')) = length (ydata (RFPulse.fid_line st')) /\
     (exists x, nth_error (xdata (RFPulse.fid_line st')) 0 = Some x /\ x = 0%R) /\
     ((2 <= length (RFPulse.fid st'))%nat ->
      nth_error (xdata (RFPulse.fid_line st')) (length (RFPulse.fid st') - 1)
      = Some (IZR RFPulse.seconds))).
Proof.
  intros Hst.
  destruct (rf_magnetisation frame st Hst) as (st1 & Hbranch & _).
  destruct (rf_update_result frame st st1 Hbranch)
    as (st' & Hrun & _ & _ & _ & _ & Hfid & Hline & Htitle).
  exists st'. split; [exact Hrun |].
  destruct (Z.ltb_spec RFPulse.TE_frame frame) as [Hlt | Hge].
  - split; [intros; lia |]. intros _. rewrite Hline. cbn [xdata ydata].
    split; [exact Htitle |]. split; [reflexivity |].
    assert (Hlen : (1 <= length (RFPulse.fid st'))%nat).
    { rewrite Hfid, length_app. simpl. lia. }
    split; [rewrite length_linspace; lia |]. split.
    + apply linspace_first. lia.
    + intros H2.
      replace (length (RFPulse.fid st') - 1)%nat
        with (Z.to_nat (Z.of_nat (length (RFPulse.fid st')) - 1)) by lia.
      apply linspace_last. lia.
  - split; [| intros; lia]. intros _. split; assumption.
Qed.

Lemma fid_line_spans_the_window_frame_300 :
  exists st',
    RFPulse.spins_shaped (RFPulse.initial [0; 1; 2; 3; 4; 5]%R) /\
    RFPulse.update 300 (RFPulse.initial [0; 1; 2; 3; 4; 5]%R) = Some st' /\
    RFPulse.title st' = "FID recording"%string /\
    ydata (RFPulse.fid_line st') = RFPulse.fid st'.
Proof.
  assert (Hst : RFPulse.spins_shaped (RFPulse.initial [0; 1; 2; 3; 4; 5]%R))
    by (apply rf_initial_shaped; reflexivity).
  destruct (fid_line_spans_the_window 300 _ Hst) as (st' & Hrun & _ & Hafter).
  exists st'. split; [exact Hst |]. split; [exact Hrun |].
  destruct Hafter as (Ht & Hy & _); [unfold RFPulse.TE_frame; lia |].
  split; assumption.
Defined.

(** Any sequence of calls of [update], from a state whose arrays have
    [n_spins] entries: every call appends one sample. *)
Lemma rf_calls (fs : list Z) :
  forall st : RFPulse.State,
    RFPulse.spins_shaped st ->
    exists st' xs,
      for_each fs RFPulse.update st = Some st' /\
      RFPulse.spins_shaped st' /\
      RFPulse.fid st' = RFPulse.fid st ++ xs /\
      length xs = length fs /\
      forall (k : nat) (f : Z),
        nth_error fs k = Some f ->
        exists x, nth_error xs k = Some x /\
                  ((f <= RFPulse.rf_frame)%Z -> x = 0%R) /\
                  ((RFPulse.rf_frame < f)%Z -> (Rabs x < IZR RFPulse.n_spins)%R).
Proof.
  induction fs as [| f0 rest IH]; intros st Hst.
  - exists st, []. split; [reflexivity |]. split; [exact Hst |].
    split; [rewrite app_nil_r; reflexivity |]. split; [reflexivity |].
    intros [| k] f Hk; discriminate Hk.
  - destruct (rf_sample f0 st Hst) as (st1 & x0 & Hstep & Hst1 & Hfid1 & Hzero & Hlate).
    destruct (IH st1 Hst1) as (st' & xs & Hrun & Hst' & Hfid & Hlen & Hxs).
    exists st', (x0 :: xs). rewrite for_each_cons, Hstep. cbn [bind].
    split; [exact Hrun |]. split; [exact Hst' |].
    split; [rewrite Hfid, Hfid1, <- app_assoc; reflexivity |].
    split; [cbn [length]; rewrite Hlen; reflexivity |].
    intros [| k] f Hk.
    + cbn [nth_error] in Hk. injection Hk as <-. exists x0.
      split; [reflexivity |]. split; [exact Hzero |].
      intros Hf. destruct (Hlate Hf) as (_ & _ & Hb). exact Hb.
    + cbn [nth_error] in Hk |- *. exact (Hxs k f Hk).
Qed.

(** The frames [FuncAnimation] passes are those of the run. *)
Lemma saved_frames_in_range (n : Z) :
  (0 < n)%Z -> Forall (fun f => (0 <= f < n)%Z) (0%Z :: arange n).
Proof.
  intros Hn. constructor; [lia |]. apply Forall_forall. intros f Hf.
  apply in_arange. exact Hf.
Qed.

(** X16.  Every call of [update] records one sample.  After any sequence
    of calls with frames of the run, from the initial state, the list
    [fid] holds one sample per call, in the order of the calls: [0] for a
    call with a frame up to and including the pulse frame, a value below
    [n_spins] in modulus for a later frame.  So the run of the script, in
    which [FuncAnimation] draws frame [0] once before the frames
    [0, ..., 599] are saved, records 601 samples, and the sample of frame
    [k] is at index [k + 1]. *)
Theorem every_call_records_one_sample (phases0 : list R) (fs : list Z) :
  Z.of_nat (length phases0) = RFPulse.n_spins ->
  Forall (fun f => (0 <= f < RFPulse.frames)%Z) fs ->
  exists st',
    for_each fs RFPulse.update (RFPulse.initial phases0) = Some st' /\
    length (RFPulse.fid st') = length fs /\
    forall (k : nat) (f : Z),
      nth_error fs k = Some f ->
      exists x, nth_error (RFPulse.fid st') k = Some x /\
                ((f <= RFPulse.rf_frame)%Z -> x = 0%R) /\
                ((RFPulse.rf_frame < f)%Z -> (Rabs x < IZR RFPulse.n_spins)%R).
Proof.
  intros Hp _.
  destruct (rf_calls fs (RFPulse.initial phases0) (rf_initial_shaped phases0 Hp))
    as (st' & xs & Hrun & _ & Hfid & Hlen & Hxs).
  change (RFPulse.fid (RFPulse.initial phases0)) with (@nil R) in Hfid.
  cbn [app] in Hfid. exists st'. split; [exact Hrun |].
  rewrite Hfid. split; [exact Hlen | exact Hxs].
Qed.

Lemma every_call_records_one_sample_saved_run :
  exists st',
    Z.of_nat (length [0; 1; 2; 3; 4; 5]%R) = RFPulse.n_spins /\
    Forall (fun f => (0 <= f < RFPulse.frames)%Z) (0%Z :: arange RFPulse.frames) /\
    for_each (0%Z :: arange RFPulse.frames) RFPulse.update
             (RFPulse.initial [0; 1; 2; 3; 4; 5]%R) = Some st' /\
    length (RFPulse.fid st') = 601%nat /\
    nth_error (RFPulse.fid st') 0 = Some 0%R /\
    nth_error (RFPulse.fid st') 1 = Some 0%R.
Proof.
  assert (Hp : Z.of_nat (length [0; 1; 2; 3; 4; 5]%R) = RFPulse.n_spins) by reflexivity.
  assert (Hfs : Forall (fun f => (0 <= f < RFPulse.frames)%Z)
                       (0%Z :: arange RFPulse.frames)).
  { apply saved_frames_in_range.
    unfold RFPulse.frames, RFPulse.fps, RFPulse.seconds. lia. }
  destruct (every_call_records_one_sample [0; 1; 2; 3; 4; 5]%R
              (0%Z :: arange RFPulse.frames) Hp Hfs) as (st' & Hrun & Hlen & Hxs).
  exists st'. split; [exact Hp |]. split; [exact Hfs |]. split; [exact Hrun |].
  split; [rewrite Hlen; cbn [length]; rewrite length_arange; reflexivity |].
  split.
  - destruct (Hxs 0%nat 0%Z eq_refl) as (x & Hx & Hzero & _).
    rewrite Hx, Hzero by (unfold RFPulse.rf_frame; lia). reflexivity.
  - destruct (Hxs 1%nat 0%Z) as (x & Hx & Hzero & _).
    + cbn [nth_error]. apply (nth_error_arange RFPulse.frames 0).
      unfold RFPulse.frames, RFPulse.fps, RFPulse.seconds. lia.
    + rewrite Hx, Hzero by (unfold RFPulse.rf_frame; lia). reflexivity.
Defined.

(** ** The FID-to-spectrum animation: zero filling *)

Lemma map_const_repeat {A B : Type} (b : B) (xs : list A) :
  map (fun _ => b) xs = repeat b (length xs).
Proof. induction xs as [| x xs IH]; simpl; [reflexivity | f_equal; exact IH]. Qed.

Lemma skipn_zeros (N : Z) (k : nat) :
  skipn k (zeros (C:=complex) N) = repeat (0%R, 0%R) (Z.to_nat N - k).
Proof.
  unfold zeros. rewrite skipn_map, map_const_repeat, length_skipn, length_arange.
  reflexivity.
Qed.

Lemma length_slice_to {A : Type} (a : list A) (idx : Z) :
  (0 <= idx <= Z.of_nat (length a))%Z -> length (slice_to a idx) = Z.to_nat idx.
Proof.
  intros Hidx. unfold slice_to.
  replace (0 <=? idx)%Z with true by (symmetry; apply Z.leb_le; lia).
  rewrite length_firstn. lia.
Qed.

Lemma fid_to_spectrum_axis_length :
  length FidToSpectrum.freq_axis = Z.to_nat FidToSpectrum.N /\
  length FidToSpectrum.t = Z.to_nat FidToSpectrum.N.
Proof.
  split.
  - unfold FidToSpectrum.freq_axis. apply length_linspace.
  - unfold FidToSpectrum.t. apply length_t.
Qed.

(** What the callback draws, frame by frame. *)
Lemma fid_to_spectrum_frame (frame : Z) (w : Acquired) :
  (0 <= frame < FidToSpectrum.frames)%Z ->
  Z.of_nat (length (acq_fid w)) = FidToSpectrum.N ->
  exists w',
    FidToSpectrum.update frame w = Some w' /\
    (0 <= frame * FidToSpectrum.N / FidToSpectrum.frames < FidToSpectrum.N)%Z /\
    line_fid w'
    = {| xdata := slice_to FidToSpectrum.t (frame * FidToSpectrum.N / FidToSpectrum.frames);
         ydata := np_real (slice_to (acq_fid w)
                                    (frame * FidToSpectrum.N / FidToSpectrum.frames)) |} /\
    line_spec w'
    = {| xdata := FidToSpectrum.freq_axis;
         ydata := spectrum
                    (slice_to (acq_fid w) (frame * FidToSpectrum.N / FidToSpectrum.frames)
                     ++ repeat (0%R, 0%R)
                          (Z.to_nat (FidToSpectrum.N
                                     - frame * FidToSpectrum.N / FidToSpectrum.frames))) |}.
Proof.
  intros Hf Hlen.
  destruct (R_truncation_index FidToSpectrum.frames FidToSpectrum.N frame
              ltac:(reflexivity) ltac:(reflexivity) Hf) as [Hidx Hin].
  set (idx := (frame * FidToSpectrum.N / FidToSpectrum.frames)%Z) in *. clearbody idx.
  unfold FidToSpectrum.update, update_truncated. rewrite Hidx. cbn [bind].
  assert (Hcur : length (slice_to (acq_fid w) idx) = Z.to_nat idx)
    by (apply length_slice_to; lia).
  assert (Hpad : length (slice_to (zeros (C:=complex) FidToSpectrum.N) idx) = Z.to_nat idx)
    by (apply length_slice_to; rewrite length_zeros; lia).
  unfold set_slice_to. rewrite Hpad, Hcur, Nat.eqb_refl. cbn [bind].
  eexists. split; [reflexivity |]. split; [exact Hin |].
  cbn [line_fid line_spec set_data]. split; [reflexivity |].
  rewrite skipn_zeros.
  replace (Z.to_nat FidToSpectrum.N - Z.to_nat idx)%nat
    with (Z.to_nat (FidToSpectrum.N - idx)) by lia.
  reflexivity.
Qed.

(** X17.  In every frame of the FID-to-spectrum animation the spectrum
    line shows the transform of the acquired prefix of the FID padded with
    zeros to the full [N] samples, over the whole frequency axis; the
    abscissa and the ordinate of each of the two lines have the same
    length ([N] for the spectrum, the truncation index for the FID). *)
Theorem spectrum_of_zero_filled_prefix (frame : Z) (w : Acquired) :
  (0 <= frame < FidToSpectrum.frames)%Z ->
  Z.of_nat (length (acq_fid w)) = FidToSpectrum.N ->
  exists idx w',
    FidToSpectrum.update frame w = Some w' /\
    idx = (frame * FidToSpectrum.N / FidToSpectrum.frames)%Z /\
    ydata (line_spec w')
    = spectrum (slice_to (acq_fid w) idx
                ++ repeat (0%R, 0%R) (Z.to_nat (FidToSpectrum.N - idx))) /\
    xdata (line_spec w') = FidToSpectrum.freq_axis /\
    length (xdata (line_spec w')) = Z.to_nat FidToSpectrum.N /\
    length (ydata (line_spec w')) = Z.to_nat FidToSpectrum.N /\
    xdata (line_fid w') = slice_to FidToSpectrum.t idx /\
    length (xdata (line_fid w')) = Z.to_nat idx /\
    length (ydata (line_fid w')) = Z.to_nat idx.
Proof.
  intros Hf Hlen.
  destruct (fid_to_spectrum_frame frame w Hf Hlen) as (w' & Hrun & Hin & Hfid & Hspec).
  destruct fid_to_spectrum_axis_length as [Hax Ht].
  exists (frame * FidToSpectrum.N / FidToSpectrum.frames)%Z, w'.
  split; [exact Hrun |]. split; [reflexivity |].
  rewrite Hfid, Hspec. cbn [xdata ydata].
  split; [reflexivity |]. split; [reflexivity |]. split; [exact Hax |].
  split.
  { rewrite length_spectrum, length_app, repeat_length, length_slice_to by lia. lia. }
  split; [reflexivity |].
  split; [apply length_slice_to; rewrite Ht; lia |].
  unfold np_real. rewrite length_map. apply length_slice_to. lia.
Qed.

Lemma spectrum_of_zero_filled_prefix_frame_150 :
  exists w idx w',
    FidToSpectrum.create_animation 1 = Some w /\
    (0 <= 150 < FidToSpectrum.frames)%Z /\
    Z.of_nat (length (acq_fid w)) = FidToSpectrum.N /\
    FidToSpectrum.update 150 w = Some w' /\
    idx = 1024%Z /\
    ydata (line_spec w')
    = spectrum (slice_to (acq_fid w) idx
                ++ repeat (0%R, 0%R) (Z.to_nat (FidToSpectrum.N - idx))).
Proof.
  destruct (FidToSpectrum.create_animation 1) as [w |] eqn:Hw.
  - assert (Hf : (0 <= 150 < FidToSpectrum.frames)%Z)
      by (unfold FidToSpectrum.frames, FidToSpectrum.animation_seconds, FidToSpectrum.fps; lia).
    pose proof (fid_to_spectrum_length 1 w Hw) as Hlen.
    destruct (spectrum_of_zero_filled_prefix 150 w Hf Hlen)
      as (idx & w' & Hrun & Hidx & Hspec & _).
    exists w, idx, w'. split; [reflexivity |]. split; [exact Hf |]. split; [exact Hlen |].
    split; [exact Hrun |]. split; [rewrite Hidx; reflexivity | exact Hspec].
  - exfalso. unfold FidToSpectrum.create_animation, FidToSpectrum.molecule_type in Hw.
    cbv [Z.eqb Pos.eqb option_map] in Hw. discriminate Hw.
Defined.

(** The transform of an all-zero array is all zero. *)
Lemma csum_zeros (zs : list complex) :
  Forall (fun z => z = (0%R, 0%R)) zs -> csum zs = (0%R, 0%R).
Proof.
  unfold csum. induction zs as [| z rest IH]; intros Hall; [reflexivity |].
  apply Forall_cons_iff in Hall. destruct Hall as [-> Hall]. simpl.
  replace (0 + 0)%R with 0%R by ring. apply IH. exact Hall.
Qed.

Lemma in_enumerate_from_value {A : Type} (xs : list A) (i0 i : Z) (x : A) :
  In (i, x) (enumerate_from i0 xs) -> In x xs.
Proof. intros Hin. apply (in_enumerate_from xs i0 i x Hin). Qed.

Lemma spectrum_of_zeros (n : nat) :
  spectrum (repeat (0%R, 0%R) n) = repeat 0%R n.
Proof.
  assert (Hall : Forall (fun v => v = 0%R) (spectrum (repeat (0%R, 0%R) n))).
  { rewrite Forall_forall. intros v Hv. unfold spectrum in Hv.
    apply in_map_iff in Hv. destruct Hv as [z [<- Hz]].
    assert (Hfft : In z (fft (repeat (0%R, 0%R) n))).
    { unfold fftshift in Hz.
      set (l := fft (repeat (0%R, 0%R) n)) in *.
      set (k := (length l - Nat.div (length l) 2)%nat) in *.
      rewrite <- (firstn_skipn k l). apply in_or_app. apply in_app_or in Hz. tauto. }
    unfold fft in Hfft. apply in_map_iff in Hfft. destruct Hfft as [k [<- _]].
    rewrite csum_zeros.
    - unfold Cabs. simpl. replace (0 * 0 + 0 * 0)%R with 0%R by ring. apply sqrt_0.
    - rewrite Forall_forall. intros y Hy. apply in_map_iff in Hy.
      destruct Hy as [[i x] [<- Hix]]. unfold enumerate in Hix.
      apply in_enumerate_from_value in Hix. apply repeat_spec in Hix. subst x.
      simpl. f_equal; ring. }
  pose proof (length_spectrum (repeat (0%R, 0%R) n)) as Hlen.
  rewrite repeat_length in Hlen.
  revert Hall Hlen. generalize (spectrum (repeat (0%R, 0%R) n)). clear.
  induction n as [| n IH]; intros l Hall Hlen; destruct l as [| v l]; try discriminate.
  - reflexivity.
  - apply Forall_cons_iff in Hall. destruct Hall as [-> Hall]. simpl. f_equal.
    apply IH; [exact Hall | simpl in Hlen; lia].
Qed.

(** X18.  At frame 0 nothing has been acquired yet: the truncation index
    is [0], the FID line is empty and the spectrum line is identically
    zero over the whole frequency axis. *)
Theorem first_frame_shows_nothing (w : Acquired) :
  Z.of_nat (length (acq_fid w)) = FidToSpectrum.N ->
  exists w',
    FidToSpectrum.update 0 w = Some w' /\
    line_fid w' = {| xdata := []; ydata := [] |} /\
    line_spec w'
    = {| xdata := FidToSpectrum.freq_axis;
         ydata := repeat 0%R (Z.to_nat FidToSpectrum.N) |}.
Proof.
  intros Hlen.
  destruct (fid_to_spectrum_frame 0 w ltac:(split; [lia | reflexivity]) Hlen)
    as (w' & Hrun & _ & Hfid & Hspec).
  exists w'. split; [exact Hrun |].
  change (0 * FidToSpectrum.N / FidToSpectrum.frames)%Z with 0%Z in Hfid, Hspec.
  split.
  - rewrite Hfid. reflexivity.
  - rewrite Hspec. f_equal.
    change (slice_to (acq_fid w) 0) with (@nil complex).
    rewrite app_nil_l, Z.sub_0_r. apply spectrum_of_zeros.
Qed.

Lemma first_frame_shows_nothing_kind_1 :
  exists w w',
    FidToSpectrum.create_animation 1 = Some w /\
    Z.of_nat (length (acq_fid w)) = FidToSpectrum.N /\
    FidToSpectrum.update 0 w = Some w' /\
    line_fid w' = {| xdata := []; ydata := [] |}.
Proof.
  destruct (FidToSpectrum.create_animation 1) as [w |] eqn:Hw.
  - pose proof (fid_to_spectrum_length 1 w Hw) as Hlen.
    destruct (first_frame_shows_nothing w Hlen) as (w' & Hrun & Hfid & _).
    exists w, w'. split; [reflexivity |]. split; [exact Hlen |]. split; assumption.
  - exfalso. unfold FidToSpectrum.create_animation, FidToSpectrum.molecule_type in Hw.
    cbv [Z.eqb Pos.eqb option_map] in Hw. discriminate Hw.
Defined.

(** ** The concentration animation: cases and shares *)

(** X19.  The cases of [build_case] are cumulative: case [kind] consists
    of the first [kind] of the three parts (singlet, doublet, multiplet)
    and of their labels, so a kind below 1 has no part at all and every
    kind above 3 is case 3. *)
Theorem build_case_is_cumulative (kind : Z) :
  fst (Concentration.build_case kind)
  = firstn (Z.to_nat kind) (fst (Concentration.build_case 3)) /\
  snd (Concentration.build_case kind)
  = firstn (Z.to_nat kind) ["Singlet"; "Doublet"; "Multiplet"]%string /\
  length (fst (Concentration.build_case kind)) = Z.to_nat (Z.min (Z.max kind 0) 3) /\
  length (snd (Concentration.build_case kind)) = Z.to_nat (Z.min (Z.max kind 0) 3).
Proof.
  unfold Concentration.build_case.
  change (1 <=? 3)%Z with true. change (2 <=? 3)%Z with true. change (3 <=? 3)%Z with true.
  cbv [fst snd app].
  destruct (Z.leb_spec 1 kind) as [H1 | H1];
    destruct (Z.leb_spec 2 kind) as [H2 | H2];
    destruct (Z.leb_spec 3 kind) as [H3 | H3]; try lia; cbv [fst snd app].
  - rewrite !firstn_all2 by (cbn [length]; lia).
    cbn [length]. repeat split; try reflexivity; lia.
  - replace (Z.to_nat kind) with 2%nat by lia.
    cbv [firstn length]. repeat split; try reflexivity; lia.
  - replace (Z.to_nat kind) with 1%nat by lia.
    cbv [firstn length]. repeat split; try reflexivity; lia.
  - replace (Z.to_nat kind) with 0%nat by lia.
    cbv [firstn length]. repeat split; try reflexivity; lia.
Qed.

Lemma fold_left_real_parts (amps : list R) (x y : R) :
  fold_left c_add (map (fun a => (a, 0%R)) amps) (x, y)
  = ((x + total_amplitude amps)%R, y).
Proof.
  revert x y. induction amps as [| a rest IH]; intros x y; simpl.
  - f_equal. ring.
  - rewrite IH. f_equal; ring.
Qed.

(** The first sample of a sum of arrays of one shape. *)
Lemma sum_from_first (len : nat) (arrays : list (list complex)) (firsts : list complex) :
  (1 <= len)%nat ->
  Forall2 (fun a f => length a = len /\ @nth_error complex a 0 = Some f) arrays firsts ->
  forall acc z,
    (length acc = len \/ length acc = 1%nat) -> nth_error acc 0 = Some z ->
    exists total,
      sum_from acc arrays = Some total /\
      nth_error total 0 = Some (fold_left c_add firsts z).
Proof.
  intros Hlen Hall. induction Hall as [| a f arrays firsts [Ha Hf] Hrest IH];
    intros acc z Hacc Hz.
  - simpl. eauto.
  - cbn [sum_from fold_left].
    assert (Hstep : exists acc', broadcast c_add acc a = Some acc' /\
                                 length acc' = len /\
                                 nth_error acc' 0 = Some (c_add z f)).
    { unfold broadcast. destruct (Nat.eqb_spec (length acc) (length a)) as [Heq | Hne].
      - eexists. split; [reflexivity |]. split.
        + rewrite length_zip_with. lia.
        + destruct acc as [| z0 acc]; [discriminate |].
          destruct a as [| f0 a]; [discriminate |].
          simpl in Hz, Hf. injection Hz as ->. injection Hf as ->. reflexivity.
      - destruct Hacc as [Hacc | Hacc]; [congruence |].
        destruct acc as [| z0 [| z1 acc]]; simpl in Hacc; try discriminate.
        simpl in Hz. injection Hz as ->.
        eexists. split; [reflexivity |]. split; [rewrite length_map; exact Ha |].
        rewrite nth_error_map, Hf. reflexivity. }
    destruct Hstep as (acc' & -> & Hlen' & Hz'). cbn [bind].
    apply IH; [left; exact Hlen' | exact Hz'].
Qed.

Lemma shown_shares_of_share {F : Type} (l : string) (frac : F) (rest : list (@Chunk F)) :
  shown_shares ([Lit l; Lit ": "; Fixed 1 frac; Lit "%"; Break] ++ rest)
  = frac :: shown_shares rest.
Proof. reflexivity. Qed.

(** The loop over the parts: each share is [100*|p[0]|/total_amp]. *)
Lemma shares_sum (T : R) (ps : list (list complex)) (amps : list R) :
  (0 < T)%R ->
  Forall2 (fun p a => @nth_error complex p 0 = Some (a, 0%R) /\ (0 <= a)%R) ps amps ->
  forall ls : list string,
    length ls = length ps ->
    exists rest,
      shares Cabs T ps ls = Some rest /\
      fold_right Rplus 0%R (shown_shares rest) = (100 * total_amplitude amps / T)%R.
Proof.
  intros HT Hall. induction Hall as [| p a ps amps [Hp Ha] Hrest IH]; intros ls Hlen.
  - destruct ls; [| discriminate]. exists []. split; [reflexivity |].
    simpl. unfold Rdiv. ring.
  - destruct ls as [| l ls]; [discriminate |]. simpl in Hlen.
    destruct (IH ls ltac:(lia)) as (rest & Hshares & Hsum).
    cbn [shares]. unfold item at 1. cbn [Z.leb Z.compare Z.to_nat].
    rewrite Hp. cbn [bind]. rewrite Hshares. cbn [bind].
    eexists. split; [reflexivity |].
    rewrite shown_shares_of_share. cbn [fold_right]. rewrite Hsum.
    rewrite Cabs_of_real by exact Ha.
    replace (flt (of_int 0) T) with true by (symmetry; apply R_flt_true; exact HT).
    simpl. field. lra.
Qed.

(** The frame callback on a panel whose parts start at real, non-negative
    samples. *)
Lemma buildup_shares (frame : Z) (w : Panel) (amps : list R) (len : nat) :
  (0 <= frame < Concentration.frames)%Z ->
  (1 <= len)%nat ->
  Forall2 (fun p a => length p = len /\ @nth_error complex p 0 = Some (a, 0%R) /\ (0 <= a)%R)
          (parts w) amps ->
  length (labels w) = length (parts w) ->
  py_sum (parts w) = Some (total_fid w) ->
  (0 < total_amplitude amps)%R ->
  exists w' rest,
    Concentration.update frame w = Some w' /\
    text_obj w' = [Header; Lit "Total amplitude:"; Break;
                   Fixed 2 (total_amplitude amps); Break; Break] ++ rest /\
    fold_right Rplus 0%R (shown_shares (text_obj w')) = 100%R.
Proof.
  intros Hf Hlen Hall Hlabels Hsum Hpos.
  destruct (R_truncation_index Concentration.frames Concentration.N frame
              ltac:(reflexivity) ltac:(reflexivity) Hf) as [Hidx _].
  unfold Concentration.update, update_buildup. rewrite Hidx. cbn [bind].
  assert (Hfirst : nth_error (total_fid w) 0 = Some (total_amplitude amps, 0%R)).
  { unfold py_sum in Hsum.
    destruct (sum_from_first len (parts w) (map (fun a => (a, 0%R)) amps) Hlen)
      with (acc := [c_of_float (F:=R) (C:=complex) (of_int 0)])
           (z := c_of_float (F:=R) (C:=complex) (of_int 0))
      as (total & Htotal & H0).
    - clear - Hall. induction Hall as [| p a ps amps (Hl & Hp & _) Hrest IH]; simpl;
        constructor; [split; assumption | exact IH].
    - right. reflexivity.
    - reflexivity.
    - rewrite Hsum in Htotal. injection Htotal as <-. rewrite H0.
      change (c_of_float (F:=R) (C:=complex) (of_int 0)) with (0%R, 0%R).
      rewrite fold_left_real_parts. f_equal. f_equal. ring. }
  unfold item at 1. cbn [Z.leb Z.compare Z.to_nat]. rewrite Hfirst. cbn [bind].
  rewrite Cabs_of_real by lra.
  destruct (shares_sum (total_amplitude amps) (parts w) amps Hpos) with (ls := labels w)
    as (rest & Hshares & Htotal).
  - clear - Hall. induction Hall as [| p a ps amps (_ & Hp & Ha) Hrest IH];
      constructor; [split; assumption | exact IH].
  - exact Hlabels.
  - rewrite Hshares. cbn [bind]. eexists. exists rest. split; [reflexivity |].
    cbn [text_obj]. split; [reflexivity |].
    change (shown_shares ([Header; Lit "Total amplitude:"; Break;
                           Fixed 2 (total_amplitude amps); Break; Break] ++ rest))
      with (shown_shares rest).
    rewrite Htotal. field. lra.
Qed.

Lemma amplitudes_of_combine (freqs amps : list R) :
  length freqs = length amps -> map snd (combine freqs amps) = amps.
Proof.
  revert amps. induction freqs as [| f freqs IH]; intros [| a amps] Hlen;
    try discriminate; [reflexivity |].
  simpl. f_equal. apply IH. simpl in Hlen. lia.
Qed.

(** A part of a case: it has [N] samples and starts at the sum of its
    amplitudes. *)
Lemma concentration_part (freqs amps : list R) :
  length freqs = length amps ->
  Forall (fun a => (0 <= a)%R) amps ->
  length (Concentration.times_decay (Concentration.multiplet freqs amps))
  = Z.to_nat Concentration.N /\
  @nth_error complex (Concentration.times_decay (Concentration.multiplet freqs amps)) 0
  = Some (total_amplitude amps, 0%R) /\
  (0 <= total_amplitude amps)%R.
Proof.
  intros Hlen Hall.
  unfold Concentration.times_decay, Concentration.multiplet.
  rewrite explicit_multiplet_samples, damp_samples.
  split; [rewrite length_map; apply length_t |].
  split; [| apply total_amplitude_nonneg; exact Hall].
  rewrite <- (amplitudes_of_combine freqs amps Hlen) at 2.
  apply damped_superposition_peak.
  - reflexivity.
  - unfold Concentration.N. lia.
  - unfold Concentration.T2. rewrite R_lit. lra.
  - rewrite amplitudes_of_combine by exact Hlen. exact Hall.
Qed.

Lemma build_case_amplitudes (kind : Z) :
  (1 <= kind)%Z ->
  exists amps,
    Forall2 (fun p a => length p = Z.to_nat Concentration.N /\
                        @nth_error complex p 0 = Some (a, 0%R) /\ (0 <= a)%R)
            (fst (Concentration.build_case kind)) amps /\
    length (snd (Concentration.build_case kind))
    = length (fst (Concentration.build_case kind)) /\
    total_amplitude amps
    = IZR (if (kind =? 1)%Z then 1 else if (kind =? 2)%Z then 3 else 11).
Proof.
  intros Hkind.
  pose proof (concentration_part [80%R] [1%R] eq_refl
                ltac:(repeat constructor; lra)) as H1.
  pose proof (concentration_part [200 - 7 / 2; 200 + 7 / 2]%R [1%R; 1%R] eq_refl
                ltac:(repeat constructor; lra)) as H2.
  pose proof (concentration_part
                [320 - lit 15 10 * 7; 320 - lit 5 10 * 7; 320 + lit 5 10 * 7;
                 320 + lit 15 10 * 7]%R [1%R; 3%R; 3%R; 1%R] eq_refl
                ltac:(repeat constructor; lra)) as H3.
  unfold Concentration.build_case.
  replace (1 <=? kind)%Z with true by (symmetry; apply Z.leb_le; lia).
  destruct (Z.leb_spec 2 kind) as [K2 | K2]; [destruct (Z.leb_spec 3 kind) as [K3 | K3] |].
  - replace (kind =? 1)%Z with false by (symmetry; apply Z.eqb_neq; lia).
    replace (kind =? 2)%Z with false by (symmetry; apply Z.eqb_neq; lia).
    cbv [fst snd app].
    exists [total_amplitude [1%R]; total_amplitude [1%R; 1%R];
            total_amplitude [1%R; 3%R; 3%R; 1%R]].
    split; [| split; [reflexivity | simpl; ring]].
    constructor; [exact H1 |]. constructor; [exact H2 |].
    constructor; [exact H3 | constructor].
  - replace (kind =? 1)%Z with false by (symmetry; apply Z.eqb_neq; lia).
    replace (kind =? 2)%Z with true by (symmetry; apply Z.eqb_eq; lia).
    cbv [fst snd app].
    exists [total_amplitude [1%R]; total_amplitude [1%R; 1%R]].
    split; [| split; [reflexivity | simpl; ring]].
    constructor; [exact H1 |]. constructor; [exact H2 | constructor].
  - replace (3 <=? kind)%Z with false by (symmetry; apply Z.leb_gt; lia).
    replace (kind =? 1)%Z with true by (symmetry; apply Z.eqb_eq; lia).
    cbv [fst snd app].
    exists [total_amplitude [1%R]].
    split; [| split; [reflexivity | simpl; ring]].
    constructor; [exact H1 | constructor].
Qed.

(** X20.  For every case with at least one part, and on every frame of
    the run, the text panel of the concentration animation shows the
    total amplitude at [t = 0], which is the sum of all the amplitudes of
    the case (1, 3 or 11), and percentage shares that add up to 100. *)
Theorem shares_add_up_to_100 (kind frame : Z) (w : Panel) :
  (1 <= kind)%Z ->
  Concentration.animate_case kind = Some w ->
  (0 <= frame < Concentration.frames)%Z ->
  exists w',
    Concentration.update frame w = Some w' /\
    In (Fixed 2 (IZR (if (kind =? 1)%Z then 1 else if (kind =? 2)%Z then 3 else 11)))
       (text_obj w') /\
    fold_right Rplus 0%R (shown_shares (text_obj w')) = 100%R.
Proof.
  intros Hkind Hcase Hf.
  destruct (build_case_amplitudes kind Hkind) as (amps & Hall & Hlabels & Htotal).
  unfold Concentration.animate_case in Hcase.
  destruct (py_sum (fst (Concentration.build_case kind))) as [total |] eqn:Hsum;
    [| discriminate].
  cbv [option_map] in Hcase. injection Hcase as <-.
  destruct (buildup_shares frame
              {| parts := fst (Concentration.build_case kind);
                 labels := snd (Concentration.build_case kind);
                 total_fid := total;
                 line_total := {| xdata := []; ydata := [] |};
                 part_lines := map (fun _ => {| xdata := []; ydata := [] |})
                                   (fst (Concentration.build_case kind));
                 text_obj := [] |} amps (Z.to_nat Concentration.N))
    as (w' & rest & Hrun & Htext & Hshares).
  - exact Hf.
  - unfold Concentration.N. lia.
  - exact Hall.
  - exact Hlabels.
  - exact Hsum.
  - rewrite Htotal. destruct (kind =? 1)%Z; [| destruct (kind =? 2)%Z]; simpl; lra.
  - exists w'. split; [exact Hrun |]. split; [| exact Hshares].
    rewrite Htext, Htotal. right. right. right. left. reflexivity.
Qed.

Lemma animate_case_total (kind : Z) :
  (1 <= kind)%Z -> exists w, Concentration.animate_case kind = Some w.
Proof.
  intros Hkind. unfold Concentration.animate_case.
  destruct (build_case_amplitudes kind Hkind) as (amps & Hall & _ & Htotal).
  destruct (py_sum_shape (fst (Concentration.build_case kind)) (Z.to_nat Concentration.N))
    as (total & Hsum & _).
  - intros Hnil. rewrite Hnil in Hall. inversion Hall as [Hamps |]. subst amps.
    change (total_amplitude []) with (IZR 0) in Htotal.
    destruct (kind =? 1)%Z; [| destruct (kind =? 2)%Z];
      apply eq_IZR in Htotal; discriminate.
  - clear - Hall. induction Hall as [| p a ps amps (Hl & _) Hrest IH];
      constructor; assumption.
  - rewrite Hsum. cbv [option_map]. eauto.
Qed.

Lemma shares_add_up_to_100_case_2 :
  exists w w',
    (1 <= 2)%Z /\
    Concentration.animate_case 2 = Some w /\
    (0 <= 100 < Concentration.frames)%Z /\
    Concentration.update 100 w = Some w' /\
    In (Fixed 2 3%R) (text_obj w') /\
    fold_right Rplus 0%R (shown_shares (text_obj w')) = 100%R.
Proof.
  destruct (animate_case_total 2 ltac:(lia)) as [w Hw].
  assert (Hf : (0 <= 100 < Concentration.frames)%Z) by (unfold Concentration.frames; lia).
  destruct (shares_add_up_to_100 2 100 w ltac:(lia) Hw Hf) as (w' & Hrun & Hin & Hsum).
  exists w, w'. split; [lia |]. split; [exact Hw |]. split; [exact Hf |].
  split; [exact Hrun |]. split; [exact Hin | exact Hsum].
Defined.

(** ** The proton animation: amplitude and area follow the proton count *)

Lemma proton_fid_samples (scale : R) :
  Proton.fid_signal scale
  = map (damped Proton.T2 (superposition [(100%R, scale)])) Proton.t.
Proof.
  unfold Proton.fid_signal, Proton.t. rewrite oscillation_samples, damp_samples.
  apply map_ext. intros tk. unfold damped, superposition. simpl.
  f_equal; ring.
Qed.

Lemma R_proton_scale (frames frame : Z) :
  (0 < frames)%Z -> (0 <= frame < frames)%Z ->
  (proton_scale frames frame : R) = (1 + 4 * (IZR frame / IZR frames))%R /\
  (1 <= proton_scale frames frame < 5)%R.
Proof.
  intros HT Hf. unfold proton_scale, progress. simpl. split; [reflexivity |].
  assert (HTr : (0 < IZR frames)%R) by (apply IZR_lt; exact HT).
  assert (H0 : (0 <= IZR frame)%R) by (apply IZR_le; lia).
  assert (H1 : (IZR frame < IZR frames)%R) by (apply IZR_lt; lia).
  assert (Hq : (0 <= IZR frame / IZR frames < 1)%R).
  { split.
    - apply Rmult_le_pos; [exact H0 | apply Rlt_le, Rinv_0_lt_compat, HTr].
    - apply Rmult_lt_reg_r with (r := IZR frames); [exact HTr |].
      unfold Rdiv. rewrite Rmult_assoc, Rinv_l by lra. lra. }
  lra.
Qed.

(** X21.  The FID of the proton animation has the proton count as its
    amplitude: with [scale = 1 + 4*(frame/frames)], which runs from 1
    towards 5 over the frames of the run (in binary64 as over the reals),
    the first sample of [fid_signal(scale)] is the real number [scale]
    and no sample is larger in modulus. *)
Theorem fid_amplitude_is_the_proton_count (frame : Z) :
  (0 <= frame < Proton.frames)%Z ->
  (1 <= proton_scale Proton.frames frame < 5)%R /\
  proton_scale_in_range Proton.frames frame = true /\
  nth_error (Proton.fid_signal (proton_scale Proton.frames frame)) 0
  = Some (proton_scale Proton.frames frame : R, 0%R) /\
  np_max (map Cabs (Proton.fid_signal (proton_scale Proton.frames frame)))
  = Some (proton_scale Proton.frames frame : R).
Proof.
  intros Hf.
  destruct (R_proton_scale Proton.frames frame ltac:(reflexivity) Hf) as [_ Hs].
  split; [exact Hs |]. split.
  { apply (forallb_arange (proton_scale_in_range Proton.frames) Proton.frames);
      [vm_compute; reflexivity | exact Hf]. }
  set (s := (proton_scale Proton.frames frame : R)) in *.
  rewrite proton_fid_samples.
  destruct (damped_superposition_peak Proton.BW Proton.N Proton.T2 [(100%R, s)])
    as [Hfirst Hmax].
  - reflexivity.
  - unfold Proton.N. lia.
  - unfold Proton.T2. rewrite R_lit. lra.
  - repeat constructor. simpl. lra.
  - unfold Proton.t. rewrite Hfirst, Hmax. simpl.
    replace (s + 0)%R with s by ring. split; reflexivity.
Qed.

Lemma fid_amplitude_is_the_proton_count_frame_50 :
  (0 <= 50 < Proton.frames)%Z /\
  nth_error (Proton.fid_signal (proton_scale Proton.frames 50)) 0
  = Some (proton_scale Proton.frames 50 : R, 0%R) /\
  np_max (map Cabs (Proton.fid_signal (proton_scale Proton.frames 50)))
  = Some (proton_scale Proton.frames 50 : R).
Proof.
  assert (Hf : (0 <= 50 < Proton.frames)%Z) by (unfold Proton.frames; lia).
  split; [exact Hf |].
  exact (proj2 (proj2 (fid_amplitude_is_the_proton_count 50 Hf))).
Defined.

(** The Fourier transform, the magnitude spectrum and the trapezoid rule
    are linear in a non-negative real factor. *)
Lemma enumerate_from_map {A B : Type} (f : A -> B) (xs : list A) (i0 : Z) :
  enumerate_from i0 (map f xs) = map (fun e => (fst e, f (snd e))) (enumerate_from i0 xs).
Proof.
  revert i0. induction xs as [| x xs IH]; intros i0; simpl; [reflexivity |].
  f_equal. apply IH.
Qed.

Lemma csum_scaled (s : R) (zs : list complex) :
  csum (map (fun z => (s * fst z, s * snd z)%R) zs)
  = ((s * fst (csum zs))%R, (s * snd (csum zs))%R).
Proof.
  unfold csum.
  assert (Hgen : forall acc : complex,
             fold_left (fun a z => c_add a z)
                       (map (fun z => (s * fst z, s * snd z)%R) zs)
                       ((s * fst acc)%R, (s * snd acc)%R)
             = ((s * fst (fold_left (fun a z => c_add a z) zs acc))%R,
                (s * snd (fold_left (fun a z => c_add a z) zs acc))%R)).
  { induction zs as [| z rest IH]; intros acc; [reflexivity |].
    cbn [map fold_left]. rewrite <- (IH (c_add acc z)). f_equal.
    destruct acc as [a1 a2], z as [z1 z2]. simpl. f_equal; ring. }
  rewrite <- (Hgen (0%R, 0%R)). f_equal. simpl. apply f_equal2; ring.
Qed.

Lemma fft_scaled (s : R) (x : list complex) :
  fft (map (fun z => (s * fst z, s * snd z)%R) x)
  = map (fun z => (s * fst z, s * snd z)%R) (fft x).
Proof.
  unfold fft. rewrite length_map, map_map. apply map_ext. intros k.
  unfold enumerate. rewrite enumerate_from_map, map_map.
  rewrite <- csum_scaled, map_map. f_equal. apply map_ext. intros [i [z1 z2]].
  cbn [fst snd]. unfold complex.
  match goal with |- context [Cexp ?a] => generalize (Cexp a) end.
  intros [e1 e2]. simpl. apply f_equal2; ring.
Qed.

Lemma fftshift_map {A B : Type} (f : A -> B) (x : list A) :
  fftshift (map f x) = map f (fftshift x).
Proof.
  unfold fftshift. rewrite length_map, map_app, skipn_map, firstn_map. reflexivity.
Qed.

Lemma Cabs_scaled (s : R) (z : complex) :
  (0 <= s)%R -> Cabs ((s * fst z)%R, (s * snd z)%R) = (s * Cabs z)%R.
Proof.
  intros Hs. unfold Cabs. simpl.
  replace (s * fst z * (s * fst z) + s * snd z * (s * snd z))%R
    with (Rsqr s * (fst z * fst z + snd z * snd z))%R by (unfold Rsqr; ring).
  rewrite sqrt_mult by (try apply Rle_0_sqr; apply sum_of_squares_nonneg).
  rewrite sqrt_Rsqr by exact Hs. reflexivity.
Qed.

Lemma spectrum_scaled (s : R) (x : list complex) :
  (0 <= s)%R ->
  spectrum (map (fun z => (s * fst z, s * snd z)%R) x)
  = map (Rmult s) (spectrum x).
Proof.
  intros Hs. unfold spectrum. rewrite fft_scaled, fftshift_map, !map_map.
  apply map_ext. intros z. apply Cabs_scaled. exact Hs.
Qed.

Lemma removelast_map {A B : Type} (f : A -> B) (l : list A) :
  removelast (map f l) = map f (removelast l).
Proof.
  induction l as [| a [| b l] IH]; try reflexivity.
  cbn [map removelast] in *. rewrite IH. reflexivity.
Qed.

Lemma tl_map {A B : Type} (f : A -> B) (l : list A) : tl (map f l) = map f (tl l).
Proof. destruct l; reflexivity. Qed.

Lemma length_removelast {A : Type} (l : list A) :
  length (removelast l) = (length l - 1)%nat.
Proof.
  induction l as [| a [| b l] IH]; try reflexivity.
  cbn [removelast length] in *. rewrite IH. lia.
Qed.

Lemma zip_with_scaled (s : R) (a b : list R) :
  zip_with Rplus (map (Rmult s) a) (map (Rmult s) b) = map (Rmult s) (zip_with Rplus a b).
Proof.
  revert b. induction a as [| x a IH]; intros [| y b]; simpl; try reflexivity.
  rewrite IH. f_equal. ring.
Qed.

Lemma zip_with_Rmult_scaled (s : R) (d v : list R) :
  zip_with Rmult d (map (Rmult s) v) = map (Rmult s) (zip_with Rmult d v).
Proof.
  revert v. induction d as [| x d IH]; intros [| y v]; simpl; try reflexivity.
  rewrite IH. f_equal. ring.
Qed.

Lemma np_sum_scaled (s : R) (a : list R) :
  RFPulse.np_sum (map (Rmult s) a) = (s * RFPulse.np_sum a)%R.
Proof.
  unfold RFPulse.np_sum. induction a as [| x a IH]; simpl; [ring |].
  rewrite np_sum_shift, IH, (np_sum_shift a (0 + x)). ring.
Qed.

(** The trapezoid rule on arrays of one length. *)
Lemma np_trapz_same_length (y x : list R) :
  length y = length x ->
  np_trapz y x
  = Some (RFPulse.np_sum
            (map (fun v => (v / 2)%R)
                 (zip_with Rmult (np_diff x) (zip_with Rplus (tl y) (removelast y))))).
Proof.
  intros Hlen. unfold np_trapz, broadcast.
  replace (length (np_diff x) =? length (zip_with Rplus (tl y) (removelast y)))%nat
    with true; [reflexivity |].
  symmetry. apply Nat.eqb_eq. unfold np_diff.
  rewrite !length_zip_with, length_removelast, !length_tl. lia.
Qed.

Lemma np_trapz_scaled (s : R) (y x : list R) :
  length y = length x ->
  np_trapz (map (Rmult s) y) x = option_map (Rmult s) (np_trapz y x).
Proof.
  intros Hlen.
  rewrite !np_trapz_same_length by (rewrite ?length_map; exact Hlen).
  cbn [option_map]. f_equal.
  rewrite removelast_map, tl_map, zip_with_scaled, zip_with_Rmult_scaled.
  rewrite <- np_sum_scaled, !map_map. f_equal. apply map_ext. intros v.
  unfold Rdiv. ring.
Qed.

Lemma proton_fid_scaled (scale : R) :
  Proton.fid_signal scale
  = map (fun z => (scale * fst z, scale * snd z)%R) (Proton.fid_signal 1).
Proof.
  rewrite !proton_fid_samples, map_map. apply map_ext. intros tk.
  unfold damped, superposition. simpl. f_equal; ring.
Qed.

Lemma proton_spectrum_length (scale : R) :
  length (spectrum (Proton.fid_signal scale)) = length Proton.freq_axis.
Proof.
  rewrite length_spectrum, proton_fid_samples, length_map.
  unfold Proton.t, Proton.freq_axis. rewrite length_t, length_linspace. reflexivity.
Qed.

(** X22.  The spectrum and its area follow the proton count linearly: for
    a non-negative [scale] the magnitude spectrum of [fid_signal(scale)]
    is [scale] times that of [fid_signal(1)], and so is the area that
    [np.trapz] computes over the frequency axis; [update] never raises,
    shows that area together with the proton count, and leaves exactly
    the new shaded polygon in [fill]. *)
Theorem spectral_area_follows_the_proton_count (frame : Z) (st : Proton.State) :
  (0 <= frame < Proton.frames)%Z ->
  exists unit_area st',
    np_trapz (spectrum (Proton.fid_signal 1)) Proton.freq_axis = Some unit_area /\
    spectrum (Proton.fid_signal (proton_scale Proton.frames frame))
    = map (Rmult (proton_scale Proton.frames frame)) (spectrum (Proton.fid_signal 1)) /\
    Proton.update frame st = Some st' /\
    Proton.text_box st'
    = Some {| Proton.protons_shown := proton_scale Proton.frames frame;
              Proton.area_shown := (proton_scale Proton.frames frame * unit_area)%R |} /\
    Proton.fill st'
    = Some (Proton.freq_axis,
            spectrum (Proton.fid_signal (proton_scale Proton.frames frame))) /\
    ydata (Proton.line_spec st')
    = spectrum (Proton.fid_signal (proton_scale Proton.frames frame)) /\
    ydata (Proton.line_fid st')
    = np_real (Proton.fid_signal (proton_scale Proton.frames frame)).
Proof.
  intros Hf.
  destruct (R_proton_scale Proton.frames frame ltac:(reflexivity) Hf) as [_ Hs].
  set (s := (proton_scale Proton.frames frame : R)) in *.
  assert (Hspec : spectrum (Proton.fid_signal s)
                  = map (Rmult s) (spectrum (Proton.fid_signal 1))).
  { rewrite (proton_fid_scaled s). apply spectrum_scaled. lra. }
  pose proof (np_trapz_same_length (spectrum (Proton.fid_signal 1)) Proton.freq_axis
                (proton_spectrum_length 1)) as Hunit.
  eexists. eexists. split; [exact Hunit |]. split; [exact Hspec |].
  unfold Proton.update. fold s. rewrite Hspec at 1.
  rewrite np_trapz_scaled by apply proton_spectrum_length.
  rewrite Hunit. cbn [option_map bind].
  split; [reflexivity |]. cbn [Proton.text_box Proton.fill Proton.line_spec
                                Proton.line_fid set_data ydata].
  repeat split; reflexivity.
Qed.

Lemma spectral_area_follows_the_proton_count_frame_50 :
  exists unit_area st',
    (0 <= 50 < Proton.frames)%Z /\
    np_trapz (spectrum (Proton.fid_signal 1)) Proton.freq_axis = Some unit_area /\
    Proton.update 50 Proton.initial = Some st' /\
    Proton.text_box st'
    = Some {| Proton.protons_shown := proton_scale Proton.frames 50;
              Proton.area_shown := (proton_scale Proton.frames 50 * unit_area)%R |}.
Proof.
  assert (Hf : (0 <= 50 < Proton.frames)%Z) by (unfold Proton.frames; lia).
  destruct (spectral_area_follows_the_proton_count 50 Proton.initial Hf)
    as (unit_area & st' & Hunit & _ & Hrun & Htext & _).
  exists unit_area, st'. split; [exact Hf |]. split; [exact Hunit |].
  split; assumption.
Defined.

(** ** The labels of the reveal and scaling phases *)

(** In a loop that writes one entry of a dict per iteration, under
    distinct names, the iteration of a name finds its entry as the loop
    found it and leaves it as the loop leaves it. *)
Lemma for_each_own_write {A St V : Type} (key : A -> string)
      (get : St -> string -> V) (same : St -> St -> Prop)
      (body : A -> St -> option St) :
  (forall s, same s s) ->
  (forall s1 s2 s3, same s1 s2 -> same s2 s3 -> same s1 s3) ->
  (forall x s s', body x s = Some s' ->
                  same s s' /\ forall n, n <> key x -> get s' n = get s n) ->
  forall xs : list A,
    NoDup (map key xs) ->
    forall s s', for_each xs body s = Some s' ->
      forall x, In x xs ->
        exists s1 s2, same s s1 /\ get s1 (key x) = get s (key x) /\
                      body x s1 = Some s2 /\ get s' (key x) = get s2 (key x).
Proof.
  intros Hrefl Htrans Hbody.
  assert (Hout : forall xs s s', for_each xs body s = Some s' ->
                   forall n, ~ In n (map key xs) -> get s' n = get s n).
  { induction xs as [| x0 rest IH]; intros s s' Hrun n Hn.
    - simpl in Hrun. injection Hrun as <-. reflexivity.
    - rewrite for_each_cons in Hrun.
      destruct (body x0 s) as [s1 |] eqn:Hstep; [| discriminate]. cbn [bind] in Hrun.
      rewrite (IH s1 s' Hrun n) by (intros Hin; apply Hn; right; exact Hin).
      apply (Hbody x0 s s1 Hstep). intros ->. apply Hn. left. reflexivity. }
  induction xs as [| x0 rest IH]; intros Hnd s s' Hrun x Hin; [contradiction |].
  rewrite for_each_cons in Hrun.
  destruct (body x0 s) as [s1 |] eqn:Hstep; [| discriminate]. cbn [bind] in Hrun.
  simpl in Hnd. apply NoDup_cons_iff in Hnd. destruct Hnd as [Hfresh Hnd].
  destruct (Hbody x0 s s1 Hstep) as [Hsame1 Hother1].
  destruct Hin as [<- | Hin].
  - exists s, s1. split; [apply Hrefl |]. split; [reflexivity |].
    split; [exact Hstep |]. apply (Hout rest s1 s' Hrun). exact Hfresh.
  - destruct (IH Hnd s1 s' Hrun x Hin) as (s2 & s3 & Hs2 & Hbefore & Hstep2 & Hget).
    exists s2, s3. split; [eapply Htrans; eassumption |].
    split; [| split; assumption].
    rewrite Hbefore. apply Hother1. intros Heq. apply Hfresh. rewrite <- Heq.
    apply in_map. exact Hin.
Qed.


Section Labels.
Context {F C D : Type} `{PyFloat F} `{Dtype F C}.
Variable script : Script F C D.

Lemma reveal_one_labels (k i : Z) (name : string) (data : D) (w w' : @World F C D) :
  reveal_one script k (i, (name, data)) w = Some w' ->
  signals w' = signals w /\
  (forall n, n <> name ->
             dict_get (black_lines (artists w')) n = dict_get (black_lines (artists w)) n /\
             dict_get (labels_real (artists w')) n = dict_get (labels_real (artists w)) n) /\
  ((k < i)%Z -> w' = w) /\
  ((i <= k)%Z ->
   exists fid pos,
     dict_get (real_fids (signals w)) name = Some fid /\
     anchor script (axis (signals w)) i (np_real fid) = Some pos /\
     dict_get (black_lines (artists w')) name
     = Some {| xdata := axis (signals w); ydata := np_real fid |} /\
     dict_get (labels_real (artists w')) name
     = Some {| position := pos; text := real_text script name data |}).
Proof.
  intros Hrun. split; [exact (reveal_one_signals script k _ w w' Hrun) |].
  unfold reveal_one in Hrun. destruct (Z.leb_spec i k) as [Hle | Hgt].
  - bind_inv Hrun.
    apply black_line_do_spec in E0. destruct E0 as (Hs0 & Hmod & _ & _ & _ & Hl0 & _).
    apply label_real_do_spec in E2. destruct E2 as (Hs2 & Hmod2 & Hb2 & _).
    apply label_real_do_spec in Hrun. destruct Hrun as (_ & Hmod3 & Hb3 & _).
    split; [| split; [intros; lia |]].
    + intros n Hn. apply not_eq_sym in Hn. apply String.eqb_neq in Hn.
      rewrite Hb3, Hb2, (dict_modify_get _ _ _ _ Hmod n), Hn.
      rewrite (dict_modify_get _ _ _ _ Hmod3 n), (dict_modify_get _ _ _ _ Hmod2 n), Hn, Hl0.
      split; reflexivity.
    + intros _. exists l, p. split; [reflexivity |]. rewrite Hs0 in E1.
      split; [exact E1 |]. split.
      * rewrite Hb3, Hb2, (dict_modify_get _ _ _ _ Hmod name), String.eqb_refl.
        destruct (dict_modify_was_there _ _ _ _ Hmod) as [old ->]. reflexivity.
      * rewrite (dict_modify_get _ _ _ _ Hmod3 name), (dict_modify_get _ _ _ _ Hmod2 name).
        rewrite String.eqb_refl.
        destruct (dict_modify_was_there _ _ _ _ Hmod2) as [old ->]. reflexivity.
  - injection Hrun as <-. split; [intros n _; split; reflexivity |].
    split; [reflexivity | intros; lia].
Qed.

Lemma scale_one_labels (s : F) (i : Z) (name : string) (data : D) (w w' : @World F C D) :
  scale_one script s (i, (name, data)) w = Some w' ->
  signals w' = signals w /\
  (forall n, n <> name ->
             dict_get (red_lines (artists w')) n = dict_get (red_lines (artists w)) n /\
             dict_get (labels_basis (artists w')) n = dict_get (labels_basis (artists w)) n) /\
  exists basis pos,
    dict_get (basis_fids (signals w)) name = Some basis /\
    anchor script (axis (signals w)) i (scaled_basis basis (conc_of script data) s)
    = Some pos /\
    dict_get (red_lines (artists w')) name
    = Some {| xdata := axis (signals w);
              ydata := scaled_basis basis (conc_of script data) s |} /\
    dict_get (labels_basis (artists w')) name
    = Some {| position := pos; text := [Fixed1 (conc_of script data); Str " AU"] |}.
Proof.
  intros Hrun. split; [exact (scale_one_signals script s _ w w' Hrun) |].
  unfold scale_one in Hrun. bind_inv Hrun.
  apply red_line_do_spec in E0. destruct E0 as (Hs0 & Hmod & _ & _ & _ & _ & Hlb0).
  apply label_basis_do_spec in E2. destruct E2 as (Hs2 & Hmod2 & _ & Hr2 & _).
  apply label_basis_do_spec in Hrun. destruct Hrun as (_ & Hmod3 & _ & Hr3 & _).
  split.
  - intros n Hn. apply not_eq_sym in Hn. apply String.eqb_neq in Hn.
    rewrite Hr3, Hr2, (dict_modify_get _ _ _ _ Hmod n), Hn.
    rewrite (dict_modify_get _ _ _ _ Hmod3 n), (dict_modify_get _ _ _ _ Hmod2 n), Hn, Hlb0.
    split; reflexivity.
  - exists l, p. split; [reflexivity |]. rewrite Hs0 in E1. split; [exact E1 |]. split.
    + rewrite Hr3, Hr2, (dict_modify_get _ _ _ _ Hmod name), String.eqb_refl.
      destruct (dict_modify_was_there _ _ _ _ Hmod) as [old ->]. reflexivity.
    + rewrite (dict_modify_get _ _ _ _ Hmod3 name), (dict_modify_get _ _ _ _ Hmod2 name).
      rewrite String.eqb_refl.
      destruct (dict_modify_was_there _ _ _ _ Hmod2) as [old ->]. reflexivity.
Qed.

(** What the loops over [enumerate(molecules.items())] leave for each
    entry, when the names are distinct. *)
Lemma reveal_loop_labels (k : Z) (w w' : @World F C D) :
  is_dict (molecules (signals w)) ->
  for_each (enumerate (molecules (signals w))) (reveal_one script k) w = Some w' ->
  forall i name data,
    In (i, (name, data)) (enumerate (molecules (signals w))) ->
    ((k < i)%Z ->
     dict_get (black_lines (artists w')) name = dict_get (black_lines (artists w)) name /\
     dict_get (labels_real (artists w')) name = dict_get (labels_real (artists w)) name) /\
    ((i <= k)%Z ->
     exists fid pos,
       dict_get (real_fids (signals w)) name = Some fid /\
       anchor script (axis (signals w)) i (np_real fid) = Some pos /\
       dict_get (black_lines (artists w')) name
       = Some {| xdata := axis (signals w); ydata := np_real fid |} /\
       dict_get (labels_real (artists w')) name
       = Some {| position := pos; text := real_text script name data |}).
Proof.
  intros Hd Hrun i name data Hin.
  destruct (for_each_own_write
              (fun e : Z * (string * D) => fst (snd e))
              (fun (s : World) n =>
                 (dict_get (black_lines (artists s)) n,
                  dict_get (labels_real (artists s)) n))
              (fun s s' : World => signals s' = signals s)
              (reveal_one script k)) with (xs := enumerate (molecules (signals w)))
                                          (s := w) (s' := w') (x := (i, (name, data)))
    as (s1 & s2 & Hs1 & Hbefore & Hstep & Hget).
  - reflexivity.
  - intros s1 s2 s3 H12 H23. congruence.
  - intros [i0 [n0 d0]] s s' Hstep.
    destruct (reveal_one_labels k i0 n0 d0 s s' Hstep) as (Hs & Hother & _).
    split; [exact Hs |]. intros n Hn. simpl in Hn.
    destruct (Hother n Hn) as [-> ->]. reflexivity.
  - unfold enumerate. rewrite enumerate_from_keys. exact Hd.
  - exact Hrun.
  - exact Hin.
  - cbn [fst snd] in Hget, Hbefore.
    injection Hget as Hblack Hlab. injection Hbefore as Hblack0 Hlab0.
    destruct (reveal_one_labels k i name data s1 s2 Hstep) as (_ & _ & Hskip & Hdraw).
    split.
    + intros Hgt. rewrite Hblack, Hlab, (Hskip Hgt). split; assumption.
    + intros Hle. destruct (Hdraw Hle) as (fid & pos & Hf & Hpos & Hb & Hl).
      rewrite Hs1 in Hf, Hpos, Hb. exists fid, pos.
      split; [exact Hf |]. split; [exact Hpos |]. split; congruence.
Qed.

Lemma scale_loop_labels (s : F) (w w' : @World F C D) :
  is_dict (molecules (signals w)) ->
  for_each (enumerate (molecules (signals w))) (scale_one script s) w = Some w' ->
  forall i name data,
    In (i, (name, data)) (enumerate (molecules (signals w))) ->
    exists basis pos,
      dict_get (basis_fids (signals w)) name = Some basis /\
      anchor script (axis (signals w)) i (scaled_basis basis (conc_of script data) s)
      = Some pos /\
      dict_get (red_lines (artists w')) name
      = Some {| xdata := axis (signals w);
                ydata := scaled_basis basis (conc_of script data) s |} /\
      dict_get (labels_basis (artists w')) name
      = Some {| position := pos; text := [Fixed1 (conc_of script data); Str " AU"] |}.
Proof.
  intros Hd Hrun i name data Hin.
  destruct (for_each_own_write
              (fun e : Z * (string * D) => fst (snd e))
              (fun (s : World) n =>
                 (dict_get (red_lines (artists s)) n,
                  dict_get (labels_basis (artists s)) n))
              (fun s s' : World => signals s' = signals s)
              (scale_one script s)) with (xs := enumerate (molecules (signals w)))
                                         (s := w) (s' := w') (x := (i, (name, data)))
    as (s1 & s2 & Hs1 & _ & Hstep & Hget).
  - reflexivity.
  - intros s1 s2 s3 H12 H23. congruence.
  - intros [i0 [n0 d0]] u u' Hstep.
    destruct (scale_one_labels s i0 n0 d0 u u' Hstep) as (Hs & Hother & _).
    split; [exact Hs |]. intros n Hn. simpl in Hn.
    destruct (Hother n Hn) as [-> ->]. reflexivity.
  - unfold enumerate. rewrite enumerate_from_keys. exact Hd.
  - exact Hrun.
  - exact Hin.
  - cbn [fst snd] in Hget. injection Hget as Hred Hlab.
    destruct (scale_one_labels s i name data s1 s2 Hstep)
      as (_ & _ & basis & pos & Hf & Hpos & Hr & Hl).
    rewrite Hs1 in Hf, Hpos, Hr. exists basis, pos.
    split; [exact Hf |]. split; [exact Hpos |]. split; congruence.
Qed.

End Labels.

(** X23.  The reveal phase labels what it reveals: under distinct names,
    the species at positions [0..k] get their curve [np.real(fid)] and a
    label with the script's text at the script's anchor, and a species
    past [k] keeps the curve and label it had, where [k] is the reveal
    index of the progress fraction. *)
Theorem reveal_labels_what_it_shows
  (F C D : Type) (PF : PyFloat F) (DT : Dtype F C) (script : Script F C D)
  (p : F) (w w' : World) :
  is_dict (molecules (signals w)) ->
  block script REVEAL_COMPONENTS p w = Some w' ->
  exists k,
    reveal_index p (Z.of_nat (length (molecules (signals w)))) = Some k /\
    forall i name data,
      In (i, (name, data)) (enumerate (molecules (signals w))) ->
      ((i <= k)%Z ->
       exists fid pos,
         dict_get (real_fids (signals w)) name = Some fid /\
         anchor script (axis (signals w)) i (np_real fid) = Some pos /\
         dict_get (black_lines (artists w')) name
         = Some {| xdata := axis (signals w); ydata := np_real fid |} /\
         dict_get (labels_real (artists w')) name
         = Some {| position := pos; text := real_text script name data |}) /\
      ((k < i)%Z ->
       dict_get (black_lines (artists w')) name = dict_get (black_lines (artists w)) name /\
       dict_get (labels_real (artists w')) name = dict_get (labels_real (artists w)) name).
Proof.
  intros Hd Hrun. cbn [block] in Hrun. unfold reveal_components in Hrun.
  destruct (reveal_index p (Z.of_nat (length (molecules (signals w))))) as [k |];
    [| discriminate].
  cbn [bind] in Hrun. exists k. split; [reflexivity |].
  intros i name data Hin.
  destruct (reveal_loop_labels script k w w' Hd Hrun i name data Hin) as [Hskip Hdraw].
  split; assumption.
Qed.

Lemma reveal_labels_what_it_shows_frame_0 :
  exists w w',
    TimeDomain.setup TimeDomain.T2 = Some w /\
    is_dict (molecules (signals w)) /\
    block TimeDomain.script REVEAL_COMPONENTS (progress 450 0) w = Some w' /\
    dict_get (labels_real (artists w')) "A"
    = Some {| position := (lit 25 100, 18%R);
              text := [Str "A"; Str "  C="; Int 5] |} /\
    dict_get (labels_real (artists w')) "B" = dict_get (labels_real (artists w)) "B".
Proof.
  destruct (time_domain_setup_total TimeDomain.T2) as [w Hw].
  destruct (time_domain_block_total TimeDomain.T2 w REVEAL_COMPONENTS (progress 450 0) Hw)
    as [w' Hrun].
  destruct (time_domain_world TimeDomain.T2 w Hw) as (Hm & _ & Hd & _).
  destruct (reveal_labels_what_it_shows R complex TimeDomain.Molecule _ _
              TimeDomain.script (progress 450 0) w w' Hd Hrun) as (k & Hk & Hall).
  assert (Hk0 : k = 0%Z).
  { rewrite R_reveal_index in Hk.
    - injection Hk as <-. rewrite Hm, time_domain_molecules. cbn [length].
      symmetry. apply Int_part_spec. unfold progress, lit. simpl. lra.
    - unfold progress. simpl. lra.
    - lia. }
  subst k.
  exists w, w'. split; [exact Hw |]. split; [exact Hd |]. split; [exact Hrun |]. split.
  - destruct (Hall 0%Z "A"%string
                {| TimeDomain.fid := TimeDomain.multiplet TimeDomain.T2 80 [1%R];
                   TimeDomain.conc := 5 |}) as [Hdraw _].
    + rewrite Hm, time_domain_molecules. left. reflexivity.
    + destruct (Hdraw ltac:(lia)) as (fid & pos & _ & Hpos & _ & Hl).
      cbn [anchor TimeDomain.script] in Hpos. injection Hpos as <-. exact Hl.
  - destruct (Hall 1%Z "B"%string
                {| TimeDomain.fid :=
                     zip_with c_add (TimeDomain.multiplet TimeDomain.T2 140 [1%R])
                              (TimeDomain.multiplet TimeDomain.T2 200 [1%R; 1%R]);
                   TimeDomain.conc := 10 |}) as [_ Hskip].
    + rewrite Hm, time_domain_molecules. right. left. reflexivity.
    + apply Hskip. lia.
Defined.

(** X24.  During the scaling phase the label of a basis shows the full
    concentration of its species, with one decimal and " AU", whatever
    the scale factor, while its red line shows the basis scaled by
    [conc*s]; the label sits at the anchor of the scaled curve. *)
Theorem scale_label_shows_full_concentration
  (F C D : Type) (PF : PyFloat F) (DT : Dtype F C) (script : Script F C D)
  (p : F) (w w' : World) :
  is_dict (molecules (signals w)) ->
  block script SCALE_BASIS p w = Some w' ->
  forall i name data,
    In (i, (name, data)) (enumerate (molecules (signals w))) ->
    exists basis pos,
      dict_get (basis_fids (signals w)) name = Some basis /\
      anchor script (axis (signals w)) i
             (scaled_basis basis (conc_of script data) (scale_factor p)) = Some pos /\
      dict_get (red_lines (artists w')) name
      = Some {| xdata := axis (signals w);
                ydata := scaled_basis basis (conc_of script data) (scale_factor p) |} /\
      dict_get (labels_basis (artists w')) name
      = Some {| position := pos; text := [Fixed1 (conc_of script data); Str " AU"] |}.
Proof.
  intros Hd Hrun i name data Hin. cbn [block] in Hrun. unfold scale_basis in Hrun.
  exact (scale_loop_labels script (scale_factor p) w w' Hd Hrun i name data Hin).
Qed.

Lemma scale_label_shows_full_concentration_D :
  exists w w',
    TimeDomain.setup TimeDomain.T2 = Some w /\
    is_dict (molecules (signals w)) /\
    block TimeDomain.script SCALE_BASIS (lit 7 10) w = Some w' /\
    dict_get (labels_basis (artists w')) "D"
    = Some {| position := (lit 25 100, 6%R); text := [Fixed1 12; Str " AU"] |}.
Proof.
  destruct (time_domain_setup_total TimeDomain.T2) as [w Hw].
  destruct (time_domain_block_total TimeDomain.T2 w SCALE_BASIS (lit 7 10) Hw) as [w' Hrun].
  destruct (time_domain_world TimeDomain.T2 w Hw) as (Hm & _ & Hd & _).
  destruct (scale_label_shows_full_concentration R complex TimeDomain.Molecule _ _
              TimeDomain.script (lit 7 10) w w' Hd Hrun 3%Z "D"%string
              {| TimeDomain.fid :=
                   TimeDomain.multiplet TimeDomain.T2 320 [1%R; 3%R; 3%R; 1%R];
                 TimeDomain.conc := 12 |})
    as (basis & pos & _ & Hpos & _ & Hl).
  - rewrite Hm, time_domain_molecules. right. right. right. left. reflexivity.
  - exists w, w'. split; [exact Hw |]. split; [exact Hd |]. split; [exact Hrun |].
    cbn [anchor TimeDomain.script] in Hpos. injection Hpos as <-. exact Hl.
Defined.

(** ** The composite signal at its first sample *)

Lemma Forall2_map_both {A B E : Type} (P : A -> B -> Prop) (f : E -> A) (g : E -> B)
      (xs : list E) :
  Forall (fun e => P (f e) (g e)) xs -> Forall2 P (map f xs) (map g xs).
Proof.
  induction 1 as [| e rest He _ IH]; simpl; constructor; assumption.
Qed.

(** X25.  In the time-domain script with a positive [T2], the composite
    [real_sum = sum(real_fids.values())] starts at the sum of the
    concentrations of the species, the real number 30 = 5 + 10 + 3 + 12,
    and so does the fitted sum that the last phase draws. *)
Theorem composite_starts_at_total_concentration (T2_value : R) (w : World) :
  (0 < T2_value)%R ->
  TimeDomain.setup T2_value = Some w ->
  nth_error (real_sum (signals w)) 0
  = Some (total_amplitude
            (map (fun e => IZR (TimeDomain.conc (snd e))) (molecules (signals w))), 0%R) /\
  total_amplitude (map (fun e => IZR (TimeDomain.conc (snd e))) (molecules (signals w)))
  = 30%R /\
  fitted TimeDomain.script (signals w) = Some (real_sum (signals w)).
Proof.
  intros HT2 Hsetup.
  destruct (time_domain_world T2_value w Hsetup) as (Hm & _ & Hd & Hbuild).
  assert (Hd0 : is_dict (TimeDomain.molecules T2_value)) by apply dict_of_list_is_dict.
  destruct (build_aligned TimeDomain.script TimeDomain.t _ (signals w) Hd0 Hbuild)
    as (tr & Hmol & Hitems & _ & Hall & Hreal & _ & Hsum).
  split; [| split].
  - rewrite Hreal in Hsum. unfold values in Hsum. rewrite map_map in Hsum.
    cbn [snd] in Hsum.
    assert (Hfirsts :
              Forall2 (fun a f => length a = Z.to_nat TimeDomain.N /\
                                  @nth_error complex a 0 = Some f)
                      (map (fun e : string * TimeDomain.Molecule * list complex =>
                              times_int (snd e) (conc_of TimeDomain.script (snd (fst e))))
                           tr)
                      (map (fun e : string * TimeDomain.Molecule * list complex =>
                              (IZR (TimeDomain.conc (snd (fst e))), 0%R)) tr)).
    { apply Forall2_map_both. rewrite Forall_forall in Hall |- *.
      intros [[name data] b] Hin. cbn [fst snd].
      pose proof (Hall _ Hin) as Hb. cbn [fst snd] in Hb.
      assert (Hinm : In (name, data) (TimeDomain.molecules T2_value)).
      { rewrite Hitems. apply (in_map fst) in Hin. exact Hin. }
      split.
      - rewrite length_times_int.
        exact (time_domain_basis_length T2_value (name, data) b Hinm Hb).
      - destruct (time_domain_fids T2_value name data Hinm) as (terms & Hfid & Hnn & Hpos).
        destruct (normalised_first_sample TimeDomain.BW TimeDomain.N T2_value terms
                    (TimeDomain.conc data) ltac:(reflexivity)
                    ltac:(unfold TimeDomain.N; lia) HT2 Hnn Hpos)
          as (basis' & Hnorm & _ & Hc).
        cbn [basis_of TimeDomain.script] in Hb. rewrite Hfid in Hb.
        unfold TimeDomain.t in Hb. rewrite Hnorm in Hb. injection Hb as <-.
        exact Hc. }
    destruct (sum_from_first (Z.to_nat TimeDomain.N) _ _
                ltac:(unfold TimeDomain.N; lia) Hfirsts
                [c_of_float (of_int 0)] (0%R, 0%R)) as (total & Htotal & Hfirst).
    + right. reflexivity.
    + reflexivity.
    + unfold py_sum in Hsum. rewrite Htotal in Hsum. injection Hsum as <-.
      rewrite Hfirst.
      rewrite <- (map_map (fun e : string * TimeDomain.Molecule * list complex =>
                             IZR (TimeDomain.conc (snd (fst e))))
                          (fun a => (a, 0%R))).
      rewrite fold_left_real_parts. rewrite Hmol, map_map. cbn [fst snd].
      f_equal. f_equal. ring.
  - rewrite Hm, time_domain_molecules. simpl. lra.
  - exact (fitted_is_real_sum TimeDomain.script TimeDomain.t _ (signals w) Hd0 Hbuild).
Qed.

Lemma composite_starts_at_total_concentration_script :
  exists w,
    (0 < TimeDomain.T2)%R /\
    TimeDomain.setup TimeDomain.T2 = Some w /\
    nth_error (real_sum (signals w)) 0 = Some (30%R, 0%R).
Proof.
  destruct (time_domain_setup_total TimeDomain.T2) as [w Hw].
  assert (HT2 : (0 < TimeDomain.T2)%R) by (unfold TimeDomain.T2; rewrite R_lit; lra).
  destruct (composite_starts_at_total_concentration TimeDomain.T2 w HT2 Hw)
    as (Hfirst & Htotal & _).
  exists w. split; [exact HT2 |]. split; [exact Hw |].
  rewrite Hfirst, Htotal. reflexivity.
Defined.

(** ** The three molecule types, and any other kind *)

Lemma molecule_type_terms (kind : Z) (fid : list complex) (title : string) :
  FidToSpectrum.molecule_type kind = Some (fid, title) ->
  exists terms,
    fid = map (damped FidToSpectrum.T2 (superposition terms)) FidToSpectrum.t /\
    Forall (fun a => (0 <= a)%R) (map snd terms) /\
    total_amplitude (map snd terms)
    = IZR (if (kind =? 1)%Z then 3 else if (kind =? 2)%Z then 7 else 8).
Proof.
  unfold FidToSpectrum.molecule_type.
  unfold FidToSpectrum.multiplet, FidToSpectrum.times_decay, FidToSpectrum.t.
  rewrite !explicit_multiplet_samples, !sum_of_multiplets, !damp_samples.
  destruct (kind =? 1)%Z;
    [intros Heq; apply some_pair_fst in Heq; rewrite <- Heq; eexists;
     split; [apply eq_refl |]; split; [simpl; repeat (apply Forall_cons; [lra |]); apply Forall_nil | simpl; lra] |].
  destruct (kind =? 2)%Z;
    [intros Heq; apply some_pair_fst in Heq; rewrite <- Heq; eexists;
     split; [apply eq_refl |]; split; [simpl; repeat (apply Forall_cons; [lra |]); apply Forall_nil | simpl; lra] |].
  destruct (kind =? 3)%Z;
    [intros Heq; apply some_pair_fst in Heq; rewrite <- Heq; eexists;
     split; [apply eq_refl |]; split; [simpl; repeat (apply Forall_cons; [lra |]); apply Forall_nil | simpl; lra] |].
  discriminate.
Qed.

Lemma some_is_not_none {A : Type} (a : A) : Some a <> None.
Proof. discriminate. Qed.

Lemma molecule_type_in_range (kind : Z) :
  (1 <= kind <= 3)%Z -> FidToSpectrum.molecule_type kind <> None.
Proof.
  intros Hkind. unfold FidToSpectrum.molecule_type. cbv zeta.
  assert (Hcases : kind = 1%Z \/ kind = 2%Z \/ kind = 3%Z) by lia.
  destruct Hcases as [-> | [-> | ->]]; cbv [Z.eqb Pos.eqb]; apply some_is_not_none.
Qed.

Lemma molecule_type_kinds (kind : Z) :
  (1 <= kind <= 3)%Z \/
  (~ (1 <= kind <= 3)%Z /\ FidToSpectrum.molecule_type kind = None).
Proof.
  destruct (Z.eqb_spec kind 1) as [-> | H1]; [left; lia |].
  destruct (Z.eqb_spec kind 2) as [-> | H2]; [left; lia |].
  destruct (Z.eqb_spec kind 3) as [-> | H3]; [left; lia |].
  right. split; [lia |]. unfold FidToSpectrum.molecule_type. cbv zeta.
  apply Z.eqb_neq in H1, H2, H3. rewrite H1, H2, H3. apply eq_refl.
Qed.

(** X26.  [create_animation(kind)] gets a signal only for the kinds 1, 2
    and 3: for any other kind [molecule_type] returns nothing and the
    unpacking raises.  For the three kinds the FID starts at the sum of the
    amplitudes of its peaks, the real number 3, 7 or 8, and no sample is
    larger in modulus. *)
Theorem create_animation_by_kind (kind : Z) :
  match FidToSpectrum.create_animation kind with
  | None => ~ (1 <= kind <= 3)%Z
  | Some acq =>
      (1 <= kind <= 3)%Z /\
      nth_error (acq_fid acq) 0
      = Some (IZR (if (kind =? 1)%Z then 3 else if (kind =? 2)%Z then 7 else 8), 0%R) /\
      np_max (map Cabs (acq_fid acq))
      = Some (IZR (if (kind =? 1)%Z then 3 else if (kind =? 2)%Z then 7 else 8))
  end.
Proof.
  unfold FidToSpectrum.create_animation.
  destruct (FidToSpectrum.molecule_type kind) as [[fid title] |] eqn:Hmade;
    cbv [option_map acq_fid fst].
  - destruct (molecule_type_terms kind fid title Hmade) as (terms & -> & Hall & Htotal).
    destruct (damped_superposition_peak FidToSpectrum.BW FidToSpectrum.N FidToSpectrum.T2
                terms ltac:(reflexivity) ltac:(unfold FidToSpectrum.N; lia)
                ltac:(unfold FidToSpectrum.T2; rewrite R_lit; lra) Hall)
      as [Hfirst Hmax].
    split; [| split].
    + destruct (molecule_type_kinds kind) as [Hin | [_ Hout]]; [exact Hin |].
      rewrite Hout in Hmade. discriminate Hmade.
    + unfold FidToSpectrum.t. rewrite Hfirst, Htotal. reflexivity.
    + unfold FidToSpectrum.t. rewrite Hmax, Htotal. reflexivity.
  - destruct (molecule_type_kinds kind) as [Hin | [Hout _]]; [| exact Hout].
    intros _. apply (molecule_type_in_range kind Hin). exact Hmade.
Qed.

(** ** The curves of the concentration animation *)

Lemma some_inj {A : Type} (a b : A) : Some a = Some b -> a = b.
Proof. intros Heq. injection Heq as Heq. exact Heq. Qed.

Lemma set_part_lines_prefixes {F C : Type} `{PyFloat F} `{Dtype F C}
      (x : list F) (idx : Z) (ps : list (list C)) (lines : list (Line F)) :
  length lines = length ps ->
  Forall2 (fun p line => line = {| xdata := x; ydata := np_real (slice_to p idx) |})
          ps (set_part_lines x idx ps lines).
Proof.
  revert lines. induction ps as [| p ps IH]; intros [| line lines] Hlen;
    try discriminate; simpl.
  - constructor.
  - constructor; [reflexivity |]. apply IH. simpl in Hlen. lia.
Qed.

(** X27.  On every frame of the concentration animation, for a case with
    at least one part, the total curve and the curve of every part show
    the same number [frame*N/frames] of points, fewer than [N]: the
    leading samples of the time axis against the real parts of the leading
    samples of the signal.  The signals and the number of curves stay as
    they were, so this holds again on the next frame. *)
Theorem concentration_curves_grow_together (kind frame : Z) (w0 w : Panel) :
  (1 <= kind)%Z ->
  Concentration.animate_case kind = Some w0 ->
  parts w = parts w0 -> labels w = labels w0 -> total_fid w = total_fid w0 ->
  length (part_lines w) = length (parts w) ->
  (0 <= frame < Concentration.frames)%Z ->
  exists w',
    Concentration.update frame w = Some w' /\
    (0 <= frame * Concentration.N / Concentration.frames < Concentration.N)%Z /\
    line_total w'
    = {| xdata := slice_to Concentration.t (frame * Concentration.N / Concentration.frames);
         ydata := np_real (slice_to (total_fid w)
                                    (frame * Concentration.N / Concentration.frames)) |} /\
    Forall2 (fun p line =>
               line
               = {| xdata := slice_to Concentration.t
                                      (frame * Concentration.N / Concentration.frames);
                    ydata := np_real (slice_to p (frame * Concentration.N
                                                  / Concentration.frames)) |})
            (parts w) (part_lines w') /\
    Forall (fun line =>
              Z.of_nat (length (xdata line))
              = (frame * Concentration.N / Concentration.frames)%Z /\
              Z.of_nat (length (ydata line))
              = (frame * Concentration.N / Concentration.frames)%Z)
           (line_total w' :: part_lines w') /\
    parts w' = parts w /\ labels w' = labels w /\ total_fid w' = total_fid w /\
    length (part_lines w') = length (parts w').
Proof.
  intros Hkind Hcase Hparts Hlabels Htotal Hlines Hf.
  destruct (build_case_amplitudes kind Hkind) as (amps & Hall & Hlab & Hamps).
  unfold Concentration.animate_case in Hcase.
  destruct (py_sum (fst (Concentration.build_case kind))) as [total |] eqn:Hsum;
    [| discriminate Hcase].
  cbv [option_map] in Hcase.
  assert (Hp0 : parts w0 = fst (Concentration.build_case kind))
    by (rewrite <- (some_inj _ _ Hcase); reflexivity).
  assert (Hl0 : labels w0 = snd (Concentration.build_case kind))
    by (rewrite <- (some_inj _ _ Hcase); reflexivity).
  assert (Ht0 : total_fid w0 = total)
    by (rewrite <- (some_inj _ _ Hcase); reflexivity).
  clear Hcase.
  rewrite Hp0 in Hparts. rewrite Hl0 in Hlabels. rewrite Ht0 in Htotal.
  assert (Hpos : (0 < total_amplitude amps)%R).
  { rewrite Hamps. destruct (kind =? 1)%Z; [| destruct (kind =? 2)%Z]; simpl; lra. }
  destruct (buildup_shares frame w amps (Z.to_nat Concentration.N)) as (w' & rest & Hrun & _).
  - exact Hf.
  - unfold Concentration.N. lia.
  - rewrite Hparts. exact Hall.
  - rewrite Hparts, Hlabels. exact Hlab.
  - rewrite Hparts, Htotal. exact Hsum.
  - exact Hpos.
  - exists w'. split; [exact Hrun |].
    destruct (R_truncation_index Concentration.frames Concentration.N frame
                ltac:(reflexivity) ltac:(reflexivity) Hf) as [Hidx Hrange].
    split; [exact Hrange |].
    unfold Concentration.update, update_buildup in Hrun. rewrite Hidx in Hrun.
    cbn [bind] in Hrun.
    destruct (item (total_fid w) 0) as [s0 |]; [| discriminate Hrun]. cbn [bind] in Hrun.
    destruct (shares Cabs (Cabs s0) (parts w) (labels w)) as [txt |];
      [| discriminate Hrun].
    cbn [bind] in Hrun. apply some_inj in Hrun. subst w'.
    cbn [line_total part_lines parts labels total_fid].
    set (idx := (frame * Concentration.N / Concentration.frames)%Z) in *.
    assert (Hlt : length Concentration.t = Z.to_nat Concentration.N)
      by (unfold Concentration.t; apply length_t).
    assert (Hltot : length (total_fid w) = Z.to_nat Concentration.N).
    { destruct (py_sum_shape (fst (Concentration.build_case kind))
                             (Z.to_nat Concentration.N)) as (total' & Hsum' & Hlen').
      - intros Hnil. rewrite Hnil in Hall. inversion Hall as [Hnil' |]. subst amps.
        simpl in Hpos. lra.
      - clear - Hall. induction Hall as [| p a ps amps (Hl & _) _ IH];
          constructor; assumption.
      - rewrite Htotal. congruence. }
    pose proof (set_part_lines_prefixes (slice_to Concentration.t idx) idx (parts w)
                                        (part_lines w) Hlines)
      as Hpre.
    split; [reflexivity |]. split; [exact Hpre |]. split.
    + constructor.
      * unfold set_data. cbn [xdata ydata]. unfold np_real.
        rewrite length_map, !length_slice_to by lia. lia.
      * rewrite Hparts in Hpre |- *. clear - Hpre Hall Hrange Hlt.
        revert Hpre. generalize (set_part_lines (slice_to Concentration.t idx) idx
                                   (fst (Concentration.build_case kind)) (part_lines w)).
        induction Hall as [| p a ps amps (Hl & _) _ IH]; intros lines Hpre;
          inversion Hpre as [| ? line ? lines' Hline Hrest]; subst; constructor.
        -- cbn [xdata ydata]. unfold np_real.
           rewrite length_map, !length_slice_to by lia. lia.
        -- apply IH. exact Hrest.
    + split; [reflexivity |]. split; [reflexivity |]. split; [reflexivity |].
      symmetry. apply (Forall2_length Hpre).
Qed.

Lemma animate_case_lines (kind : Z) (w : Panel) :
  Concentration.animate_case kind = Some w -> length (part_lines w) = length (parts w).
Proof.
  unfold Concentration.animate_case. intros Hw.
  destruct (py_sum (fst (Concentration.build_case kind))) as [total |];
    [| discriminate Hw].
  cbv [option_map] in Hw. rewrite <- (some_inj _ _ Hw).
  cbn [part_lines parts]. apply length_map.
Qed.

Lemma concentration_curves_grow_together_frame_125 :
  exists w w',
    (1 <= 2)%Z /\
    Concentration.animate_case 2 = Some w /\
    length (part_lines w) = length (parts w) /\
    (0 <= 125 < Concentration.frames)%Z /\
    Concentration.update 125 w = Some w' /\
    Forall (fun line => Z.of_nat (length (xdata line)) = 1024%Z /\
                        Z.of_nat (length (ydata line)) = 1024%Z)
           (line_total w' :: part_lines w').
Proof.
  destruct (animate_case_total 2 ltac:(lia)) as [w Hw].
  pose proof (animate_case_lines 2 w Hw) as Hlines.
  assert (Hf : (0 <= 125 < Concentration.frames)%Z) by (unfold Concentration.frames; lia).
  destruct (concentration_curves_grow_together 2 125 w w ltac:(lia) Hw
              eq_refl eq_refl eq_refl Hlines Hf)
    as (w' & Hrun & _ & _ & _ & Hlen & _).
  exists w, w'. split; [lia |]. split; [exact Hw |]. split; [exact Hlines |].
  split; [exact Hf |]. split; [exact Hrun |]. exact Hlen.
Defined.

(** ** Drawing a frame again *)

Lemma dict_modify_fixed {V : Type} (d : dict V) (k : string) (f : V -> V) (v : V) :
  dict_get d k = Some v -> f v = v -> dict_modify d k f = Some d.
Proof.
  intros Hget Hf. induction d as [| [k0 v0] rest IH]; simpl in *; [discriminate |].
  destruct (String.eqb k0 k).
  - injection Hget as ->. rewrite Hf. reflexivity.
  - rewrite (IH Hget). reflexivity.
Qed.

Lemma for_each_fixed {A St : Type} (xs : list A) (body : A -> St -> option St) (s : St) :
  (forall x, In x xs -> body x s = Some s) -> for_each xs body s = Some s.
Proof.
  induction xs as [| x rest IH]; intros Hbody; [reflexivity |].
  rewrite for_each_cons, (Hbody x (or_introl eq_refl)). cbn [bind].
  apply IH. intros y Hy. apply Hbody. right. exact Hy.
Qed.

Section Redraw.
Context {F C D : Type} `{PyFloat F} `{Dtype F C}.
Variable script : Script F C D.

Lemma black_line_do_fixed (name : string) (f : Line F -> Line F) (w : @World F C D)
      (v : Line F) :
  dict_get (black_lines (artists w)) name = Some v -> f v = v ->
  black_line_do name f w = Some w.
Proof.
  intros Hget Hf. unfold black_line_do. rewrite (dict_modify_fixed _ _ _ _ Hget Hf).
  destruct w as [sg [b r sb sr lr lb]]. reflexivity.
Qed.

Lemma red_line_do_fixed (name : string) (f : Line F -> Line F) (w : @World F C D)
      (v : Line F) :
  dict_get (red_lines (artists w)) name = Some v -> f v = v ->
  red_line_do name f w = Some w.
Proof.
  intros Hget Hf. unfold red_line_do. rewrite (dict_modify_fixed _ _ _ _ Hget Hf).
  destruct w as [sg [b r sb sr lr lb]]. reflexivity.
Qed.

Lemma label_real_do_fixed (name : string) (f : Label F -> Label F) (w : @World F C D)
      (v : Label F) :
  dict_get (labels_real (artists w)) name = Some v -> f v = v ->
  label_real_do name f w = Some w.
Proof.
  intros Hget Hf. unfold label_real_do. rewrite (dict_modify_fixed _ _ _ _ Hget Hf).
  destruct w as [sg [b r sb sr lr lb]]. reflexivity.
Qed.

Lemma label_basis_do_fixed (name : string) (f : Label F -> Label F) (w : @World F C D)
      (v : Label F) :
  dict_get (labels_basis (artists w)) name = Some v -> f v = v ->
  label_basis_do name f w = Some w.
Proof.
  intros Hget Hf. unfold label_basis_do. rewrite (dict_modify_fixed _ _ _ _ Hget Hf).
  destruct w as [sg [b r sb sr lr lb]]. reflexivity.
Qed.

Lemma sum_black_do_fixed (f : Line F -> Line F) (w : @World F C D) :
  f (sum_black (artists w)) = sum_black (artists w) -> sum_black_do f w = w.
Proof.
  intros Hf. unfold sum_black_do. rewrite Hf.
  destruct w as [sg [b r sb sr lr lb]]. reflexivity.
Qed.

Lemma sum_red_do_fixed (f : Line F -> Line F) (w : @World F C D) :
  f (sum_red (artists w)) = sum_red (artists w) -> sum_red_do f w = w.
Proof.
  intros Hf. unfold sum_red_do. rewrite Hf.
  destruct w as [sg [b r sb sr lr lb]]. reflexivity.
Qed.

Lemma basis_loop_labels (w w' : @World F C D) :
  is_dict (molecules (signals w)) ->
  for_each (enumerate (molecules (signals w))) (basis_one script) w = Some w' ->
  forall i name data,
    In (i, (name, data)) (enumerate (molecules (signals w))) ->
    exists basis pos,
      dict_get (basis_fids (signals w)) name = Some basis /\
      anchor script (axis (signals w)) i (np_real basis) = Some pos /\
      dict_get (red_lines (artists w')) name
      = Some {| xdata := axis (signals w); ydata := np_real basis |} /\
      dict_get (labels_basis (artists w')) name
      = Some {| position := pos; text := [Str "1 AU"] |}.
Proof.
  intros Hd Hrun i name data Hin.
  destruct (for_each_own_write
              (fun e : Z * (string * D) => fst (snd e))
              (fun (s : World) n =>
                 (dict_get (red_lines (artists s)) n,
                  dict_get (labels_basis (artists s)) n))
              (fun s s' : World => signals s' = signals s)
              (basis_one script)) with (xs := enumerate (molecules (signals w)))
                                       (s := w) (s' := w') (x := (i, (name, data)))
    as (s1 & s2 & Hs1 & _ & Hstep & Hget).
  - reflexivity.
  - intros s1 s2 s3 H12 H23. congruence.
  - intros [i0 [n0 d0]] u u' Hstep.
    destruct (basis_one_effect script i0 n0 d0 u u' Hstep) as (Hs & Hother & _).
    split; [exact Hs |]. intros n Hn. simpl in Hn.
    destruct (Hother n Hn) as [-> ->]. reflexivity.
  - unfold enumerate. rewrite enumerate_from_keys. exact Hd.
  - exact Hrun.
  - exact Hin.
  - cbn [fst snd] in Hget. injection Hget as Hred Hlab.
    destruct (basis_one_effect script i name data s1 s2 Hstep)
      as (_ & _ & basis & pos & Hf & Hpos & Hr & Hl).
    rewrite Hs1 in Hf, Hpos, Hr. exists basis, pos.
    split; [exact Hf |]. split; [exact Hpos |]. split; congruence.
Qed.

(** A block run on the world it has just produced writes what is already
    there. *)
Lemma block_redraw (ph : Phase) (p : F) (w w' : @World F C D) :
  is_dict (molecules (signals w)) ->
  block script ph p w = Some w' ->
  block script ph p w' = Some w'.
Proof.
  intros Hd Hrun. pose proof (block_signals script ph p w w' Hrun) as Hs.
  destruct ph; cbn [block] in *.
  - (* the reveal loop *)
    unfold reveal_components in *. rewrite Hs.
    destruct (reveal_index p (Z.of_nat (length (molecules (signals w))))) as [k |];
      [| discriminate Hrun].
    cbn [bind] in *. apply for_each_fixed. intros [i [name data]] Hin.
    destruct (reveal_loop_labels script k w w' Hd Hrun i name data Hin) as [_ Hdraw].
    unfold reveal_one. destruct (Z.leb_spec i k) as [Hle | Hgt]; [| reflexivity].
    destruct (Hdraw Hle) as (fid & pos & Hf & Hpos & Hb & Hl).
    rewrite Hs, Hf. cbn [bind].
    rewrite (black_line_do_fixed name _ w' _ Hb eq_refl). cbn [bind].
    rewrite Hs, Hpos. cbn [bind].
    rewrite (label_real_do_fixed name _ w' _ Hl eq_refl). cbn [bind].
    apply (label_real_do_fixed name _ w' _ Hl eq_refl).
  - (* the composite, and the loop that hides the components *)
    unfold show_sum in *.
    set (w1 := sum_black_do (set_data (axis (signals w))
                                      (np_real (real_sum (signals w)))) w) in *.
    assert (Hsum : sum_black (artists w')
                   = {| xdata := axis (signals w);
                        ydata := np_real (real_sum (signals w)) |}).
    { apply (for_each_keeps wrote_components_only hide_one
               wrote_components_only_refl wrote_components_only_trans) in Hrun;
        [| intros x s s' _; apply hide_one_frame].
      destruct Hrun as (_ & _ & Hk & _). rewrite Hk. reflexivity. }
    rewrite sum_black_do_fixed by (rewrite Hsum, Hs; reflexivity).
    rewrite Hs. apply for_each_fixed. intros name Hin.
    destruct (hide_loop_effect _ w1 w' Hrun name Hin) as (Hb & l & _ & Hl).
    unfold hide_one.
    rewrite (black_line_do_fixed name _ w' _ Hb eq_refl). cbn [bind].
    apply (label_real_do_fixed name _ w' _ Hl eq_refl).
  - (* the bases at unit scale *)
    unfold show_basis in *. rewrite Hs. apply for_each_fixed.
    intros [i [name data]] Hin.
    destruct (basis_loop_labels w w' Hd Hrun i name data Hin)
      as (basis & pos & Hf & Hpos & Hr & Hl).
    unfold basis_one. rewrite Hs, Hf. cbn [bind].
    rewrite (red_line_do_fixed name _ w' _ Hr eq_refl). cbn [bind].
    rewrite Hs, Hpos. cbn [bind].
    rewrite (label_basis_do_fixed name _ w' _ Hl eq_refl). cbn [bind].
    apply (label_basis_do_fixed name _ w' _ Hl eq_refl).
  - (* the scaled bases *)
    unfold scale_basis in *. rewrite Hs. apply for_each_fixed.
    intros [i [name data]] Hin.
    destruct (scale_loop_labels script (scale_factor p) w w' Hd Hrun i name data Hin)
      as (basis & pos & Hf & Hpos & Hr & Hl).
    unfold scale_one. rewrite Hs, Hf. cbn [bind].
    rewrite (red_line_do_fixed name _ w' _ Hr eq_refl). cbn [bind].
    rewrite Hs, Hpos. cbn [bind].
    rewrite (label_basis_do_fixed name _ w' _ Hl eq_refl). cbn [bind].
    apply (label_basis_do_fixed name _ w' _ Hl eq_refl).
  - (* the fitted sum *)
    unfold show_fit in *. rewrite Hs.
    destruct (fitted script (signals w)) as [y |]; [| discriminate Hrun].
    cbn [bind] in *. f_equal. apply sum_red_do_fixed.
    injection Hrun as <-. reflexivity.
Qed.

End Redraw.

(** X28.  Drawing a frame twice gives what drawing it once gives: when the
    progress fraction of the frame satisfies one guard and the names of
    the species are distinct, [update] run again on the world it has just
    produced leaves every artist as it is. *)
Theorem redrawing_a_frame_changes_nothing
  (F C D : Type) (PF : PyFloat F) (DT : Dtype F C) (script : Script F C D)
  (frames frame : Z) (ph : Phase) (w w' : World) :
  is_dict (molecules (signals w)) ->
  active_phases (progress frames frame) = [ph] ->
  update script frames frame w = Some w' ->
  update script frames frame w' = Some w'.
Proof.
  intros Hd Hact Hrun.
  rewrite (update_runs_active script frames frame w' ph Hact).
  rewrite (update_runs_active script frames frame w ph Hact) in Hrun.
  exact (block_redraw script ph (progress frames frame) w w' Hd Hrun).
Qed.

Lemma redrawing_a_frame_changes_nothing_frame_300 :
  exists w w',
    TimeDomain.setup TimeDomain.T2 = Some w /\
    is_dict (molecules (signals w)) /\
    active_phases (progress TimeDomain.frames 300 : R) = [SCALE_BASIS] /\
    TimeDomain.update 300 w = Some w' /\
    TimeDomain.update 300 w' = Some w'.
Proof.
  destruct (time_domain_setup_total TimeDomain.T2) as [w Hw].
  destruct (time_domain_world TimeDomain.T2 w Hw) as (_ & _ & Hd & _).
  assert (Hact : active_phases (progress TimeDomain.frames 300 : R) = [SCALE_BASIS]).
  { rewrite R_one_guard_holds. f_equal.
    unfold phase_at, progress, TimeDomain.frames, TimeDomain.fps, TimeDomain.seconds.
    simpl.
    repeat match goal with
           | |- context [Rlt_dec ?a ?b] => destruct (Rlt_dec a b); try lra
           end.
    reflexivity. }
  destruct (time_domain_block_total TimeDomain.T2 w SCALE_BASIS
              (progress TimeDomain.frames 300) Hw) as [w' Hrun].
  assert (Hup : TimeDomain.update 300 w = Some w').
  { unfold TimeDomain.update.
    rewrite (update_runs_active TimeDomain.script TimeDomain.frames 300 w SCALE_BASIS Hact).
    exact Hrun. }
  exists w, w'. split; [exact Hw |]. split; [exact Hd |]. split; [exact Hact |].
  split; [exact Hup |].
  exact (redrawing_a_frame_changes_nothing R complex TimeDomain.Molecule _ _
           TimeDomain.script TimeDomain.frames 300 SCALE_BASIS w w' Hd Hact Hup).
Defined.
